(** * Nunavut Python support library: the DSDL bit-stream codec

    A shallow embedding of [nunavut_support.py] (the [Serializer], the
    [Deserializer], the [ZeroExtendingBuffer] and the top-level
    [deserialize] facade) together with the properties of the codec.

    Conventions of the embedding:
    - Python integers are [Z]; [//] and [%] are [Z.div] and [Z.modulo]
      (floor division, the sign of the divisor), [&], [|], [<<], [>>] are
      [Z.land], [Z.lor], [Z.shiftl], [Z.shiftr];
    - a [numpy.uint8] element is a [byte]; it is read with
      [byte.unsigned] and a Python integer is stored into a [uint8] array
      with [byte.of_Z], i.e. modulo 256, the C cast that the class
      documentation of [Serializer] relies on ("implicitly truncate");
    - a method is a computation in a state monad whose state survives a
      raised exception, as the attributes of a Python object do;
    - [assert] raises [AssertionError]. *)

From Stdlib Require Import ZArith List Lia Bool String.
From Stdlib Require Import SpecFloat.
From stdpp Require Import base list.
From coqutil Require Import Byte Z.bitblast Word.LittleEndianList.
Import ListNotations.
Local Open Scope Z_scope.

(** ** Exceptions and computations *)

Inductive exception : Type :=
| ValueError
| FormatError           (* Deserializer.FormatError, a subclass of ValueError *)
| IndexError
| AssertionError
| OverflowError
| TypeError
| AttributeError
| StructError           (* struct.error *)
| OtherError (name : string).

(** [isinstance e c]: the class of [e] is [c] or a subclass of [c], for the
    classes above ([class FormatError(ValueError)]). *)
Definition exception_eqb (a b : exception) : bool :=
  match a, b with
  | ValueError, ValueError | FormatError, FormatError
  | IndexError, IndexError | AssertionError, AssertionError
  | OverflowError, OverflowError | TypeError, TypeError
  | AttributeError, AttributeError | StructError, StructError => true
  | OtherError x, OtherError y => String.eqb x y
  | _, _ => false
  end.

Definition isinstance (e c : exception) : bool :=
  exception_eqb e c ||
  match e, c with
  | FormatError, ValueError => true
  | _, _ => false
  end.

Inductive result (A : Type) : Type :=
| Ok (a : A)
| Raise (e : exception).
Arguments Ok {A} a.
Arguments Raise {A} e.

(** A method of an object with state [S]: it returns or raises, and in both
    cases leaves a state behind. *)
Definition M (S A : Type) : Type := S -> result A * S.

Definition ret {S A : Type} (a : A) : M S A := fun s => (Ok a, s).

Definition raise {S A : Type} (e : exception) : M S A := fun s => (Raise e, s).

Definition bind {S A B : Type} (m : M S A) (k : A -> M S B) : M S B :=
  fun s => match m s with
           | (Ok a, s') => k a s'
           | (Raise e, s') => (Raise e, s')
           end.

Definition get {S : Type} : M S S := fun s => (Ok s, s).
Definition put {S : Type} (s : S) : M S unit := fun _ => (Ok tt, s).
Definition modify {S : Type} (f : S -> S) : M S unit := fun s => (Ok tt, f s).

(** A pure computation that may raise, run inside a method. *)
Definition lift {S A : Type} (r : result A) : M S A := fun s => (r, s).

Definition assert_ {S : Type} (b : bool) : M S unit :=
  if b then ret tt else raise AssertionError.

Declare Scope monad_scope.
Delimit Scope monad_scope with monad.
Notation "x <- m ;; k" := (bind m (fun x => k))
  (at level 100, m at next level, right associativity) : monad_scope.
Notation "m ;; k" := (bind m (fun _ => k))
  (at level 100, right associativity) : monad_scope.
Local Open Scope monad_scope.

Definition rbind {A B : Type} (r : result A) (k : A -> result B) : result B :=
  match r with
  | Ok a => k a
  | Raise e => Raise e
  end.

(** ** Python and numpy primitives *)

Definition zlen {A : Type} (l : list A) : Z := Z.of_nat (length l).

(** The bounds of a slice [a[start:stop]] of a sequence of length [n]
    (Python's [slice.indices] for step 1): a negative bound counts from the
    end, and both are clamped to [0, n]. *)
Definition slice_bound (n i : Z) : Z :=
  if i <? 0 then Z.max 0 (n + i) else Z.min i n.

(** [sys.maxsize], the greatest value of a C [ssize_t]: the bound of the
    length of an array and of an integer that indexes one. *)
Definition ssize_max : Z := 2 ^ 63 - 1.

Definition fits_ssize (i : Z) : bool :=
  (- ssize_max - 1 <=? i) && (i <=? ssize_max).

(** The position of an integer index in an array of length [n]: negative
    indices count from the end; out of range is [IndexError].  numpy
    converts the index to a [ssize_t] first, and an integer that does not
    fit is refused with [OverflowError]; the length of an array fits, so
    such an index is never inside.  (For a list longer than [ssize_max],
    which is no array, out of range stays [IndexError].) *)
Definition index_pos (n i : Z) : result nat :=
  if (0 <=? i) && (i <? n) then Ok (Z.to_nat i)
  else if (- n <=? i) && (i <? 0) then Ok (Z.to_nat (n + i))
  else if fits_ssize i || negb (fits_ssize n) then Raise IndexError
  else Raise OverflowError.

(** [_ensure_cardinal] *)
Definition _ensure_cardinal {S : Type} (i : Z) : M S unit :=
  if i <? 0 then raise ValueError else ret tt.

(** [numpy.zeros(n, dtype=Byte)] *)
Definition zeros (n : Z) : list byte := replicate (Z.to_nat n) Byte.x00.

(** [numpy.unpackbits(bs, bitorder="little")]: eight booleans per byte,
    least significant bit first. *)
Definition byte_bits (b : byte) : list bool :=
  map (fun i => Z.testbit (byte.unsigned b) (Z.of_nat i)) (seq 0 8).

Definition unpackbits_little (bs : list byte) : list bool :=
  flat_map byte_bits bs.

(** [numpy.packbits(x, bitorder="little")]: one byte per eight booleans,
    the first the least significant bit; the last byte is padded with
    zero bits. *)
Definition byte_of_bits (bits : list bool) : byte :=
  byte.of_Z (fold_right (fun b acc => Z.b2z b + 2 * acc) 0 bits).

Definition packbits_little (x : list bool) : list byte :=
  map (fun i => byte_of_bits (take 8 (drop (8 * i) x)))
      (seq 0 (Nat.div (length x + 7) 8)).

(** Indexing and slicing of a one-dimensional [uint8] array that is only
    read (the source buffer of a deserializer). *)
Definition getitem (a : list byte) (i : Z) : result byte :=
  rbind (index_pos (zlen a) i)
        (fun j => match a !! j with
                  | Some b => Ok b
                  | None => Raise IndexError
                  end).

Definition getslice {A : Type} (a : list A) (start stop : Z) : list A :=
  let lo := slice_bound (zlen a) start in
  let hi := slice_bound (zlen a) stop in
  take (Z.to_nat (hi - lo)) (drop (Z.to_nat lo) a).

(** ** ZeroExtendingBuffer *)

Module ZeroExtendingBuffer.

Record t : Type := { _buf : list byte }.

(** [__init__]: one fragment is used as it is, several are joined. *)
Definition new (fragmented_buffer : list (list byte)) : t :=
  match fragmented_buffer with
  | [contiguous] => {| _buf := contiguous |}
  | _ => {| _buf := concat fragmented_buffer |}
  end.

Definition bit_length (self : t) : Z := zlen (_buf self) * 8.

Definition get_byte (self : t) (index : Z) : result Z :=
  if index <? 0 then Raise ValueError
  else match getitem (_buf self) index with
       | Ok b => Ok (byte.unsigned b)
       | Raise IndexError => Ok 0      (* Implicit zero extension rule *)
       | Raise e => Raise e
       end.

Definition get_unsigned_slice (self : t) (left right : Z) : result (list byte) :=
  if negb ((0 <=? left) && (left <=? right)) then Raise ValueError
  else
    let count := right - left in
    if negb (count >=? 0) then Raise AssertionError
    else
      let out := getslice (_buf self) left right in
      let out := if zlen out <? count
                 then out ++ zeros (count - zlen out)
                 else out in
      if negb (zlen out =? count) then Raise AssertionError
      else Ok out.

(** The returned list of fragments has the single fragment [out]. *)
Definition fork_bytes (self : t) (offset_bytes length_bytes : Z)
  : result (list (list byte)) :=
  if offset_bytes + length_bytes >? zlen (_buf self) then Raise ValueError
  else
    let out := getslice (_buf self) offset_bytes (offset_bytes + length_bytes) in
    if negb (zlen out =? length_bytes) then Raise AssertionError
    else Ok [out].

End ZeroExtendingBuffer.

(** ** The [struct] module, formats ["<e"], ["<f"] and ["<d"]

    The library function the codec calls for floats.  A Python [float] is an
    IEEE 754 binary64 value, written as a [spec_float]; packing rounds it to
    the format (to nearest, ties to even, the conversion of the Standard
    Library's [SpecFloat]) and lays its bits out little-endian, and raises
    [OverflowError] when a finite value rounds out of the format's range;
    unpacking is the exact conversion back. *)

Module struct.

Inductive format : Type := fmt_e | fmt_f | fmt_d.

Definition prec (f : format) : Z :=
  match f with fmt_e => 11 | fmt_f => 24 | fmt_d => 53 end.

Definition emax (f : format) : Z :=
  match f with fmt_e => 16 | fmt_f => 128 | fmt_d => 1024 end.

Definition calcsize (f : format) : Z :=
  match f with fmt_e => 2 | fmt_f => 4 | fmt_d => 8 end.

Definition is_finite (x : spec_float) : bool :=
  match x with
  | S754_zero _ | S754_finite _ _ _ => true
  | _ => false
  end.

(** binary64 to the format, rounding. *)
Definition narrow (f : format) (x : spec_float) : spec_float :=
  match f, x with
  | fmt_d, _ => x
  | _, S754_finite s m e => binary_round (prec f) (emax f) s m e
  | _, _ => x
  end.

(** the format to binary64, exact. *)
Definition widen (f : format) (x : spec_float) : spec_float :=
  match f, x with
  | fmt_d, _ => x
  | _, S754_finite s m e => binary_round 53 1024 s m e
  | _, _ => x
  end.

(** The interchange encoding: sign, biased exponent, trailing significand. *)
Definition bits_of (f : format) (x : spec_float) : Z :=
  let p := prec f in
  let w := 8 * calcsize f in
  let sign (s : bool) := if s then 2 ^ (w - 1) else 0 in
  let all_ones := 2 ^ (w - p) - 1 in
  match x with
  | S754_zero s => sign s
  | S754_infinity s => sign s + all_ones * 2 ^ (p - 1)
  | S754_nan => all_ones * 2 ^ (p - 1) + 2 ^ (p - 2)
  | S754_finite s m e =>
      if Zpos m <? 2 ^ (p - 1)
      then sign s + Zpos m
      else sign s + (e - emin p (emax f) + 1) * 2 ^ (p - 1) + (Zpos m - 2 ^ (p - 1))
  end.

Definition of_bits (f : format) (bits : Z) : spec_float :=
  let p := prec f in
  let w := 8 * calcsize f in
  let s := Z.testbit bits (w - 1) in
  let biased := (bits / 2 ^ (p - 1)) mod 2 ^ (w - p) in
  let frac := bits mod 2 ^ (p - 1) in
  if biased =? 0 then
    match frac with
    | Zpos m => S754_finite s m (emin p (emax f))
    | _ => S754_zero s
    end
  else if biased =? 2 ^ (w - p) - 1 then
    if frac =? 0 then S754_infinity s else S754_nan
  else
    match frac + 2 ^ (p - 1) with
    | Zpos m => S754_finite s m (biased + emin p (emax f) - 1)
    | _ => S754_nan
    end.

(** The bits are laid out in little-endian byte order ([le_split], and
    [le_combine] to read them back). *)
Definition pack (f : format) (x : spec_float) : result (list byte) :=
  let y := narrow f x in
  if is_finite x && negb (is_finite y) then Raise OverflowError
  else Ok (le_split (Z.to_nat (calcsize f)) (bits_of f y)).

Definition unpack (f : format) (bs : list byte) : result spec_float :=
  if zlen bs =? calcsize f then Ok (widen f (of_bits f (le_combine bs)))
  else Raise StructError.

End struct.

(** [numpy.inf], and the comparison [x > 0] of a float with zero. *)
Definition inf : spec_float := S754_infinity false.
Definition float_gt0 (x : spec_float) : bool := SFltb (S754_zero false) x.

(** The float literals of the unit tests: [99999.9] is
    [0x40F869FE66666666] and [0.1] is [0x3FB999999999999A]. *)
Definition float_99999_9 : spec_float := S754_finite false 6871940801652326 (-36).
Definition float_0_1 : spec_float := S754_finite false 7205759403792794 (-56).
Definition float_1_0 : spec_float := S754_finite false 4503599627370496 (-52).

(** [65505.0] is [0x40EFFC2000000000]: above [65504.0], the largest finite
    value of binary16, and below [65520.0], half a unit in the last place
    further, from which on rounding overflows. *)
Definition float_65505 : spec_float := S754_finite false 9002938647183360 (-37).

(** [for i in range(n): acc = body(i, acc)], where the body may raise. *)
Fixpoint for_range_from {A : Type} (i : Z) (n : nat)
         (body : Z -> A -> result A) (acc : A) : result A :=
  match n with
  | O => Ok acc
  | S n' => rbind (body i acc) (for_range_from (i + 1) n' body)
  end.

Definition for_range {A : Type} (n : Z) (body : Z -> A -> result A) (acc : A)
  : result A :=
  for_range_from 0 (Z.to_nat n) body acc.

(** ** Arrays of standard-bit-length primitives ([StdPrimitive]) *)

Inductive dtype : Type :=
| float64 | float32 | float16
| uint8 | uint16 | uint32 | uint64
| int8 | int16 | int32 | int64.

Definition itemsize (d : dtype) : Z :=
  match d with
  | uint8 | int8 => 1
  | float16 | uint16 | int16 => 2
  | float32 | uint32 | int32 => 4
  | float64 | uint64 | int64 => 8
  end.

Inductive scalar : Type :=
| SInt (z : Z)
| SFloat (x : spec_float).

(** One little-endian element of the array. *)
Definition item_of_bytes (d : dtype) (bs : list byte) : scalar :=
  let u := le_combine bs in
  let signed := if u >=? 2 ^ (8 * itemsize d - 1) then u - 2 ^ (8 * itemsize d) else u in
  match d with
  | uint8 | uint16 | uint32 | uint64 => SInt u
  | int8 | int16 | int32 | int64 => SInt signed
  | float16 => SFloat (struct.of_bits struct.fmt_e u)
  | float32 => SFloat (struct.of_bits struct.fmt_f u)
  | float64 => SFloat (struct.of_bits struct.fmt_d u)
  end.

Fixpoint items_of_bytes (d : dtype) (n : nat) (bs : list byte) : list scalar :=
  match n with
  | O => []
  | S n' => item_of_bytes d (take (Z.to_nat (itemsize d)) bs)
            :: items_of_bytes d n' (drop (Z.to_nat (itemsize d)) bs)
  end.

(** [numpy.frombuffer(bs, dtype=d, count=count)]; a negative [count] (the
    default is -1) takes the whole buffer. *)
Definition frombuffer (d : dtype) (bs : list byte) (count : Z) : result (list scalar) :=
  if count <? 0 then
    if zlen bs mod itemsize d =? 0
    then Ok (items_of_bytes d (Z.to_nat (zlen bs / itemsize d)) bs)
    else Raise ValueError
  else
    if zlen bs <? count * itemsize d then Raise ValueError
    else Ok (items_of_bytes d (Z.to_nat count) bs).

(** An array [x] of a standard dtype is its dtype and its elements.  The
    elements of an array belong to its dtype: an integer of the range of
    the dtype, a float of the format of the dtype. *)
Definition float_format (d : dtype) : option struct.format :=
  match d with
  | float16 => Some struct.fmt_e
  | float32 => Some struct.fmt_f
  | float64 => Some struct.fmt_d
  | _ => None
  end.

Definition is_signed (d : dtype) : bool :=
  match d with
  | int8 | int16 | int32 | int64 => true
  | _ => false
  end.

Definition item_in_dtype (d : dtype) (x : scalar) : Prop :=
  match float_format d, x with
  | Some f, SFloat y => valid_binary (struct.prec f) (struct.emax f) y = true
  | None, SInt z =>
      if is_signed d
      then - 2 ^ (8 * itemsize d - 1) <= z < 2 ^ (8 * itemsize d - 1)
      else 0 <= z < 2 ^ (8 * itemsize d)
  | _, _ => False
  end.

(** [x.view(Byte)] on a little-endian platform: the elements one after the
    other, each in [itemsize] bytes, least significant byte first; a
    negative integer in two's complement. *)
Definition item_to_bytes (d : dtype) (x : scalar) : list byte :=
  le_split (Z.to_nat (itemsize d))
    match x with
    | SInt z => z
    | SFloat y =>
        match float_format d with
        | Some f => struct.bits_of f y
        | None => 0
        end
    end.

Definition view_Byte (d : dtype) (x : list scalar) : list byte :=
  flat_map (item_to_bytes d) x.

(** ** Deserializer *)

Module Deserializer.

Record t : Type := {
  _buf : ZeroExtendingBuffer.t;
  _bit_offset : Z
}.

Definition consumed_bit_length (self : t) : Z := _bit_offset self.

Definition remaining_bit_length (self : t) : Z :=
  ZeroExtendingBuffer.bit_length (_buf self) - _bit_offset self.

Definition _byte_offset (self : t) : Z := _bit_offset self / 8.

(** [__init__] and [new]. *)
Definition new (fragmented_buffer : list (list byte)) : result t :=
  let self := {| _buf := ZeroExtendingBuffer.new fragmented_buffer;
                 _bit_offset := 0 |} in
  if consumed_bit_length self + remaining_bit_length self
     =? ZeroExtendingBuffer.bit_length (_buf self)
  then Ok self
  else Raise AssertionError.

(** [self._bit_offset += n] *)
Definition advance (n : Z) : M t unit :=
  modify (fun self => {| _buf := _buf self; _bit_offset := _bit_offset self + n |}).

Definition skip_bits (bit_length : Z) : M t unit :=
  _ensure_cardinal bit_length ;;
  advance bit_length.

Definition fork_bytes (forked_buffer_size_in_bytes : Z) : M t t :=
  self <- get ;;
  if negb (_bit_offset self mod 8 =? 0) then raise ValueError
  else
    let remaining_bit_length_ := remaining_bit_length self in
    assert_ (remaining_bit_length_ mod 8 =? 0) ;;
    let remaining_byte_length := remaining_bit_length_ / 8 in
    if remaining_byte_length <? forked_buffer_size_in_bytes then raise ValueError
    else
      fragments <- lift (ZeroExtendingBuffer.fork_bytes
                           (_buf self) (_byte_offset self) forked_buffer_size_in_bytes) ;;
      out <- lift (new fragments) ;;
      assert_ (remaining_bit_length out =? forked_buffer_size_in_bytes * 8) ;;
      ret out.

(** *** Private methods *)

Definition _unsigned_from_bytes (x : list byte) (bit_length : Z) : result Z :=
  if negb (bit_length >=? 1) then Raise AssertionError
  else
    let num_bytes := (bit_length + 7) / 8 in
    if negb (num_bytes >? 0) then Raise AssertionError
    else
      let last_byte_index := num_bytes - 1 in
      if negb (zlen x >=? num_bytes) then Raise AssertionError
      else
        rbind (for_range last_byte_index
                 (fun i out => rbind (getitem x i)
                    (fun xi => Ok (Z.lor out (Z.shiftl (byte.unsigned xi) (i * 8)))))
                 0)
          (fun out =>
             let msb_mask := if negb (bit_length mod 8 =? 0)
                             then 2 ^ (bit_length mod 8) - 1
                             else 255 in
             if negb (existsb (Z.eqb msb_mask) [1; 3; 7; 15; 31; 63; 127; 255])
             then Raise AssertionError
             else
               rbind (getitem x last_byte_index)
                 (fun xl =>
                    let out := Z.lor out
                                 (Z.shiftl (Z.land (byte.unsigned xl) msb_mask)
                                           (last_byte_index * 8)) in
                    if negb ((0 <=? out) && (out <? 2 ^ bit_length))
                    then Raise AssertionError
                    else Ok out)).

(** *** Aligned fetches *)

Definition fetch_aligned_array_of_bits (count : Z) : M t (list bool) :=
  _ensure_cardinal count ;;
  self <- get ;;
  assert_ (_bit_offset self mod 8 =? 0) ;;
  bs <- lift (ZeroExtendingBuffer.get_unsigned_slice (_buf self)
                (_byte_offset self) (_byte_offset self + (count + 7) / 8)) ;;
  let out := getslice (unpackbits_little bs) 0 count in
  advance count ;;
  assert_ (zlen out =? count) ;;
  ret out.

Definition fetch_aligned_bytes (count : Z) : M t (list byte) :=
  _ensure_cardinal count ;;
  self <- get ;;
  assert_ (_bit_offset self mod 8 =? 0) ;;
  out <- lift (ZeroExtendingBuffer.get_unsigned_slice (_buf self)
                 (_byte_offset self) (_byte_offset self + count)) ;;
  advance (count * 8) ;;
  assert_ (zlen out =? count) ;;
  ret out.

Definition fetch_aligned_u8 : M t Z :=
  self <- get ;;
  assert_ (_bit_offset self mod 8 =? 0) ;;
  out <- lift (ZeroExtendingBuffer.get_byte (_buf self) (_byte_offset self)) ;;
  advance 8 ;;
  ret out.

Definition fetch_aligned_u16 : M t Z :=
  out <- fetch_aligned_u8 ;;
  hi <- fetch_aligned_u8 ;;
  ret (Z.lor out (Z.shiftl hi 8)).

Definition fetch_aligned_u32 : M t Z :=
  out <- fetch_aligned_u16 ;;
  hi <- fetch_aligned_u16 ;;
  ret (Z.lor out (Z.shiftl hi 16)).

Definition fetch_aligned_u64 : M t Z :=
  out <- fetch_aligned_u32 ;;
  hi <- fetch_aligned_u32 ;;
  ret (Z.lor out (Z.shiftl hi 32)).

Definition fetch_aligned_i8 : M t Z :=
  x <- fetch_aligned_u8 ;;
  ret (if x >=? 128 then x - 256 else x).

Definition fetch_aligned_i16 : M t Z :=
  x <- fetch_aligned_u16 ;;
  ret (if x >=? 32768 then x - 65536 else x).

Definition fetch_aligned_i32 : M t Z :=
  x <- fetch_aligned_u32 ;;
  ret (if x >=? 2 ^ 31 then x - 2 ^ 32 else x).

Definition fetch_aligned_i64 : M t Z :=
  x <- fetch_aligned_u64 ;;
  ret (if x >=? 2 ^ 63 then x - 2 ^ 64 else x).

Definition fetch_aligned_f16 : M t spec_float :=
  bs <- fetch_aligned_bytes 2 ;;
  lift (struct.unpack struct.fmt_e bs).

Definition fetch_aligned_f32 : M t spec_float :=
  bs <- fetch_aligned_bytes 4 ;;
  lift (struct.unpack struct.fmt_f bs).

Definition fetch_aligned_f64 : M t spec_float :=
  bs <- fetch_aligned_bytes 8 ;;
  lift (struct.unpack struct.fmt_d bs).

Definition fetch_aligned_unsigned (bit_length : Z) : M t Z :=
  _ensure_cardinal bit_length ;;
  self <- get ;;
  assert_ (_bit_offset self mod 8 =? 0) ;;
  bs <- lift (ZeroExtendingBuffer.get_unsigned_slice (_buf self)
                (_byte_offset self) (_byte_offset self + (bit_length + 7) / 8)) ;;
  advance bit_length ;;
  lift (_unsigned_from_bytes bs bit_length).

Definition fetch_aligned_signed (bit_length : Z) : M t Z :=
  assert_ (bit_length >=? 2) ;;
  u <- fetch_aligned_unsigned bit_length ;;
  ret (if u >=? 2 ^ (bit_length - 1) then u - 2 ^ bit_length else u).

(** *** Unaligned fetches *)

(** The loop of [fetch_unaligned_bytes]. *)
Fixpoint fetch_unaligned_bytes_loop (count : nat) (right left : Z) : M t (list byte) :=
  match count with
  | O => ret []
  | S count' =>
      self <- get ;;
      let byte_offset := _byte_offset self in
      lo <- lift (ZeroExtendingBuffer.get_byte (_buf self) byte_offset) ;;
      hi <- lift (ZeroExtendingBuffer.get_byte (_buf self) (byte_offset + 1)) ;;
      let out_i := byte.of_Z (Z.lor (Z.shiftr lo right)
                                    (Z.land (Z.shiftl hi left) 255)) in
      advance 8 ;;
      rest <- fetch_unaligned_bytes_loop count' right left ;;
      ret (out_i :: rest)
  end.

Definition fetch_unaligned_bytes (count : Z) : M t (list byte) :=
  if count >? 0 then
    self <- get ;;
    if negb (_bit_offset self mod 8 =? 0) then
      let right := _bit_offset self mod 8 in
      let left := 8 - right in
      assert_ (((1 <=? right) && (right <=? 7)) && ((1 <=? left) && (left <=? 7))) ;;
      out <- fetch_unaligned_bytes_loop (Z.to_nat count) right left ;;
      assert_ (zlen out =? count) ;;
      ret out
    else fetch_aligned_bytes count
  else ret (zeros 0).

Definition fetch_unaligned_array_of_bits (count : Z) : M t (list bool) :=
  _ensure_cardinal count ;;
  let byte_count := (count + 7) / 8 in
  bs <- fetch_unaligned_bytes byte_count ;;
  assert_ (zlen bs =? byte_count) ;;
  let backtrack := byte_count * 8 - count in
  assert_ ((0 <=? backtrack) && (backtrack <? 8)) ;;
  advance (- backtrack) ;;
  let out := getslice (unpackbits_little bs) 0 count in
  assert_ (zlen out =? count) ;;
  ret out.

Definition fetch_unaligned_unsigned (bit_length : Z) : M t Z :=
  _ensure_cardinal bit_length ;;
  let byte_length := (bit_length + 7) / 8 in
  bs <- fetch_unaligned_bytes byte_length ;;
  assert_ (zlen bs =? byte_length) ;;
  let backtrack := byte_length * 8 - bit_length in
  assert_ ((0 <=? backtrack) && (backtrack <? 8)) ;;
  advance (- backtrack) ;;
  lift (_unsigned_from_bytes bs bit_length).

Definition fetch_unaligned_signed (bit_length : Z) : M t Z :=
  assert_ (bit_length >=? 2) ;;
  u <- fetch_unaligned_unsigned bit_length ;;
  ret (if u >=? 2 ^ (bit_length - 1) then u - 2 ^ bit_length else u).

Definition fetch_unaligned_f16 : M t spec_float :=
  bs <- fetch_unaligned_bytes 2 ;;
  lift (struct.unpack struct.fmt_e bs).

Definition fetch_unaligned_f32 : M t spec_float :=
  bs <- fetch_unaligned_bytes 4 ;;
  lift (struct.unpack struct.fmt_f bs).

Definition fetch_unaligned_f64 : M t spec_float :=
  bs <- fetch_unaligned_bytes 8 ;;
  lift (struct.unpack struct.fmt_d bs).

Definition fetch_unaligned_bit : M t bool :=
  self <- get ;;
  let mask := Z.shiftl 1 (_bit_offset self mod 8) in
  assert_ ((1 <=? mask) && (mask <=? 128)) ;;
  b <- lift (ZeroExtendingBuffer.get_byte (_buf self) (_byte_offset self)) ;;
  let out := Z.land b mask =? mask in
  advance 1 ;;
  ret out.

(** *** The little-endian subclass, [_LittleEndianDeserializer] *)

Definition fetch_aligned_array_of_standard_bit_length_primitives
           (d : dtype) (count : Z) : M t (list scalar) :=
  self <- get ;;
  assert_ (_bit_offset self mod 8 =? 0) ;;
  let bo := _byte_offset self in
  bs <- lift (ZeroExtendingBuffer.get_unsigned_slice (_buf self)
                bo (bo + count * itemsize d)) ;;
  out <- lift (frombuffer d bs (-1)) ;;
  assert_ (zlen out =? count) ;;
  advance (zlen out * itemsize d * 8) ;;
  ret out.

Definition fetch_unaligned_array_of_standard_bit_length_primitives
           (d : dtype) (count : Z) : M t (list scalar) :=
  bs <- fetch_unaligned_bytes (itemsize d * count) ;;
  assert_ (zlen bs >=? count) ;;
  lift (frombuffer d bs count).

(** *** Padding

    [while self._bit_offset % bit_length != 0: self._bit_offset += 1].
    The loop runs on fuel: [Ok true] is the loop left by its condition,
    [Ok false] is the fuel used up before that.  [%] by zero raises
    [ZeroDivisionError]. *)
Fixpoint pad_to_alignment (fuel : nat) (bit_length : Z) {struct fuel} : M t bool :=
  self <- get ;;
  if bit_length =? 0 then raise (OtherError "ZeroDivisionError")
  else if negb (_bit_offset self mod bit_length =? 0)
  then match fuel with
       | O => ret false
       | S fuel' => advance 1 ;; pad_to_alignment fuel' bit_length
       end
  else ret true.

End Deserializer.

(** ** Arrays that are written

    The destination buffer of a serializer is a [numpy] array, and slicing
    it gives a view of the same memory: a forked serializer writes into its
    parent's buffer.  A view is a window (first byte, length) of a memory
    block; the block is part of the state of the computation. *)

Record ndarray : Type := {
  base : nat;
  size : nat
}.

Definition view_len (a : ndarray) : Z := Z.of_nat (size a).

(** [a[start:stop]]; [None] is an omitted bound. *)
Definition view_slice (a : ndarray) (start stop : option Z) : ndarray :=
  let lo := match start with
            | Some i => slice_bound (view_len a) i
            | None => 0
            end in
  let hi := match stop with
            | Some i => slice_bound (view_len a) i
            | None => view_len a
            end in
  {| base := base a + Z.to_nat lo; size := Z.to_nat (hi - lo) |}.

(** The elements seen through the view. *)
Definition view_tolist (mem : list byte) (a : ndarray) : list byte :=
  take (size a) (drop (base a) mem).

(** [a[i]] *)
Definition view_getitem (mem : list byte) (a : ndarray) (i : Z) : result byte :=
  rbind (index_pos (view_len a) i)
        (fun j => match mem !! (base a + j)%nat with
                  | Some b => Ok b
                  | None => Raise IndexError
                  end).

(** [a[i] = x] for a Python integer [x], as numpy before 2.0 stores it in
    a [uint8] array: modulo 256.  (numpy 2 refuses an integer above 255
    with [OverflowError]; the writes of the serializer other than
    [add_aligned_u8] and the standard widths built on it store bytes.) *)
Definition view_setitem (mem : list byte) (a : ndarray) (i : Z) (x : Z)
  : result (list byte) :=
  rbind (index_pos (view_len a) i)
        (fun j => Ok (<[(base a + j)%nat := byte.of_Z x]> mem)).

(** [a[...] = xs] for an array [xs]: the shapes agree, or the single
    element of [xs] is broadcast; otherwise numpy raises [ValueError]. *)
Definition view_assign (mem : list byte) (a : ndarray) (xs : list byte)
  : result (list byte) :=
  if zlen xs =? view_len a then Ok (list_inserts (base a) xs mem)
  else match xs with
       | [x] => Ok (list_inserts (base a) (replicate (size a) x) mem)
       | _ => Raise ValueError
       end.

(** ** Serializer *)

Definition _EXTRA_BUFFER_CAPACITY_BYTES : Z := 1.

Module Serializer.

Record t : Type := {
  _buf : ndarray;
  _bit_offset : Z
}.

(** A serializer together with the memory its buffer is a view of. *)
Record state : Type := {
  mem : list byte;
  self : t
}.

Definition new (buffer_size_in_bytes : Z) : result state :=
  let buffer_size_in_bytes := buffer_size_in_bytes + _EXTRA_BUFFER_CAPACITY_BYTES in
  if buffer_size_in_bytes <? 0 then Raise ValueError      (* numpy.zeros *)
  else Ok {| mem := zeros buffer_size_in_bytes;
             self := {| _buf := {| base := 0; size := Z.to_nat buffer_size_in_bytes |};
                        _bit_offset := 0 |} |}.

Definition current_bit_length (s : state) : Z := _bit_offset (self s).

Definition _byte_offset (s : state) : Z := _bit_offset (self s) / 8.

(** The property [buffer]: the view [self._buf[: (self._bit_offset + 7) // 8]]
    and what it shows. *)
Definition buffer_view (s : state) : ndarray :=
  view_slice (_buf (self s)) None (Some ((_bit_offset (self s) + 7) / 8)).

Definition buffer (s : state) : list byte :=
  view_tolist (mem s) (buffer_view s).

(** *** Access to [self._buf] and [self._bit_offset] *)

Definition buf_getitem (i : Z) : M state Z :=
  fun s => match view_getitem (mem s) (_buf (self s)) i with
           | Ok b => (Ok (byte.unsigned b), s)
           | Raise e => (Raise e, s)
           end.

Definition buf_setitem (i : Z) (x : Z) : M state unit :=
  fun s => match view_setitem (mem s) (_buf (self s)) i x with
           | Ok m => (Ok tt, {| mem := m; self := self s |})
           | Raise e => (Raise e, s)
           end.

Definition buf_setslice (start stop : Z) (xs : list byte) : M state unit :=
  fun s => match view_assign (mem s)
                   (view_slice (_buf (self s)) (Some start) (Some stop)) xs with
           | Ok m => (Ok tt, {| mem := m; self := self s |})
           | Raise e => (Raise e, s)
           end.

(** [self._bit_offset += n] *)
Definition advance (n : Z) : M state unit :=
  modify (fun s => {| mem := mem s;
                      self := {| _buf := _buf (self s);
                                 _bit_offset := _bit_offset (self s) + n |} |}).

(** *** Private methods *)

Fixpoint _unsigned_to_bytes_loop (num_bytes : nat) (value : Z) : list byte :=
  match num_bytes with
  | O => []
  | S n => byte.of_Z (Z.land value 255) :: _unsigned_to_bytes_loop n (Z.shiftr value 8)
  end.

Definition _unsigned_to_bytes (value bit_length : Z) : result (list byte) :=
  if negb (bit_length >=? 1) then Raise AssertionError
  else if negb (value >=? 0) then Raise AssertionError
  else
    let value := Z.land value (2 ^ bit_length - 1) in
    let num_bytes := (bit_length + 7) / 8 in
    Ok (_unsigned_to_bytes_loop (Z.to_nat num_bytes) value).

(** [x] is a Python [float], as the method is annotated. *)
Definition _float_to_bytes (format_char : struct.format) (x : spec_float)
  : result (list byte) :=
  match struct.pack format_char x with
  | Raise OverflowError =>
      struct.pack format_char (if float_gt0 x then inf else SFopp inf)
  | out => out
  end.

Definition _ensure_not_negative (x : Z) : M state unit :=
  if x <? 0 then raise ValueError else ret tt.

(** *** Cursor *)

Definition skip_bits (bit_length : Z) : M state unit :=
  advance bit_length.

Definition fork_bytes (forked_buffer_size_in_bytes : Z) : M state t :=
  s <- get ;;
  if negb (_bit_offset (self s) mod 8 =? 0) then raise ValueError
  else
    let forked_buffer := view_slice (_buf (self s)) (Some (_bit_offset (self s) / 8)) None in
    let forked_buffer_size_in_bytes :=
      forked_buffer_size_in_bytes + _EXTRA_BUFFER_CAPACITY_BYTES in
    if view_len forked_buffer <? forked_buffer_size_in_bytes then raise ValueError
    else
      let forked_buffer := view_slice forked_buffer None (Some forked_buffer_size_in_bytes) in
      assert_ (view_len forked_buffer =? forked_buffer_size_in_bytes) ;;
      ret {| _buf := forked_buffer; _bit_offset := 0 |}.

(** *** Aligned writes *)

Definition add_aligned_bytes (x : list byte) : M state unit :=
  s <- get ;;
  assert_ (_bit_offset (self s) mod 8 =? 0) ;;
  buf_setslice (_byte_offset s) (_byte_offset s + zlen x) x ;;
  advance (zlen x * 8).

Definition add_aligned_u8 (x : Z) : M state unit :=
  s <- get ;;
  assert_ (_bit_offset (self s) mod 8 =? 0) ;;
  _ensure_not_negative x ;;
  buf_setitem (_byte_offset s) x ;;
  advance 8.

Definition add_aligned_u16 (x : Z) : M state unit :=
  _ensure_not_negative x ;;
  add_aligned_u8 (Z.land x 255) ;;
  add_aligned_u8 (Z.land (Z.shiftr x 8) 255).

Definition add_aligned_u32 (x : Z) : M state unit :=
  add_aligned_u16 x ;;
  add_aligned_u16 (Z.shiftr x 16).

Definition add_aligned_u64 (x : Z) : M state unit :=
  add_aligned_u32 x ;;
  add_aligned_u32 (Z.shiftr x 32).

Definition add_aligned_i8 (x : Z) : M state unit :=
  add_aligned_u8 (if x <? 0 then 256 + x else x).

Definition add_aligned_i16 (x : Z) : M state unit :=
  add_aligned_u16 (if x <? 0 then 65536 + x else x).

Definition add_aligned_i32 (x : Z) : M state unit :=
  add_aligned_u32 (if x <? 0 then 2 ^ 32 + x else x).

Definition add_aligned_i64 (x : Z) : M state unit :=
  add_aligned_u64 (if x <? 0 then 2 ^ 64 + x else x).

Definition add_aligned_f16 (x : spec_float) : M state unit :=
  bs <- lift (_float_to_bytes struct.fmt_e x) ;;
  add_aligned_bytes bs.

Definition add_aligned_f32 (x : spec_float) : M state unit :=
  bs <- lift (_float_to_bytes struct.fmt_f x) ;;
  add_aligned_bytes bs.

Definition add_aligned_f64 (x : spec_float) : M state unit :=
  bs <- lift (_float_to_bytes struct.fmt_d x) ;;
  add_aligned_bytes bs.

Definition add_aligned_unsigned (value bit_length : Z) : M state unit :=
  s <- get ;;
  assert_ (_bit_offset (self s) mod 8 =? 0) ;;
  _ensure_not_negative value ;;
  bs <- lift (_unsigned_to_bytes value bit_length) ;;
  buf_setslice (_byte_offset s) (_byte_offset s + zlen bs) bs ;;
  advance bit_length.

Definition add_aligned_signed (value bit_length : Z) : M state unit :=
  assert_ (bit_length >=? 2) ;;
  add_aligned_unsigned (if value <? 0 then 2 ^ bit_length + value else value) bit_length.

(** *** Unaligned writes *)

(** The loop of [add_unaligned_bytes]. *)
Fixpoint add_unaligned_bytes_loop (value : list byte) (left right : Z) : M state unit :=
  match value with
  | [] => ret tt
  | b :: value' =>
      s <- get ;;
      cur <- buf_getitem (_byte_offset s) ;;
      buf_setitem (_byte_offset s)
                  (Z.lor cur (Z.land (Z.shiftl (byte.unsigned b) left) 255)) ;;
      advance 8 ;;
      s' <- get ;;
      buf_setitem (_byte_offset s') (Z.shiftr (byte.unsigned b) right) ;;
      add_unaligned_bytes_loop value' left right
  end.

Definition add_unaligned_bytes (value : list byte) : M state unit :=
  s <- get ;;
  let left := _bit_offset (self s) mod 8 in
  let right := 8 - left in
  add_unaligned_bytes_loop value left right.

Definition add_unaligned_unsigned (value bit_length : Z) : M state unit :=
  _ensure_not_negative value ;;
  bs <- lift (_unsigned_to_bytes value bit_length) ;;
  let backtrack := zlen bs * 8 - bit_length in
  assert_ (backtrack >=? 0) ;;
  add_unaligned_bytes bs ;;
  advance (- backtrack).

Definition add_unaligned_signed (value bit_length : Z) : M state unit :=
  assert_ (bit_length >=? 2) ;;
  add_unaligned_unsigned (if value <? 0 then 2 ^ bit_length + value else value) bit_length.

Definition add_unaligned_f16 (x : spec_float) : M state unit :=
  bs <- lift (_float_to_bytes struct.fmt_e x) ;;
  add_unaligned_bytes bs.

Definition add_unaligned_f32 (x : spec_float) : M state unit :=
  bs <- lift (_float_to_bytes struct.fmt_f x) ;;
  add_unaligned_bytes bs.

Definition add_unaligned_f64 (x : spec_float) : M state unit :=
  bs <- lift (_float_to_bytes struct.fmt_d x) ;;
  add_unaligned_bytes bs.

Definition add_unaligned_bit (x : bool) : M state unit :=
  s <- get ;;
  cur <- buf_getitem (_byte_offset s) ;;
  buf_setitem (_byte_offset s)
              (Z.lor cur (Z.shiftl (Z.b2z x) (_bit_offset (self s) mod 8))) ;;
  advance 1.

(** *** Padding

    [while self._bit_offset % bit_length != 0: self.add_unaligned_bit(False)].
    The loop runs on fuel: [Ok true] is the loop left by its condition,
    [Ok false] is the fuel used up before that.  [%] by zero raises
    [ZeroDivisionError]. *)
Fixpoint pad_to_alignment (fuel : nat) (bit_length : Z) {struct fuel} : M state bool :=
  s <- get ;;
  if bit_length =? 0 then raise (OtherError "ZeroDivisionError")
  else if negb (_bit_offset (self s) mod bit_length =? 0)
  then match fuel with
       | O => ret false
       | S fuel' => add_unaligned_bit false ;; pad_to_alignment fuel' bit_length
       end
  else ret true.

(** *** Arrays *)

Definition add_aligned_array_of_bits (x : list bool) : M state unit :=
  s <- get ;;
  assert_ (_bit_offset (self s) mod 8 =? 0) ;;
  let packed := packbits_little x in
  assert_ (zlen packed * 8 >=? zlen x) ;;
  buf_setslice (_byte_offset s) (_byte_offset s + zlen packed) packed ;;
  advance (zlen x).

Definition add_unaligned_array_of_bits (x : list bool) : M state unit :=
  let packed := packbits_little x in
  let backtrack := zlen packed * 8 - zlen x in
  assert_ (backtrack >=? 0) ;;
  add_unaligned_bytes packed ;;
  advance (- backtrack).

(** The little-endian subclass, [_LittleEndianSerializer]. *)
Definition add_aligned_array_of_standard_bit_length_primitives
           (d : dtype) (x : list scalar) : M state unit :=
  add_aligned_bytes (view_Byte d x).

Definition add_unaligned_array_of_standard_bit_length_primitives
           (d : dtype) (x : list scalar) : M state unit :=
  add_unaligned_bytes (view_Byte d x).

End Serializer.

(** ** The composite interface and the top-level [deserialize] *)

(** What the attribute [_MODEL_] of a class may hold. *)
Inductive pyobject : Type :=
| PyCompositeType (full_name : string)     (* an instance of pydsdl.CompositeType *)
| PyObject (repr : string).

(** A class derived from [CompositeObject], as far as [deserialize] looks at
    it: the attribute [_MODEL_] (absent on the abstract base class) and the
    static method [_deserialize_], which returns an instance of the class
    or raises. *)
Record CompositeObject (Instance : Type) : Type := {
  _MODEL_ : option pyobject;
  _deserialize_ : M Deserializer.t Instance
}.
Arguments _MODEL_ {Instance} c.
Arguments _deserialize_ {Instance} c.

Definition get_model {Instance : Type} (class_or_instance : CompositeObject Instance)
  : result pyobject :=
  match _MODEL_ class_or_instance with
  | None => Raise AttributeError
  | Some out =>
      match out with
      | PyCompositeType _ => Ok out
      | PyObject _ => Raise AssertionError
      end
  end.

(** [_logger.info(msg, get_model(dtype), deserializer, exc_info=True)]: the
    arguments are evaluated, the record is handed to the logging system. *)
Definition _logger_info (model : pyobject) (deserializer : Deserializer.t) : result unit :=
  Ok tt.

Definition deserialize {Instance : Type} (dtype : CompositeObject Instance)
           (fragmented_serialized_representation : list (list byte))
  : result (option Instance) :=
  rbind (Deserializer.new fragmented_serialized_representation)
    (fun deserializer =>
       match _deserialize_ dtype deserializer with
       | (Ok obj, _) => Ok (Some obj)
       | (Raise e, deserializer') =>
           if isinstance e FormatError
           then rbind (get_model dtype)
                  (fun model => rbind (_logger_info model deserializer')
                                  (fun _ => Ok None))
           else Raise e
       end).

(** A class generated from a DSDL definition carries its model. *)
Definition generated_class {Instance : Type} (dtype : CompositeObject Instance) : Prop :=
  exists full_name, _MODEL_ dtype = Some (PyCompositeType full_name).

(** ** The bit stream of a byte sequence

    Byte [i] of a sequence holds the bits [8 i .. 8 i + 7] of the stream,
    least significant first; past the end the stream is zero.  As an
    integer the stream is [le_combine]. *)

Definition byte_at (c : list byte) (i : Z) : Z :=
  if i <? 0 then 0 else byte.unsigned (nth (Z.to_nat i) c Byte.x00).

Definition getbit (c : list byte) (j : Z) : bool :=
  Z.testbit (byte_at c (j / 8)) (j mod 8).

(** The [w] bits of the stream from bit [o] on, as an unsigned integer. *)
Definition read_bits (c : list byte) (o w : Z) : Z :=
  Z.land (Z.shiftr (le_combine c) o) (Z.ones w).

(** The byte indices that can be asked of a buffer: those that fit a
    [ssize_t]. *)
Definition addressable (c : list byte) (i : Z) : Prop :=
  i <= ssize_max \/ ssize_max < zlen c.

(** [n] bytes of a sequence from byte [l] on, zero-extended. *)
Definition window (c : list byte) (l n : Z) : list byte :=
  take (Z.to_nat n) (drop (Z.to_nat l) c ++ zeros n).

(** ** The fetch operations as one family

    Every [fetch_*] method of the deserializer with its arguments, what it
    returns, the zero value of its return type and the number of bits it
    moves the cursor by. *)

Inductive fetched : Type :=
| FInt (z : Z)
| FFloat (x : spec_float)
| FBool (b : bool)
| FBytes (bs : list byte)
| FBits (bits : list bool)
| FArray (items : list scalar).

Inductive fetch_op : Type :=
| Fetch_aligned_array_of_standard_bit_length_primitives (d : dtype) (count : Z)
| Fetch_aligned_array_of_bits (count : Z)
| Fetch_aligned_bytes (count : Z)
| Fetch_aligned_u8 | Fetch_aligned_u16 | Fetch_aligned_u32 | Fetch_aligned_u64
| Fetch_aligned_i8 | Fetch_aligned_i16 | Fetch_aligned_i32 | Fetch_aligned_i64
| Fetch_aligned_f16 | Fetch_aligned_f32 | Fetch_aligned_f64
| Fetch_aligned_unsigned (bit_length : Z)
| Fetch_aligned_signed (bit_length : Z)
| Fetch_unaligned_array_of_standard_bit_length_primitives (d : dtype) (count : Z)
| Fetch_unaligned_array_of_bits (count : Z)
| Fetch_unaligned_bytes (count : Z)
| Fetch_unaligned_unsigned (bit_length : Z)
| Fetch_unaligned_signed (bit_length : Z)
| Fetch_unaligned_f16 | Fetch_unaligned_f32 | Fetch_unaligned_f64
| Fetch_unaligned_bit.

Definition fmap {S A B : Type} (f : A -> B) (m : M S A) : M S B :=
  a <- m ;; ret (f a).

Definition run_fetch (op : fetch_op) : M Deserializer.t fetched :=
  match op with
  | Fetch_aligned_array_of_standard_bit_length_primitives d count =>
      fmap FArray (Deserializer.fetch_aligned_array_of_standard_bit_length_primitives d count)
  | Fetch_aligned_array_of_bits count =>
      fmap FBits (Deserializer.fetch_aligned_array_of_bits count)
  | Fetch_aligned_bytes count => fmap FBytes (Deserializer.fetch_aligned_bytes count)
  | Fetch_aligned_u8 => fmap FInt Deserializer.fetch_aligned_u8
  | Fetch_aligned_u16 => fmap FInt Deserializer.fetch_aligned_u16
  | Fetch_aligned_u32 => fmap FInt Deserializer.fetch_aligned_u32
  | Fetch_aligned_u64 => fmap FInt Deserializer.fetch_aligned_u64
  | Fetch_aligned_i8 => fmap FInt Deserializer.fetch_aligned_i8
  | Fetch_aligned_i16 => fmap FInt Deserializer.fetch_aligned_i16
  | Fetch_aligned_i32 => fmap FInt Deserializer.fetch_aligned_i32
  | Fetch_aligned_i64 => fmap FInt Deserializer.fetch_aligned_i64
  | Fetch_aligned_f16 => fmap FFloat Deserializer.fetch_aligned_f16
  | Fetch_aligned_f32 => fmap FFloat Deserializer.fetch_aligned_f32
  | Fetch_aligned_f64 => fmap FFloat Deserializer.fetch_aligned_f64
  | Fetch_aligned_unsigned w => fmap FInt (Deserializer.fetch_aligned_unsigned w)
  | Fetch_aligned_signed w => fmap FInt (Deserializer.fetch_aligned_signed w)
  | Fetch_unaligned_array_of_standard_bit_length_primitives d count =>
      fmap FArray (Deserializer.fetch_unaligned_array_of_standard_bit_length_primitives d count)
  | Fetch_unaligned_array_of_bits count =>
      fmap FBits (Deserializer.fetch_unaligned_array_of_bits count)
  | Fetch_unaligned_bytes count => fmap FBytes (Deserializer.fetch_unaligned_bytes count)
  | Fetch_unaligned_unsigned w => fmap FInt (Deserializer.fetch_unaligned_unsigned w)
  | Fetch_unaligned_signed w => fmap FInt (Deserializer.fetch_unaligned_signed w)
  | Fetch_unaligned_f16 => fmap FFloat Deserializer.fetch_unaligned_f16
  | Fetch_unaligned_f32 => fmap FFloat Deserializer.fetch_unaligned_f32
  | Fetch_unaligned_f64 => fmap FFloat Deserializer.fetch_unaligned_f64
  | Fetch_unaligned_bit => fmap FBool Deserializer.fetch_unaligned_bit
  end.

(** The zero of an array element: the integer 0 or the float +0.0. *)
Definition zero_scalar (d : dtype) : scalar :=
  match d with
  | float64 | float32 | float16 => SFloat (S754_zero false)
  | _ => SInt 0
  end.

Definition zero_value (op : fetch_op) : fetched :=
  match op with
  | Fetch_aligned_array_of_standard_bit_length_primitives d count
  | Fetch_unaligned_array_of_standard_bit_length_primitives d count =>
      FArray (replicate (Z.to_nat count) (zero_scalar d))
  | Fetch_aligned_array_of_bits count | Fetch_unaligned_array_of_bits count =>
      FBits (replicate (Z.to_nat count) false)
  | Fetch_aligned_bytes count | Fetch_unaligned_bytes count =>
      FBytes (replicate (Z.to_nat count) Byte.x00)
  | Fetch_aligned_f16 | Fetch_aligned_f32 | Fetch_aligned_f64
  | Fetch_unaligned_f16 | Fetch_unaligned_f32 | Fetch_unaligned_f64 =>
      FFloat (S754_zero false)
  | Fetch_unaligned_bit => FBool false
  | _ => FInt 0
  end.

Definition fetched_bit_length (op : fetch_op) : Z :=
  match op with
  | Fetch_aligned_array_of_standard_bit_length_primitives d count
  | Fetch_unaligned_array_of_standard_bit_length_primitives d count =>
      count * itemsize d * 8
  | Fetch_aligned_array_of_bits count | Fetch_unaligned_array_of_bits count => count
  | Fetch_aligned_bytes count | Fetch_unaligned_bytes count => count * 8
  | Fetch_aligned_u8 | Fetch_aligned_i8 => 8
  | Fetch_aligned_u16 | Fetch_aligned_i16 | Fetch_aligned_f16 | Fetch_unaligned_f16 => 16
  | Fetch_aligned_u32 | Fetch_aligned_i32 | Fetch_aligned_f32 | Fetch_unaligned_f32 => 32
  | Fetch_aligned_u64 | Fetch_aligned_i64 | Fetch_aligned_f64 | Fetch_unaligned_f64 => 64
  | Fetch_aligned_unsigned w | Fetch_aligned_signed w
  | Fetch_unaligned_unsigned w | Fetch_unaligned_signed w => w
  | Fetch_unaligned_bit => 1
  end.

(** The aligned methods assert a byte-aligned cursor. *)
Definition requires_alignment (op : fetch_op) : bool :=
  match op with
  | Fetch_aligned_array_of_standard_bit_length_primitives _ _
  | Fetch_aligned_array_of_bits _ | Fetch_aligned_bytes _
  | Fetch_aligned_u8 | Fetch_aligned_u16 | Fetch_aligned_u32 | Fetch_aligned_u64
  | Fetch_aligned_i8 | Fetch_aligned_i16 | Fetch_aligned_i32 | Fetch_aligned_i64
  | Fetch_aligned_f16 | Fetch_aligned_f32 | Fetch_aligned_f64
  | Fetch_aligned_unsigned _ | Fetch_aligned_signed _ => true
  | _ => false
  end.

(** The arguments the methods accept: a count is a cardinal, an unsigned
    has at least one bit and a signed at least two. *)
Definition valid_arguments (op : fetch_op) : Prop :=
  match op with
  | Fetch_aligned_array_of_standard_bit_length_primitives _ count
  | Fetch_unaligned_array_of_standard_bit_length_primitives _ count
  | Fetch_aligned_array_of_bits count | Fetch_unaligned_array_of_bits count
  | Fetch_aligned_bytes count | Fetch_unaligned_bytes count => 0 <= count
  | Fetch_aligned_unsigned w | Fetch_unaligned_unsigned w => 1 <= w
  | Fetch_aligned_signed w | Fetch_unaligned_signed w => 2 <= w
  | _ => True
  end.

(** ** The serializer as a bit stream *)

(** What the buffer of the serializer shows, and when the view lies inside
    the memory (it does for [Serializer.new] and for every fork). *)
Definition contents (s : Serializer.state) : list byte :=
  view_tolist (Serializer.mem s) (Serializer._buf (Serializer.self s)).

Definition view_inside (s : Serializer.state) : Prop :=
  (base (Serializer._buf (Serializer.self s)) + size (Serializer._buf (Serializer.self s))
   <= length (Serializer.mem s))%nat.

(** A sequence of bits as an integer, the first bit the least significant. *)
Fixpoint bits_to_Z (bits : list bool) : Z :=
  match bits with
  | [] => 0
  | b :: r => Z.lor (Z.b2z b) (Z.shiftl (bits_to_Z r) 1)
  end.

(** Writing bits one at a time. *)
Fixpoint add_bits (bits : list bool) : M Serializer.state unit :=
  match bits with
  | [] => ret tt
  | b :: r => Serializer.add_unaligned_bit b ;; add_bits r
  end.

(** A method run on a fresh serializer of the given size. *)
Definition on_new {A : Type} (buffer_size_in_bytes : Z) (m : M Serializer.state A)
  : result (result A * Serializer.state) :=
  rbind (Serializer.new buffer_size_in_bytes) (fun s => Ok (m s)).

(** The bits of the buffer after the loop of [add_unaligned_bytes] has
    written [bs] at bit [o]: below the byte of the cursor nothing changes, in
    that byte the bits of [bs] are or-ed in, the following [length bs] bytes
    hold the rest of [bs] and nothing else, and beyond nothing changes. *)
Definition after_unaligned (c bs : list byte) (o : Z) (j : Z) : bool :=
  if j <? 8 * (o / 8) then getbit c j
  else if j <? 8 * (o / 8) + 8 then getbit c j || getbit bs (j - o)
  else if j <? 8 * (o / 8 + zlen bs + 1) then getbit bs (j - o)
  else getbit c j.

(** The stream that starts with the bits [dummy] and goes on with the bits of
    the bytes [bs]: bit by bit, and as an integer, the bytes shifted left by
    the length of the prefix. *)
Definition prefixed_stream (dummy : list bool) (bs : list byte) (j : Z) : bool :=
  if j <? zlen dummy then nth (Z.to_nat j) dummy false
  else getbit bs (j - zlen dummy).

Definition shifted_into_prefix (dummy : list bool) (bs : list byte) : Z :=
  Z.lor (bits_to_Z dummy) (Z.shiftl (le_combine bs) (zlen dummy)).

(** ** The float writes by format *)

Definition add_aligned_float (f : struct.format) : spec_float -> M Serializer.state unit :=
  match f with
  | struct.fmt_e => Serializer.add_aligned_f16
  | struct.fmt_f => Serializer.add_aligned_f32
  | struct.fmt_d => Serializer.add_aligned_f64
  end.

Definition add_unaligned_float (f : struct.format) : spec_float -> M Serializer.state unit :=
  match f with
  | struct.fmt_e => Serializer.add_unaligned_f16
  | struct.fmt_f => Serializer.add_unaligned_f32
  | struct.fmt_d => Serializer.add_unaligned_f64
  end.

Definition fetch_unaligned_float (f : struct.format) : M Deserializer.t spec_float :=
  match f with
  | struct.fmt_e => Deserializer.fetch_unaligned_f16
  | struct.fmt_f => Deserializer.fetch_unaligned_f32
  | struct.fmt_d => Deserializer.fetch_unaligned_f64
  end.

(** A finite value is out of the representable range of a format when
    rounding it to the format does not give a finite value (an overflow in
    the sense of IEEE 754). *)
Definition out_of_range (f : struct.format) (x : spec_float) : Prop :=
  struct.is_finite x = true /\ struct.is_finite (struct.narrow f x) = false.

(** The largest finite value of a format, as a Python [float]: [65504.0]
    for binary16. *)
Definition largest_finite (f : struct.format) : spec_float :=
  struct.widen f
    (S754_finite false (Z.to_pos (2 ^ struct.prec f - 1)) (struct.emax f - struct.prec f)).

(** Modelled from the spec: a finite value outside the representable range
    of a width, that is, greater in magnitude than the largest finite
    value of the format. *)
Definition outside_representable_range (f : struct.format) (x : spec_float) : Prop :=
  struct.is_finite x = true /\ SFltb (largest_finite f) (SFabs x) = true.

Definition sign_of (x : spec_float) : bool :=
  match x with
  | S754_zero s | S754_infinity s | S754_finite s _ _ => s
  | S754_nan => false
  end.

(** The bytes of +Inf ([negative = false]) and -Inf of a format. *)
Definition infinity_bytes (f : struct.format) (negative : bool) : list byte :=
  le_split (Z.to_nat (struct.calcsize f)) (struct.bits_of f (S754_infinity negative)).

(** ** Writing a primitive and reading it back *)

(** The primitive kinds with their widths: the integers of any width, and
    the floats of the three formats.  The value of an integer kind is a
    Python [int], the value of a float kind a Python [float]. *)
Inductive primitive : Type :=
| Unsigned (bit_length : Z)
| Signed (bit_length : Z)
| Float (f : struct.format).

Definition pyvalue (p : primitive) : Type :=
  match p with
  | Unsigned _ | Signed _ => Z
  | Float _ => spec_float
  end.

Definition bit_width (p : primitive) : Z :=
  match p with
  | Unsigned bit_length | Signed bit_length => bit_length
  | Float f => 8 * struct.calcsize f
  end.

(** The write and the read of a kind that work at any bit offset. *)
Definition add_unaligned (p : primitive) : pyvalue p -> M Serializer.state unit :=
  match p with
  | Unsigned bit_length => fun value => Serializer.add_unaligned_unsigned value bit_length
  | Signed bit_length => fun value => Serializer.add_unaligned_signed value bit_length
  | Float f => add_unaligned_float f
  end.

Definition fetch_unaligned (p : primitive) : M Deserializer.t (pyvalue p) :=
  match p with
  | Unsigned bit_length => Deserializer.fetch_unaligned_unsigned bit_length
  | Signed bit_length => Deserializer.fetch_unaligned_signed bit_length
  | Float f => fetch_unaligned_float f
  end.

(** The round trip as the unit tests do it: on a fresh serializer of
    [n] bytes write the bits [dummy] and then the value; make a
    deserializer over the buffer of the serializer, skip as many bits as
    [dummy] has, and fetch. *)
Definition write_then_read (p : primitive) (v : pyvalue p) (dummy : list bool) (n : Z)
  : result (pyvalue p) :=
  match on_new n (add_bits dummy ;; add_unaligned p v) with
  | Ok (Ok _, s) =>
      rbind (Deserializer.new [Serializer.buffer s])
            (fun d => fst ((Deserializer.skip_bits (zlen dummy) ;; fetch_unaligned p) d))
  | Ok (Raise e, _) => Raise e
  | Raise e => Raise e
  end.

(** Modelled from the spec: a value in the representable range of a kind
    and width.  For an integer the interval of the width; for a float, a
    finite binary64 value that does not overflow the format (the opposite
    of [out_of_range]). *)
Definition in_range (p : primitive) : pyvalue p -> Prop :=
  match p with
  | Unsigned w => fun z => 1 <= w /\ 0 <= z < 2 ^ w
  | Signed w => fun z => 2 <= w /\ - 2 ^ (w - 1) <= z < 2 ^ (w - 1)
  | Float f => fun x =>
      valid_binary 53 1024 x = true
      /\ struct.is_finite x = true
      /\ struct.is_finite (struct.narrow f x) = true
  end.

(** A float that the format holds exactly: rounding it to the format gives
    a value of the format, and widening that value gives the float back.
    NaN is left out, since Python's [==] is false on it. *)
Definition exactly_representable (f : struct.format) (x : spec_float) : Prop :=
  x <> S754_nan
  /\ valid_binary (struct.prec f) (struct.emax f) (struct.narrow f x) = true
  /\ struct.widen f (struct.narrow f x) = x.

(** The values that a kind and width represent: for the integers the
    interval of the width, for a float the values the format holds exactly. *)
Definition representable (p : primitive) : pyvalue p -> Prop :=
  match p with
  | Unsigned w => fun z => 1 <= w /\ 0 <= z < 2 ^ w
  | Signed w => fun z => 2 <= w /\ - 2 ^ (w - 1) <= z < 2 ^ (w - 1)
  | Float f => exactly_representable f
  end.

(** What [0.1] reads back as after a trip through binary16:
    [0.0999755859375]. *)
Definition float_0_1_as_f16 : spec_float := S754_finite false 7204000185188352 (-56).

(** ** The unsigned writes as one family *)

Inductive unsigned_write : Type :=
| Add_aligned_u8 | Add_aligned_u16 | Add_aligned_u32 | Add_aligned_u64
| Add_aligned_unsigned (bit_length : Z)
| Add_unaligned_unsigned (bit_length : Z).

Definition run_unsigned_write (op : unsigned_write) (value : Z) : M Serializer.state unit :=
  match op with
  | Add_aligned_u8 => Serializer.add_aligned_u8 value
  | Add_aligned_u16 => Serializer.add_aligned_u16 value
  | Add_aligned_u32 => Serializer.add_aligned_u32 value
  | Add_aligned_u64 => Serializer.add_aligned_u64 value
  | Add_aligned_unsigned bit_length => Serializer.add_aligned_unsigned value bit_length
  | Add_unaligned_unsigned bit_length => Serializer.add_unaligned_unsigned value bit_length
  end.

(** The methods whose first statement is [assert self._bit_offset % 8 == 0]. *)
Definition asserts_alignment_first (op : unsigned_write) : bool :=
  match op with
  | Add_aligned_u8 | Add_aligned_unsigned _ => true
  | _ => false
  end.

(** The window a fork gets: [size + 1] bytes of the parent's buffer from
    byte [bo] on. *)
Definition fork_window (a : ndarray) (bo size_ : Z) : ndarray :=
  {| base := base a + Z.to_nat bo; size := Z.to_nat (size_ + 1) |}.

(** ** What the deserializer reads from the stream *)

(** [count] bytes and [count] bits of the stream from bit [o] on, and the
    two's complement reading of [w] bits. *)
Definition stream_bytes (c : list byte) (o count : Z) : list byte :=
  le_split (Z.to_nat count) (read_bits c o (8 * count)).

Definition stream_bits (c : list byte) (o count : Z) : list bool :=
  map (fun i => getbit c (o + Z.of_nat i)) (seq 0 (Z.to_nat count)).

Definition as_signed (w u : Z) : Z :=
  if u >=? 2 ^ (w - 1) then u - 2 ^ w else u.

Definition float_of_stream (f : struct.format) (c : list byte) (o : Z) : spec_float :=
  struct.widen f (struct.of_bits f (read_bits c o (8 * struct.calcsize f))).

(** The value of each fetch as a function of the stream [c] and of the
    cursor [o]. *)
Definition fetch_value (op : fetch_op) (c : list byte) (o : Z) : fetched :=
  match op with
  | Fetch_aligned_array_of_standard_bit_length_primitives d count
  | Fetch_unaligned_array_of_standard_bit_length_primitives d count =>
      FArray (items_of_bytes d (Z.to_nat count) (stream_bytes c o (count * itemsize d)))
  | Fetch_aligned_array_of_bits count | Fetch_unaligned_array_of_bits count =>
      FBits (stream_bits c o count)
  | Fetch_aligned_bytes count | Fetch_unaligned_bytes count =>
      FBytes (stream_bytes c o count)
  | Fetch_aligned_u8 => FInt (read_bits c o 8)
  | Fetch_aligned_u16 => FInt (read_bits c o 16)
  | Fetch_aligned_u32 => FInt (read_bits c o 32)
  | Fetch_aligned_u64 => FInt (read_bits c o 64)
  | Fetch_aligned_i8 => FInt (as_signed 8 (read_bits c o 8))
  | Fetch_aligned_i16 => FInt (as_signed 16 (read_bits c o 16))
  | Fetch_aligned_i32 => FInt (as_signed 32 (read_bits c o 32))
  | Fetch_aligned_i64 => FInt (as_signed 64 (read_bits c o 64))
  | Fetch_aligned_f16 | Fetch_unaligned_f16 => FFloat (float_of_stream struct.fmt_e c o)
  | Fetch_aligned_f32 | Fetch_unaligned_f32 => FFloat (float_of_stream struct.fmt_f c o)
  | Fetch_aligned_f64 | Fetch_unaligned_f64 => FFloat (float_of_stream struct.fmt_d c o)
  | Fetch_aligned_unsigned w | Fetch_unaligned_unsigned w => FInt (read_bits c o w)
  | Fetch_aligned_signed w | Fetch_unaligned_signed w => FInt (as_signed w (read_bits c o w))
  | Fetch_unaligned_bit => FBool (getbit c o)
  end.

(** The method without the assumption of alignment that does the work of
    an aligned method, and the method of any width that does the work of
    a method of a standard width. *)
Definition unaligned_version (op : fetch_op) : fetch_op :=
  match op with
  | Fetch_aligned_array_of_standard_bit_length_primitives d count =>
      Fetch_unaligned_array_of_standard_bit_length_primitives d count
  | Fetch_aligned_array_of_bits count => Fetch_unaligned_array_of_bits count
  | Fetch_aligned_bytes count => Fetch_unaligned_bytes count
  | Fetch_aligned_u8 => Fetch_unaligned_unsigned 8
  | Fetch_aligned_u16 => Fetch_unaligned_unsigned 16
  | Fetch_aligned_u32 => Fetch_unaligned_unsigned 32
  | Fetch_aligned_u64 => Fetch_unaligned_unsigned 64
  | Fetch_aligned_i8 => Fetch_unaligned_signed 8
  | Fetch_aligned_i16 => Fetch_unaligned_signed 16
  | Fetch_aligned_i32 => Fetch_unaligned_signed 32
  | Fetch_aligned_i64 => Fetch_unaligned_signed 64
  | Fetch_aligned_f16 => Fetch_unaligned_f16
  | Fetch_aligned_f32 => Fetch_unaligned_f32
  | Fetch_aligned_f64 => Fetch_unaligned_f64
  | Fetch_aligned_unsigned w => Fetch_unaligned_unsigned w
  | Fetch_aligned_signed w => Fetch_unaligned_signed w
  | _ => op
  end.

(** Reading bits one at a time, the counterpart of [add_bits]. *)
Fixpoint fetch_bits (n : nat) : M Deserializer.t (list bool) :=
  match n with
  | O => ret []
  | S n' =>
      b <- Deserializer.fetch_unaligned_bit ;;
      r <- fetch_bits n' ;;
      ret (b :: r)
  end.

(** ** A method called on a forked serializer

    The fork is another object with its own view and its own cursor; the
    memory is shared.  [call_on child m] runs the method [m] on the child
    and gives the child after the call; the serializer at hand keeps its
    view and its cursor, and the memory is as the child left it. *)
Definition call_on {A : Type} (child : Serializer.t) (m : M Serializer.state A)
  : M Serializer.state (A * Serializer.t) :=
  fun s =>
    match m {| Serializer.mem := Serializer.mem s; Serializer.self := child |} with
    | (Ok x, s') =>
        (Ok (x, Serializer.self s'),
         {| Serializer.mem := Serializer.mem s'; Serializer.self := Serializer.self s |})
    | (Raise e, s') =>
        (Raise e,
         {| Serializer.mem := Serializer.mem s'; Serializer.self := Serializer.self s |})
    end.

(** ** The integers of a standard width

    The aligned methods for 8, 16, 32 and 64 bits, unsigned and signed,
    with the width of each. *)
Definition standard_width (op : unsigned_write) : option Z :=
  match op with
  | Add_aligned_u8 => Some 8
  | Add_aligned_u16 => Some 16
  | Add_aligned_u32 => Some 32
  | Add_aligned_u64 => Some 64
  | _ => None
  end.

Inductive standard_int : Type :=
| Std_u8 | Std_u16 | Std_u32 | Std_u64
| Std_i8 | Std_i16 | Std_i32 | Std_i64.

Definition std_width (k : standard_int) : Z :=
  match k with
  | Std_u8 | Std_i8 => 8
  | Std_u16 | Std_i16 => 16
  | Std_u32 | Std_i32 => 32
  | Std_u64 | Std_i64 => 64
  end.

Definition std_signed (k : standard_int) : bool :=
  match k with
  | Std_i8 | Std_i16 | Std_i32 | Std_i64 => true
  | _ => false
  end.

Definition add_aligned_std (k : standard_int) : Z -> M Serializer.state unit :=
  match k with
  | Std_u8 => Serializer.add_aligned_u8
  | Std_u16 => Serializer.add_aligned_u16
  | Std_u32 => Serializer.add_aligned_u32
  | Std_u64 => Serializer.add_aligned_u64
  | Std_i8 => Serializer.add_aligned_i8
  | Std_i16 => Serializer.add_aligned_i16
  | Std_i32 => Serializer.add_aligned_i32
  | Std_i64 => Serializer.add_aligned_i64
  end.

Definition fetch_aligned_std (k : standard_int) : M Deserializer.t Z :=
  match k with
  | Std_u8 => Deserializer.fetch_aligned_u8
  | Std_u16 => Deserializer.fetch_aligned_u16
  | Std_u32 => Deserializer.fetch_aligned_u32
  | Std_u64 => Deserializer.fetch_aligned_u64
  | Std_i8 => Deserializer.fetch_aligned_i8
  | Std_i16 => Deserializer.fetch_aligned_i16
  | Std_i32 => Deserializer.fetch_aligned_i32
  | Std_i64 => Deserializer.fetch_aligned_i64
  end.

(** The values of the kind: [0, 2^w) unsigned, [-2^(w-1), 2^(w-1)) signed. *)
Definition std_in_range (k : standard_int) (x : Z) : Prop :=
  if std_signed k
  then - 2 ^ (std_width k - 1) <= x < 2 ^ (std_width k - 1)
  else 0 <= x < 2 ^ std_width k.

(** ** The aligned write and read of a primitive *)

Definition fetch_aligned_float (f : struct.format) : M Deserializer.t spec_float :=
  match f with
  | struct.fmt_e => Deserializer.fetch_aligned_f16
  | struct.fmt_f => Deserializer.fetch_aligned_f32
  | struct.fmt_d => Deserializer.fetch_aligned_f64
  end.

Definition add_aligned (p : primitive) : pyvalue p -> M Serializer.state unit :=
  match p with
  | Unsigned bit_length => fun value => Serializer.add_aligned_unsigned value bit_length
  | Signed bit_length => fun value => Serializer.add_aligned_signed value bit_length
  | Float f => add_aligned_float f
  end.

Definition fetch_aligned (p : primitive) : M Deserializer.t (pyvalue p) :=
  match p with
  | Unsigned bit_length => Deserializer.fetch_aligned_unsigned bit_length
  | Signed bit_length => Deserializer.fetch_aligned_signed bit_length
  | Float f => fetch_aligned_float f
  end.

(** ** A message of several fields

    The fields of a message, each a primitive kind with its value,
    written one after the other with the unaligned methods and read in
    the same order. *)
Definition field : Type := { p : primitive & pyvalue p }.

Definition field_kind (f : field) : primitive := projT1 f.

Definition add_field (f : field) : M Serializer.state unit :=
  add_unaligned (projT1 f) (projT2 f).

Definition fetch_field (p : primitive) : M Deserializer.t field :=
  fmap (fun v => @existT primitive pyvalue p v) (fetch_unaligned p).

Fixpoint add_message (msg : list field) : M Serializer.state unit :=
  match msg with
  | [] => ret tt
  | f :: rest => add_field f ;; add_message rest
  end.

Fixpoint fetch_message (kinds : list primitive) : M Deserializer.t (list field) :=
  match kinds with
  | [] => ret []
  | p :: rest =>
      f <- fetch_field p ;;
      r <- fetch_message rest ;;
      ret (f :: r)
  end.

Definition message_bits (msg : list field) : Z :=
  fold_right (fun f acc => bit_width (field_kind f) + acc) 0 msg.

Definition field_representable (f : field) : Prop :=
  representable (projT1 f) (projT2 f).

(** The bits of a field as an integer of [bit_width] bits, and the value
    that such an integer stands for. *)
Definition encode (p : primitive) : pyvalue p -> Z :=
  match p with
  | Unsigned w => fun v => v mod 2 ^ w
  | Signed w => fun v => v mod 2 ^ w
  | Float f => fun x => struct.bits_of f (struct.narrow f x)
  end.

Definition decode (p : primitive) : Z -> pyvalue p :=
  match p with
  | Unsigned w => fun u => u
  | Signed w => fun u => as_signed w u
  | Float f => fun u => struct.widen f (struct.of_bits f u)
  end.

(** No bit is set at or after the bit [o]: the state of the destination
    buffer from the cursor on. *)
Definition clean (c : list byte) (o : Z) : Prop :=
  forall j, o <= j -> getbit c j = false.

(** The stream [c] holds the fields of [msg] from bit [o] on. *)
Fixpoint fields_at (c : list byte) (o : Z) (msg : list field) : Prop :=
  match msg with
  | [] => True
  | f :: rest =>
      read_bits c o (bit_width (field_kind f)) = encode (projT1 f) (projT2 f)
      /\ fields_at c (o + bit_width (field_kind f)) rest
  end.

(** ** The top-level [serialize]

    An instance of a class derived from [CompositeObject], as far as
    [serialize] looks at it: the attribute [_EXTENT_BYTES_] and the method
    [_serialize_].  [serialize] is a generator that yields one fragment;
    run to its end it gives the list of what it yields, or the exception
    raised on the way. *)
Record CompositeInstance : Type := {
  _EXTENT_BYTES_ : Z;
  _serialize_ : M Serializer.state unit
}.

Definition serialize (obj : CompositeInstance) : result (list (list byte)) :=
  rbind (Serializer.new (_EXTENT_BYTES_ obj))
    (fun ser =>
       match _serialize_ obj ser with
       | (Ok _, ser') => Ok [Serializer.buffer ser']
       | (Raise e, _) => Raise e
       end).

(** A class generated for a type with the fields [kinds], and an instance
    of it with the values [msg]: the generated methods write and read the
    fields in order. *)
Definition message_class (full_name : string) (kinds : list primitive)
  : CompositeObject (list field) :=
  {| _MODEL_ := Some (PyCompositeType full_name);
     _deserialize_ := fetch_message kinds |}.

Definition message_instance (extent_bytes : Z) (msg : list field) : CompositeInstance :=
  {| _EXTENT_BYTES_ := extent_bytes;
     _serialize_ := add_message msg |}.

(** ** Attributes by their DSDL names

    An object as [getattr], [hasattr] and [setattr] see it when its
    attributes are plain values: a map from the names of the attributes
    to their values.  [getattr] of a name that is absent raises
    [AttributeError], [hasattr] is [getattr] without the exception, and
    [setattr] binds the name, whether it was bound or not. *)
Definition namespace (V : Type) : Type := string -> option V.

Definition getattr {V : Type} (obj : namespace V) (name : string) : result V :=
  match obj name with
  | Some value => Ok value
  | None => Raise AttributeError
  end.

Definition hasattr {V : Type} (obj : namespace V) (name : string) : bool :=
  match getattr obj name with
  | Ok _ => true
  | Raise _ => false
  end.

Definition setattr {V : Type} (obj : namespace V) (name : string) (value : V)
  : namespace V :=
  fun n => if String.eqb n name then Some value else obj n.

Definition get_attribute {V : Type} (obj : namespace V) (name : string) : result V :=
  match getattr obj name with
  | Raise AttributeError => getattr obj (name ++ "_")
  | out => out
  end.

Definition set_attribute {V : Type} (obj : namespace V) (name : string) (value : V)
  : result (namespace V) :=
  let suffixed := (name ++ "_")%string in
  if hasattr obj name then Ok (setattr obj name value)
  else if hasattr obj suffixed then Ok (setattr obj suffixed value)
  else Raise AttributeError.

(** An object with the attributes [value] and [def_] ([def] is a reserved
    word of Python). *)
Definition sample_object : namespace Z :=
  fun n => if String.eqb n "value" then Some 1
           else if String.eqb n "def_" then Some 2
           else None.

(** ** Sample data *)

Definition sample_deserializer : Deserializer.t :=
  {| Deserializer._buf := {| ZeroExtendingBuffer._buf := [Byte.xda; Byte.xfe; Byte.xff] |};
     Deserializer._bit_offset := 0 |}.

(** The same input after [skip_bits 3]. *)
Definition sample_unaligned : Deserializer.t :=
  {| Deserializer._buf := {| ZeroExtendingBuffer._buf := [Byte.xda; Byte.xfe; Byte.xff] |};
     Deserializer._bit_offset := 3 |}.

(** Three bytes of input, all consumed (the state after [skip_bits 24]). *)
Definition sample_exhausted : Deserializer.t :=
  {| Deserializer._buf := {| ZeroExtendingBuffer._buf := [Byte.x01; Byte.x02; Byte.x03] |};
     Deserializer._bit_offset := 24 |}.

(** Three bytes of input and a cursor far past them, on a byte whose index
    does not fit a [ssize_t] (the states after [skip_bits (2 ** 66)] and
    after [skip_bits (2 ** 66 + 1)]). *)
Definition sample_far : Deserializer.t :=
  {| Deserializer._buf := {| ZeroExtendingBuffer._buf := [Byte.x01; Byte.x02; Byte.x03] |};
     Deserializer._bit_offset := 2 ^ 66 |}.

Definition sample_far_unaligned : Deserializer.t :=
  {| Deserializer._buf := {| ZeroExtendingBuffer._buf := [Byte.x01; Byte.x02; Byte.x03] |};
     Deserializer._bit_offset := 2 ^ 66 + 1 |}.

(** The cursor [o] is at or past the end of the data [c]. *)
Definition past_end (c : list byte) (o : Z) : Prop := 8 * zlen c <= o.

(** A class as generated for a tagged union with two alternatives: the
    deserialization routine reads the tag and rejects a tag out of range. *)
Definition sample_class : CompositeObject Z :=
  {| _MODEL_ := Some (PyCompositeType "sample.Tagged.1.0");
     _deserialize_ :=
       tag <- Deserializer.fetch_aligned_u8 ;;
       if tag >? 1 then raise FormatError else ret tag |}.

(** The serializer [Serializer.new 16] after one byte has been written. *)
Definition sample_serializer : Serializer.state :=
  {| Serializer.mem := Byte.x7b :: replicate 16 Byte.x00;
     Serializer.self := {| Serializer._buf := {| base := 0; size := 17 |};
                           Serializer._bit_offset := 8 |} |}.

(** The body of the loop of [_unsigned_from_bytes]. *)
Definition from_bytes_body (x : list byte) : Z -> Z -> result Z :=
  fun i out => rbind (getitem x i)
                 (fun xi => Ok (Z.lor out (Z.shiftl (byte.unsigned xi) (i * 8)))).

(** * Properties *)

(** ** Bytes and bit streams *)

Lemma byte_testbit_high (b : byte) (i : Z) : 8 <= i -> Z.testbit (byte.unsigned b) i = false.
Proof.
  intros Hi. pose proof (byte.unsigned_range b) as Hb.
  destruct (Z.eq_dec (byte.unsigned b) 0) as [->|Hne]; [apply Z.testbit_0_l|].
  apply Z.bits_above_log2; [lia|].
  assert (Z.log2 (byte.unsigned b) < 8); [|lia].
  apply Z.log2_lt_pow2; lia.
Qed.

Lemma byte_at_nil i : byte_at [] i = 0.
Proof. unfold byte_at. destruct (i <? 0); [reflexivity|]. destruct (Z.to_nat i); reflexivity. Qed.

Lemma byte_at_cons_0 b c : byte_at (b :: c) 0 = byte.unsigned b.
Proof. reflexivity. Qed.

Lemma byte_at_cons_pos b c i : 0 < i -> byte_at (b :: c) i = byte_at c (i - 1).
Proof.
  intros Hi. unfold byte_at.
  destruct (Z.ltb_spec i 0); [lia|]. destruct (Z.ltb_spec (i - 1) 0); [lia|].
  replace (Z.to_nat i) with (S (Z.to_nat (i - 1))) by lia. reflexivity.
Qed.

Lemma byte_at_range c i : 0 <= byte_at c i < 256.
Proof.
  unfold byte_at. destruct (i <? 0); [lia|]. apply byte.unsigned_range.
Qed.

Lemma testbit_le_combine c : forall j, 0 <= j ->
  Z.testbit (le_combine c) j = getbit c j.
Proof.
  unfold getbit.
  induction c as [|b c IH]; intros j Hj.
  - change (le_combine []) with 0. rewrite byte_at_nil, !Z.testbit_0_l. reflexivity.
  - change (le_combine (b :: c)) with (Z.lor (byte.unsigned b) (Z.shiftl (le_combine c) 8)).
    rewrite Z.lor_spec.
    destruct (Z.ltb_spec j 8) as [Hlt|Hge].
    + rewrite Z.shiftl_spec_low by lia. rewrite orb_false_r.
      rewrite Z.div_small, Z.mod_small by lia. reflexivity.
    + rewrite byte_testbit_high by lia. rewrite Z.shiftl_spec by lia.
      rewrite IH by lia. cbn [orb].
      rewrite byte_at_cons_pos by (apply Z.div_str_pos; lia).
      replace ((j - 8) / 8) with (j / 8 - 1) by (Z.div_mod_to_equations; lia).
      replace ((j - 8) mod 8) with (j mod 8) by (Z.div_mod_to_equations; lia).
      reflexivity.
Qed.

Lemma zlen_nonneg {A} (l : list A) : 0 <= zlen l.
Proof. unfold zlen. lia. Qed.

Lemma nth_lookup_byte (c : list byte) (n : nat) :
  c !! n = Some (nth n c Byte.x00) \/ (c !! n = None /\ (length c <= n)%nat).
Proof.
  destruct (c !! n) eqn:E.
  - left. f_equal. symmetry. apply nth_lookup_Some with (d := Byte.x00) in E. exact E.
  - right. split; [reflexivity|]. apply lookup_ge_None. exact E.
Qed.

Lemma ssize_max_value : ssize_max = 9223372036854775807.
Proof. reflexivity. Qed.

Lemma fits_ssize_spec (i : Z) :
  fits_ssize i = true <-> - ssize_max - 1 <= i <= ssize_max.
Proof. unfold fits_ssize. rewrite andb_true_iff, !Z.leb_le. tauto. Qed.

Lemma addressable_le (c : list byte) (i j : Z) :
  addressable c i -> j <= i -> addressable c j.
Proof. unfold addressable. intros [H|H] Hj; [left; lia | right; exact H]. Qed.

Lemma addressable_inside (c : list byte) (i : Z) : i <= zlen c -> addressable c i.
Proof.
  unfold addressable. intros H.
  destruct (Z.le_gt_cases (zlen c) ssize_max); [left; lia | right; lia].
Qed.

Lemma addressable_small (c : list byte) (i : Z) : i <= ssize_max -> addressable c i.
Proof. intros H. left. exact H. Qed.

Lemma getitem_nonneg (c : list byte) (i : Z) :
  0 <= i -> addressable c i ->
  getitem c i = if i <? zlen c then Ok (nth (Z.to_nat i) c Byte.x00) else Raise IndexError.
Proof.
  intros Hi Ha. unfold getitem, index_pos. fold (zlen c).
  destruct (Z.leb_spec 0 i); [|lia].
  destruct (Z.ltb_spec i (zlen c)); cbn [andb rbind].
  - destruct (nth_lookup_byte c (Z.to_nat i)) as [->|[_ Hl]];
      [reflexivity | unfold zlen in *; lia].
  - destruct (Z.ltb_spec i 0); [lia|]. rewrite andb_false_r.
    replace (fits_ssize i || negb (fits_ssize (zlen c))) with true; [reflexivity|].
    symmetry. apply orb_true_iff. destruct Ha as [Ha|Ha].
    + left. apply fits_ssize_spec. unfold ssize_max in *. lia.
    + right. apply negb_true_iff. apply not_true_is_false. intros F.
      apply fits_ssize_spec in F. lia.
Qed.

(** An index past the end that does not fit a [ssize_t]. *)
Lemma getitem_overflow (c : list byte) (i : Z) :
  zlen c <= ssize_max < i -> getitem c i = Raise OverflowError.
Proof.
  intros H. unfold getitem, index_pos.
  assert (Hz : 0 <= zlen c) by (unfold zlen; lia).
  assert (Hs : 0 < ssize_max) by reflexivity.
  destruct (Z.leb_spec 0 i); [|lia].
  destruct (Z.ltb_spec i (zlen c)); [lia|]. cbn [andb].
  destruct (Z.ltb_spec i 0); [lia|]. rewrite andb_false_r.
  replace (fits_ssize i) with false
    by (symmetry; apply not_true_is_false; intros F; apply fits_ssize_spec in F; lia).
  replace (fits_ssize (zlen c)) with true by (symmetry; apply fits_ssize_spec; lia).
  reflexivity.
Qed.

Lemma get_byte_spec (b : ZeroExtendingBuffer.t) (i : Z) :
  0 <= i -> addressable (ZeroExtendingBuffer._buf b) i ->
  ZeroExtendingBuffer.get_byte b i = Ok (byte_at (ZeroExtendingBuffer._buf b) i).
Proof.
  intros Hi Ha. unfold ZeroExtendingBuffer.get_byte, byte_at.
  destruct (Z.ltb_spec i 0); [lia|].
  rewrite getitem_nonneg by (lia || assumption).
  destruct (Z.ltb_spec i (zlen (ZeroExtendingBuffer._buf b))); [reflexivity|].
  rewrite nth_overflow by (unfold zlen in *; lia). reflexivity.
Qed.

Lemma get_byte_neg (b : ZeroExtendingBuffer.t) (i : Z) :
  i < 0 -> ZeroExtendingBuffer.get_byte b i = Raise ValueError.
Proof.
  intros Hi. unfold ZeroExtendingBuffer.get_byte.
  destruct (Z.ltb_spec i 0); [reflexivity|lia].
Qed.

Lemma slice_bound_nonneg n i : 0 <= n -> 0 <= i -> slice_bound n i = Z.min i n.
Proof. intros. unfold slice_bound. destruct (Z.ltb_spec i 0); [lia|reflexivity]. Qed.

Lemma length_zeros n : length (zeros n) = Z.to_nat n.
Proof. unfold zeros. apply length_replicate. Qed.

Lemma length_window c l n : length (window c l n) = Z.to_nat n.
Proof.
  unfold window. rewrite length_take, length_app, length_zeros. lia.
Qed.

Lemma get_unsigned_slice_spec (b : ZeroExtendingBuffer.t) (l r : Z) :
  0 <= l <= r ->
  ZeroExtendingBuffer.get_unsigned_slice b l r
  = Ok (window (ZeroExtendingBuffer._buf b) l (r - l)).
Proof.
  intros [Hl Hr]. unfold ZeroExtendingBuffer.get_unsigned_slice.
  destruct (Z.leb_spec 0 l); [|lia]. destruct (Z.leb_spec l r); [|lia].
  cbn [andb negb]. destruct (Z.geb_spec (r - l) 0); [|lia]. cbn [negb].
  set (c := ZeroExtendingBuffer._buf b).
  pose proof (zlen_nonneg c) as Hc.
  assert (Hs : getslice c l r = take (Z.to_nat (r - l)) (drop (Z.to_nat l) c)).
  { unfold getslice. rewrite !slice_bound_nonneg by lia.
    unfold zlen in *.
    destruct (Z.le_gt_cases l (Z.of_nat (length c))) as [Hle|Hgt].
    - rewrite (Z.min_l l) by lia.
      destruct (Z.le_gt_cases r (Z.of_nat (length c))).
      + rewrite Z.min_l by lia. reflexivity.
      + rewrite Z.min_r by lia.
        rewrite !take_ge; [reflexivity | rewrite length_drop; lia | rewrite length_drop; lia].
    - rewrite !Z.min_r by lia. rewrite !drop_ge by lia. rewrite !take_nil. reflexivity. }
  rewrite Hs.
  set (out := take (Z.to_nat (r - l)) (drop (Z.to_nat l) c)).
  assert (Hlen : zlen out = Z.min (r - l) (Z.max 0 (zlen c - l))).
  { unfold out, zlen. rewrite length_take, length_drop. lia. }
  assert (Hw : window c l (r - l) = out ++ zeros (r - l - zlen out)).
  { unfold window, out. unfold zlen in *.
    rewrite take_app. f_equal.
    unfold zeros. rewrite take_replicate. f_equal.
    rewrite length_take, !length_drop. lia. }
  destruct (Z.ltb_spec (zlen out) (r - l)).
  - destruct (Z.eqb_spec (zlen (out ++ zeros (r - l - zlen out))) (r - l)) as [|Hne].
    + cbn [negb]. rewrite Hw. reflexivity.
    + exfalso. apply Hne. unfold zlen in *. rewrite length_app, length_zeros. lia.
  - destruct (Z.eqb_spec (zlen out) (r - l)) as [|Hne]; [|lia].
    cbn [negb]. rewrite Hw. replace (r - l - zlen out) with 0 by lia.
    unfold zeros. cbn. rewrite app_nil_r. reflexivity.
Qed.

Lemma byte_at_lookup (c : list byte) (i : Z) :
  0 <= i ->
  byte_at c i = match c !! Z.to_nat i with
                | Some b => byte.unsigned b
                | None => 0
                end.
Proof.
  intros Hi. unfold byte_at. destruct (Z.ltb_spec i 0); [lia|].
  rewrite nth_lookup. destruct (c !! Z.to_nat i); reflexivity.
Qed.

Lemma byte_at_neg (c : list byte) (i : Z) : i < 0 -> byte_at c i = 0.
Proof. intros Hi. unfold byte_at. destruct (Z.ltb_spec i 0); [reflexivity|lia]. Qed.

Lemma byte_at_overflow (c : list byte) (i : Z) : zlen c <= i -> byte_at c i = 0.
Proof.
  intros Hi. pose proof (zlen_nonneg c). rewrite byte_at_lookup by lia.
  rewrite lookup_ge_None_2; [reflexivity|]. unfold zlen in *. lia.
Qed.

Lemma byte_at_take (c : list byte) (n i : Z) :
  0 <= n ->
  byte_at (take (Z.to_nat n) c) i = if i <? n then byte_at c i else 0.
Proof.
  intros Hn. destruct (Z.ltb_spec i 0) as [Hneg|Hpos].
  - rewrite !byte_at_neg by lia. destruct (i <? n); reflexivity.
  - rewrite !byte_at_lookup by lia. destruct (Z.ltb_spec i n).
    + rewrite lookup_take_lt by lia. reflexivity.
    + rewrite lookup_take_ge by lia. reflexivity.
Qed.

Lemma byte_at_drop (c : list byte) (l i : Z) :
  0 <= l -> 0 <= i ->
  byte_at (drop (Z.to_nat l) c) i = byte_at c (l + i).
Proof.
  intros Hl Hi. rewrite !byte_at_lookup by lia. rewrite lookup_drop.
  replace (Z.to_nat l + Z.to_nat i)%nat with (Z.to_nat (l + i)) by lia.
  reflexivity.
Qed.

Lemma byte_at_app_zeros (c : list byte) (n i : Z) :
  byte_at (c ++ zeros n) i = byte_at c i.
Proof.
  destruct (Z.ltb_spec i 0) as [Hneg|Hpos].
  - rewrite !byte_at_neg by lia. reflexivity.
  - rewrite !byte_at_lookup by lia.
    destruct (Nat.lt_ge_cases (Z.to_nat i) (length c)) as [Hlt|Hge].
    + rewrite lookup_app_l by lia. reflexivity.
    + rewrite lookup_app_r by lia. rewrite (lookup_ge_None_2 c) by lia.
      unfold zeros. destruct (replicate (Z.to_nat n) Byte.x00 !! (Z.to_nat i - length c)%nat) eqn:E.
      * apply lookup_replicate in E. destruct E as [-> _]. reflexivity.
      * reflexivity.
Qed.

Lemma byte_at_window (c : list byte) (l n i : Z) :
  0 <= l -> 0 <= n -> 0 <= i ->
  byte_at (window c l n) i = if i <? n then byte_at c (l + i) else 0.
Proof.
  intros Hl Hn Hi. unfold window.
  rewrite byte_at_take by lia. destruct (Z.ltb_spec i n); [|reflexivity].
  rewrite byte_at_app_zeros, byte_at_drop by lia. reflexivity.
Qed.

Lemma getbit_neg (c : list byte) (j : Z) : j < 0 -> getbit c j = false.
Proof.
  intros Hj. unfold getbit. rewrite byte_at_neg; [apply Z.testbit_0_l|].
  apply Z.div_lt_upper_bound; lia.
Qed.

Lemma getbit_take (c : list byte) (n j : Z) :
  0 <= n ->
  getbit (take (Z.to_nat n) c) j = (j <? 8 * n) && getbit c j.
Proof.
  intros Hn. unfold getbit. rewrite byte_at_take by lia.
  destruct (Z.ltb_spec (j / 8) n); destruct (Z.ltb_spec j (8 * n));
    try (exfalso; Z.div_mod_to_equations; lia); cbn [andb].
  - reflexivity.
  - apply Z.testbit_0_l.
Qed.

Lemma getbit_window (c : list byte) (l n j : Z) :
  0 <= l -> 0 <= n -> 0 <= j ->
  getbit (window c l n) j = (j <? 8 * n) && getbit c (8 * l + j).
Proof.
  intros Hl Hn Hj. unfold getbit.
  rewrite byte_at_window by (try apply Z.div_pos; lia).
  replace ((8 * l + j) / 8) with (l + j / 8) by (Z.div_mod_to_equations; lia).
  replace ((8 * l + j) mod 8) with (j mod 8) by (Z.div_mod_to_equations; lia).
  destruct (Z.ltb_spec (j / 8) n); destruct (Z.ltb_spec j (8 * n));
    try (exfalso; Z.div_mod_to_equations; lia); cbn [andb].
  - reflexivity.
  - apply Z.testbit_0_l.
Qed.

Lemma getbit_overflow (c : list byte) (j : Z) : 8 * zlen c <= j -> getbit c j = false.
Proof.
  intros Hj. unfold getbit. rewrite byte_at_overflow; [apply Z.testbit_0_l|].
  Z.div_mod_to_equations; lia.
Qed.

(** bits of [read_bits] *)
Lemma testbit_read_bits (c : list byte) (o w j : Z) :
  0 <= o -> 0 <= w -> 0 <= j ->
  Z.testbit (read_bits c o w) j = (j <? w) && getbit c (o + j).
Proof.
  intros Ho Hw Hj. unfold read_bits.
  rewrite Z.land_spec, Z.shiftr_spec by lia.
  rewrite testbit_le_combine by lia.
  rewrite Z.testbit_ones_nonneg by lia.
  replace (j + o) with (o + j) by lia. apply andb_comm.
Qed.

Lemma read_bits_range (c : list byte) (o w : Z) :
  0 <= w -> 0 <= read_bits c o w < 2 ^ w.
Proof.
  intros Hw. unfold read_bits. rewrite Z.land_ones by lia.
  apply Z.mod_pos_bound. apply Z.pow_pos_nonneg; lia.
Qed.


Lemma le_combine_cons b c :
  le_combine (b :: c) = Z.lor (byte.unsigned b) (Z.shiftl (le_combine c) 8).
Proof. reflexivity. Qed.

Lemma for_range_from_lor (x : list byte) :
  forall (n : nat) (i acc : Z),
    0 <= i -> i + Z.of_nat n <= zlen x ->
    for_range_from i n (from_bytes_body x) acc
    = Ok (Z.lor acc (Z.shiftl (le_combine (take n (drop (Z.to_nat i) x))) (8 * i))).
Proof.
  induction n as [|n IH]; intros i acc Hi Hlen.
  - cbn [for_range_from]. rewrite take_0. change (le_combine []) with 0.
    rewrite Z.shiftl_0_l, Z.lor_0_r. reflexivity.
  - cbn [for_range_from]. unfold from_bytes_body at 1.
    rewrite getitem_nonneg by (try apply addressable_inside; lia).
    destruct (Z.ltb_spec i (zlen x)); [|lia]. cbn [rbind].
    rewrite IH by lia.
    assert (Hd : drop (Z.to_nat i) x = nth (Z.to_nat i) x Byte.x00 :: drop (Z.to_nat (i + 1)) x).
    { replace (Z.to_nat (i + 1)) with (S (Z.to_nat i)) by lia.
      apply drop_S. destruct (nth_lookup_byte x (Z.to_nat i)) as [E|[_ E]]; [exact E|].
      unfold zlen in *. lia. }
    rewrite Hd. rewrite firstn_cons, le_combine_cons.
    f_equal. rewrite Z.shiftl_lor, Z.shiftl_shiftl by lia.
    rewrite <- Z.lor_assoc. f_equal. f_equal; [f_equal; lia|f_equal; lia].
Qed.

Lemma unsigned_from_bytes_spec (x : list byte) (w : Z) :
  1 <= w -> (w + 7) / 8 <= zlen x ->
  Deserializer._unsigned_from_bytes x w = Ok (Z.land (le_combine x) (Z.ones w)).
Proof.
  intros Hw Hlen. unfold Deserializer._unsigned_from_bytes.
  destruct (Z.geb_spec w 1); [|lia]. cbn [negb].
  set (nb := (w + 7) / 8) in *.
  assert (Hnb : 1 <= nb) by (unfold nb; Z.div_mod_to_equations; lia).
  destruct (Z.gtb_spec nb 0); [|lia]. cbn [negb].
  destruct (Z.geb_spec (zlen x) nb); [|lia]. cbn [negb].
  unfold for_range. fold (from_bytes_body x).
  rewrite for_range_from_lor by lia. cbn [rbind].
  rewrite Z.lor_0_l, Z.shiftl_0_r.
  change (Z.to_nat 0) with 0%nat. rewrite drop_0.
  set (mask := if negb (w mod 8 =? 0) then 2 ^ (w mod 8) - 1 else 255).
  assert (Hmask : exists r, 1 <= r <= 8 /\ mask = Z.ones r /\ w = 8 * (nb - 1) + r).
  { unfold mask. destruct (Z.eqb_spec (w mod 8) 0) as [E|E]; cbn [negb].
    - exists 8. repeat split; try lia. unfold nb. Z.div_mod_to_equations; lia.
    - exists (w mod 8). rewrite Z.ones_equiv, <- Z.sub_1_r.
      repeat split; try (Z.div_mod_to_equations; lia).
      unfold nb. Z.div_mod_to_equations; lia. }
  destruct Hmask as (r & Hr & Hm & Hwr).
  assert (Hex : existsb (Z.eqb mask) [1; 3; 7; 15; 31; 63; 127; 255] = true).
  { rewrite Hm.
    assert (Hc : r = 1 \/ r = 2 \/ r = 3 \/ r = 4 \/ r = 5 \/ r = 6 \/ r = 7 \/ r = 8) by lia.
    destruct Hc as [->|[->|[->|[->|[->|[->|[->| ->]]]]]]]; reflexivity. }
  rewrite Hex. cbn [negb].
  rewrite getitem_nonneg by (try apply addressable_inside; lia).
  destruct (Z.ltb_spec (nb - 1) (zlen x)); [|lia]. cbn [rbind].
  set (out := Z.lor _ _).
  assert (Hout : out = Z.land (le_combine x) (Z.ones w)).
  { unfold out. apply Z.bits_inj'. intros j Hj.
    rewrite Z.lor_spec, Z.land_spec, Z.shiftl_spec, Z.land_spec by lia.
    rewrite !testbit_le_combine by lia.
    rewrite Z.testbit_ones_nonneg by lia.
    rewrite getbit_take by lia. rewrite Hm.
    destruct (Z.ltb_spec j (8 * (nb - 1))) as [Hlo|Hhi].
    - rewrite (Z.testbit_neg_r _ (j - (nb - 1) * 8)) by lia.
      destruct (Z.ltb_spec j w); [|lia]. cbn [andb]. rewrite orb_false_r, andb_true_r.
      reflexivity.
    - cbn [andb orb].
      rewrite Z.testbit_ones_nonneg by lia.
      destruct (Z.ltb_spec j w) as [Hjw|Hjw];
        destruct (Z.ltb_spec (j - (nb - 1) * 8) r) as [Hjr|Hjr]; try (exfalso; lia).
      2: { rewrite !andb_false_r. reflexivity. }
      rewrite !andb_true_r. unfold getbit.
      replace (j / 8) with (nb - 1) by (Z.div_mod_to_equations; lia).
      replace (j mod 8) with (j - (nb - 1) * 8) by (Z.div_mod_to_equations; lia).
      unfold byte_at. destruct (Z.ltb_spec (nb - 1) 0); [lia|]. reflexivity. }
  rewrite Hout.
  pose proof (Z.land_nonneg (le_combine x) (Z.ones w)) as Hnn.
  assert (Hrange : 0 <= Z.land (le_combine x) (Z.ones w) < 2 ^ w).
  { rewrite Z.land_ones by lia. apply Z.mod_pos_bound. apply Z.pow_pos_nonneg; lia. }
  destruct (Z.leb_spec 0 (Z.land (le_combine x) (Z.ones w))); [|lia].
  destruct (Z.ltb_spec (Z.land (le_combine x) (Z.ones w)) (2 ^ w)); [|lia].
  reflexivity.
Qed.

Ltac mred :=
  cbv beta iota delta [bind ret raise get put modify lift assert_ _ensure_cardinal
                       Deserializer.advance Deserializer.skip_bits
                       Deserializer._byte_offset Deserializer._bit_offset Deserializer._buf].

(** A deserializer over the buffer [b] with its cursor at bit [o]. *)
Local Notation "'DS' b o" :=
  {| Deserializer._buf := b; Deserializer._bit_offset := o |}
  (at level 10, b at level 9, o at level 9).

Lemma testbit_byte_of_Z (v j : Z) :
  0 <= j ->
  Z.testbit (byte.unsigned (byte.of_Z v)) j = (j <? 8) && Z.testbit v j.
Proof.
  intros Hj. rewrite byte.unsigned_of_Z. unfold byte.wrap.
  apply Z.testbit_mod_pow2. lia.
Qed.

Lemma unaligned_byte_bits (lo hi right j : Z) :
  0 <= lo < 256 -> 1 <= right <= 7 -> 0 <= j ->
  Z.testbit (Z.lor (Z.shiftr lo right) (Z.land (Z.shiftl hi (8 - right)) 255)) j
  = if j <? 8 - right then Z.testbit lo (j + right)
    else if j <? 8 then Z.testbit hi (j - (8 - right)) else false.
Proof.
  intros Hlo Hr Hj. change 255 with (Z.ones 8).
  rewrite Z.lor_spec, Z.land_spec, Z.shiftr_spec, Z.testbit_ones_nonneg by lia.
  destruct (Z.ltb_spec j (8 - right)).
  - rewrite Z.shiftl_spec_low by lia. apply orb_false_r.
  - assert (Hhigh : Z.testbit lo (j + right) = false).
    { destruct (Z.eq_dec lo 0) as [->|Hne]; [apply Z.testbit_0_l|].
      apply Z.bits_above_log2; [lia|].
      assert (Z.log2 lo < 8) by (apply Z.log2_lt_pow2; lia). lia. }
    rewrite Hhigh. cbn [orb]. rewrite Z.shiftl_spec by lia.
    destruct (Z.ltb_spec j 8); [apply andb_true_r|apply andb_false_r].
Qed.

Lemma fetch_unaligned_bytes_loop_spec (b : ZeroExtendingBuffer.t) (right : Z) :
  1 <= right <= 7 ->
  forall (n : nat) (o : Z),
    0 <= o -> o mod 8 = right ->
    addressable (ZeroExtendingBuffer._buf b) (o / 8 + Z.of_nat n) ->
    exists out,
      Deserializer.fetch_unaligned_bytes_loop n right (8 - right) (DS b o)
      = (Ok out, DS b (o + 8 * Z.of_nat n))
      /\ length out = n
      /\ le_combine out = read_bits (ZeroExtendingBuffer._buf b) o (8 * Z.of_nat n).
Proof.
  intros Hr. induction n as [|n IH]; intros o Ho Hmod Ha.
  - exists []. cbn [Deserializer.fetch_unaligned_bytes_loop]. mred.
    replace (o + 8 * Z.of_nat 0) with o by lia.
    repeat split. unfold read_bits. change (8 * Z.of_nat 0) with 0.
    change (Z.ones 0) with 0. rewrite Z.land_0_r. reflexivity.
  - cbn [Deserializer.fetch_unaligned_bytes_loop]. mred.
    assert (Hbo : 0 <= o / 8) by (apply Z.div_pos; lia).
    rewrite !get_byte_spec by (try (apply (addressable_le _ _ _ Ha)); lia).
    destruct (IH (o + 8)) as (rest & Hrest & Hlen & Hval); [lia| | |].
    { rewrite <- Hmod. Z.div_mod_to_equations; lia. }
    { apply (addressable_le _ _ _ Ha). Z.div_mod_to_equations; lia. }
    rewrite Hrest.
    eexists. split; [|split].
    + f_equal. f_equal. lia.
    + cbn [length]. rewrite Hlen. reflexivity.
    + set (c := ZeroExtendingBuffer._buf b) in *.
      rewrite le_combine_cons, Hval.
      apply Z.bits_inj'. intros j Hj.
      rewrite Z.lor_spec, testbit_byte_of_Z by lia.
      rewrite unaligned_byte_bits by (try apply byte_at_range; lia).
      rewrite (testbit_read_bits c o) by lia.
      destruct (Z.ltb_spec j 8) as [Hj8|Hj8].
      * rewrite Z.shiftl_spec_low by lia. rewrite orb_false_r. cbn [andb].
        destruct (Z.ltb_spec j (8 * Z.of_nat (S n))); [|lia]. cbn [andb].
        unfold getbit.
        destruct (Z.ltb_spec j (8 - right)).
        -- replace ((o + j) / 8) with (o / 8) by (Z.div_mod_to_equations; lia).
           replace ((o + j) mod 8) with (j + right) by (Z.div_mod_to_equations; lia).
           reflexivity.
        -- replace ((o + j) / 8) with (o / 8 + 1) by (Z.div_mod_to_equations; lia).
           replace ((o + j) mod 8) with (j - (8 - right)) by (Z.div_mod_to_equations; lia).
           reflexivity.
      * cbn [andb orb]. rewrite Z.shiftl_spec by lia.
        rewrite testbit_read_bits by lia.
        replace (o + 8 + (j - 8)) with (o + j) by lia.
        destruct (Z.ltb_spec (j - 8) (8 * Z.of_nat n));
          destruct (Z.ltb_spec j (8 * Z.of_nat (S n))); try (exfalso; lia); reflexivity.
Qed.

(** ** What the deserializer reads *)

Lemma zlen_length {A} (l : list A) (n : Z) : 0 <= n -> length l = Z.to_nat n -> zlen l = n.
Proof. unfold zlen. lia. Qed.

Lemma le_combine_window (c : list byte) (l n : Z) :
  0 <= l -> 0 <= n ->
  le_combine (window c l n) = read_bits c (8 * l) (8 * n).
Proof.
  intros Hl Hn. apply Z.bits_inj'. intros j Hj.
  rewrite testbit_le_combine, getbit_window, testbit_read_bits by lia.
  reflexivity.
Qed.

Lemma fetch_aligned_bytes_spec (b : ZeroExtendingBuffer.t) (o count : Z) :
  0 <= o -> o mod 8 = 0 -> 0 <= count ->
  Deserializer.fetch_aligned_bytes count (DS b o)
  = (Ok (window (ZeroExtendingBuffer._buf b) (o / 8) count), DS b (o + count * 8)).
Proof.
  intros Ho Hal Hc. unfold Deserializer.fetch_aligned_bytes. mred.
  destruct (Z.ltb_spec count 0); [lia|]. rewrite Hal. cbn [Z.eqb].
  assert (0 <= o / 8) by (apply Z.div_pos; lia).
  rewrite get_unsigned_slice_spec by lia.
  replace (o / 8 + count - o / 8) with count by lia.
  rewrite (zlen_length _ count) by (try apply length_window; lia).
  rewrite Z.eqb_refl. reflexivity.
Qed.

Lemma read_bits_0 c o : read_bits c o 0 = 0.
Proof. unfold read_bits. change (Z.ones 0) with 0. apply Z.land_0_r. Qed.

Lemma fetch_unaligned_bytes_spec (b : ZeroExtendingBuffer.t) (o count : Z) :
  0 <= o -> 0 <= count ->
  (o mod 8 <> 0 -> addressable (ZeroExtendingBuffer._buf b) (o / 8 + count)) ->
  exists out,
    Deserializer.fetch_unaligned_bytes count (DS b o) = (Ok out, DS b (o + 8 * count))
    /\ zlen out = count
    /\ le_combine out = read_bits (ZeroExtendingBuffer._buf b) o (8 * count).
Proof.
  intros Ho Hc Ha. unfold Deserializer.fetch_unaligned_bytes.
  destruct (Z.gtb_spec count 0) as [Hpos|Hz].
  - mred. destruct (Z.eqb_spec (o mod 8) 0) as [Hal|Hun]; cbn [negb].
    + rewrite fetch_aligned_bytes_spec by lia. eexists. split; [|split].
      * f_equal. f_equal. lia.
      * apply zlen_length; [lia|apply length_window].
      * rewrite le_combine_window by (try apply Z.div_pos; lia).
        f_equal. Z.div_mod_to_equations; lia.
    + assert (Hr : 1 <= o mod 8 <= 7) by (Z.div_mod_to_equations; lia).
      destruct (Z.leb_spec 1 (o mod 8)); [|lia].
      destruct (Z.leb_spec (o mod 8) 7); [|lia].
      destruct (Z.leb_spec 1 (8 - o mod 8)); [|lia].
      destruct (Z.leb_spec (8 - o mod 8) 7); [|lia].
      cbn [andb].
      destruct (fetch_unaligned_bytes_loop_spec b (o mod 8) Hr (Z.to_nat count) o Ho eq_refl)
        as (out & Hrun & Hlen & Hval).
      { apply (addressable_le _ _ _ (Ha Hun)). lia. }
      rewrite Hrun. rewrite (zlen_length out count) by lia.
      rewrite Z.eqb_refl. exists out. split; [|split].
      * f_equal. f_equal. lia.
      * apply zlen_length; lia.
      * rewrite Hval. f_equal. lia.
  - assert (count = 0) by lia. subst count. mred. exists (zeros 0).
    split; [|split].
    + f_equal. f_equal. lia.
    + reflexivity.
    + rewrite read_bits_0. reflexivity.
Qed.

Lemma land_read_bits c o n w :
  0 <= o -> 0 <= w <= n ->
  Z.land (read_bits c o n) (Z.ones w) = read_bits c o w.
Proof.
  intros Ho Hw. apply Z.bits_inj'. intros j Hj.
  rewrite Z.land_spec, !testbit_read_bits, Z.testbit_ones_nonneg by lia.
  destruct (Z.ltb_spec j w); destruct (Z.ltb_spec j n); try (exfalso; lia);
    cbn [andb]; rewrite ?andb_true_r, ?andb_false_r; reflexivity.
Qed.

(** What the two arbitrary-width unsigned fetches return. *)
Lemma fetch_aligned_unsigned_spec (b : ZeroExtendingBuffer.t) (o w : Z) :
  0 <= o -> o mod 8 = 0 -> 1 <= w ->
  Deserializer.fetch_aligned_unsigned w (DS b o)
  = (Ok (read_bits (ZeroExtendingBuffer._buf b) o w), DS b (o + w)).
Proof.
  intros Ho Hal Hw. unfold Deserializer.fetch_aligned_unsigned. mred.
  destruct (Z.ltb_spec w 0); [lia|]. rewrite Hal. cbn [Z.eqb].
  assert (0 <= o / 8) by (apply Z.div_pos; lia).
  assert (0 <= (w + 7) / 8) by (apply Z.div_pos; lia).
  rewrite get_unsigned_slice_spec by lia.
  replace (o / 8 + (w + 7) / 8 - o / 8) with ((w + 7) / 8) by lia.
  rewrite unsigned_from_bytes_spec;
    [| lia | rewrite (zlen_length _ ((w + 7) / 8)) by (try apply length_window; lia); lia].
  rewrite le_combine_window by lia.
  replace (8 * (o / 8)) with o by (Z.div_mod_to_equations; lia).
  rewrite land_read_bits by (Z.div_mod_to_equations; lia).
  reflexivity.
Qed.

Lemma fetch_unaligned_unsigned_spec (b : ZeroExtendingBuffer.t) (o w : Z) :
  0 <= o -> 1 <= w ->
  (o mod 8 <> 0 -> addressable (ZeroExtendingBuffer._buf b) (o / 8 + (w + 7) / 8)) ->
  Deserializer.fetch_unaligned_unsigned w (DS b o)
  = (Ok (read_bits (ZeroExtendingBuffer._buf b) o w), DS b (o + w)).
Proof.
  intros Ho Hw Ha. unfold Deserializer.fetch_unaligned_unsigned. mred.
  destruct (Z.ltb_spec w 0); [lia|].
  assert (Hn : 0 <= (w + 7) / 8) by (apply Z.div_pos; lia).
  destruct (fetch_unaligned_bytes_spec b o ((w + 7) / 8) Ho Hn Ha) as (bs & Hrun & Hlen & Hval).
  rewrite Hrun, Hlen, Z.eqb_refl.
  assert (Hbt : 0 <= (w + 7) / 8 * 8 - w < 8) by (Z.div_mod_to_equations; lia).
  destruct (Z.leb_spec 0 ((w + 7) / 8 * 8 - w)); [|lia].
  destruct (Z.ltb_spec ((w + 7) / 8 * 8 - w) 8); [|lia]. cbn [andb].
  rewrite unsigned_from_bytes_spec by lia.
  rewrite Hval, land_read_bits by lia.
  f_equal. f_equal. lia.
Qed.

(** ** The range of the unsigned fetches *)





(** ** Implicit zero extension *)


Lemma past_end_nonneg c o : past_end c o -> 0 <= o.
Proof. unfold past_end. pose proof (zlen_nonneg c). lia. Qed.

Lemma past_end_add c o n : past_end c o -> 0 <= n -> past_end c (o + n).
Proof. unfold past_end. lia. Qed.

Lemma window_past_end c l n : zlen c <= l -> 0 <= n -> window c l n = zeros n.
Proof.
  intros Hl Hn. unfold window. pose proof (zlen_nonneg c).
  rewrite drop_ge by (unfold zlen in *; lia). cbn [app].
  unfold zeros. rewrite take_replicate. f_equal. lia.
Qed.

Lemma read_bits_past_end c o w : past_end c o -> 0 <= w -> read_bits c o w = 0.
Proof.
  intros Ho Hw. pose proof (past_end_nonneg c o Ho).
  apply Z.bits_inj'. intros j Hj. rewrite testbit_read_bits by lia.
  rewrite getbit_overflow by (unfold past_end in Ho; lia).
  rewrite Z.testbit_0_l. apply andb_false_r.
Qed.

Lemma le_split_0 n : le_split n 0 = replicate n Byte.x00.
Proof.
  induction n as [|n IH]; [reflexivity|].
  change (le_split (S n) 0) with (byte.of_Z 0 :: le_split n (Z.shiftr 0 8)).
  rewrite Z.shiftr_0_l, IH. reflexivity.
Qed.

Lemma le_combine_0_zeros (bs : list byte) :
  le_combine bs = 0 -> bs = replicate (length bs) Byte.x00.
Proof.
  intros H. rewrite <- (split_le_combine bs) at 1. rewrite H. apply le_split_0.
Qed.

Lemma byte_bits_x00 : byte_bits Byte.x00 = replicate 8 false.
Proof. reflexivity. Qed.

Lemma unpackbits_zeros (n : nat) :
  unpackbits_little (replicate n Byte.x00) = replicate (8 * n) false.
Proof.
  induction n as [|n IH]; [reflexivity|].
  unfold unpackbits_little in *. cbn [replicate flat_map]. rewrite IH, byte_bits_x00.
  replace (8 * S n)%nat with (8 + 8 * n)%nat by lia. rewrite replicate_add. reflexivity.
Qed.

Lemma getslice_prefix {A} (l : list A) (n : Z) :
  0 <= n <= zlen l -> getslice l 0 n = take (Z.to_nat n) l.
Proof.
  intros Hn. unfold getslice. rewrite !slice_bound_nonneg by lia.
  rewrite Z.min_l, Z.min_l by lia. rewrite Z.sub_0_r. reflexivity.
Qed.

Lemma bits_of_zeros (nb count : Z) :
  0 <= count <= 8 * nb ->
  getslice (unpackbits_little (zeros nb)) 0 count = replicate (Z.to_nat count) false.
Proof.
  intros H. unfold zeros. rewrite unpackbits_zeros.
  rewrite getslice_prefix by (unfold zlen; rewrite length_replicate; lia).
  rewrite take_replicate. f_equal. lia.
Qed.

Lemma le_combine_zeros n : le_combine (replicate n Byte.x00) = 0.
Proof.
  induction n as [|n IH]; [reflexivity|].
  cbn [replicate]. rewrite le_combine_cons, IH. reflexivity.
Qed.

Lemma item_of_zeros (d : dtype) (n : nat) :
  item_of_bytes d (replicate n Byte.x00) = zero_scalar d.
Proof.
  unfold item_of_bytes. rewrite le_combine_zeros. destruct d; reflexivity.
Qed.

Lemma items_of_zeros (d : dtype) (n : nat) :
  forall m, items_of_bytes d n (replicate m Byte.x00) = replicate n (zero_scalar d).
Proof.
  induction n as [|n IH]; intros m; [reflexivity|].
  cbn [items_of_bytes replicate]. rewrite take_replicate, drop_replicate.
  rewrite item_of_zeros, IH. reflexivity.
Qed.

Lemma itemsize_pos d : 1 <= itemsize d <= 8.
Proof. destruct d; cbn; lia. Qed.

Lemma frombuffer_zeros_all (d : dtype) (count : Z) :
  0 <= count ->
  frombuffer d (zeros (count * itemsize d)) (-1)
  = Ok (replicate (Z.to_nat count) (zero_scalar d)).
Proof.
  intros Hc. pose proof (itemsize_pos d). unfold frombuffer. cbn [Z.ltb Z.compare].
  assert (Hl : zlen (zeros (count * itemsize d)) = count * itemsize d).
  { apply zlen_length; [nia|apply length_zeros]. }
  rewrite Hl. rewrite Z.mod_mul by lia. cbn [Z.eqb].
  rewrite Z.div_mul by lia. unfold zeros. rewrite items_of_zeros. reflexivity.
Qed.

Lemma frombuffer_zeros_count (d : dtype) (count : Z) :
  0 <= count ->
  frombuffer d (zeros (itemsize d * count)) count
  = Ok (replicate (Z.to_nat count) (zero_scalar d)).
Proof.
  intros Hc. pose proof (itemsize_pos d). unfold frombuffer.
  destruct (Z.ltb_spec count 0); [lia|].
  assert (Hl : zlen (zeros (itemsize d * count)) = itemsize d * count).
  { apply zlen_length; [nia|apply length_zeros]. }
  rewrite Hl. destruct (Z.ltb_spec (itemsize d * count) (count * itemsize d)); [lia|].
  unfold zeros. rewrite items_of_zeros. reflexivity.
Qed.

Lemma fetch_aligned_bytes_zero b o count :
  past_end (ZeroExtendingBuffer._buf b) o -> o mod 8 = 0 -> 0 <= count ->
  Deserializer.fetch_aligned_bytes count (DS b o) = (Ok (zeros count), DS b (o + count * 8)).
Proof.
  intros Hpast Hal Hc. pose proof (past_end_nonneg _ _ Hpast).
  rewrite fetch_aligned_bytes_spec by lia.
  rewrite window_past_end; [reflexivity| |lia].
  unfold past_end in Hpast. Z.div_mod_to_equations; lia.
Qed.

Lemma fetch_unaligned_bytes_zero b o count :
  past_end (ZeroExtendingBuffer._buf b) o -> 0 <= count ->
  (o mod 8 <> 0 -> addressable (ZeroExtendingBuffer._buf b) (o / 8 + count)) ->
  Deserializer.fetch_unaligned_bytes count (DS b o) = (Ok (zeros count), DS b (o + 8 * count)).
Proof.
  intros Hpast Hc Ha. pose proof (past_end_nonneg _ _ Hpast) as Ho.
  destruct (fetch_unaligned_bytes_spec b o count Ho Hc Ha) as (out & Hrun & Hlen & Hval).
  rewrite Hrun. f_equal. f_equal.
  rewrite read_bits_past_end in Hval by (try exact Hpast; lia).
  rewrite (le_combine_0_zeros out Hval). unfold zeros. f_equal. unfold zlen in Hlen. lia.
Qed.

Lemma fetch_aligned_u8_zero b o :
  past_end (ZeroExtendingBuffer._buf b) o -> o mod 8 = 0 ->
  addressable (ZeroExtendingBuffer._buf b) (o / 8) ->
  Deserializer.fetch_aligned_u8 (DS b o) = (Ok 0, DS b (o + 8)).
Proof.
  intros Hpast Hal Ha. pose proof (past_end_nonneg _ _ Hpast) as Ho.
  unfold Deserializer.fetch_aligned_u8. mred. rewrite Hal. cbn [Z.eqb].
  rewrite get_byte_spec by (assumption || apply Z.div_pos; lia).
  rewrite byte_at_overflow; [reflexivity|].
  unfold past_end in Hpast. Z.div_mod_to_equations; lia.
Qed.

Lemma aligned_add o n : o mod 8 = 0 -> n mod 8 = 0 -> (o + n) mod 8 = 0.
Proof. intros. Z.div_mod_to_equations; lia. Qed.

Ltac addr_side :=
  match goal with
  | H : addressable ?c _ |- addressable ?c _ =>
      apply (addressable_le _ _ _ H); Z.div_mod_to_equations; lia
  end.

Ltac zero_side :=
  first [ assumption
        | addr_side
        | try apply past_end_add; try apply aligned_add; (assumption || reflexivity || lia) ].

Lemma fetch_aligned_u16_zero b o :
  past_end (ZeroExtendingBuffer._buf b) o -> o mod 8 = 0 ->
  addressable (ZeroExtendingBuffer._buf b) (o / 8 + 1) ->
  Deserializer.fetch_aligned_u16 (DS b o) = (Ok 0, DS b (o + 16)).
Proof.
  intros Hpast Hal Ha. unfold Deserializer.fetch_aligned_u16, bind.
  rewrite fetch_aligned_u8_zero by zero_side.
  rewrite fetch_aligned_u8_zero by zero_side.
  unfold ret. f_equal. f_equal. lia.
Qed.

Lemma fetch_aligned_u32_zero b o :
  past_end (ZeroExtendingBuffer._buf b) o -> o mod 8 = 0 ->
  addressable (ZeroExtendingBuffer._buf b) (o / 8 + 3) ->
  Deserializer.fetch_aligned_u32 (DS b o) = (Ok 0, DS b (o + 32)).
Proof.
  intros Hpast Hal Ha. unfold Deserializer.fetch_aligned_u32, bind.
  rewrite fetch_aligned_u16_zero by zero_side.
  rewrite fetch_aligned_u16_zero by zero_side.
  unfold ret. f_equal. f_equal. lia.
Qed.

Lemma fetch_aligned_u64_zero b o :
  past_end (ZeroExtendingBuffer._buf b) o -> o mod 8 = 0 ->
  addressable (ZeroExtendingBuffer._buf b) (o / 8 + 7) ->
  Deserializer.fetch_aligned_u64 (DS b o) = (Ok 0, DS b (o + 64)).
Proof.
  intros Hpast Hal Ha. unfold Deserializer.fetch_aligned_u64, bind.
  rewrite fetch_aligned_u32_zero by zero_side.
  rewrite fetch_aligned_u32_zero by zero_side.
  unfold ret. f_equal. f_equal. lia.
Qed.

Lemma fetch_aligned_unsigned_zero b o w :
  past_end (ZeroExtendingBuffer._buf b) o -> o mod 8 = 0 -> 1 <= w ->
  Deserializer.fetch_aligned_unsigned w (DS b o) = (Ok 0, DS b (o + w)).
Proof.
  intros Hpast Hal Hw. pose proof (past_end_nonneg _ _ Hpast) as Ho.
  rewrite fetch_aligned_unsigned_spec by lia.
  rewrite read_bits_past_end by (try assumption; lia). reflexivity.
Qed.

Lemma fetch_unaligned_unsigned_zero b o w :
  past_end (ZeroExtendingBuffer._buf b) o -> 1 <= w ->
  (o mod 8 <> 0 -> addressable (ZeroExtendingBuffer._buf b) (o / 8 + (w + 7) / 8)) ->
  Deserializer.fetch_unaligned_unsigned w (DS b o) = (Ok 0, DS b (o + w)).
Proof.
  intros Hpast Hw Ha. pose proof (past_end_nonneg _ _ Hpast) as Ho.
  rewrite fetch_unaligned_unsigned_spec by (assumption || lia).
  rewrite read_bits_past_end by (try assumption; lia). reflexivity.
Qed.

Lemma pow2_gt_0 w : 1 <= w -> (0 >=? 2 ^ (w - 1)) = false.
Proof.
  intros Hw. destruct (Z.geb_spec 0 (2 ^ (w - 1))); [|reflexivity].
  assert (0 < 2 ^ (w - 1)) by (apply Z.pow_pos_nonneg; lia). lia.
Qed.

Lemma fetch_aligned_bits_zero b o count :
  past_end (ZeroExtendingBuffer._buf b) o -> o mod 8 = 0 -> 0 <= count ->
  Deserializer.fetch_aligned_array_of_bits count (DS b o)
  = (Ok (replicate (Z.to_nat count) false), DS b (o + count)).
Proof.
  intros Hpast Hal Hc. pose proof (past_end_nonneg _ _ Hpast) as Ho.
  unfold Deserializer.fetch_aligned_array_of_bits. mred.
  destruct (Z.ltb_spec count 0); [lia|]. rewrite Hal. cbn [Z.eqb].
  assert (0 <= o / 8) by (apply Z.div_pos; lia).
  assert (0 <= (count + 7) / 8) by (apply Z.div_pos; lia).
  rewrite get_unsigned_slice_spec by lia.
  replace (o / 8 + (count + 7) / 8 - o / 8) with ((count + 7) / 8) by lia.
  rewrite window_past_end by (unfold past_end in Hpast; Z.div_mod_to_equations; lia).
  rewrite bits_of_zeros by (Z.div_mod_to_equations; lia).
  rewrite (zlen_length _ count) by (try apply length_replicate; lia).
  rewrite Z.eqb_refl. reflexivity.
Qed.

Lemma fetch_unaligned_bits_zero b o count :
  past_end (ZeroExtendingBuffer._buf b) o -> 0 <= count ->
  (o mod 8 <> 0 -> addressable (ZeroExtendingBuffer._buf b) (o / 8 + (count + 7) / 8)) ->
  Deserializer.fetch_unaligned_array_of_bits count (DS b o)
  = (Ok (replicate (Z.to_nat count) false), DS b (o + count)).
Proof.
  intros Hpast Hc Ha. pose proof (past_end_nonneg _ _ Hpast) as Ho.
  unfold Deserializer.fetch_unaligned_array_of_bits. mred.
  destruct (Z.ltb_spec count 0); [lia|].
  assert (Hn : 0 <= (count + 7) / 8) by (apply Z.div_pos; lia).
  rewrite fetch_unaligned_bytes_zero by assumption.
  rewrite (zlen_length _ ((count + 7) / 8)) by (try apply length_zeros; lia).
  rewrite Z.eqb_refl.
  assert (Hbt : 0 <= (count + 7) / 8 * 8 - count < 8) by (Z.div_mod_to_equations; lia).
  destruct (Z.leb_spec 0 ((count + 7) / 8 * 8 - count)); [|lia].
  destruct (Z.ltb_spec ((count + 7) / 8 * 8 - count) 8); [|lia]. cbn [andb].
  rewrite bits_of_zeros by lia.
  rewrite (zlen_length _ count) by (try apply length_replicate; lia).
  rewrite Z.eqb_refl. f_equal. f_equal. lia.
Qed.

Lemma fetch_unaligned_bit_zero b o :
  past_end (ZeroExtendingBuffer._buf b) o ->
  addressable (ZeroExtendingBuffer._buf b) (o / 8) ->
  Deserializer.fetch_unaligned_bit (DS b o) = (Ok false, DS b (o + 1)).
Proof.
  intros Hpast Ha. pose proof (past_end_nonneg _ _ Hpast) as Ho.
  unfold Deserializer.fetch_unaligned_bit. mred.
  assert (Hm : 1 <= Z.shiftl 1 (o mod 8) <= 128).
  { rewrite Z.shiftl_1_l.
    assert (Hr : 0 <= o mod 8 <= 7) by (Z.div_mod_to_equations; lia).
    split.
    - assert (0 < 2 ^ (o mod 8)) by (apply Z.pow_pos_nonneg; lia). lia.
    - change 128 with (2 ^ 7). apply Z.pow_le_mono_r; lia. }
  destruct (Z.leb_spec 1 (Z.shiftl 1 (o mod 8))); [|lia].
  destruct (Z.leb_spec (Z.shiftl 1 (o mod 8)) 128); [|lia]. cbn [andb].
  rewrite get_byte_spec by (assumption || apply Z.div_pos; lia).
  rewrite byte_at_overflow by (unfold past_end in Hpast; Z.div_mod_to_equations; lia).
  rewrite Z.land_0_l.
  destruct (Z.eqb_spec 0 (Z.shiftl 1 (o mod 8))); [lia|]. reflexivity.
Qed.

Lemma fetch_aligned_array_zero b o d count :
  past_end (ZeroExtendingBuffer._buf b) o -> o mod 8 = 0 -> 0 <= count ->
  Deserializer.fetch_aligned_array_of_standard_bit_length_primitives d count (DS b o)
  = (Ok (replicate (Z.to_nat count) (zero_scalar d)), DS b (o + count * itemsize d * 8)).
Proof.
  intros Hpast Hal Hc. pose proof (past_end_nonneg _ _ Hpast) as Ho.
  pose proof (itemsize_pos d).
  unfold Deserializer.fetch_aligned_array_of_standard_bit_length_primitives. mred.
  rewrite Hal. cbn [Z.eqb].
  assert (0 <= o / 8) by (apply Z.div_pos; lia).
  rewrite get_unsigned_slice_spec by nia.
  replace (o / 8 + count * itemsize d - o / 8) with (count * itemsize d) by lia.
  rewrite window_past_end by (unfold past_end in Hpast; try nia; Z.div_mod_to_equations; lia).
  rewrite frombuffer_zeros_all by lia.
  rewrite (zlen_length _ count) by (try apply length_replicate; lia).
  rewrite Z.eqb_refl. reflexivity.
Qed.

Lemma fetch_unaligned_array_zero b o d count :
  past_end (ZeroExtendingBuffer._buf b) o -> 0 <= count ->
  (o mod 8 <> 0 -> addressable (ZeroExtendingBuffer._buf b) (o / 8 + itemsize d * count)) ->
  Deserializer.fetch_unaligned_array_of_standard_bit_length_primitives d count (DS b o)
  = (Ok (replicate (Z.to_nat count) (zero_scalar d)), DS b (o + count * itemsize d * 8)).
Proof.
  intros Hpast Hc Ha. pose proof (past_end_nonneg _ _ Hpast) as Ho.
  pose proof (itemsize_pos d).
  unfold Deserializer.fetch_unaligned_array_of_standard_bit_length_primitives. mred.
  rewrite fetch_unaligned_bytes_zero by (try assumption; nia).
  rewrite (zlen_length _ (itemsize d * count)) by (try apply length_zeros; nia).
  destruct (Z.geb_spec (itemsize d * count) count); [|nia].
  rewrite frombuffer_zeros_count by lia. f_equal. f_equal. lia.
Qed.

Lemma remaining_past_end (d : Deserializer.t) :
  Deserializer.remaining_bit_length d <= 0 ->
  past_end (ZeroExtendingBuffer._buf (Deserializer._buf d)) (Deserializer._bit_offset d).
Proof.
  unfold Deserializer.remaining_bit_length, ZeroExtendingBuffer.bit_length, past_end. lia.
Qed.

Ltac zero_finish :=
  cbv beta iota delta [ret lift]; eexists; split; [reflexivity|];
  unfold Deserializer.remaining_bit_length, ZeroExtendingBuffer.bit_length, past_end in *;
  cbn [Deserializer._buf Deserializer._bit_offset fetched_bit_length] in *;
  repeat split; lia.

Ltac zx :=
  first [ assumption | lia
        | intros; apply addressable_small;
          try match goal with d : dtype |- _ => pose proof (itemsize_pos d) end;
          Z.div_mod_to_equations; nia ].





(** ** Forking a deserializer, and the top-level [deserialize] *)

Lemma getslice_inside {A} (c : list A) (l r : Z) :
  0 <= l <= r -> r <= zlen c ->
  getslice c l r = take (Z.to_nat (r - l)) (drop (Z.to_nat l) c)
  /\ zlen (getslice c l r) = r - l.
Proof.
  intros Hl Hr. unfold getslice. rewrite !slice_bound_nonneg by lia.
  rewrite !Z.min_l by lia. split; [reflexivity|].
  unfold zlen in *. rewrite length_take, length_drop. lia.
Qed.

Lemma deserializer_new_ok (fragments : list (list byte)) :
  Deserializer.new fragments = Ok (DS (ZeroExtendingBuffer.new fragments) 0).
Proof.
  unfold Deserializer.new, Deserializer.consumed_bit_length, Deserializer.remaining_bit_length.
  cbn [Deserializer._buf Deserializer._bit_offset].
  replace (0 + (ZeroExtendingBuffer.bit_length (ZeroExtendingBuffer.new fragments) - 0))
    with (ZeroExtendingBuffer.bit_length (ZeroExtendingBuffer.new fragments)) by lia.
  rewrite Z.eqb_refl. reflexivity.
Qed.

(** C4: a deserializer whose cursor is byte-aligned, forked over [s] bytes
    that do not exceed its remaining whole bytes, gives a deserializer with
    [remaining_bit_length = s * 8] and cursor 0 over the parent's bytes from
    the cursor on; past its own [s] bytes it reads zero whatever the parent
    holds there (at every index up to [sys.maxsize], the indices an array
    takes); the parent is unchanged.  With an unaligned cursor or an
    oversize [s] the fork raises [ValueError]. *)
Theorem deserializer_fork_isolation (d : Deserializer.t) (s : Z) :
  0 <= Deserializer._bit_offset d ->
  (Deserializer._bit_offset d mod 8 = 0 ->
   0 <= s <= Deserializer.remaining_bit_length d / 8 ->
   exists f,
     Deserializer.fork_bytes s d = (Ok f, d)
     /\ Deserializer.remaining_bit_length f = s * 8
     /\ Deserializer.consumed_bit_length f = 0
     /\ ZeroExtendingBuffer._buf (Deserializer._buf f)
        = take (Z.to_nat s)
               (drop (Z.to_nat (Deserializer._bit_offset d / 8))
                     (ZeroExtendingBuffer._buf (Deserializer._buf d)))
     /\ forall i, 0 <= i <= ssize_max ->
          ZeroExtendingBuffer.get_byte (Deserializer._buf f) i
          = Ok (if i <? s
                then byte_at (ZeroExtendingBuffer._buf (Deserializer._buf d))
                             (Deserializer._bit_offset d / 8 + i)
                else 0))
  /\ (Deserializer._bit_offset d mod 8 <> 0 \/ Deserializer.remaining_bit_length d / 8 < s ->
      Deserializer.fork_bytes s d = (Raise ValueError, d)).
Proof.
  intros Ho. destruct d as [b o]. cbn [Deserializer._buf Deserializer._bit_offset] in *.
  set (c := ZeroExtendingBuffer._buf b).
  assert (Hrem : Deserializer.remaining_bit_length (DS b o) = zlen c * 8 - o) by reflexivity.
  split.
  - intros Hal Hs. rewrite Hrem in *.
    unfold Deserializer.fork_bytes. mred. rewrite Hal. cbn [Z.eqb negb]. rewrite Hrem.
    assert (Hrm : (zlen c * 8 - o) mod 8 = 0) by (Z.div_mod_to_equations; lia).
    rewrite Hrm. cbn [Z.eqb].
    destruct (Z.ltb_spec ((zlen c * 8 - o) / 8) s); [lia|].
    unfold ZeroExtendingBuffer.fork_bytes. fold c.
    assert (Hb : o / 8 + s <= zlen c) by (Z.div_mod_to_equations; lia).
    assert (Hbo : 0 <= o / 8) by (apply Z.div_pos; lia).
    destruct (Z.gtb_spec (o / 8 + s) (zlen c)); [lia|].
    destruct (getslice_inside c (o / 8) (o / 8 + s)) as [Hsl Hlen]; [lia|lia|].
    rewrite Hlen. replace (o / 8 + s - o / 8) with s in * by lia.
    rewrite Z.eqb_refl. cbn [negb]. rewrite deserializer_new_ok.
    set (f := DS (ZeroExtendingBuffer.new [getslice c (o / 8) (o / 8 + s)]) 0).
    assert (Hf : Deserializer.remaining_bit_length f = s * 8).
    { unfold f, Deserializer.remaining_bit_length, ZeroExtendingBuffer.bit_length.
      cbn [Deserializer._buf Deserializer._bit_offset ZeroExtendingBuffer.new ZeroExtendingBuffer._buf].
      rewrite Hlen. lia. }
    rewrite Hf, Z.eqb_refl. exists f. split; [reflexivity|]. split; [exact Hf|].
    split; [reflexivity|]. split; [exact Hsl|]. intros i Hi.
    rewrite get_byte_spec by (try apply addressable_small; lia). f_equal.
    unfold f. cbn [Deserializer._buf ZeroExtendingBuffer.new ZeroExtendingBuffer._buf].
    rewrite Hsl. rewrite byte_at_take by lia.
    destruct (Z.ltb_spec i s); [|reflexivity].
    apply byte_at_drop; lia.
  - intros Hbad. unfold Deserializer.fork_bytes. mred.
    destruct (Z.eqb_spec (o mod 8) 0) as [Hal|Hun]; cbn [negb]; [|reflexivity].
    destruct Hbad as [Hbad|Hbad]; [contradiction|]. rewrite Hrem in *.
    assert (Hrm : (zlen c * 8 - o) mod 8 = 0) by (Z.div_mod_to_equations; lia).
    rewrite Hrm. cbn [Z.eqb].
    destruct (Z.ltb_spec ((zlen c * 8 - o) / 8) s); [reflexivity|lia].
Qed.

Lemma deserializer_fork_isolation_witness :
  exists f,
    Deserializer.fork_bytes 2 sample_deserializer = (Ok f, sample_deserializer)
    /\ Deserializer.remaining_bit_length f = 2 * 8
    /\ ZeroExtendingBuffer.get_byte (Deserializer._buf f) 2 = Ok 0.
Proof.
  destruct (deserializer_fork_isolation sample_deserializer 2) as [Hfork _].
  - vm_compute. discriminate.
  - destruct Hfork as (f & Hrun & Hrem & _ & _ & Hget).
    + reflexivity.
    + split; vm_compute; discriminate.
    + exists f. split; [exact Hrun|]. split; [exact Hrem|].
      apply (Hget 2). unfold ssize_max. lia.
Defined.

(** C9: for a generated class, [deserialize] returns [None] when the
    deserialization routine raises [FormatError], lets an exception of any
    other class through unchanged, and returns the instance otherwise. *)
Theorem deserialize_facade {Instance : Type} (dtype : CompositeObject Instance)
        (fragments : list (list byte)) :
  generated_class dtype ->
  let deserializer := DS (ZeroExtendingBuffer.new fragments) 0 in
  Deserializer.new fragments = Ok deserializer
  /\ (forall e d', _deserialize_ dtype deserializer = (Raise e, d') ->
                   isinstance e FormatError = true ->
                   deserialize dtype fragments = Ok None)
  /\ (forall e d', _deserialize_ dtype deserializer = (Raise e, d') ->
                   isinstance e FormatError = false ->
                   deserialize dtype fragments = Raise e)
  /\ (forall obj d', _deserialize_ dtype deserializer = (Ok obj, d') ->
                     deserialize dtype fragments = Ok (Some obj)).
Proof.
  intros [full_name Hmodel] deserializer.
  split; [apply deserializer_new_ok|].
  unfold deserialize. rewrite deserializer_new_ok. cbn [rbind]. fold deserializer.
  repeat split.
  - intros e d' Hrun He. rewrite Hrun, He.
    unfold get_model. rewrite Hmodel. reflexivity.
  - intros e d' Hrun He. rewrite Hrun, He. reflexivity.
  - intros obj d' Hrun. rewrite Hrun. reflexivity.
Qed.

Lemma deserialize_facade_witness :
  deserialize sample_class [[Byte.x05]] = Ok None.
Proof.
  destruct (deserialize_facade sample_class [[Byte.x05]]) as (_ & Hcatch & _).
  - exists "sample.Tagged.1.0"%string. reflexivity.
  - eapply Hcatch; reflexivity.
Defined.


(** ** The serializer: rejected input and forking *)

Ltac sred :=
  cbv beta iota delta [bind ret raise get put modify lift assert_
                       Serializer._ensure_not_negative Serializer.advance
                       Serializer.skip_bits Serializer._byte_offset
                       Serializer.current_bit_length].

(** The same, with the projections of the state reduced as well. *)
Ltac sred_all :=
  cbv beta iota delta [bind ret raise get put modify lift assert_
                       Serializer._ensure_not_negative Serializer.advance
                       Serializer.skip_bits Serializer._byte_offset
                       Serializer.current_bit_length
                       Serializer.self Serializer.mem Serializer._buf Serializer._bit_offset].

(** C6: every unsigned write (aligned u8/u16/u32/u64, aligned and unaligned
    arbitrary-width unsigned) given a negative integer raises [ValueError]
    and leaves the buffer and the cursor as they were.  The two methods
    that assert alignment before they look at the value are called at a
    byte-aligned cursor. *)
Theorem negative_unsigned_rejected (op : unsigned_write) (value : Z) (s : Serializer.state) :
  value < 0 ->
  (asserts_alignment_first op = true -> Serializer.current_bit_length s mod 8 = 0) ->
  run_unsigned_write op value s = (Raise ValueError, s).
Proof.
  intros Hneg Hal. unfold Serializer.current_bit_length in Hal.
  assert (Hlt : (value <? 0) = true) by (apply Z.ltb_lt; lia).
  destruct op; cbn [run_unsigned_write asserts_alignment_first] in *.
  - unfold Serializer.add_aligned_u8. sred. rewrite Hal by reflexivity. cbn [Z.eqb].
    rewrite Hlt. reflexivity.
  - unfold Serializer.add_aligned_u16. sred. rewrite Hlt. reflexivity.
  - unfold Serializer.add_aligned_u32, Serializer.add_aligned_u16. sred.
    rewrite Hlt. reflexivity.
  - unfold Serializer.add_aligned_u64, Serializer.add_aligned_u32, Serializer.add_aligned_u16.
    sred. rewrite Hlt. reflexivity.
  - unfold Serializer.add_aligned_unsigned. sred. rewrite Hal by reflexivity. cbn [Z.eqb].
    rewrite Hlt. reflexivity.
  - unfold Serializer.add_unaligned_unsigned. sred. rewrite Hlt. reflexivity.
Qed.

Lemma negative_unsigned_rejected_witness :
  run_unsigned_write Add_aligned_u8 (-42) sample_serializer = (Raise ValueError, sample_serializer).
Proof.
  apply (negative_unsigned_rejected Add_aligned_u8 (-42) sample_serializer).
  - lia.
  - intros _. reflexivity.
Defined.

Lemma view_slice_from (a : ndarray) (bo : Z) :
  0 <= bo <= view_len a ->
  view_slice a (Some bo) None = {| base := base a + Z.to_nat bo; size := size a - Z.to_nat bo |}.
Proof.
  intros H. unfold view_slice. rewrite slice_bound_nonneg by lia.
  rewrite Z.min_l by lia. f_equal. unfold view_len in *. lia.
Qed.

Lemma view_slice_to (a : ndarray) (n : Z) :
  0 <= n <= view_len a ->
  view_slice a None (Some n) = {| base := base a; size := Z.to_nat n |}.
Proof.
  intros H. unfold view_slice. rewrite slice_bound_nonneg by lia.
  rewrite Z.min_l by lia. cbn [Z.to_nat]. f_equal; [lia|f_equal; lia].
Qed.

Lemma view_len_slice_to (a : ndarray) (n : Z) :
  view_len (view_slice a None (Some n))
  = if n <? 0 then Z.max 0 (view_len a + n) else Z.min n (view_len a).
Proof.
  unfold view_slice, view_len at 1, slice_bound. cbn [size].
  pose proof (Nat2Z.is_nonneg (size a)) as Hs. fold (view_len a) in Hs.
  destruct (Z.ltb_spec n 0); lia.
Qed.

Lemma fork_window_contents (mem : list byte) (a : ndarray) (bo size_ : Z) :
  0 <= bo -> 0 <= size_ + 1 <= view_len a - bo ->
  view_tolist mem (fork_window a bo size_)
  = take (Z.to_nat (size_ + 1)) (drop (Z.to_nat bo) (view_tolist mem a)).
Proof.
  intros Hbo Hs. unfold view_tolist, fork_window, view_len in *. cbn [base size].
  apply list_eq. intros i.
  destruct (Nat.lt_ge_cases i (Z.to_nat (size_ + 1))) as [Hlt|Hge].
  - rewrite !lookup_take_lt by lia. rewrite !lookup_drop.
    rewrite lookup_take_lt by lia. rewrite lookup_drop. f_equal. lia.
  - rewrite !lookup_take_ge by lia. reflexivity.
Qed.

(** C3: [fork_bytes size] raises [ValueError] exactly when the cursor is not
    byte-aligned or [size + 1] exceeds the bytes of the buffer from the
    cursor on; when it returns, the parent is unchanged and the child has
    cursor 0 and, as its buffer, the window of [size + 1] bytes of the
    parent's buffer that starts at byte [bit_offset / 8] (a view of the same
    memory); and it does return for an aligned cursor and a size that
    fits. *)
Theorem serializer_fork_bytes (s : Serializer.state) (forked_size : Z) :
  let o := Serializer._bit_offset (Serializer.self s) in
  let a := Serializer._buf (Serializer.self s) in
  let remaining_bytes := view_len a - o / 8 in
  0 <= o -> o / 8 <= view_len a ->
  (fst (Serializer.fork_bytes forked_size s) = Raise ValueError
   <-> (o mod 8 <> 0 \/ remaining_bytes < forked_size + 1))
  /\ (forall child s',
        Serializer.fork_bytes forked_size s = (Ok child, s') ->
        s' = s
        /\ child = {| Serializer._buf := fork_window a (o / 8) forked_size;
                      Serializer._bit_offset := 0 |}
        /\ view_len (Serializer._buf child) = forked_size + 1)
  /\ (o mod 8 = 0 -> 0 <= forked_size + 1 <= remaining_bytes ->
      Serializer.fork_bytes forked_size s
      = (Ok {| Serializer._buf := fork_window a (o / 8) forked_size;
               Serializer._bit_offset := 0 |}, s)
      /\ view_tolist (Serializer.mem s) (fork_window a (o / 8) forked_size)
         = take (Z.to_nat (forked_size + 1))
                (drop (Z.to_nat (o / 8)) (view_tolist (Serializer.mem s) a))).
Proof.
  intros o a remaining_bytes Ho Hin.
  assert (Hbo : 0 <= o / 8) by (apply Z.div_pos; lia).
  assert (Hrun : Serializer.fork_bytes forked_size s
                 = if negb (o mod 8 =? 0) then (Raise ValueError, s)
                   else if remaining_bytes <? forked_size + 1 then (Raise ValueError, s)
                   else if forked_size + 1 <? 0 then (Raise AssertionError, s)
                   else (Ok {| Serializer._buf := fork_window a (o / 8) forked_size;
                               Serializer._bit_offset := 0 |}, s)).
  { unfold Serializer.fork_bytes. sred. fold o a.
    destruct (negb (o mod 8 =? 0)); [reflexivity|].
    rewrite view_slice_from by lia.
    unfold _EXTRA_BUFFER_CAPACITY_BYTES.
    set (fb := {| base := base a + Z.to_nat (o / 8); size := size a - Z.to_nat (o / 8) |}).
    assert (Hfb : view_len fb = remaining_bytes).
    { unfold fb, view_len, remaining_bytes in *. cbn [size]. unfold view_len in *. lia. }
    rewrite Hfb. destruct (Z.ltb_spec remaining_bytes (forked_size + 1)); [reflexivity|].
    rewrite view_len_slice_to, Hfb.
    destruct (Z.ltb_spec (forked_size + 1) 0) as [Hneg|Hnn].
    - destruct (Z.eqb_spec (Z.max 0 (remaining_bytes + (forked_size + 1))) (forked_size + 1)); [lia|].
      reflexivity.
    - rewrite Z.min_l by lia. rewrite Z.eqb_refl.
      rewrite view_slice_to by lia. reflexivity. }
  rewrite Hrun. clear Hrun.
  split; [|split].
  - destruct (Z.eqb_spec (o mod 8) 0) as [Hal|Hun]; cbn [negb fst].
    + destruct (Z.ltb_spec remaining_bytes (forked_size + 1)); cbn [fst].
      * split; [right; assumption|reflexivity].
      * split; [|intros [?|?]; [contradiction|lia]].
        destruct (forked_size + 1 <? 0); cbn [fst]; discriminate.
    + split; [left; assumption|reflexivity].
  - intros child s' Hok.
    destruct (negb (o mod 8 =? 0)); [discriminate|].
    destruct (remaining_bytes <? forked_size + 1); [discriminate|].
    destruct (Z.ltb_spec (forked_size + 1) 0); [discriminate|].
    inversion Hok; subst. repeat split.
    unfold view_len, fork_window. cbn [Serializer._buf size]. lia.
  - intros Hal [Hlo Hhi]. rewrite Hal. cbn [Z.eqb negb].
    destruct (Z.ltb_spec remaining_bytes (forked_size + 1)); [lia|].
    destruct (Z.ltb_spec (forked_size + 1) 0); [lia|]. split; [reflexivity|].
    apply fork_window_contents; unfold remaining_bytes in *; lia.
Qed.

Lemma serializer_fork_bytes_witness :
  Serializer.fork_bytes 15 sample_serializer
  = (Ok {| Serializer._buf := {| base := 1; size := 16 |}; Serializer._bit_offset := 0 |},
     sample_serializer).
Proof.
  destruct (serializer_fork_bytes sample_serializer 15) as (_ & _ & Hok).
  - vm_compute. discriminate.
  - vm_compute. discriminate.
  - apply Hok; [reflexivity|]. split; vm_compute; discriminate.
Defined.



(** ** What the serializer writes *)

Local Notation "'SS' m a o" :=
  {| Serializer.mem := m;
     Serializer.self := {| Serializer._buf := a; Serializer._bit_offset := o |} |}
  (at level 10, m at level 9, a at level 9, o at level 9).

Lemma length_view_tolist (mem : list byte) (a : ndarray) :
  (base a + size a <= length mem)%nat -> length (view_tolist mem a) = size a.
Proof. intros H. unfold view_tolist. rewrite length_take, length_drop. lia. Qed.

Lemma lookup_view_tolist (mem : list byte) (a : ndarray) (i : nat) :
  (i < size a)%nat -> view_tolist mem a !! i = mem !! (base a + i)%nat.
Proof. intros H. unfold view_tolist. rewrite lookup_take_lt by lia. apply lookup_drop. Qed.

Lemma index_pos_inside (n i : Z) : 0 <= i < n -> index_pos n i = Ok (Z.to_nat i).
Proof.
  intros H. unfold index_pos.
  destruct (Z.leb_spec 0 i); [|lia]. destruct (Z.ltb_spec i n); [|lia]. reflexivity.
Qed.

Lemma view_getitem_inside (mem : list byte) (a : ndarray) (i : Z) :
  (base a + size a <= length mem)%nat -> 0 <= i < view_len a ->
  exists b, view_getitem mem a i = Ok b /\ byte.unsigned b = byte_at (view_tolist mem a) i.
Proof.
  intros Hwf Hi. unfold view_getitem, view_len in *. rewrite index_pos_inside by lia.
  cbn [rbind]. rewrite byte_at_lookup by lia. rewrite lookup_view_tolist by lia.
  destruct (mem !! (base a + Z.to_nat i)%nat) as [b|] eqn:E.
  - exists b. split; reflexivity.
  - apply lookup_ge_None in E. lia.
Qed.

Lemma view_tolist_insert (mem : list byte) (a : ndarray) (i : nat) (b : byte) :
  (i < size a)%nat ->
  view_tolist (<[(base a + i)%nat := b]> mem) a = <[i := b]> (view_tolist mem a).
Proof.
  intros Hi. unfold view_tolist.
  rewrite drop_insert_ge by lia. rewrite take_insert_lt by lia.
  f_equal. lia.
Qed.

Lemma buf_getitem_inside (s : Serializer.state) (i : Z) :
  view_inside s -> 0 <= i < view_len (Serializer._buf (Serializer.self s)) ->
  Serializer.buf_getitem i s = (Ok (byte_at (contents s) i), s).
Proof.
  intros Hwf Hi. unfold Serializer.buf_getitem.
  destruct (view_getitem_inside _ _ i Hwf Hi) as (b & -> & Hb). rewrite Hb. reflexivity.
Qed.

Lemma buf_setitem_inside (s : Serializer.state) (i x : Z) :
  view_inside s -> 0 <= i < view_len (Serializer._buf (Serializer.self s)) ->
  exists m',
    Serializer.buf_setitem i x s = (Ok tt, {| Serializer.mem := m'; Serializer.self := Serializer.self s |})
    /\ length m' = length (Serializer.mem s)
    /\ view_tolist m' (Serializer._buf (Serializer.self s))
       = <[Z.to_nat i := byte.of_Z x]> (contents s).
Proof.
  intros Hwf Hi. unfold Serializer.buf_setitem, view_setitem, view_len in *.
  rewrite index_pos_inside by lia. cbn [rbind]. eexists. split; [reflexivity|].
  split; [apply length_insert|]. apply view_tolist_insert. lia.
Qed.

(** Bits of an updated sequence. *)
Lemma byte_at_insert (c : list byte) (i : nat) (b : byte) (k : Z) :
  (i < length c)%nat ->
  byte_at (<[i := b]> c) k = if k =? Z.of_nat i then byte.unsigned b else byte_at c k.
Proof.
  intros Hi. destruct (Z.ltb_spec k 0) as [Hneg|Hpos].
  - rewrite !byte_at_neg by lia. destruct (Z.eqb_spec k (Z.of_nat i)); [lia|reflexivity].
  - rewrite !byte_at_lookup by lia. destruct (Z.eqb_spec k (Z.of_nat i)) as [->|Hne].
    + rewrite Nat2Z.id. rewrite list_lookup_insert_eq by lia. reflexivity.
    + rewrite list_lookup_insert_ne by lia. reflexivity.
Qed.

Lemma getbit_insert (c : list byte) (i : nat) (b : byte) (j : Z) :
  (i < length c)%nat ->
  getbit (<[i := b]> c) j
  = if j / 8 =? Z.of_nat i then Z.testbit (byte.unsigned b) (j mod 8) else getbit c j.
Proof.
  intros Hi. unfold getbit. rewrite byte_at_insert by lia.
  destruct (j / 8 =? Z.of_nat i); reflexivity.
Qed.

Lemma getbit_cons (b : byte) (r : list byte) (i : Z) :
  getbit (b :: r) i
  = if i <? 0 then false
    else if i <? 8 then Z.testbit (byte.unsigned b) i else getbit r (i - 8).
Proof.
  destruct (Z.ltb_spec i 0); [apply getbit_neg; lia|].
  rewrite <- (testbit_le_combine (b :: r)) by lia.
  destruct (Z.ltb_spec i 8).
  - rewrite le_combine_cons, Z.lor_spec, Z.shiftl_spec_low by lia. apply orb_false_r.
  - rewrite le_combine_cons, Z.lor_spec, Z.shiftl_spec by lia.
    rewrite byte_testbit_high by lia. rewrite testbit_le_combine by lia. reflexivity.
Qed.

Lemma getbit_nil (i : Z) : getbit [] i = false.
Proof. unfold getbit. rewrite byte_at_nil. apply Z.testbit_0_l. Qed.

Lemma add_unaligned_bytes_loop_spec (a : ndarray) (left : Z) :
  0 <= left <= 7 ->
  forall (bs m : list byte) (o : Z),
    (base a + size a <= length m)%nat ->
    0 <= o -> o mod 8 = left -> o / 8 + zlen bs + 1 <= view_len a ->
    exists m',
      Serializer.add_unaligned_bytes_loop bs left (8 - left) (SS m a o)
      = (Ok tt, SS m' a (o + 8 * zlen bs))
      /\ length m' = length m
      /\ forall j, 0 <= j ->
           getbit (view_tolist m' a) j = after_unaligned (view_tolist m a) bs o j.
Proof.
  intros Hleft. induction bs as [|b r IH]; intros m o Hwf Ho Hmod Hroom.
  - exists m. cbn [Serializer.add_unaligned_bytes_loop]. sred_all.
    replace (o + 8 * zlen []) with o by (unfold zlen; cbn; lia).
    split; [reflexivity|]. split; [reflexivity|].
    intros j Hj. unfold after_unaligned.
    rewrite getbit_nil.
    rewrite orb_false_r. change (zlen (@nil byte)) with 0.
    destruct (Z.ltb_spec j (8 * (o / 8))); [reflexivity|].
    destruct (Z.ltb_spec j (8 * (o / 8) + 8)); [reflexivity|].
    destruct (Z.ltb_spec j (8 * (o / 8 + 0 + 1))); [lia|reflexivity].
  - assert (Hbo : 0 <= o / 8) by (apply Z.div_pos; lia).
    assert (Hzl : zlen (b :: r) = zlen r + 1) by (unfold zlen; cbn [length]; lia).
    pose proof (zlen_nonneg r) as Hr0.
    rewrite Hzl in Hroom.
    cbn [Serializer.add_unaligned_bytes_loop]. unfold bind at 1. unfold get at 1.
    unfold bind at 1.
    rewrite buf_getitem_inside
      by (unfold view_inside, Serializer._byte_offset; cbn [Serializer.self Serializer._buf Serializer._bit_offset Serializer.mem]; lia).
    unfold bind at 1.
    edestruct (buf_setitem_inside (SS m a o) (Serializer._byte_offset (SS m a o)))
      as (m1 & Hset1 & Hlen1 & Hc1);
      [ unfold view_inside; cbn [Serializer.self Serializer._buf Serializer.mem]; lia
      | unfold Serializer._byte_offset; cbn [Serializer.self Serializer._buf Serializer._bit_offset]; lia |].
    rewrite Hset1. clear Hset1.
    cbn [Serializer.self Serializer.mem Serializer._buf] in Hlen1.
    unfold bind at 1. unfold Serializer.advance at 1, modify at 1.
    unfold bind at 1. unfold get at 1. unfold bind at 1.
    cbn [Serializer.self Serializer.mem Serializer._buf Serializer._bit_offset].
    set (s1 := SS m1 a (o + 8)).
    assert (Hbo1 : Serializer._byte_offset s1 = o / 8 + 1).
    { unfold Serializer._byte_offset, s1. cbn [Serializer.self Serializer._bit_offset].
      Z.div_mod_to_equations; lia. }
    edestruct (buf_setitem_inside s1 (Serializer._byte_offset s1))
      as (m2 & Hset2 & Hlen2 & Hc2);
      [ unfold view_inside, s1; cbn [Serializer.self Serializer._buf Serializer.mem]; lia
      | rewrite Hbo1; unfold s1; cbn [Serializer.self Serializer._buf]; lia |].
    rewrite Hset2. clear Hset2.
    unfold s1 in *. cbn [Serializer.self Serializer.mem Serializer._buf Serializer._bit_offset] in *.
    destruct (IH m2 (o + 8)) as (m' & Hrun & Hlen' & Hbits);
      [ lia | lia | rewrite <- Hmod; Z.div_mod_to_equations; lia
      | replace ((o + 8) / 8) with (o / 8 + 1) by (Z.div_mod_to_equations; lia); lia |].
    rewrite Hrun. exists m'. split; [f_equal; f_equal; f_equal; lia|].
    split; [lia|].
    intros j Hj. rewrite Hbits by lia. clear Hbits Hrun IH.
    unfold contents in *. cbn [Serializer.self Serializer.mem Serializer._buf] in *.
    set (c := view_tolist m a) in *.
    assert (Hlc : length c = size a) by (apply length_view_tolist; lia).
    unfold after_unaligned.
    replace ((o + 8) / 8) with (o / 8 + 1) by (Z.div_mod_to_equations; lia).
    rewrite Hzl. rewrite Hc2, Hbo1.
    unfold Serializer._byte_offset in Hc1. cbn [Serializer.self Serializer._bit_offset] in Hc1.
    rewrite Hc1.
    assert (Hin1 : (Z.to_nat (o / 8) < length c)%nat) by (unfold view_len in *; lia).
    assert (Hin2 : (Z.to_nat (o / 8 + 1) < length (<[Z.to_nat (o / 8) := byte.of_Z
                (Z.lor (byte_at c (o / 8)) (Z.land (Z.shiftl (byte.unsigned b) left) 255))]> c))%nat)
      by (rewrite length_insert; unfold view_len in *; lia).
    rewrite !(getbit_insert _ _ _ _ Hin2), !(getbit_insert _ _ _ _ Hin1).
    rewrite !Z2Nat.id by lia.
    rewrite (getbit_cons b r (j - o)).
    rewrite !testbit_byte_of_Z by (apply Z.mod_pos_bound; lia).
    rewrite Z.shiftr_spec by (apply Z.mod_pos_bound; lia).
    rewrite Z.lor_spec, Z.land_spec. change 255 with (Z.ones 8).
    rewrite Z.testbit_ones_nonneg by (try apply Z.mod_pos_bound; lia).
    assert (Hjm : 0 <= j mod 8 < 8) by (apply Z.mod_pos_bound; lia).
    destruct (Z.ltb_spec (j mod 8) 8); [|lia]. cbn [andb]. rewrite andb_true_r.
    replace (o + 8 * (zlen r + 1)) with (o + 8 + 8 * zlen r) by lia.
    assert (Hjd : j = 8 * (j / 8) + j mod 8) by (apply Z.div_mod; lia).
    assert (Hod : o = 8 * (o / 8) + left) by (rewrite <- Hmod; apply Z.div_mod; lia).
    destruct (Z.eqb_spec (j / 8) (o / 8 + 1)) as [E1|E1];
      destruct (Z.eqb_spec (j / 8) (o / 8)) as [E0|E0]; try (exfalso; lia).
    + (* the byte after the cursor *)
      destruct (Z.ltb_spec j (8 * (o / 8 + 1))); [lia|].
      destruct (Z.ltb_spec j (8 * (o / 8 + 1) + 8)); [|lia].
      destruct (Z.ltb_spec j (8 * (o / 8))); [lia|].
      destruct (Z.ltb_spec j (8 * (o / 8) + 8)); [lia|].
      destruct (Z.ltb_spec j (8 * (o / 8 + (zlen r + 1) + 1))); [|lia].
      destruct (Z.ltb_spec (j - o) 0); [lia|].
      replace (j mod 8 + (8 - left)) with (j - o) by lia.
      replace (j - (o + 8)) with (j - o - 8) by lia.
      destruct (Z.ltb_spec (j - o) 8).
      * rewrite (getbit_neg r) by lia. apply orb_false_r.
      * rewrite byte_testbit_high by lia. reflexivity.
    + (* the byte of the cursor *)
      destruct (Z.ltb_spec j (8 * (o / 8 + 1))); [|lia].
      destruct (Z.ltb_spec j (8 * (o / 8))); [lia|].
      destruct (Z.ltb_spec j (8 * (o / 8) + 8)); [|lia].
      fold (getbit c j). unfold getbit at 1. rewrite E0. f_equal.
      replace (j mod 8 - left) with (j - o) by lia.
      destruct (Z.ltb_spec (j - o) 0).
      * rewrite Z.shiftl_spec_low by lia. reflexivity.
      * rewrite Z.shiftl_spec by lia.
        destruct (Z.ltb_spec (j - o) 8); [|lia].
        replace (j mod 8 - left) with (j - o) by lia. reflexivity.
    + (* any other byte *)
      destruct (Z.ltb_spec j (8 * (o / 8 + 1))).
      * destruct (Z.ltb_spec j (8 * (o / 8))); [reflexivity|lia].
      * destruct (Z.ltb_spec j (8 * (o / 8))); [lia|].
        destruct (Z.ltb_spec j (8 * (o / 8) + 8)); [lia|].
        destruct (Z.ltb_spec j (8 * (o / 8 + 1) + 8)); [lia|].
        replace (8 * (o / 8 + 1 + zlen r + 1)) with (8 * (o / 8 + (zlen r + 1) + 1)) by lia.
        destruct (Z.ltb_spec j (8 * (o / 8 + (zlen r + 1) + 1))); [|reflexivity].
        destruct (Z.ltb_spec (j - o) 0); [lia|].
        destruct (Z.ltb_spec (j - o) 8); [lia|].
        f_equal. lia.
Qed.

Lemma byte_at_zeros n i : byte_at (zeros n) i = 0.
Proof.
  destruct (Z.ltb_spec i 0); [apply byte_at_neg; lia|].
  rewrite byte_at_lookup by lia. unfold zeros.
  destruct (replicate (Z.to_nat n) Byte.x00 !! Z.to_nat i) eqn:E; [|reflexivity].
  apply lookup_replicate in E. destruct E as [-> _]. reflexivity.
Qed.

Lemma getbit_zeros n j : getbit (zeros n) j = false.
Proof. unfold getbit. rewrite byte_at_zeros. apply Z.testbit_0_l. Qed.

Lemma new_spec (n : Z) :
  -1 <= n ->
  Serializer.new n
  = Ok (SS (zeros (n + 1)) {| base := 0; size := Z.to_nat (n + 1) |} 0).
Proof.
  intros Hn. unfold Serializer.new, _EXTRA_BUFFER_CAPACITY_BYTES.
  destruct (Z.ltb_spec (n + 1) 0); [lia|]. reflexivity.
Qed.

Lemma view_tolist_whole (m : list byte) :
  view_tolist m {| base := 0; size := length m |} = m.
Proof. unfold view_tolist. cbn [base size]. rewrite drop_0. apply firstn_all. Qed.

Lemma add_unaligned_bit_spec (a : ndarray) (x : bool) (m : list byte) (o : Z) :
  (base a + size a <= length m)%nat -> 0 <= o -> o / 8 < view_len a ->
  exists m',
    Serializer.add_unaligned_bit x (SS m a o) = (Ok tt, SS m' a (o + 1))
    /\ length m' = length m
    /\ forall j, 0 <= j ->
         getbit (view_tolist m' a) j = getbit (view_tolist m a) j || ((j =? o) && x).
Proof.
  intros Hwf Ho Hroom.
  assert (Hbo : 0 <= o / 8) by (apply Z.div_pos; lia).
  unfold Serializer.add_unaligned_bit. unfold bind at 1. unfold get at 1. unfold bind at 1.
  rewrite buf_getitem_inside
    by (unfold view_inside, Serializer._byte_offset;
        cbn [Serializer.self Serializer._buf Serializer._bit_offset Serializer.mem]; lia).
  unfold bind at 1.
  edestruct (buf_setitem_inside (SS m a o) (Serializer._byte_offset (SS m a o)))
    as (m1 & Hset1 & Hlen1 & Hc1);
    [ unfold view_inside; cbn [Serializer.self Serializer._buf Serializer.mem]; lia
    | unfold Serializer._byte_offset; cbn [Serializer.self Serializer._buf Serializer._bit_offset]; lia |].
  rewrite Hset1. clear Hset1.
  cbn [Serializer.self Serializer.mem Serializer._buf Serializer._bit_offset] in *.
  exists m1. split; [reflexivity|]. split; [exact Hlen1|].
  intros j Hj. rewrite Hc1. unfold contents, Serializer._byte_offset.
  cbn [Serializer.self Serializer.mem Serializer._buf Serializer._bit_offset].
  set (c := view_tolist m a).
  assert (Hlc : length c = size a) by (apply length_view_tolist; lia).
  rewrite getbit_insert by (unfold view_len in *; lia).
  rewrite Z2Nat.id by lia.
  assert (Hjm : 0 <= j mod 8 < 8) by (apply Z.mod_pos_bound; lia).
  assert (Hom : 0 <= o mod 8 < 8) by (apply Z.mod_pos_bound; lia).
  assert (Hjd : j = 8 * (j / 8) + j mod 8) by (apply Z.div_mod; lia).
  assert (Hod : o = 8 * (o / 8) + o mod 8) by (apply Z.div_mod; lia).
  destruct (Z.eqb_spec (j / 8) (o / 8)) as [E|E].
  - rewrite testbit_byte_of_Z by lia.
    destruct (Z.ltb_spec (j mod 8) 8); [|lia]. cbn [andb].
    rewrite Z.lor_spec. unfold getbit. rewrite E. f_equal.
    destruct x; cbn [Z.b2z].
    + rewrite Z.shiftl_1_l, Z.pow2_bits_eqb by lia.
      rewrite andb_true_r.
      destruct (Z.eqb_spec (o mod 8) (j mod 8)); destruct (Z.eqb_spec j o);
        try (exfalso; lia); reflexivity.
    + rewrite Z.shiftl_0_l, Z.testbit_0_l, andb_false_r. reflexivity.
  - destruct (Z.eqb_spec j o) as [->|]; [contradiction|]. cbn [andb]. rewrite orb_false_r.
    reflexivity.
Qed.

Lemma add_bits_spec (a : ndarray) :
  forall (bits : list bool) (m : list byte) (o : Z),
    (base a + size a <= length m)%nat -> 0 <= o -> o + zlen bits <= 8 * view_len a ->
    exists m',
      add_bits bits (SS m a o) = (Ok tt, SS m' a (o + zlen bits))
      /\ length m' = length m
      /\ forall j, 0 <= j ->
           getbit (view_tolist m' a) j
           = getbit (view_tolist m a) j
             || ((o <=? j) && (j <? o + zlen bits) && nth (Z.to_nat (j - o)) bits false).
Proof.
  induction bits as [|x r IH]; intros m o Hwf Ho Hroom.
  - exists m. cbn [add_bits]. unfold ret. change (zlen (@nil bool)) with 0.
    rewrite Z.add_0_r. split; [reflexivity|]. split; [reflexivity|].
    intros j Hj. destruct (Z.leb_spec o j); destruct (Z.ltb_spec j o); try (exfalso; lia);
      cbn [andb]; rewrite orb_false_r; reflexivity.
  - assert (Hzl : zlen (x :: r) = zlen r + 1) by (unfold zlen; cbn [length]; lia).
    pose proof (zlen_nonneg r) as Hr0. rewrite Hzl in *.
    cbn [add_bits]. unfold bind at 1.
    destruct (add_unaligned_bit_spec a x m o Hwf Ho) as (m1 & Hrun1 & Hlen1 & Hb1);
      [Z.div_mod_to_equations; lia|].
    rewrite Hrun1.
    destruct (IH m1 (o + 1)) as (m' & Hrun & Hlen & Hb); [lia|lia|lia|].
    rewrite Hrun. exists m'. split; [f_equal; f_equal; f_equal; lia|]. split; [lia|].
    intros j Hj. rewrite Hb, Hb1 by lia. rewrite <- orb_assoc. f_equal.
    destruct (Z.eqb_spec j o) as [->|Hne].
    + replace (o - o) with 0 by lia. cbn [Z.to_nat nth].
      destruct (Z.leb_spec (o + 1) o); [lia|]. destruct (Z.leb_spec o o); [|lia].
      destruct (Z.ltb_spec o (o + (zlen r + 1))); [|lia]. cbn [andb]. apply orb_false_r.
    + cbn [andb orb].
      destruct (Z.leb_spec (o + 1) j); destruct (Z.leb_spec o j); try (exfalso; lia);
        cbn [andb]; [|reflexivity].
      replace (o + 1 + zlen r) with (o + (zlen r + 1)) by lia.
      destruct (Z.ltb_spec j (o + (zlen r + 1))); cbn [andb]; [|reflexivity].
      replace (Z.to_nat (j - o)) with (S (Z.to_nat (j - (o + 1)))) by lia. reflexivity.
Qed.

Lemma add_unaligned_bytes_spec (a : ndarray) (bs m : list byte) (o : Z) :
  (base a + size a <= length m)%nat ->
  0 <= o -> o / 8 + zlen bs + 1 <= view_len a ->
  exists m',
    Serializer.add_unaligned_bytes bs (SS m a o) = (Ok tt, SS m' a (o + 8 * zlen bs))
    /\ length m' = length m
    /\ forall j, 0 <= j ->
         getbit (view_tolist m' a) j = after_unaligned (view_tolist m a) bs o j.
Proof.
  intros Hwf Ho Hroom. unfold Serializer.add_unaligned_bytes. unfold bind, get.
  cbn [Serializer.self Serializer._bit_offset].
  apply add_unaligned_bytes_loop_spec; try assumption; try reflexivity.
  pose proof (Z.mod_pos_bound o 8). lia.
Qed.

Lemma byte_of_Z_land_255 (v : Z) : byte.of_Z (Z.land v 255) = byte.of_Z v.
Proof.
  apply byte.unsigned_inj. rewrite !byte.unsigned_of_Z. unfold byte.wrap.
  change 255 with (Z.ones 8). rewrite Z.land_ones by lia. apply Z.mod_mod. lia.
Qed.

Lemma unsigned_to_bytes_loop_le_split (n : nat) :
  forall v, Serializer._unsigned_to_bytes_loop n v = le_split n v.
Proof.
  induction n as [|n IH]; intros v; [reflexivity|].
  cbn [Serializer._unsigned_to_bytes_loop]. rewrite byte_of_Z_land_255, IH. reflexivity.
Qed.

Lemma unsigned_to_bytes_spec (v w : Z) :
  0 <= v -> 1 <= w ->
  exists bs,
    Serializer._unsigned_to_bytes v w = Ok bs
    /\ zlen bs = (w + 7) / 8
    /\ le_combine bs = v mod 2 ^ w
    /\ bs = le_split (Z.to_nat ((w + 7) / 8)) (v mod 2 ^ w).
Proof.
  intros Hv Hw. unfold Serializer._unsigned_to_bytes.
  destruct (Z.geb_spec w 1); [|lia]. destruct (Z.geb_spec v 0); [|lia]. cbn [negb].
  rewrite unsigned_to_bytes_loop_le_split.
  assert (Hnb : 0 <= (w + 7) / 8) by (apply Z.div_pos; lia).
  assert (Hmask : Z.land v (2 ^ w - 1) = v mod 2 ^ w).
  { rewrite Z.sub_1_r, <- Z.ones_equiv. apply Z.land_ones. lia. }
  rewrite Hmask. eexists. split; [reflexivity|]. split; [|split; [|reflexivity]].
  - apply zlen_length; [lia|]. apply length_le_split.
  - rewrite le_combine_split. apply Z.mod_small.
    assert (Hm : 0 <= v mod 2 ^ w < 2 ^ w) by (apply Z.mod_pos_bound; apply Z.pow_pos_nonneg; lia).
    split; [lia|]. eapply Z.lt_le_trans; [apply Hm|].
    apply Z.pow_le_mono_r; [lia|]. rewrite Z2Nat.id by lia. Z.div_mod_to_equations; lia.
Qed.

Lemma buffer_spec (a : ndarray) (m : list byte) (o : Z) :
  (base a + size a <= length m)%nat ->
  0 <= (o + 7) / 8 <= view_len a ->
  Serializer.buffer (SS m a o) = take (Z.to_nat ((o + 7) / 8)) (view_tolist m a).
Proof.
  intros Hwf Hn. unfold Serializer.buffer, Serializer.buffer_view.
  cbn [Serializer.self Serializer.mem Serializer._buf Serializer._bit_offset].
  rewrite view_slice_to by lia. unfold view_tolist. cbn [base size].
  rewrite take_take. f_equal. unfold view_len in *. lia.
Qed.

Lemma zlen_buffer (a : ndarray) (m : list byte) (o : Z) :
  (base a + size a <= length m)%nat ->
  0 <= (o + 7) / 8 <= view_len a ->
  zlen (Serializer.buffer (SS m a o)) = (o + 7) / 8.
Proof.
  intros Hwf Hn. rewrite buffer_spec by assumption. unfold zlen.
  rewrite length_take, length_view_tolist by assumption. unfold view_len in *. lia.
Qed.

Lemma view_tolist_inserts (m : list byte) (a : ndarray) (k : nat) (xs : list byte) :
  (base a + size a <= length m)%nat -> (k + length xs <= size a)%nat ->
  view_tolist (list_inserts (base a + k) xs m) a = list_inserts k xs (view_tolist m a).
Proof.
  intros Hwf Hk. apply list_eq. intros i.
  assert (Hl : length (view_tolist m a) = size a) by (apply length_view_tolist; lia).
  destruct (Nat.lt_ge_cases i (size a)) as [Hlt|Hge].
  - rewrite lookup_view_tolist by lia.
    destruct (Nat.lt_ge_cases i k) as [H1|H1].
    + rewrite !list_lookup_inserts_lt by lia. rewrite lookup_view_tolist by lia. reflexivity.
    + destruct (Nat.lt_ge_cases i (k + length xs)) as [H2|H2].
      * rewrite !list_lookup_inserts by lia. f_equal. lia.
      * rewrite !list_lookup_inserts_ge by lia. rewrite lookup_view_tolist by lia. reflexivity.
  - rewrite !lookup_ge_None_2; [reflexivity| |].
    + rewrite length_inserts. lia.
    + unfold view_tolist. rewrite length_take, length_drop, length_inserts. lia.
Qed.

Lemma add_aligned_bytes_spec (a : ndarray) (xs m : list byte) (o : Z) :
  (base a + size a <= length m)%nat ->
  0 <= o -> o mod 8 = 0 -> o / 8 + zlen xs <= view_len a ->
  Serializer.add_aligned_bytes xs (SS m a o)
  = (Ok tt, SS (list_inserts (base a + Z.to_nat (o / 8)) xs m) a (o + zlen xs * 8))
  /\ view_tolist (list_inserts (base a + Z.to_nat (o / 8)) xs m) a
     = list_inserts (Z.to_nat (o / 8)) xs (view_tolist m a).
Proof.
  intros Hwf Ho Hal Hroom.
  assert (Hbo : 0 <= o / 8) by (apply Z.div_pos; lia).
  pose proof (zlen_nonneg xs) as Hx.
  split.
  - unfold Serializer.add_aligned_bytes. sred_all. rewrite Hal. cbn [Z.eqb].
    unfold Serializer.buf_setslice.
    cbn [Serializer.self Serializer.mem Serializer._buf Serializer._bit_offset].
    assert (Hv : view_slice a (Some (o / 8)) (Some (o / 8 + zlen xs))
                 = {| base := base a + Z.to_nat (o / 8); size := length xs |}).
    { unfold view_slice. rewrite !slice_bound_nonneg by (unfold view_len; lia).
      rewrite !Z.min_l by lia. f_equal. unfold zlen. lia. }
    rewrite Hv. unfold view_assign. cbn [base size]. unfold view_len at 1. cbn [size].
    fold (zlen xs). rewrite Z.eqb_refl. reflexivity.
  - apply view_tolist_inserts; [assumption|]. unfold view_len, zlen in *. lia.
Qed.

Lemma take_inserts_zeros (xs : list byte) (n : Z) :
  zlen xs <= n ->
  take (length xs) (list_inserts 0 xs (zeros n)) = xs.
Proof.
  intros Hn. apply list_eq. intros i. unfold zlen in *.
  destruct (Nat.lt_ge_cases i (length xs)) as [Hlt|Hge].
  - rewrite lookup_take_lt by lia. rewrite list_lookup_inserts by (rewrite ?length_zeros; lia).
    f_equal. lia.
  - rewrite lookup_take_ge by lia. symmetry. apply lookup_ge_None_2. lia.
Qed.


(** ** The unaligned byte-pack invariant *)

Lemma testbit_bits_to_Z (bits : list bool) :
  forall j, 0 <= j ->
    Z.testbit (bits_to_Z bits) j = (j <? zlen bits) && nth (Z.to_nat j) bits false.
Proof.
  induction bits as [|b r IH]; intros j Hj.
  - cbn [bits_to_Z]. rewrite Z.testbit_0_l. change (zlen (@nil bool)) with 0.
    destruct (Z.ltb_spec j 0); [lia|]. reflexivity.
  - assert (Hzl : zlen (b :: r) = zlen r + 1) by (unfold zlen; cbn [length]; lia).
    pose proof (zlen_nonneg r). rewrite Hzl.
    cbn [bits_to_Z]. rewrite Z.lor_spec.
    destruct (Z.eq_dec j 0) as [->|Hne].
    + rewrite Z.shiftl_spec_low by lia. rewrite orb_false_r.
      destruct (Z.ltb_spec 0 (zlen r + 1)); [|lia]. cbn [andb Z.to_nat nth].
      destruct b; reflexivity.
    + rewrite Z.shiftl_spec by lia. rewrite IH by lia.
      replace (Z.testbit (Z.b2z b) j) with false
        by (destruct b; cbn [Z.b2z]; [symmetry; apply Z.bits_above_log2; cbn; lia
                                     |symmetry; apply Z.testbit_0_l]).
      cbn [orb].
      replace (Z.to_nat j) with (S (Z.to_nat (j - 1))) by lia. cbn [nth].
      destruct (Z.ltb_spec (j - 1) (zlen r)); destruct (Z.ltb_spec j (zlen r + 1));
        try (exfalso; lia); reflexivity.
Qed.

(** The state of a fresh serializer of size [n] after the bits [dummy] and
    then the bytes [bs], written unaligned. *)
Lemma prefix_then_bytes (dummy : list bool) (bs : list byte) (n : Z) :
  zlen dummy <= 7 -> zlen bs <= n ->
  let a := {| base := 0; size := Z.to_nat (n + 1) |} in
  exists m',
    rbind (Serializer.new n)
          (fun s => Ok ((add_bits dummy ;; Serializer.add_unaligned_bytes bs) s))
    = Ok (Ok tt, SS m' a (zlen dummy + 8 * zlen bs))
    /\ length m' = Z.to_nat (n + 1)
    /\ forall j, 0 <= j -> getbit (view_tolist m' a) j = prefixed_stream dummy bs j.
Proof.
  intros Hk Hn a. pose proof (zlen_nonneg dummy) as Hd. pose proof (zlen_nonneg bs) as Hb.
  rewrite new_spec by lia. cbn [rbind]. fold a.
  assert (Hwf0 : (base a + size a <= length (zeros (n + 1)))%nat)
    by (rewrite length_zeros; cbn; lia).
  assert (Hvl : view_len a = n + 1) by (unfold view_len, a; cbn [size]; lia).
  destruct (add_bits_spec a dummy (zeros (n + 1)) 0 Hwf0) as (m1 & Hrun1 & Hlen1 & Hb1);
    [lia|lia|].
  unfold bind at 1. rewrite Hrun1.
  destruct (add_unaligned_bytes_spec a bs m1 (0 + zlen dummy)) as (m2 & Hrun2 & Hlen2 & Hb2).
  { lia. } { lia. }
  { replace ((0 + zlen dummy) / 8) with 0 by (Z.div_mod_to_equations; lia). lia. }
  rewrite Hrun2. exists m2. split; [reflexivity|]. split; [rewrite Hlen2, Hlen1; apply length_zeros|].
  intros j Hj. rewrite Hb2 by lia. unfold after_unaligned, prefixed_stream.
  replace ((0 + zlen dummy) / 8) with 0 by (Z.div_mod_to_equations; lia).
  rewrite !Hb1 by lia.
  assert (Hz : getbit (view_tolist (zeros (n + 1)) a) j = false).
  { unfold a. replace (Z.to_nat (n + 1)) with (length (zeros (n + 1))) by apply length_zeros.
    rewrite view_tolist_whole. apply getbit_zeros. }
  rewrite Hz. cbn [orb]. rewrite Z.add_0_l, Z.sub_0_r.
  destruct (Z.ltb_spec j (8 * 0)); [lia|]. destruct (Z.leb_spec 0 j); [|lia]. cbn [andb].
  destruct (Z.ltb_spec j (zlen dummy)) as [Hjk|Hjk]; cbn [andb].
  - destruct (Z.ltb_spec j (8 * 0 + 8)); [|lia].
    rewrite (getbit_neg bs) by lia. apply orb_false_r.
  - destruct (Z.ltb_spec j (8 * 0 + 8)); [reflexivity|].
    destruct (Z.ltb_spec j (8 * (0 + zlen bs + 1))); [reflexivity|].
    symmetry. apply getbit_overflow. lia.
Qed.

Lemma prefixed_stream_high (dummy : list bool) (bs : list byte) (j : Z) :
  zlen dummy + 8 * zlen bs <= j -> prefixed_stream dummy bs j = false.
Proof.
  intros Hj. pose proof (zlen_nonneg bs). unfold prefixed_stream.
  destruct (Z.ltb_spec j (zlen dummy)); [lia|]. apply getbit_overflow. lia.
Qed.

Lemma testbit_shifted_into_prefix (dummy : list bool) (bs : list byte) (j : Z) :
  0 <= j -> Z.testbit (shifted_into_prefix dummy bs) j = prefixed_stream dummy bs j.
Proof.
  intros Hj. pose proof (zlen_nonneg dummy). unfold shifted_into_prefix, prefixed_stream.
  rewrite Z.lor_spec, testbit_bits_to_Z by lia.
  destruct (Z.ltb_spec j (zlen dummy)); cbn [andb].
  - rewrite Z.shiftl_spec_low by lia. apply orb_false_r.
  - rewrite Z.shiftl_spec by lia. rewrite testbit_le_combine by lia. reflexivity.
Qed.

(** C8: on a fresh serializer, [k <= 7] dummy bits and then
    [add_unaligned_bytes B] give a buffer whose bit [j] is the dummy bit [j]
    for [j < k] and bit [j - k] of [B] from there on; as an integer it is
    the buffer of the aligned write [add_aligned_bytes B] at offset 0 (which
    is [B] itself) shifted left by [k] bits under the prefix; the cursor is
    [k] bits further than after the aligned write. *)
Theorem unaligned_byte_pack (B : list byte) (dummy : list bool) (n : Z) :
  zlen dummy <= 7 -> zlen B <= n ->
  exists su sa,
    on_new n (add_bits dummy ;; Serializer.add_unaligned_bytes B) = Ok (Ok tt, su)
    /\ on_new n (Serializer.add_aligned_bytes B) = Ok (Ok tt, sa)
    /\ Serializer.buffer sa = B
    /\ Serializer.current_bit_length su = zlen dummy + Serializer.current_bit_length sa
    /\ (forall j, 0 <= j -> getbit (Serializer.buffer su) j = prefixed_stream dummy B j)
    /\ le_combine (Serializer.buffer su) = shifted_into_prefix dummy (Serializer.buffer sa).
Proof.
  intros Hk Hn. pose proof (zlen_nonneg dummy) as Hd. pose proof (zlen_nonneg B) as Hb.
  set (a := {| base := 0; size := Z.to_nat (n + 1) |}).
  assert (Hvl : view_len a = n + 1) by (unfold view_len, a; cbn [size]; lia).
  destruct (prefix_then_bytes dummy B n Hk Hn) as (mu & Hrunu & Hlenu & Hbu). fold a in Hrunu, Hbu.
  (* the aligned write *)
  assert (Hwf0 : (base a + size a <= length (zeros (n + 1)))%nat)
    by (rewrite length_zeros; cbn; lia).
  destruct (add_aligned_bytes_spec a B (zeros (n + 1)) 0 Hwf0) as [Hruna Hca];
    [lia|reflexivity|change (0 / 8) with 0; lia|].
  change (0 / 8) with 0 in *. change (Z.to_nat 0) with 0%nat in *.
  cbn [base a Nat.add] in Hruna, Hca. fold a in Hruna, Hca.
  set (ma := list_inserts 0 B (zeros (n + 1))) in *.
  assert (Hbufa : Serializer.buffer (SS ma a (0 + zlen B * 8)) = B).
  { rewrite buffer_spec.
    - rewrite Hca. unfold a.
      replace (Z.to_nat (n + 1)) with (length (zeros (n + 1))) by apply length_zeros.
      rewrite view_tolist_whole.
      replace (Z.to_nat ((0 + zlen B * 8 + 7) / 8)) with (length B)
        by (unfold zlen; Z.div_mod_to_equations; lia).
      apply take_inserts_zeros. lia.
    - unfold ma. rewrite length_inserts, length_zeros. cbn. lia.
    - Z.div_mod_to_equations; lia. }
  assert (Hbufu : forall j, 0 <= j ->
            getbit (Serializer.buffer (SS mu a (zlen dummy + 8 * zlen B))) j
            = prefixed_stream dummy B j).
  { intros j Hj. rewrite buffer_spec;
      [| cbn; lia | Z.div_mod_to_equations; lia].
    rewrite getbit_take by (Z.div_mod_to_equations; lia).
    rewrite Hbu by lia.
    destruct (Z.ltb_spec j (8 * ((zlen dummy + 8 * zlen B + 7) / 8))); [reflexivity|].
    cbn [andb]. symmetry. apply prefixed_stream_high. Z.div_mod_to_equations; lia. }
  exists (SS mu a (zlen dummy + 8 * zlen B)), (SS ma a (0 + zlen B * 8)).
  split; [exact Hrunu|]. split.
  { unfold on_new. rewrite new_spec by lia. cbn [rbind]. fold a. rewrite Hruna. reflexivity. }
  split; [exact Hbufa|]. split.
  { unfold Serializer.current_bit_length. cbn [Serializer.self Serializer._bit_offset]. lia. }
  split; [exact Hbufu|].
  rewrite Hbufa. apply Z.bits_inj'. intros j Hj.
  rewrite testbit_le_combine, testbit_shifted_into_prefix by lia. apply Hbufu. lia.
Qed.

Lemma unaligned_byte_pack_witness :
  exists su sa,
    on_new 3 (add_bits [true; false; true] ;;
              Serializer.add_unaligned_bytes [Byte.x12; Byte.x34; Byte.x56]) = Ok (Ok tt, su)
    /\ on_new 3 (Serializer.add_aligned_bytes [Byte.x12; Byte.x34; Byte.x56]) = Ok (Ok tt, sa)
    /\ Serializer.buffer sa = [Byte.x12; Byte.x34; Byte.x56]
    /\ Serializer.current_bit_length su = zlen [true; false; true] + Serializer.current_bit_length sa
    /\ (forall j, 0 <= j -> getbit (Serializer.buffer su) j
                           = prefixed_stream [true; false; true] [Byte.x12; Byte.x34; Byte.x56] j)
    /\ le_combine (Serializer.buffer su)
       = shifted_into_prefix [true; false; true] (Serializer.buffer sa).
Proof.
  apply (unaligned_byte_pack [Byte.x12; Byte.x34; Byte.x56] [true; false; true] 3);
    vm_compute; discriminate.
Defined.


(** ** Truncation of unsigned values *)

(** The bits of a fresh serializer's buffer after the bits [dummy] and then
    [add_unaligned_unsigned value w]. *)
Lemma prefix_then_unsigned (dummy : list bool) (value w n : Z) :
  0 <= value -> 1 <= w -> zlen dummy <= 7 -> (w + 7) / 8 <= n ->
  exists s',
    on_new n (add_bits dummy ;; Serializer.add_unaligned_unsigned value w) = Ok (Ok tt, s')
    /\ Serializer.current_bit_length s' = zlen dummy + w
    /\ forall j, 0 <= j ->
         getbit (Serializer.buffer s') j
         = if j <? zlen dummy then nth (Z.to_nat j) dummy false
           else (j - zlen dummy <? w) && Z.testbit value (j - zlen dummy).
Proof.
  intros Hv Hw Hk Hn. pose proof (zlen_nonneg dummy) as Hd.
  destruct (unsigned_to_bytes_spec value w Hv Hw) as (bs & Hbs & Hlen & Hval & _).
  assert (Hnb : 0 <= (w + 7) / 8) by (apply Z.div_pos; lia).
  destruct (prefix_then_bytes dummy bs n Hk) as (m' & Hrun & Hlm & Hbits); [lia|].
  set (a := {| base := 0; size := Z.to_nat (n + 1) |}) in *.
  exists (SS m' a (zlen dummy + w)). split; [|split].
  - unfold on_new. rewrite new_spec in * by lia. cbn [rbind] in *.
    injection Hrun as Hrun. unfold bind in Hrun. unfold bind at 1.
    destruct (add_bits dummy _) as [[[]|e] s1]; [|discriminate].
    unfold Serializer.add_unaligned_unsigned. sred.
    destruct (Z.ltb_spec value 0); [lia|]. rewrite Hbs.
    destruct (Z.geb_spec (zlen bs * 8 - w) 0); [|Z.div_mod_to_equations; lia].
    rewrite Hrun. f_equal. f_equal. cbn [Serializer.self Serializer.mem Serializer._buf Serializer._bit_offset].
    f_equal. f_equal. lia.
  - reflexivity.
  - intros j Hj.
    assert (Hvl : view_len a = n + 1) by (unfold view_len, a; cbn [size]; lia).
    rewrite buffer_spec; [| cbn; lia | Z.div_mod_to_equations; lia].
    rewrite getbit_take by (Z.div_mod_to_equations; lia).
    rewrite Hbits by lia. unfold prefixed_stream.
    destruct (Z.ltb_spec j (zlen dummy)) as [Hjk|Hjk].
    + destruct (Z.ltb_spec j (8 * ((zlen dummy + w + 7) / 8))); [reflexivity|].
      exfalso. Z.div_mod_to_equations; lia.
    + rewrite <- testbit_le_combine by lia. rewrite Hval.
      rewrite Z.testbit_mod_pow2 by lia.
      destruct (Z.ltb_spec (j - zlen dummy) w); cbn [andb]; [|apply andb_false_r].
      destruct (Z.ltb_spec j (8 * ((zlen dummy + w + 7) / 8))); [reflexivity|].
      exfalso. Z.div_mod_to_equations; lia.
Qed.

(** The buffer ends with the byte of the last bit written. *)
Lemma prefix_then_unsigned_length (dummy : list bool) (value w n : Z) (s' : Serializer.state) :
  0 <= value -> 1 <= w -> zlen dummy <= 7 -> (w + 7) / 8 <= n ->
  on_new n (add_bits dummy ;; Serializer.add_unaligned_unsigned value w) = Ok (Ok tt, s') ->
  zlen (Serializer.buffer s') = (zlen dummy + w + 7) / 8.
Proof.
  intros Hv Hw Hk Hn Hs'. pose proof (zlen_nonneg dummy) as Hd.
  destruct (unsigned_to_bytes_spec value w Hv Hw) as (bs & Hbs & Hlen & Hval & _).
  assert (Hnb : 0 <= (w + 7) / 8) by (apply Z.div_pos; lia).
  destruct (prefix_then_bytes dummy bs n Hk) as (m' & Hrun & Hlm & Hbits); [lia|].
  set (a := {| base := 0; size := Z.to_nat (n + 1) |}) in *.
  assert (Hshape : on_new n (add_bits dummy ;; Serializer.add_unaligned_unsigned value w)
                   = Ok (Ok tt, SS m' a (zlen dummy + w))).
  { unfold on_new. rewrite new_spec in * by lia. cbn [rbind] in *.
    injection Hrun as Hrun. unfold bind in Hrun. unfold bind at 1.
    destruct (add_bits dummy _) as [[[]|e] s1]; [|discriminate].
    unfold Serializer.add_unaligned_unsigned. sred.
    destruct (Z.ltb_spec value 0); [lia|]. rewrite Hbs.
    destruct (Z.geb_spec (zlen bs * 8 - w) 0); [|Z.div_mod_to_equations; lia].
    rewrite Hrun. f_equal. f_equal.
    cbn [Serializer.self Serializer.mem Serializer._buf Serializer._bit_offset].
    f_equal. f_equal. lia. }
  rewrite Hshape in Hs'. injection Hs' as <-. subst a.
  apply zlen_buffer; [cbn [base size]; lia|].
  unfold view_len. cbn [size]. Z.div_mod_to_equations; lia.
Qed.

Lemma add_aligned_unsigned_spec (a : ndarray) (m bs : list byte) (value w o : Z) :
  (base a + size a <= length m)%nat ->
  0 <= o -> o mod 8 = 0 -> 0 <= value ->
  Serializer._unsigned_to_bytes value w = Ok bs ->
  o / 8 + zlen bs <= view_len a ->
  Serializer.add_aligned_unsigned value w (SS m a o)
  = (Ok tt, SS (list_inserts (base a + Z.to_nat (o / 8)) bs m) a (o + w)).
Proof.
  intros Hwf Ho Hal Hv Hbs Hroom.
  assert (Hbo : 0 <= o / 8) by (apply Z.div_pos; lia).
  pose proof (zlen_nonneg bs) as Hx.
  unfold Serializer.add_aligned_unsigned. sred_all. rewrite Hal. cbn [Z.eqb].
  destruct (Z.ltb_spec value 0); [lia|]. rewrite Hbs.
  unfold Serializer.buf_setslice.
  cbn [Serializer.self Serializer.mem Serializer._buf Serializer._bit_offset].
  assert (Hv' : view_slice a (Some (o / 8)) (Some (o / 8 + zlen bs))
                = {| base := base a + Z.to_nat (o / 8); size := length bs |}).
  { unfold view_slice. rewrite !slice_bound_nonneg by (unfold view_len; lia).
    rewrite !Z.min_l by lia. f_equal. unfold zlen. lia. }
  rewrite Hv'. unfold view_assign. cbn [base size]. unfold view_len at 1. cbn [size].
  fold (zlen bs). rewrite Z.eqb_refl. reflexivity.
Qed.

Lemma aligned_unsigned_on_new (value w n : Z) :
  0 <= value -> 1 <= w -> (w + 7) / 8 <= n ->
  exists s',
    on_new n (Serializer.add_aligned_unsigned value w) = Ok (Ok tt, s')
    /\ Serializer.current_bit_length s' = w
    /\ Serializer.buffer s' = le_split (Z.to_nat ((w + 7) / 8)) (value mod 2 ^ w).
Proof.
  intros Hv Hw Hn.
  destruct (unsigned_to_bytes_spec value w Hv Hw) as (bs & Hbs & Hlen & Hval & Hsplit).
  assert (Hnb : 0 <= (w + 7) / 8) by (apply Z.div_pos; lia).
  set (a := {| base := 0; size := Z.to_nat (n + 1) |}).
  assert (Hvl : view_len a = n + 1) by (unfold view_len, a; cbn [size]; lia).
  exists (SS (list_inserts 0 bs (zeros (n + 1))) a w). split; [|split].
  - unfold on_new. rewrite new_spec by lia. cbn [rbind]. fold a.
    rewrite (add_aligned_unsigned_spec a (zeros (n + 1)) bs value w 0);
      [reflexivity | rewrite length_zeros; cbn; lia | lia | reflexivity | lia | exact Hbs
      | change (0 / 8) with 0; lia].
  - reflexivity.
  - rewrite buffer_spec.
    + unfold a. replace (Z.to_nat (n + 1)) with (length (list_inserts 0 bs (zeros (n + 1))))
        by (rewrite length_inserts; apply length_zeros).
      rewrite view_tolist_whole.
      replace (Z.to_nat ((w + 7) / 8)) with (length bs) by (unfold zlen in Hlen; lia).
      rewrite take_inserts_zeros by lia. rewrite Hsplit at 1.
      f_equal. unfold zlen in Hlen. lia.
    + rewrite length_inserts, length_zeros. cbn. lia.
    + lia.
Qed.

Lemma unsigned_to_bytes_mod (value w : Z) :
  0 <= value -> 1 <= w ->
  Serializer._unsigned_to_bytes (value mod 2 ^ w) w = Serializer._unsigned_to_bytes value w.
Proof.
  intros Hv Hw.
  assert (Hm : 0 <= value mod 2 ^ w < 2 ^ w)
    by (apply Z.mod_pos_bound; apply Z.pow_pos_nonneg; lia).
  destruct (unsigned_to_bytes_spec value w Hv Hw) as (bs & -> & _ & _ & ->).
  destruct (unsigned_to_bytes_spec (value mod 2 ^ w) w) as (bs' & -> & _ & _ & ->); [lia|lia|].
  rewrite Z.mod_mod by lia. reflexivity.
Qed.

(** C5: for a non-negative value and a width [w >= 1] the unsigned writes
    of arbitrary width write [value mod 2^w] and nothing of the bits above:
    writing [value] is writing [value mod 2^w], in every state; on a fresh
    serializer the aligned write leaves the little-endian bytes of
    [value mod 2^w] in the buffer and the unaligned write leaves them
    shifted behind the prefix.  [add_aligned_unsigned 0xBEDA 12] writes
    [0xEDA], the bytes [DA 0E]. *)
Theorem unsigned_truncation (value w : Z) :
  0 <= value -> 1 <= w ->
  (forall s, Serializer.add_aligned_unsigned value w s
             = Serializer.add_aligned_unsigned (value mod 2 ^ w) w s)
  /\ (forall s, Serializer.add_unaligned_unsigned value w s
                = Serializer.add_unaligned_unsigned (value mod 2 ^ w) w s)
  /\ (forall n, (w + 7) / 8 <= n ->
        exists s',
          on_new n (Serializer.add_aligned_unsigned value w) = Ok (Ok tt, s')
          /\ Serializer.current_bit_length s' = w
          /\ Serializer.buffer s' = le_split (Z.to_nat ((w + 7) / 8)) (value mod 2 ^ w)
          /\ le_combine (Serializer.buffer s') = value mod 2 ^ w)
  /\ (forall dummy n, zlen dummy <= 7 -> (w + 7) / 8 <= n ->
        exists s',
          on_new n (add_bits dummy ;; Serializer.add_unaligned_unsigned value w) = Ok (Ok tt, s')
          /\ Serializer.current_bit_length s' = zlen dummy + w
          /\ le_combine (Serializer.buffer s')
             = Z.lor (bits_to_Z dummy) (Z.shiftl (value mod 2 ^ w) (zlen dummy))).
Proof.
  intros Hv Hw.
  assert (Hm : 0 <= value mod 2 ^ w < 2 ^ w)
    by (apply Z.mod_pos_bound; apply Z.pow_pos_nonneg; lia).
  assert (Hlt : (value mod 2 ^ w <? 0) = (value <? 0)).
  { destruct (Z.ltb_spec value 0); destruct (Z.ltb_spec (value mod 2 ^ w) 0); lia || reflexivity. }
  repeat split.
  - intros s. unfold Serializer.add_aligned_unsigned. sred.
    rewrite Hlt, unsigned_to_bytes_mod by lia. reflexivity.
  - intros s. unfold Serializer.add_unaligned_unsigned. sred.
    rewrite Hlt, unsigned_to_bytes_mod by lia. reflexivity.
  - intros n Hn. destruct (aligned_unsigned_on_new value w n Hv Hw Hn) as (s' & Hrun & Hlen & Hbuf).
    exists s'. split; [exact Hrun|]. split; [exact Hlen|]. split; [exact Hbuf|].
    rewrite Hbuf, le_combine_split. apply Z.mod_small. split; [lia|].
    eapply Z.lt_le_trans; [apply Hm|]. apply Z.pow_le_mono_r; [lia|].
    assert (0 <= (w + 7) / 8) by (apply Z.div_pos; lia).
    rewrite Z2Nat.id by lia. Z.div_mod_to_equations; lia.
  - intros dummy n Hk Hn. pose proof (zlen_nonneg dummy) as Hd.
    destruct (prefix_then_unsigned dummy value w n Hv Hw Hk Hn) as (s' & Hrun & Hlen & Hbits).
    exists s'. split; [exact Hrun|]. split; [exact Hlen|].
    apply Z.bits_inj'. intros j Hj.
    rewrite testbit_le_combine, Hbits by lia.
    rewrite Z.lor_spec, testbit_bits_to_Z by lia.
    destruct (Z.ltb_spec j (zlen dummy)); cbn [andb].
    + rewrite Z.shiftl_spec_low by lia. symmetry. apply orb_false_r.
    + rewrite Z.shiftl_spec by lia. rewrite Z.testbit_mod_pow2 by lia. reflexivity.
Qed.

Lemma unsigned_truncation_witness :
  exists s',
    on_new 2 (Serializer.add_aligned_unsigned 48858 12) = Ok (Ok tt, s')
    /\ Serializer.current_bit_length s' = 12
    /\ Serializer.buffer s' = [Byte.xda; Byte.x0e]
    /\ le_combine (Serializer.buffer s') = 3802.
Proof.
  destruct (unsigned_truncation 48858 12) as (_ & _ & Haligned & _); [lia|lia|].
  apply (Haligned 2). vm_compute. discriminate.
Defined.


(** ** Saturation of floats *)

Lemma aligned_bytes_on_new (B : list byte) (n : Z) :
  zlen B <= n ->
  exists sa,
    on_new n (Serializer.add_aligned_bytes B) = Ok (Ok tt, sa)
    /\ Serializer.current_bit_length sa = 8 * zlen B
    /\ Serializer.buffer sa = B.
Proof.
  intros Hn. pose proof (zlen_nonneg B) as Hb.
  set (a := {| base := 0; size := Z.to_nat (n + 1) |}).
  assert (Hvl : view_len a = n + 1) by (unfold view_len, a; cbn [size]; lia).
  assert (Hwf0 : (base a + size a <= length (zeros (n + 1)))%nat)
    by (rewrite length_zeros; cbn; lia).
  destruct (add_aligned_bytes_spec a B (zeros (n + 1)) 0 Hwf0) as [Hruna Hca];
    [lia|reflexivity|change (0 / 8) with 0; lia|].
  change (0 / 8) with 0 in *. change (Z.to_nat 0) with 0%nat in *.
  cbn [base a Nat.add] in Hruna, Hca. fold a in Hruna, Hca.
  set (ma := list_inserts 0 B (zeros (n + 1))) in *.
  exists (SS ma a (0 + zlen B * 8)). split; [|split].
  - unfold on_new. rewrite new_spec by lia. cbn [rbind]. fold a. rewrite Hruna. reflexivity.
  - unfold Serializer.current_bit_length. cbn [Serializer.self Serializer._bit_offset]. lia.
  - rewrite buffer_spec.
    + rewrite Hca. unfold a.
      replace (Z.to_nat (n + 1)) with (length (zeros (n + 1))) by apply length_zeros.
      rewrite view_tolist_whole.
      replace (Z.to_nat ((0 + zlen B * 8 + 7) / 8)) with (length B)
        by (unfold zlen; Z.div_mod_to_equations; lia).
      apply take_inserts_zeros. lia.
    + unfold ma. rewrite length_inserts, length_zeros. cbn. lia.
    + Z.div_mod_to_equations; lia.
Qed.

Lemma unaligned_bytes_on_new (dummy : list bool) (B : list byte) (n : Z) :
  zlen dummy <= 7 -> zlen B <= n ->
  exists su,
    on_new n (add_bits dummy ;; Serializer.add_unaligned_bytes B) = Ok (Ok tt, su)
    /\ Serializer.current_bit_length su = zlen dummy + 8 * zlen B
    /\ (forall j, 0 <= j -> getbit (Serializer.buffer su) j = prefixed_stream dummy B j)
    /\ le_combine (Serializer.buffer su) = shifted_into_prefix dummy B.
Proof.
  intros Hk Hn. pose proof (zlen_nonneg dummy) as Hd. pose proof (zlen_nonneg B) as Hb.
  set (a := {| base := 0; size := Z.to_nat (n + 1) |}).
  assert (Hvl : view_len a = n + 1) by (unfold view_len, a; cbn [size]; lia).
  destruct (prefix_then_bytes dummy B n Hk Hn) as (mu & Hrunu & Hlenu & Hbu). fold a in Hrunu, Hbu.
  assert (Hbufu : forall j, 0 <= j ->
            getbit (Serializer.buffer (SS mu a (zlen dummy + 8 * zlen B))) j
            = prefixed_stream dummy B j).
  { intros j Hj. rewrite buffer_spec;
      [| cbn; lia | Z.div_mod_to_equations; lia].
    rewrite getbit_take by (Z.div_mod_to_equations; lia).
    rewrite Hbu by lia.
    destruct (Z.ltb_spec j (8 * ((zlen dummy + 8 * zlen B + 7) / 8))); [reflexivity|].
    cbn [andb]. symmetry. apply prefixed_stream_high. Z.div_mod_to_equations; lia. }
  exists (SS mu a (zlen dummy + 8 * zlen B)).
  split; [exact Hrunu|]. split; [reflexivity|]. split; [exact Hbufu|].
  apply Z.bits_inj'. intros j Hj.
  rewrite testbit_le_combine, testbit_shifted_into_prefix by lia. apply Hbufu. lia.
Qed.

Lemma unaligned_bytes_on_new_length (dummy : list bool) (B : list byte) (n : Z)
      (su : Serializer.state) :
  zlen dummy <= 7 -> zlen B <= n ->
  on_new n (add_bits dummy ;; Serializer.add_unaligned_bytes B) = Ok (Ok tt, su) ->
  zlen (Serializer.buffer su) = (zlen dummy + 8 * zlen B + 7) / 8.
Proof.
  intros Hk Hn Hsu. pose proof (zlen_nonneg dummy) as Hd. pose proof (zlen_nonneg B) as Hb.
  destruct (prefix_then_bytes dummy B n Hk Hn) as (mu & Hrunu & Hlenu & _).
  unfold on_new in Hsu. rewrite Hrunu in Hsu. injection Hsu as <-.
  apply zlen_buffer; [cbn [base size]; lia|].
  unfold view_len. cbn [size]. Z.div_mod_to_equations; lia.
Qed.

Lemma float_to_bytes_overflow (f : struct.format) (x : spec_float) :
  out_of_range f x ->
  struct.pack f x = Raise OverflowError
  /\ Serializer._float_to_bytes f x = Ok (infinity_bytes f (sign_of x)).
Proof.
  intros [Hfin Hover].
  assert (Hpack : struct.pack f x = Raise OverflowError).
  { unfold struct.pack. rewrite Hfin, Hover. reflexivity. }
  split; [exact Hpack|].
  unfold Serializer._float_to_bytes. rewrite Hpack.
  destruct x as [s| | |s m e]; try discriminate.
  - exfalso. destruct f; cbn in Hover; discriminate.
  - assert (Hinf : (if float_gt0 (S754_finite s m e) then inf else SFopp inf) = S754_infinity s)
      by (destruct s; reflexivity).
    rewrite Hinf. unfold struct.pack, infinity_bytes. cbn [sign_of struct.is_finite andb].
    destruct f; reflexivity.
Qed.

Lemma zlen_infinity_bytes f s : zlen (infinity_bytes f s) = struct.calcsize f.
Proof.
  unfold infinity_bytes. apply zlen_length; [destruct f; cbn; lia|]. apply length_le_split.
Qed.

(** C7, amended: a finite float that overflows the format (16, 32 or 64
    bits), that is, whose rounding to the format is not finite, does not
    make the write fail: the bytes written are those of +Inf for a positive
    value and of -Inf for a negative one, by the aligned and by the
    unaligned write.  [add_aligned_f16 99999.9] writes the bytes [00 7C]. *)
Theorem float_saturation (f : struct.format) (x : spec_float) :
  out_of_range f x ->
  Serializer._float_to_bytes f x = Ok (infinity_bytes f (sign_of x))
  /\ (forall n, struct.calcsize f <= n ->
        exists s',
          on_new n (add_aligned_float f x) = Ok (Ok tt, s')
          /\ Serializer.current_bit_length s' = 8 * struct.calcsize f
          /\ Serializer.buffer s' = infinity_bytes f (sign_of x))
  /\ (forall dummy n, zlen dummy <= 7 -> struct.calcsize f <= n ->
        exists s',
          on_new n (add_bits dummy ;; add_unaligned_float f x) = Ok (Ok tt, s')
          /\ Serializer.current_bit_length s' = zlen dummy + 8 * struct.calcsize f
          /\ le_combine (Serializer.buffer s')
             = shifted_into_prefix dummy (infinity_bytes f (sign_of x))).
Proof.
  intros Hout. destruct (float_to_bytes_overflow f x Hout) as [_ Hbytes].
  split; [exact Hbytes|]. split.
  - intros n Hn.
    destruct (aligned_bytes_on_new (infinity_bytes f (sign_of x)) n) as (s' & Hrun & Hlen & Hbuf);
      [rewrite zlen_infinity_bytes; lia|].
    exists s'. rewrite zlen_infinity_bytes in Hlen. split; [|split; assumption].
    rewrite <- Hrun. unfold on_new. f_equal.
    destruct f; cbn [add_aligned_float];
      unfold Serializer.add_aligned_f16, Serializer.add_aligned_f32, Serializer.add_aligned_f64,
        bind, lift; rewrite Hbytes; reflexivity.
  - intros dummy n Hk Hn.
    destruct (unaligned_bytes_on_new dummy (infinity_bytes f (sign_of x)) n)
      as (s' & Hrun & Hlen & _ & Hbuf); [lia|rewrite zlen_infinity_bytes; lia|].
    exists s'. rewrite zlen_infinity_bytes in Hlen. split; [|split; assumption].
    rewrite <- Hrun. unfold on_new. f_equal.
    destruct f; cbn [add_unaligned_float];
      unfold Serializer.add_unaligned_f16, Serializer.add_unaligned_f32,
        Serializer.add_unaligned_f64, bind, lift; rewrite Hbytes; reflexivity.
Qed.

Lemma float_saturation_witness :
  exists s',
    on_new 2 (Serializer.add_aligned_f16 float_99999_9) = Ok (Ok tt, s')
    /\ Serializer.current_bit_length s' = 16
    /\ Serializer.buffer s' = [Byte.x00; Byte.x7c].
Proof.
  destruct (float_saturation struct.fmt_e float_99999_9) as (_ & Haligned & _).
  - split; reflexivity.
  - apply (Haligned 2). vm_compute. discriminate.
Defined.

(** C7 as stated, for every value outside the representable range, fails
    between the largest finite value and the first value that rounds to
    infinity: [65505.0] is greater than [65504.0], the largest finite value
    of binary16, [struct.pack] rounds it to [65504.0] without
    [OverflowError], and [add_aligned_f16 65505.0] writes [FF 7B], not the
    bytes [00 7C] of +Inf. *)
Lemma float_saturation_counterexample :
  outside_representable_range struct.fmt_e float_65505
  /\ struct.pack struct.fmt_e float_65505 = Ok [Byte.xff; Byte.x7b]
  /\ (exists s',
        on_new 2 (Serializer.add_aligned_f16 float_65505) = Ok (Ok tt, s')
        /\ Serializer.buffer s' = [Byte.xff; Byte.x7b])
  /\ infinity_bytes struct.fmt_e false = [Byte.x00; Byte.x7c]
  /\ ~ (forall (f : struct.format) (x : spec_float),
          outside_representable_range f x ->
          Serializer._float_to_bytes f x = Ok (infinity_bytes f (sign_of x))).
Proof.
  assert (Hout : outside_representable_range struct.fmt_e float_65505)
    by (split; vm_compute; reflexivity).
  assert (Hbytes : Serializer._float_to_bytes struct.fmt_e float_65505
                   = Ok [Byte.xff; Byte.x7b]) by (vm_compute; reflexivity).
  split; [exact Hout|]. split; [vm_compute; reflexivity|]. split.
  - eexists. split; vm_compute; reflexivity.
  - split; [vm_compute; reflexivity|].
    intros Hall. rewrite (Hall _ _ Hout) in Hbytes. vm_compute in Hbytes. discriminate Hbytes.
Qed.

(** ** The round trip *)

(** *** The encoding of the floats *)

Lemma digits2_pos_bounds (m : positive) :
  2 ^ (Zpos (digits2_pos m) - 1) <= Zpos m < 2 ^ Zpos (digits2_pos m).
Proof.
  induction m as [m IH|m IH|]; cbn [digits2_pos].
  - rewrite Pos2Z.inj_succ, (Pos2Z.inj_xI m).
    replace (Z.succ (Zpos (digits2_pos m)) - 1) with (Z.succ (Zpos (digits2_pos m) - 1)) by lia.
    rewrite !Z.pow_succ_r by lia.
    set (lo := 2 ^ (Zpos (digits2_pos m) - 1)) in *. set (hi := 2 ^ Zpos (digits2_pos m)) in *.
    clearbody lo hi. lia.
  - rewrite Pos2Z.inj_succ, (Pos2Z.inj_xO m).
    replace (Z.succ (Zpos (digits2_pos m)) - 1) with (Z.succ (Zpos (digits2_pos m) - 1)) by lia.
    rewrite !Z.pow_succ_r by lia.
    set (lo := 2 ^ (Zpos (digits2_pos m) - 1)) in *. set (hi := 2 ^ Zpos (digits2_pos m)) in *.
    clearbody lo hi. lia.
  - cbn. lia.
Qed.

(** The mantissa and exponent of a finite float of a format: normal
    (the mantissa has [prec] digits) or subnormal (fewer digits, at the
    least exponent). *)
Lemma bounded_cases (prec emax : Z) (m : positive) (e : Z) :
  1 <= prec ->
  bounded prec emax m e = true ->
  e <= emax - prec
  /\ ((2 ^ (prec - 1) <= Zpos m < 2 ^ prec /\ emin prec emax <= e)
      \/ (Zpos m < 2 ^ (prec - 1) /\ e = emin prec emax)).
Proof.
  intros Hp Hb. unfold bounded, canonical_mantissa, fexp in Hb.
  apply andb_true_iff in Hb. destruct Hb as [Hc He].
  apply Z.eqb_eq in Hc. apply Z.leb_le in He. split; [exact He|].
  pose proof (digits2_pos_bounds m) as Hd.
  set (d := Zpos (digits2_pos m)) in *.
  assert (Hd1 : 1 <= d) by (unfold d; lia).
  destruct (Z.max_spec (d + e - prec) (emin prec emax)) as [[Hlt Hmax]|[Hge Hmax]];
    rewrite Hmax in Hc.
  - (* e = emin *)
    destruct (Z.eq_dec d prec) as [Heq|Hne].
    + left. rewrite Heq in Hd. split; [exact Hd|lia].
    + right. split; [|lia].
      eapply Z.lt_le_trans; [apply Hd|]. apply Z.pow_le_mono_r; lia.
  - left. assert (d = prec) by lia. subst prec. split; [exact Hd|lia].
Qed.

Lemma testbit_top (bits top : Z) (s : bool) (rest : Z) :
  0 <= top -> 0 <= rest < 2 ^ top ->
  bits = (if s then 2 ^ top else 0) + rest ->
  Z.testbit bits top = s.
Proof.
  intros Ht Hr ->. apply Z.b2z_inj. rewrite Z.testbit_spec' by lia.
  assert (Hpos : 0 < 2 ^ top) by (apply Z.pow_pos_nonneg; lia).
  destruct s; cbn [Z.b2z].
  - replace (2 ^ top + rest) with (rest + 1 * 2 ^ top) by lia.
    rewrite Z.div_add by lia. rewrite Z.div_small by lia. reflexivity.
  - rewrite Z.add_0_l, Z.div_small by lia. reflexivity.
Qed.

Lemma fields_of_bits (P Q E F bits : Z) (s : bool) :
  0 < P -> 0 < Q -> 0 <= E < Q -> 0 <= F < P ->
  bits = (if s then P * Q else 0) + E * P + F ->
  (bits / P) mod Q = E /\ bits mod P = F /\ 0 <= E * P + F < P * Q /\ 0 <= bits < 2 * (P * Q).
Proof.
  intros HP HQ HE HF Hbits.
  assert (Hrest : 0 <= E * P + F < P * Q) by nia.
  assert (Hb : bits = F + (E + (if s then Q else 0)) * P) by (destruct s; lia).
  assert (Hdiv : bits / P = E + (if s then Q else 0)).
  { rewrite Hb, Z.div_add by lia. rewrite Z.div_small by lia. lia. }
  repeat split; try lia.
  - rewrite Hdiv. destruct s.
    + replace (E + Q) with (E + 1 * Q) by lia. rewrite Z.mod_add by lia.
      apply Z.mod_small. lia.
    + rewrite Z.add_0_r. apply Z.mod_small. lia.
  - rewrite Hb, Z.mod_add by lia. apply Z.mod_small. lia.
  - destruct s; lia.
  - destruct s; lia.
Qed.

Lemma format_facts (f : struct.format) :
  let p := struct.prec f in
  let w := 8 * struct.calcsize f in
  2 <= p /\ p < w
  /\ 2 ^ (w - p) = 2 * struct.emax f
  /\ 2 ^ (w - 1) = 2 ^ (p - 1) * 2 ^ (w - p)
  /\ 2 ^ p = 2 * 2 ^ (p - 1)
  /\ 2 ^ (p - 1) = 2 * 2 ^ (p - 2)
  /\ 0 < 2 ^ (p - 2)
  /\ emin p (struct.emax f) = 3 - struct.emax f - p
  /\ 1 <= struct.emax f.
Proof. destruct f; cbn; repeat split; lia. Qed.

(** Decoding the encoding of a float of the format gives the float back,
    and the encoding fits the width of the format. *)
Lemma of_bits_bits_of (f : struct.format) (y : spec_float) :
  valid_binary (struct.prec f) (struct.emax f) y = true ->
  struct.of_bits f (struct.bits_of f y) = y
  /\ 0 <= struct.bits_of f y < 2 ^ (8 * struct.calcsize f).
Proof.
  intros Hvalid.
  destruct (format_facts f) as (Hp2 & Hpw & HQ & Htop & Hpp & Hp1 & Hp0 & Hemin & Hemax).
  set (p := struct.prec f) in *. set (w := 8 * struct.calcsize f) in *.
  set (P := 2 ^ (p - 1)) in *. set (Q := 2 ^ (w - p)) in *.
  assert (HP : 0 < P) by (apply Z.pow_pos_nonneg; lia).
  assert (HQpos : 0 < Q) by lia.
  assert (Hw : 2 ^ w = 2 * (P * Q)).
  { replace w with (Z.succ (w - 1)) by lia. rewrite Z.pow_succ_r by lia. rewrite Htop. reflexivity. }
  assert (Hdecode : forall (s : bool) (E F : Z),
             0 <= E < Q -> 0 <= F < P ->
             let bits := (if s then 2 ^ (w - 1) else 0) + E * P + F in
             Z.testbit bits (w - 1) = s /\ (bits / P) mod Q = E /\ bits mod P = F
             /\ 0 <= bits < 2 ^ w).
  { intros s E F HE HF bits.
    destruct (fields_of_bits P Q E F bits s HP HQpos HE HF) as (H1 & H2 & H3 & H4).
    { unfold bits. rewrite Htop. reflexivity. }
    split; [|split; [exact H1|split; [exact H2|rewrite Hw; exact H4]]].
    apply (testbit_top bits (w - 1) s (E * P + F)); [lia|rewrite Htop; exact H3|].
    unfold bits. lia. }
  unfold struct.of_bits, struct.bits_of. fold p w P Q.
  destruct y as [s|s| |s m e].
  - (* zero *)
    destruct (Hdecode s 0 0) as (Hs & HE & HF & Hr); [lia|lia|].
    replace ((if s then 2 ^ (w - 1) else 0) + 0 * P + 0) with (if s then 2 ^ (w - 1) else 0) in * by lia.
    rewrite Hs, HE, HF. cbn [Z.eqb]. split; [reflexivity|exact Hr].
  - (* infinity *)
    destruct (Hdecode s (Q - 1) 0) as (Hs & HE & HF & Hr); [lia|lia|].
    replace ((if s then 2 ^ (w - 1) else 0) + (Q - 1) * P + 0)
      with ((if s then 2 ^ (w - 1) else 0) + (Q - 1) * P) in * by lia.
    rewrite Hs, HE, HF.
    destruct (Z.eqb_spec (Q - 1) 0); [lia|]. rewrite Z.eqb_refl. cbn [Z.eqb].
    split; [reflexivity|exact Hr].
  - (* NaN *)
    destruct (Hdecode false (Q - 1) (2 ^ (p - 2))) as (Hs & HE & HF & Hr); [lia|lia|].
    rewrite Z.add_0_l in *. rewrite HE, HF.
    destruct (Z.eqb_spec (Q - 1) 0); [lia|]. rewrite Z.eqb_refl.
    destruct (Z.eqb_spec (2 ^ (p - 2)) 0); [lia|]. split; [reflexivity|exact Hr].
  - (* finite *)
    cbn [valid_binary] in Hvalid.
    destruct (bounded_cases p (struct.emax f) m e) as (He & Hcases); [lia|exact Hvalid|].
    fold P in Hcases. rewrite Hpp in Hcases. fold P in Hcases. rewrite Hemin in *.
    destruct (Z.ltb_spec (Zpos m) P) as [Hsub|Hnorm].
    + (* subnormal *)
      destruct Hcases as [[Hm _]|[_ He']]; [lia|].
      destruct (Hdecode s 0 (Zpos m)) as (Hs & HE & HF & Hr); [lia|lia|].
      replace ((if s then 2 ^ (w - 1) else 0) + 0 * P + Zpos m)
        with ((if s then 2 ^ (w - 1) else 0) + Zpos m) in * by lia.
      rewrite Hs, HE, HF. cbn [Z.eqb]. rewrite He'. split; [reflexivity|exact Hr].
    + (* normal *)
      destruct Hcases as [[Hm Hlo]|[Hm _]]; [|lia].
      destruct (Hdecode s (e - (3 - struct.emax f - p) + 1) (Zpos m - P))
        as (Hs & HE & HF & Hr); [lia|lia|].
      rewrite Hs, HE, HF.
      destruct (Z.eqb_spec (e - (3 - struct.emax f - p) + 1) 0); [lia|].
      destruct (Z.eqb_spec (e - (3 - struct.emax f - p) + 1) (Q - 1)); [lia|].
      replace (Zpos m - P + P) with (Zpos m) by lia.
      split; [|exact Hr]. f_equal. lia.
Qed.

(** *** Write, then read *)

(** Skipping [k] bits from the start of a fresh deserializer, then going on. *)
Lemma skip_then {A : Type} (c : list byte) (k : Z) (m : M Deserializer.t A) :
  0 <= k ->
  rbind (Deserializer.new [c]) (fun d => fst ((Deserializer.skip_bits k ;; m) d))
  = fst (m (DS (ZeroExtendingBuffer.new [c]) k)).
Proof.
  intros Hk. rewrite deserializer_new_ok. cbn [rbind]. mred.
  destruct (Z.ltb_spec k 0); [lia|]. reflexivity.
Qed.

(** The bits [w] and up of the stream read from the serializer are those
    of the value written: reading gives the value modulo [2 ^ w]. *)
Lemma unsigned_round_trip (dummy : list bool) (value w n : Z) :
  0 <= value -> 1 <= w -> zlen dummy <= 7 -> (w + 7) / 8 <= n ->
  exists s',
    on_new n (add_bits dummy ;; Serializer.add_unaligned_unsigned value w) = Ok (Ok tt, s')
    /\ Deserializer.fetch_unaligned_unsigned w
         (DS (ZeroExtendingBuffer.new [Serializer.buffer s']) (zlen dummy))
       = (Ok (value mod 2 ^ w),
          DS (ZeroExtendingBuffer.new [Serializer.buffer s']) (zlen dummy + w)).
Proof.
  intros Hv Hw Hk Hn. pose proof (zlen_nonneg dummy) as Hd.
  destruct (prefix_then_unsigned dummy value w n Hv Hw Hk Hn) as (s' & Hrun & _ & Hbits).
  pose proof (prefix_then_unsigned_length dummy value w n s' Hv Hw Hk Hn Hrun) as Hlen.
  exists s'. split; [exact Hrun|].
  rewrite fetch_unaligned_unsigned_spec;
    [| lia | lia
     | intros _; apply addressable_inside;
       cbn [ZeroExtendingBuffer.new ZeroExtendingBuffer._buf];
       rewrite Hlen; Z.div_mod_to_equations; lia ].
  f_equal. f_equal.
  cbn [ZeroExtendingBuffer.new ZeroExtendingBuffer._buf].
  apply Z.bits_inj'. intros j Hj.
  rewrite testbit_read_bits by lia. rewrite Hbits by lia.
  destruct (Z.ltb_spec (zlen dummy + j) (zlen dummy)); [lia|].
  replace (zlen dummy + j - zlen dummy) with j by lia.
  rewrite Z.testbit_mod_pow2 by lia.
  destruct (j <? w); reflexivity.
Qed.

Lemma pack_representable (f : struct.format) (x : spec_float) :
  exactly_representable f x ->
  Serializer._float_to_bytes f x
  = Ok (le_split (Z.to_nat (struct.calcsize f)) (struct.bits_of f (struct.narrow f x))).
Proof.
  intros (_ & _ & Hback).
  assert (Hpack : struct.pack f x
                  = Ok (le_split (Z.to_nat (struct.calcsize f))
                          (struct.bits_of f (struct.narrow f x)))).
  { unfold struct.pack.
    destruct (struct.is_finite x) eqn:Hfin; [|reflexivity].
    destruct (struct.is_finite (struct.narrow f x)) eqn:Hnar; [reflexivity|].
    exfalso. rewrite <- Hback in Hfin.
    destruct (struct.narrow f x) as [s|s| |s m e]; try discriminate;
      destruct f; discriminate. }
  unfold Serializer._float_to_bytes. rewrite Hpack. reflexivity.
Qed.

Lemma float_round_trip (f : struct.format) (x : spec_float) (dummy : list bool) (n : Z) :
  exactly_representable f x -> zlen dummy <= 7 -> struct.calcsize f <= n ->
  write_then_read (Float f) x dummy n = Ok x.
Proof.
  intros Hrep Hk Hn. pose proof (zlen_nonneg dummy) as Hd.
  pose proof (pack_representable f x Hrep) as Hbytes.
  destruct Hrep as (_ & Hvalid & Hback).
  destruct (of_bits_bits_of f _ Hvalid) as [Hdec Hrange].
  set (size := struct.calcsize f) in *.
  assert (Hsize : 1 <= size) by (unfold size; destruct f; cbn; lia).
  set (B := le_split (Z.to_nat size) (struct.bits_of f (struct.narrow f x))) in *.
  assert (HlenB : zlen B = size).
  { unfold B, zlen. rewrite length_le_split. lia. }
  assert (HvalB : le_combine B = struct.bits_of f (struct.narrow f x)).
  { unfold B. rewrite le_combine_split. apply Z.mod_small.
    replace (Z.of_nat (Z.to_nat size) * 8) with (8 * size) by lia. exact Hrange. }
  destruct (unaligned_bytes_on_new dummy B n Hk) as (su & Hrun & _ & Hbits & _); [lia|].
  pose proof (unaligned_bytes_on_new_length dummy B n su Hk ltac:(lia) Hrun) as Hblen.
  assert (Hwrite : on_new n (add_bits dummy ;; add_unaligned (Float f) x) = Ok (Ok tt, su)).
  { rewrite <- Hrun. unfold on_new. f_equal.
    destruct f; cbn [add_unaligned add_unaligned_float];
      unfold Serializer.add_unaligned_f16, Serializer.add_unaligned_f32,
        Serializer.add_unaligned_f64, bind, lift; rewrite Hbytes; reflexivity. }
  unfold write_then_read. rewrite Hwrite. rewrite skip_then by lia.
  destruct (fetch_unaligned_bytes_spec (ZeroExtendingBuffer.new [Serializer.buffer su])
              (zlen dummy) size) as (out & Hfetch & Hlen & Hout); [lia|lia| |].
  { intros _. apply addressable_inside.
    cbn [ZeroExtendingBuffer.new ZeroExtendingBuffer._buf].
    rewrite Hblen, HlenB. Z.div_mod_to_equations; lia. }
  assert (Hsame : le_combine out = le_combine B).
  { rewrite Hout. cbn [ZeroExtendingBuffer.new ZeroExtendingBuffer._buf].
    apply Z.bits_inj'. intros j Hj.
    rewrite testbit_read_bits by lia. rewrite Hbits by lia.
    rewrite testbit_le_combine by lia. unfold prefixed_stream.
    destruct (Z.ltb_spec (zlen dummy + j) (zlen dummy)); [lia|].
    replace (zlen dummy + j - zlen dummy) with j by lia.
    destruct (Z.ltb_spec j (8 * size)); [reflexivity|].
    cbn [andb]. symmetry. apply getbit_overflow. lia. }
  assert (Hunpack : struct.unpack f out = Ok x).
  { unfold struct.unpack. fold size. rewrite Hlen, Z.eqb_refl.
    rewrite Hsame, HvalB, Hdec, Hback. reflexivity. }
  destruct f; cbn [fetch_unaligned fetch_unaligned_float];
    unfold Deserializer.fetch_unaligned_f16, Deserializer.fetch_unaligned_f32,
      Deserializer.fetch_unaligned_f64, bind, lift;
    cbn [struct.calcsize] in *; unfold size in Hfetch; cbn [struct.calcsize] in Hfetch;
    rewrite Hfetch, Hunpack; reflexivity.
Qed.

Lemma signed_as_unsigned (value w : Z) :
  2 <= w ->
  Serializer.add_unaligned_signed value w
  = Serializer.add_unaligned_unsigned (if value <? 0 then 2 ^ w + value else value) w.
Proof.
  intros Hw. unfold Serializer.add_unaligned_signed, assert_, bind.
  destruct (Z.geb_spec w 2); [|lia]. reflexivity.
Qed.

Lemma unsigned_value_round_trip (w v : Z) (dummy : list bool) (n : Z) :
  1 <= w -> 0 <= v < 2 ^ w -> zlen dummy <= 7 -> (w + 7) / 8 <= n ->
  write_then_read (Unsigned w) v dummy n = Ok v.
Proof.
  intros Hw Hv Hk Hn. pose proof (zlen_nonneg dummy) as Hd.
  destruct (unsigned_round_trip dummy v w n) as (s' & Hrun & Hfetch); try lia.
  unfold write_then_read. cbn [add_unaligned fetch_unaligned]. rewrite Hrun.
  rewrite skip_then by lia. rewrite Hfetch. cbn [fst]. f_equal.
  apply Z.mod_small. lia.
Qed.

Lemma signed_value_round_trip (w v : Z) (dummy : list bool) (n : Z) :
  2 <= w -> - 2 ^ (w - 1) <= v < 2 ^ (w - 1) -> zlen dummy <= 7 -> (w + 7) / 8 <= n ->
  write_then_read (Signed w) v dummy n = Ok v.
Proof.
  intros Hw Hv Hk Hn. pose proof (zlen_nonneg dummy) as Hd.
  assert (Hpow : 2 ^ w = 2 * 2 ^ (w - 1)).
  { replace w with (Z.succ (w - 1)) at 1 by lia. apply Z.pow_succ_r. lia. }
  assert (Hpos : 0 < 2 ^ (w - 1)) by (apply Z.pow_pos_nonneg; lia).
  set (u := if v <? 0 then 2 ^ w + v else v).
  assert (Hu : 0 <= u < 2 ^ w) by (unfold u; destruct (Z.ltb_spec v 0); lia).
  destruct (unsigned_round_trip dummy u w n) as (s' & Hrun & Hfetch); try lia.
  unfold write_then_read. cbn [add_unaligned fetch_unaligned].
  rewrite signed_as_unsigned by lia. fold u. rewrite Hrun.
  rewrite skip_then by lia.
  unfold Deserializer.fetch_unaligned_signed, assert_, bind, ret.
  destruct (Z.geb_spec w 2); [|lia]. rewrite Hfetch. cbn [fst]. f_equal.
  rewrite Z.mod_small by lia.
  unfold u. destruct (Z.ltb_spec v 0).
  - destruct (Z.geb_spec (2 ^ w + v) (2 ^ (w - 1))); lia.
  - destruct (Z.geb_spec v (2 ^ (w - 1))); lia.
Qed.

(** C1 (amended): for every primitive kind and width, every value the kind
    and width represent (an integer of the interval of the width; a float
    that the format holds exactly) and every starting bit offset
    [k = length dummy] in [0, 7]: writing the value after [k] bits on a
    fresh serializer large enough, and fetching it from a deserializer over
    the buffer after skipping [k] bits, gives the value back. *)
Theorem round_trip (p : primitive) (v : pyvalue p) (dummy : list bool) (n : Z) :
  representable p v -> zlen dummy <= 7 -> (bit_width p + 7) / 8 <= n ->
  write_then_read p v dummy n = Ok v.
Proof.
  destruct p as [w|w|f]; cbn [pyvalue representable bit_width] in *.
  - intros [Hw Hv]. apply unsigned_value_round_trip; assumption.
  - intros [Hw Hv]. apply signed_value_round_trip; assumption.
  - intros Hrep Hk Hn. apply float_round_trip; [assumption|assumption|].
    destruct f; cbn [struct.calcsize] in *; Z.div_mod_to_equations; lia.
Qed.

Lemma round_trip_witness :
  write_then_read (Unsigned 11) 1893 [true; false; true] 2 = Ok 1893
  /\ write_then_read (Signed 5) (-7) [true; true; false; true; true; false; true] 2 = Ok (-7)
  /\ write_then_read (Float struct.fmt_e) float_1_0 [false; true] 2 = Ok float_1_0.
Proof.
  split; [|split].
  - apply (round_trip (Unsigned 11) 1893 [true; false; true] 2);
      [unfold representable; lia | vm_compute; discriminate | vm_compute; discriminate].
  - apply (round_trip (Signed 5) (-7) [true; true; false; true; true; false; true] 2);
      [unfold representable; lia | vm_compute; discriminate | vm_compute; discriminate].
  - apply (round_trip (Float struct.fmt_e) float_1_0 [false; true] 2);
      [ split; [discriminate | split; vm_compute; reflexivity] | vm_compute; discriminate | vm_compute; discriminate ].
Defined.

(** C1 as stated fails for the floats narrower than 64 bits: [0.1] is in
    the range of binary16, and comes back from [add_unaligned_f16] and
    [fetch_unaligned_f16] as [0.0999755859375]. *)
Lemma round_trip_counterexample :
  in_range (Float struct.fmt_e) float_0_1
  /\ write_then_read (Float struct.fmt_e) float_0_1 [] 2 = Ok float_0_1_as_f16
  /\ float_0_1_as_f16 <> float_0_1
  /\ ~ (forall (p : primitive) (v : pyvalue p) (dummy : list bool) (n : Z),
         in_range p v -> zlen dummy <= 7 -> (bit_width p + 7) / 8 <= n ->
         write_then_read p v dummy n = Ok v).
Proof.
  assert (Hin : in_range (Float struct.fmt_e) float_0_1)
    by (repeat split; vm_compute; reflexivity).
  assert (Hrun : write_then_read (Float struct.fmt_e) float_0_1 [] 2 = Ok float_0_1_as_f16)
    by (vm_compute; reflexivity).
  split; [exact Hin|]. split; [exact Hrun|]. split; [discriminate|].
  intros Hall.
  assert (Hbad : write_then_read (Float struct.fmt_e) float_0_1 [] 2 = Ok float_0_1)
    by (apply Hall; [exact Hin | vm_compute; discriminate | vm_compute; discriminate]).
  rewrite Hrun in Hbad. discriminate Hbad.
Qed.

(** * More of the library *)

(** ** The deserializer at any position *)

Lemma byte_at_read_bits (c : list byte) (i : Z) :
  0 <= i -> byte_at c i = read_bits c (8 * i) 8.
Proof.
  intros Hi. apply Z.bits_inj'. intros j Hj.
  rewrite testbit_read_bits by lia.
  destruct (Z.ltb_spec j 8).
  - cbn [andb]. unfold getbit.
    replace ((8 * i + j) / 8) with i by (Z.div_mod_to_equations; lia).
    replace ((8 * i + j) mod 8) with j by (Z.div_mod_to_equations; lia).
    reflexivity.
  - cbn [andb]. pose proof (byte_at_range c i) as Hr.
    destruct (Z.eq_dec (byte_at c i) 0) as [->|Hnz]; [apply Z.testbit_0_l|].
    apply Z.bits_above_log2; [lia|].
    apply Z.lt_le_trans with 8; [|lia].
    apply Z.log2_lt_pow2; [lia|]. change (2 ^ 8) with 256. lia.
Qed.

Lemma read_bits_app (c : list byte) (o w1 w2 : Z) :
  0 <= o -> 0 <= w1 -> 0 <= w2 ->
  Z.lor (read_bits c o w1) (Z.shiftl (read_bits c (o + w1) w2) w1) = read_bits c o (w1 + w2).
Proof.
  intros Ho H1 H2. apply Z.bits_inj'. intros j Hj.
  rewrite Z.lor_spec, Z.shiftl_spec by lia.
  rewrite (testbit_read_bits c o w1 j), (testbit_read_bits c o (w1 + w2) j) by lia.
  destruct (Z.ltb_spec j w1).
  - rewrite Z.testbit_neg_r by lia.
    destruct (Z.ltb_spec j (w1 + w2)); [|lia]. rewrite orb_false_r. reflexivity.
  - rewrite testbit_read_bits by lia. cbn [andb orb].
    replace (o + w1 + (j - w1)) with (o + j) by lia.
    destruct (Z.ltb_spec (j - w1) w2); destruct (Z.ltb_spec j (w1 + w2)); try lia; reflexivity.
Qed.

Lemma fetch_aligned_u8_spec (b : ZeroExtendingBuffer.t) (o : Z) :
  0 <= o -> o mod 8 = 0 ->
  addressable (ZeroExtendingBuffer._buf b) (o / 8) ->
  Deserializer.fetch_aligned_u8 (DS b o)
  = (Ok (read_bits (ZeroExtendingBuffer._buf b) o 8), DS b (o + 8)).
Proof.
  intros Ho Hal Ha. unfold Deserializer.fetch_aligned_u8. mred. rewrite Hal. cbn [Z.eqb].
  assert (0 <= o / 8) by (apply Z.div_pos; lia).
  rewrite get_byte_spec by (assumption || lia). rewrite byte_at_read_bits by lia.
  replace (8 * (o / 8)) with o by (Z.div_mod_to_equations; lia). reflexivity.
Qed.

Lemma fetch_aligned_u16_spec (b : ZeroExtendingBuffer.t) (o : Z) :
  0 <= o -> o mod 8 = 0 ->
  addressable (ZeroExtendingBuffer._buf b) (o / 8 + 1) ->
  Deserializer.fetch_aligned_u16 (DS b o)
  = (Ok (read_bits (ZeroExtendingBuffer._buf b) o 16), DS b (o + 16)).
Proof.
  intros Ho Hal Ha. unfold Deserializer.fetch_aligned_u16, bind.
  rewrite fetch_aligned_u8_spec by (assumption || addr_side).
  rewrite fetch_aligned_u8_spec
    by first [addr_side | try apply aligned_add; (assumption || reflexivity || lia)].
  unfold ret. rewrite read_bits_app by lia. f_equal. f_equal. lia.
Qed.

Lemma fetch_aligned_u32_spec (b : ZeroExtendingBuffer.t) (o : Z) :
  0 <= o -> o mod 8 = 0 ->
  addressable (ZeroExtendingBuffer._buf b) (o / 8 + 3) ->
  Deserializer.fetch_aligned_u32 (DS b o)
  = (Ok (read_bits (ZeroExtendingBuffer._buf b) o 32), DS b (o + 32)).
Proof.
  intros Ho Hal Ha. unfold Deserializer.fetch_aligned_u32, bind.
  rewrite fetch_aligned_u16_spec by (assumption || addr_side).
  rewrite fetch_aligned_u16_spec
    by first [addr_side | try apply aligned_add; (assumption || reflexivity || lia)].
  unfold ret. rewrite read_bits_app by lia. f_equal. f_equal. lia.
Qed.

Lemma fetch_aligned_u64_spec (b : ZeroExtendingBuffer.t) (o : Z) :
  0 <= o -> o mod 8 = 0 ->
  addressable (ZeroExtendingBuffer._buf b) (o / 8 + 7) ->
  Deserializer.fetch_aligned_u64 (DS b o)
  = (Ok (read_bits (ZeroExtendingBuffer._buf b) o 64), DS b (o + 64)).
Proof.
  intros Ho Hal Ha. unfold Deserializer.fetch_aligned_u64, bind.
  rewrite fetch_aligned_u32_spec by (assumption || addr_side).
  rewrite fetch_aligned_u32_spec
    by first [addr_side | try apply aligned_add; (assumption || reflexivity || lia)].
  unfold ret. rewrite read_bits_app by lia. f_equal. f_equal. lia.
Qed.

Lemma zlen_stream_bytes (c : list byte) (o n : Z) : 0 <= n -> zlen (stream_bytes c o n) = n.
Proof. intros. unfold zlen, stream_bytes. rewrite length_le_split. lia. Qed.

Lemma le_combine_stream_bytes (c : list byte) (o n : Z) :
  0 <= n -> le_combine (stream_bytes c o n) = read_bits c o (8 * n).
Proof.
  intros Hn. unfold stream_bytes. rewrite le_combine_split.
  apply Z.mod_small. replace (Z.of_nat (Z.to_nat n) * 8) with (8 * n) by lia.
  apply read_bits_range. lia.
Qed.

Lemma bytes_are_stream_bytes (out c : list byte) (o n : Z) :
  0 <= n -> zlen out = n -> le_combine out = read_bits c o (8 * n) ->
  out = stream_bytes c o n.
Proof.
  intros Hn Hlen Hval. apply le_combine_inj.
  - unfold stream_bytes. rewrite length_le_split. unfold zlen in Hlen. lia.
  - rewrite le_combine_stream_bytes by lia. exact Hval.
Qed.

Lemma window_stream_bytes (c : list byte) (o n : Z) :
  0 <= o -> o mod 8 = 0 -> 0 <= n ->
  window c (o / 8) n = stream_bytes c o n.
Proof.
  intros Ho Hal Hn. assert (0 <= o / 8) by (apply Z.div_pos; lia).
  apply bytes_are_stream_bytes; [lia| |].
  - apply zlen_length; [lia|apply length_window].
  - rewrite le_combine_window by lia. f_equal. Z.div_mod_to_equations; lia.
Qed.

Lemma fetch_aligned_bytes_stream (b : ZeroExtendingBuffer.t) (o count : Z) :
  0 <= o -> o mod 8 = 0 -> 0 <= count ->
  Deserializer.fetch_aligned_bytes count (DS b o)
  = (Ok (stream_bytes (ZeroExtendingBuffer._buf b) o count), DS b (o + count * 8)).
Proof.
  intros. rewrite fetch_aligned_bytes_spec by assumption.
  rewrite window_stream_bytes by assumption. reflexivity.
Qed.

Lemma fetch_unaligned_bytes_stream (b : ZeroExtendingBuffer.t) (o count : Z) :
  0 <= o -> 0 <= count ->
  (o mod 8 <> 0 -> addressable (ZeroExtendingBuffer._buf b) (o / 8 + count)) ->
  Deserializer.fetch_unaligned_bytes count (DS b o)
  = (Ok (stream_bytes (ZeroExtendingBuffer._buf b) o count), DS b (o + count * 8)).
Proof.
  intros Ho Hc Ha.
  destruct (fetch_unaligned_bytes_spec b o count Ho Hc Ha) as (out & Hrun & Hlen & Hval).
  rewrite Hrun. rewrite (bytes_are_stream_bytes out _ o count Hc Hlen Hval).
  f_equal. f_equal. lia.
Qed.

Lemma getbit_stream_bytes (c : list byte) (o n j : Z) :
  0 <= o -> 0 <= n -> 0 <= j ->
  getbit (stream_bytes c o n) j = (j <? 8 * n) && getbit c (o + j).
Proof.
  intros Ho Hn Hj. rewrite <- testbit_le_combine by lia.
  rewrite le_combine_stream_bytes by lia. apply testbit_read_bits; lia.
Qed.

(** *** Bits *)

Lemma length_byte_bits (b : byte) : length (byte_bits b) = 8%nat.
Proof. reflexivity. Qed.

Lemma length_unpackbits (bs : list byte) :
  length (unpackbits_little bs) = (8 * length bs)%nat.
Proof.
  induction bs as [|b r IH]; [reflexivity|].
  change (unpackbits_little (b :: r)) with (byte_bits b ++ unpackbits_little r).
  rewrite length_app, IH, length_byte_bits. cbn [length]. lia.
Qed.

Lemma nth_byte_bits (b : byte) (i : nat) :
  (i < 8)%nat -> nth i (byte_bits b) false = Z.testbit (byte.unsigned b) (Z.of_nat i).
Proof.
  intros Hi. do 8 (destruct i as [|i]; [reflexivity|]). lia.
Qed.

Lemma nth_unpackbits (bs : list byte) :
  forall i : nat, (i < 8 * length bs)%nat ->
    nth i (unpackbits_little bs) false = getbit bs (Z.of_nat i).
Proof.
  induction bs as [|b r IH]; intros i Hi; [cbn in Hi; lia|].
  change (unpackbits_little (b :: r)) with (byte_bits b ++ unpackbits_little r).
  rewrite getbit_cons.
  destruct (Z.ltb_spec (Z.of_nat i) 0); [lia|].
  destruct (Z.ltb_spec (Z.of_nat i) 8).
  - rewrite app_nth1 by (rewrite length_byte_bits; lia). apply nth_byte_bits. lia.
  - rewrite app_nth2 by (rewrite length_byte_bits; lia). rewrite length_byte_bits.
    rewrite IH by (cbn [length] in Hi; lia). f_equal. lia.
Qed.

Lemma take_as_map_nth {A} (d : A) (l : list A) (n : nat) :
  (n <= length l)%nat -> take n l = map (fun i => nth i l d) (seq 0 n).
Proof.
  intros Hn. apply nth_ext with (d := d) (d' := d).
  - rewrite length_take, length_map, length_seq. lia.
  - intros i Hi. rewrite length_take in Hi.
    rewrite (nth_indep (map _ _) d ((fun i => nth i l d) 0%nat))
      by (rewrite length_map, length_seq; lia).
    rewrite (map_nth (fun i => nth i l d) (seq 0 n) 0%nat i).
    rewrite seq_nth by lia. cbn [Nat.add].
    rewrite <- (take_drop n l) at 2. rewrite app_nth1 by (rewrite length_take; lia).
    reflexivity.
Qed.

Lemma unpackbits_stream (c : list byte) (o nb count : Z) :
  0 <= o -> 0 <= count -> count <= 8 * nb ->
  getslice (unpackbits_little (stream_bytes c o nb)) 0 count = stream_bits c o count.
Proof.
  intros Ho Hc Hnb.
  assert (Hlen : length (unpackbits_little (stream_bytes c o nb)) = (8 * Z.to_nat nb)%nat).
  { rewrite length_unpackbits. unfold stream_bytes. rewrite length_le_split. reflexivity. }
  rewrite getslice_prefix by (unfold zlen; rewrite Hlen; lia).
  rewrite (take_as_map_nth false) by lia.
  unfold stream_bits. apply map_ext_in. intros i Hi. apply in_seq in Hi.
  rewrite nth_unpackbits by (unfold stream_bytes; rewrite length_le_split; lia).
  rewrite getbit_stream_bytes by lia.
  destruct (Z.ltb_spec (Z.of_nat i) (8 * nb)); [reflexivity|lia].
Qed.

Lemma zlen_stream_bits (c : list byte) (o count : Z) : 0 <= count -> zlen (stream_bits c o count) = count.
Proof. intros. unfold zlen, stream_bits. rewrite length_map, length_seq. lia. Qed.

Lemma fetch_aligned_bits_stream (b : ZeroExtendingBuffer.t) (o count : Z) :
  0 <= o -> o mod 8 = 0 -> 0 <= count ->
  Deserializer.fetch_aligned_array_of_bits count (DS b o)
  = (Ok (stream_bits (ZeroExtendingBuffer._buf b) o count), DS b (o + count)).
Proof.
  intros Ho Hal Hc.
  unfold Deserializer.fetch_aligned_array_of_bits. mred.
  destruct (Z.ltb_spec count 0); [lia|]. rewrite Hal. cbn [Z.eqb].
  assert (0 <= o / 8) by (apply Z.div_pos; lia).
  assert (0 <= (count + 7) / 8) by (apply Z.div_pos; lia).
  rewrite get_unsigned_slice_spec by lia.
  replace (o / 8 + (count + 7) / 8 - o / 8) with ((count + 7) / 8) by lia.
  rewrite window_stream_bytes by assumption.
  rewrite unpackbits_stream by (Z.div_mod_to_equations; lia).
  rewrite zlen_stream_bits by lia. rewrite Z.eqb_refl. reflexivity.
Qed.

Lemma fetch_unaligned_bits_stream (b : ZeroExtendingBuffer.t) (o count : Z) :
  0 <= o -> 0 <= count ->
  (o mod 8 <> 0 -> addressable (ZeroExtendingBuffer._buf b) (o / 8 + (count + 7) / 8)) ->
  Deserializer.fetch_unaligned_array_of_bits count (DS b o)
  = (Ok (stream_bits (ZeroExtendingBuffer._buf b) o count), DS b (o + count)).
Proof.
  intros Ho Hc Ha.
  unfold Deserializer.fetch_unaligned_array_of_bits. mred.
  destruct (Z.ltb_spec count 0); [lia|].
  assert (Hn : 0 <= (count + 7) / 8) by (apply Z.div_pos; lia).
  rewrite fetch_unaligned_bytes_stream by assumption.
  rewrite zlen_stream_bytes by lia. rewrite Z.eqb_refl.
  assert (Hbt : 0 <= (count + 7) / 8 * 8 - count < 8) by (Z.div_mod_to_equations; lia).
  destruct (Z.leb_spec 0 ((count + 7) / 8 * 8 - count)); [|lia].
  destruct (Z.ltb_spec ((count + 7) / 8 * 8 - count) 8); [|lia]. cbn [andb].
  rewrite unpackbits_stream by lia.
  rewrite zlen_stream_bits by lia. rewrite Z.eqb_refl. f_equal. f_equal. lia.
Qed.

Lemma fetch_unaligned_bit_stream (b : ZeroExtendingBuffer.t) (o : Z) :
  0 <= o ->
  addressable (ZeroExtendingBuffer._buf b) (o / 8) ->
  Deserializer.fetch_unaligned_bit (DS b o)
  = (Ok (getbit (ZeroExtendingBuffer._buf b) o), DS b (o + 1)).
Proof.
  intros Ho Ha. unfold Deserializer.fetch_unaligned_bit. mred.
  assert (Hr : 0 <= o mod 8 <= 7) by (Z.div_mod_to_equations; lia).
  assert (Hm : 1 <= Z.shiftl 1 (o mod 8) <= 128).
  { rewrite Z.shiftl_1_l. split.
    - assert (0 < 2 ^ (o mod 8)) by (apply Z.pow_pos_nonneg; lia). lia.
    - change 128 with (2 ^ 7). apply Z.pow_le_mono_r; lia. }
  destruct (Z.leb_spec 1 (Z.shiftl 1 (o mod 8))); [|lia].
  destruct (Z.leb_spec (Z.shiftl 1 (o mod 8)) 128); [|lia]. cbn [andb].
  rewrite get_byte_spec by (assumption || apply Z.div_pos; lia).
  f_equal. f_equal. unfold getbit.
  set (x := byte_at (ZeroExtendingBuffer._buf b) (o / 8)).
  rewrite Z.shiftl_1_l.
  destruct (Z.testbit x (o mod 8)) eqn:Hbit.
  - apply Z.eqb_eq. apply Z.bits_inj'. intros j Hj.
    rewrite Z.land_spec, Z.pow2_bits_eqb by lia.
    destruct (Z.eqb_spec (o mod 8) j) as [<-|]; [rewrite Hbit; reflexivity|apply andb_false_r].
  - apply Z.eqb_neq. intros Heq.
    assert (Ht : Z.testbit (Z.land x (2 ^ (o mod 8))) (o mod 8) = true).
    { rewrite Heq. rewrite Z.pow2_bits_eqb by lia. apply Z.eqb_refl. }
    rewrite Z.land_spec, Hbit in Ht. discriminate.
Qed.

Lemma fetch_aligned_signed_stream (b : ZeroExtendingBuffer.t) (o w : Z) :
  0 <= o -> o mod 8 = 0 -> 2 <= w ->
  Deserializer.fetch_aligned_signed w (DS b o)
  = (Ok (as_signed w (read_bits (ZeroExtendingBuffer._buf b) o w)), DS b (o + w)).
Proof.
  intros Ho Hal Hw. unfold Deserializer.fetch_aligned_signed, assert_, bind, ret.
  destruct (Z.geb_spec w 2); [|lia].
  rewrite fetch_aligned_unsigned_spec by (assumption || lia). reflexivity.
Qed.

Lemma fetch_unaligned_signed_stream (b : ZeroExtendingBuffer.t) (o w : Z) :
  0 <= o -> 2 <= w ->
  (o mod 8 <> 0 -> addressable (ZeroExtendingBuffer._buf b) (o / 8 + (w + 7) / 8)) ->
  Deserializer.fetch_unaligned_signed w (DS b o)
  = (Ok (as_signed w (read_bits (ZeroExtendingBuffer._buf b) o w)), DS b (o + w)).
Proof.
  intros Ho Hw Ha. unfold Deserializer.fetch_unaligned_signed, assert_, bind, ret.
  destruct (Z.geb_spec w 2); [|lia].
  rewrite fetch_unaligned_unsigned_spec by (assumption || lia). reflexivity.
Qed.

Lemma unpack_stream (f : struct.format) (c : list byte) (o : Z) :
  0 <= o ->
  struct.unpack f (stream_bytes c o (struct.calcsize f)) = Ok (float_of_stream f c o).
Proof.
  intros Ho. assert (0 <= struct.calcsize f) by (destruct f; cbn; lia).
  unfold struct.unpack. rewrite zlen_stream_bytes by lia. rewrite Z.eqb_refl.
  rewrite le_combine_stream_bytes by lia. reflexivity.
Qed.

Lemma items_of_bytes_length (d : dtype) (n : nat) :
  forall bs, length (items_of_bytes d n bs) = n.
Proof. induction n as [|n IH]; intros bs; cbn [items_of_bytes length]; [reflexivity|]. rewrite IH. reflexivity. Qed.

Lemma fetch_aligned_array_stream (b : ZeroExtendingBuffer.t) (o : Z) (d : dtype) (count : Z) :
  0 <= o -> o mod 8 = 0 -> 0 <= count ->
  Deserializer.fetch_aligned_array_of_standard_bit_length_primitives d count (DS b o)
  = (Ok (items_of_bytes d (Z.to_nat count)
           (stream_bytes (ZeroExtendingBuffer._buf b) o (count * itemsize d))),
     DS b (o + count * itemsize d * 8)).
Proof.
  intros Ho Hal Hc. pose proof (itemsize_pos d).
  unfold Deserializer.fetch_aligned_array_of_standard_bit_length_primitives. mred.
  rewrite Hal. cbn [Z.eqb].
  assert (0 <= o / 8) by (apply Z.div_pos; lia).
  rewrite get_unsigned_slice_spec by nia.
  replace (o / 8 + count * itemsize d - o / 8) with (count * itemsize d) by lia.
  rewrite window_stream_bytes by (assumption || nia).
  unfold frombuffer. cbn [Z.ltb Z.compare]. rewrite zlen_stream_bytes by nia.
  rewrite Z.mod_mul by lia. cbn [Z.eqb]. rewrite Z.div_mul by lia.
  rewrite (zlen_length _ count) by (try apply items_of_bytes_length; lia).
  rewrite Z.eqb_refl. reflexivity.
Qed.

Lemma fetch_unaligned_array_stream (b : ZeroExtendingBuffer.t) (o : Z) (d : dtype) (count : Z) :
  0 <= o -> 0 <= count ->
  (o mod 8 <> 0 -> addressable (ZeroExtendingBuffer._buf b) (o / 8 + itemsize d * count)) ->
  Deserializer.fetch_unaligned_array_of_standard_bit_length_primitives d count (DS b o)
  = (Ok (items_of_bytes d (Z.to_nat count)
           (stream_bytes (ZeroExtendingBuffer._buf b) o (count * itemsize d))),
     DS b (o + count * itemsize d * 8)).
Proof.
  intros Ho Hc Ha. pose proof (itemsize_pos d).
  unfold Deserializer.fetch_unaligned_array_of_standard_bit_length_primitives. mred.
  rewrite fetch_unaligned_bytes_stream by (try assumption; nia).
  rewrite zlen_stream_bytes by nia.
  destruct (Z.geb_spec (itemsize d * count) count); [|nia].
  unfold frombuffer. destruct (Z.ltb_spec count 0); [lia|].
  rewrite zlen_stream_bytes by nia.
  destruct (Z.ltb_spec (itemsize d * count) (count * itemsize d)); [lia|].
  replace (itemsize d * count) with (count * itemsize d) by lia.
  f_equal.
Qed.

Ltac sx :=
  first [ assumption | lia
        | intros;
          try match goal with d : dtype |- _ => pose proof (itemsize_pos d) end;
          match goal with
          | H : addressable ?c _ |- addressable ?c _ =>
              apply (addressable_le _ _ _ H); Z.div_mod_to_equations; nia
          end ].

(** Every fetch, at any cursor that is not negative and with the bytes
    up to the end of what is fetched within the indices of an array: the
    value is read from the stream, the cursor moves by the length of what is
    fetched. *)
Lemma run_fetch_stream (b : ZeroExtendingBuffer.t) (o : Z) (op : fetch_op) :
  0 <= o -> valid_arguments op ->
  (requires_alignment op = true -> o mod 8 = 0) ->
  addressable (ZeroExtendingBuffer._buf b) ((o + fetched_bit_length op + 7) / 8) ->
  run_fetch op (DS b o)
  = (Ok (fetch_value op (ZeroExtendingBuffer._buf b) o), DS b (o + fetched_bit_length op)).
Proof.
  intros Ho Hargs Hal Ha.
  destruct op; cbn [valid_arguments requires_alignment fetched_bit_length] in *;
    try specialize (Hal eq_refl);
    cbn [run_fetch fetch_value fetched_bit_length]; unfold fmap, bind, ret.
  - rewrite fetch_aligned_array_stream by sx. reflexivity.
  - rewrite fetch_aligned_bits_stream by sx. reflexivity.
  - rewrite fetch_aligned_bytes_stream by sx. reflexivity.
  - rewrite fetch_aligned_u8_spec by sx. reflexivity.
  - rewrite fetch_aligned_u16_spec by sx. reflexivity.
  - rewrite fetch_aligned_u32_spec by sx. reflexivity.
  - rewrite fetch_aligned_u64_spec by sx. reflexivity.
  - unfold Deserializer.fetch_aligned_i8, bind, ret.
    rewrite fetch_aligned_u8_spec by sx. reflexivity.
  - unfold Deserializer.fetch_aligned_i16, bind, ret.
    rewrite fetch_aligned_u16_spec by sx. reflexivity.
  - unfold Deserializer.fetch_aligned_i32, bind, ret.
    rewrite fetch_aligned_u32_spec by sx. reflexivity.
  - unfold Deserializer.fetch_aligned_i64, bind, ret.
    rewrite fetch_aligned_u64_spec by sx. reflexivity.
  - unfold Deserializer.fetch_aligned_f16, bind, lift.
    rewrite fetch_aligned_bytes_stream by sx.
    rewrite (unpack_stream struct.fmt_e) by lia. reflexivity.
  - unfold Deserializer.fetch_aligned_f32, bind, lift.
    rewrite fetch_aligned_bytes_stream by sx.
    rewrite (unpack_stream struct.fmt_f) by lia. reflexivity.
  - unfold Deserializer.fetch_aligned_f64, bind, lift.
    rewrite fetch_aligned_bytes_stream by sx.
    rewrite (unpack_stream struct.fmt_d) by lia. reflexivity.
  - rewrite fetch_aligned_unsigned_spec by sx. reflexivity.
  - rewrite fetch_aligned_signed_stream by sx. reflexivity.
  - rewrite fetch_unaligned_array_stream by sx. reflexivity.
  - rewrite fetch_unaligned_bits_stream by sx. reflexivity.
  - rewrite fetch_unaligned_bytes_stream by sx. reflexivity.
  - rewrite fetch_unaligned_unsigned_spec by sx. reflexivity.
  - rewrite fetch_unaligned_signed_stream by sx. reflexivity.
  - unfold Deserializer.fetch_unaligned_f16, bind, lift.
    rewrite fetch_unaligned_bytes_stream by sx.
    rewrite (unpack_stream struct.fmt_e) by lia. reflexivity.
  - unfold Deserializer.fetch_unaligned_f32, bind, lift.
    rewrite fetch_unaligned_bytes_stream by sx.
    rewrite (unpack_stream struct.fmt_f) by lia. reflexivity.
  - unfold Deserializer.fetch_unaligned_f64, bind, lift.
    rewrite fetch_unaligned_bytes_stream by sx.
    rewrite (unpack_stream struct.fmt_d) by lia. reflexivity.
  - rewrite fetch_unaligned_bit_stream by sx. reflexivity.
Qed.

(** X1: with a cursor that is not negative, the bytes up to the end of
    what is fetched at most [sys.maxsize], and arguments the method accepts
    (an aligned method at a byte-aligned cursor), every fetch succeeds
    whatever the data: it returns the bits of the zero-extended stream at
    the cursor, read as its type, moves the cursor by exactly the length of
    what it fetches and leaves the buffer as it is. *)
Theorem fetch_reads_stream (d : Deserializer.t) (op : fetch_op) :
  0 <= Deserializer._bit_offset d ->
  valid_arguments op ->
  (requires_alignment op = true -> Deserializer._bit_offset d mod 8 = 0) ->
  (Deserializer._bit_offset d + fetched_bit_length op + 7) / 8 <= ssize_max ->
  run_fetch op d
  = (Ok (fetch_value op (ZeroExtendingBuffer._buf (Deserializer._buf d))
                     (Deserializer._bit_offset d)),
     DS (Deserializer._buf d) (Deserializer._bit_offset d + fetched_bit_length op)).
Proof.
  destruct d as [b o]. cbn [Deserializer._buf Deserializer._bit_offset].
  intros Ho Hargs Hal Hb. apply run_fetch_stream; [assumption | assumption | assumption |].
  apply addressable_small. exact Hb.
Qed.

Lemma fetch_reads_stream_witness :
  run_fetch (Fetch_unaligned_signed 5) (DS {| ZeroExtendingBuffer._buf := [Byte.xda; Byte.xfe] |} 3)
  = (Ok (FInt (-5)), DS {| ZeroExtendingBuffer._buf := [Byte.xda; Byte.xfe] |} 8).
Proof.
  apply (fetch_reads_stream (DS {| ZeroExtendingBuffer._buf := [Byte.xda; Byte.xfe] |} 3)
           (Fetch_unaligned_signed 5)).
  - cbn. lia.
  - cbn. lia.
  - cbn. discriminate.
  - vm_compute. discriminate.
Defined.

Lemma valid_unaligned_version (op : fetch_op) :
  valid_arguments op -> valid_arguments (unaligned_version op).
Proof. destruct op; cbn; intros; lia || exact I. Qed.

Lemma fetch_value_unaligned_version (op : fetch_op) (c : list byte) (o : Z) :
  fetch_value (unaligned_version op) c o = fetch_value op c o
  /\ fetched_bit_length (unaligned_version op) = fetched_bit_length op
  /\ requires_alignment (unaligned_version op) = false.
Proof. destruct op; repeat split; reflexivity. Qed.

(** X2: the aligned methods and the methods of a standard width are
    special cases of the unaligned methods.  Wherever an aligned method may
    be called (a byte-aligned cursor that is not negative) and the bytes up
    to the end of what is fetched are at most [sys.maxsize], the unaligned
    method of the same kind and width returns the same value and leaves
    the same state: [fetch_aligned_u16] is [fetch_unaligned_unsigned(16)],
    [fetch_aligned_i8] is [fetch_unaligned_signed(8)],
    [fetch_aligned_bytes(n)] is [fetch_unaligned_bytes(n)], and so on. *)
Theorem unaligned_fetch_generalises (d : Deserializer.t) (op : fetch_op) :
  0 <= Deserializer._bit_offset d ->
  Deserializer._bit_offset d mod 8 = 0 ->
  valid_arguments op ->
  (Deserializer._bit_offset d + fetched_bit_length op + 7) / 8 <= ssize_max ->
  run_fetch (unaligned_version op) d = run_fetch op d.
Proof.
  intros Ho Hal Hargs Hb. destruct d as [b o]. cbn [Deserializer._bit_offset] in *.
  destruct (fetch_value_unaligned_version op (ZeroExtendingBuffer._buf b) o) as (Hv & Hl & Hr).
  rewrite (run_fetch_stream b o op Ho Hargs (fun _ => Hal))
    by (apply addressable_small; exact Hb).
  rewrite (run_fetch_stream b o (unaligned_version op) Ho (valid_unaligned_version op Hargs)).
  - rewrite Hv, Hl. reflexivity.
  - rewrite Hr. discriminate.
  - rewrite Hl. apply addressable_small. exact Hb.
Qed.

Lemma unaligned_fetch_generalises_witness :
  run_fetch (Fetch_unaligned_unsigned 16) sample_deserializer
  = run_fetch Fetch_aligned_u16 sample_deserializer.
Proof.
  apply (unaligned_fetch_generalises sample_deserializer Fetch_aligned_u16).
  - cbn. lia.
  - reflexivity.
  - exact I.
  - vm_compute. discriminate.
Defined.

Lemma as_signed_range (w u : Z) :
  1 <= w -> 0 <= u < 2 ^ w ->
  - 2 ^ (w - 1) <= as_signed w u < 2 ^ (w - 1)
  /\ as_signed w u mod 2 ^ w = u
  /\ (as_signed w u < 0 <-> Z.testbit u (w - 1) = true).
Proof.
  intros Hw Hu.
  assert (Hpow : 2 ^ w = 2 * 2 ^ (w - 1)).
  { replace w with (Z.succ (w - 1)) at 1 by lia. apply Z.pow_succ_r. lia. }
  assert (Hpos : 0 < 2 ^ (w - 1)) by (apply Z.pow_pos_nonneg; lia).
  assert (Hbit : Z.testbit u (w - 1) = (2 ^ (w - 1) <=? u)).
  { destruct (Z.leb_spec (2 ^ (w - 1)) u).
    - apply (testbit_top u (w - 1) true (u - 2 ^ (w - 1))); lia.
    - apply (testbit_top u (w - 1) false u); lia. }
  unfold as_signed. destruct (Z.geb_spec u (2 ^ (w - 1))) as [Hge|Hlt].
  - split; [lia|]. split.
    + replace (u - 2 ^ w) with (u + (-1) * 2 ^ w) by lia.
      rewrite Z.mod_add by lia. apply Z.mod_small. lia.
    + rewrite Hbit. destruct (Z.leb_spec (2 ^ (w - 1)) u); [|lia]. split; [reflexivity|lia].
  - split; [lia|]. split.
    + apply Z.mod_small. lia.
    + rewrite Hbit. destruct (Z.leb_spec (2 ^ (w - 1)) u); [lia|]. split; [lia|discriminate].
Qed.



(** X4: a negative count or width is rejected before anything is read.
    [skip_bits], the aligned and unaligned fetches of an array of bits
    and of an unsigned, and [fetch_aligned_bytes] raise [ValueError] and
    leave the deserializer as it is, also at a cursor that is not
    byte-aligned, and so does the aligned fetch of an array of primitives
    at a byte-aligned cursor.  The two unaligned methods that do not check,
    [fetch_unaligned_bytes] and
    [fetch_unaligned_array_of_standard_bit_length_primitives], return the
    empty array and leave the deserializer as it is. *)
Theorem negative_count_rejected (d : Deserializer.t) (n : Z) :
  n < 0 ->
  Deserializer.skip_bits n d = (Raise ValueError, d)
  /\ Deserializer.fetch_aligned_array_of_bits n d = (Raise ValueError, d)
  /\ Deserializer.fetch_aligned_bytes n d = (Raise ValueError, d)
  /\ Deserializer.fetch_aligned_unsigned n d = (Raise ValueError, d)
  /\ Deserializer.fetch_unaligned_array_of_bits n d = (Raise ValueError, d)
  /\ Deserializer.fetch_unaligned_unsigned n d = (Raise ValueError, d)
  /\ Deserializer.fetch_unaligned_bytes n d = (Ok [], d)
  /\ (forall dt : dtype,
        Deserializer.fetch_unaligned_array_of_standard_bit_length_primitives dt n d
        = (Ok [], d))
  /\ (forall dt : dtype,
        Deserializer._bit_offset d mod 8 = 0 ->
        Deserializer.fetch_aligned_array_of_standard_bit_length_primitives dt n d
        = (Raise ValueError, d)).
Proof.
  intros Hn.
  assert (Hbytes : forall k, k < 0 -> Deserializer.fetch_unaligned_bytes k d = (Ok [], d)).
  { intros k Hk. unfold Deserializer.fetch_unaligned_bytes.
    destruct (Z.gtb_spec k 0); [lia|]. reflexivity. }
  split; [|split; [|split; [|split; [|split; [|split; [|split; [|split]]]]]]].
  - unfold Deserializer.skip_bits, _ensure_cardinal, bind, raise.
    destruct (Z.ltb_spec n 0); [reflexivity|lia].
  - unfold Deserializer.fetch_aligned_array_of_bits, _ensure_cardinal, bind, raise.
    destruct (Z.ltb_spec n 0); [reflexivity|lia].
  - unfold Deserializer.fetch_aligned_bytes, _ensure_cardinal, bind, raise.
    destruct (Z.ltb_spec n 0); [reflexivity|lia].
  - unfold Deserializer.fetch_aligned_unsigned, _ensure_cardinal, bind, raise.
    destruct (Z.ltb_spec n 0); [reflexivity|lia].
  - unfold Deserializer.fetch_unaligned_array_of_bits, _ensure_cardinal, bind, raise.
    destruct (Z.ltb_spec n 0); [reflexivity|lia].
  - unfold Deserializer.fetch_unaligned_unsigned, _ensure_cardinal, bind, raise.
    destruct (Z.ltb_spec n 0); [reflexivity|lia].
  - apply Hbytes. exact Hn.
  - intros dt. pose proof (itemsize_pos dt) as Hsz.
    unfold Deserializer.fetch_unaligned_array_of_standard_bit_length_primitives, bind.
    rewrite Hbytes by nia. unfold assert_, ret, lift.
    change (zlen (@nil byte)) with 0.
    destruct (Z.geb_spec 0 n); [|lia].
    unfold frombuffer. destruct (Z.ltb_spec n 0); [|lia].
    change (zlen (@nil byte)) with 0. rewrite Z.mod_0_l by lia. cbn [Z.eqb].
    rewrite Z.div_0_l by lia. reflexivity.
  - intros dt Hal. pose proof (itemsize_pos dt) as Hsz.
    destruct d as [b o]. cbn [Deserializer._bit_offset] in Hal.
    unfold Deserializer.fetch_aligned_array_of_standard_bit_length_primitives. mred.
    rewrite Hal. cbn [Z.eqb].
    unfold ZeroExtendingBuffer.get_unsigned_slice.
    destruct (Z.leb_spec 0 (o / 8)); cbn [andb negb]; [|reflexivity].
    destruct (Z.leb_spec (o / 8) (o / 8 + n * itemsize dt)); [nia|]. reflexivity.
Qed.

Lemma negative_count_rejected_witness :
  Deserializer.skip_bits (-1) sample_deserializer = (Raise ValueError, sample_deserializer)
  /\ Deserializer.fetch_unaligned_bytes (-1) sample_deserializer = (Ok [], sample_deserializer)
  /\ Deserializer.fetch_unaligned_array_of_standard_bit_length_primitives uint16 (-1)
       sample_deserializer
     = (Ok [], sample_deserializer)
  /\ Deserializer.fetch_aligned_array_of_standard_bit_length_primitives uint16 (-1)
       sample_deserializer
     = (Raise ValueError, sample_deserializer).
Proof.
  destruct (negative_count_rejected sample_deserializer (-1))
    as (H1 & _ & _ & _ & _ & _ & H7 & H8 & H9); [lia|].
  split; [exact H1|]. split; [exact H7|]. split; [apply H8|]. apply H9. reflexivity.
Defined.

(** ** The zero-extending buffer *)

Lemma buf_new (fragments : list (list byte)) :
  ZeroExtendingBuffer._buf (ZeroExtendingBuffer.new fragments) = concat fragments.
Proof.
  destruct fragments as [|c [|c' r]]; cbn [ZeroExtendingBuffer.new ZeroExtendingBuffer._buf];
    try reflexivity.
  cbn [concat]. symmetry. apply app_nil_r.
Qed.

(** X5: [get_byte] of a buffer made of any number of fragments reads the
    concatenation of the fragments.  For an index up to [sys.maxsize]: a
    negative index is a [ValueError], an index inside gives the byte there
    as an integer in [0, 255], and an index at or past the end gives 0 (no
    [IndexError] comes out).  An index from [2 ** 63] to [2 ** 64 - 1],
    past the end of a buffer of at most [sys.maxsize] bytes, as every array
    is, is refused by numpy with [OverflowError], which [get_byte] does not
    catch. *)
Theorem get_byte_zero_extends (fragments : list (list byte)) (index : Z) :
  (index <= ssize_max ->
   ZeroExtendingBuffer.get_byte (ZeroExtendingBuffer.new fragments) index
   = if index <? 0 then Raise ValueError
     else Ok match concat fragments !! Z.to_nat index with
             | Some x => byte.unsigned x
             | None => 0
             end)
  /\ (zlen (concat fragments) <= ssize_max -> 2 ^ 63 <= index < 2 ^ 64 ->
      ZeroExtendingBuffer.get_byte (ZeroExtendingBuffer.new fragments) index
      = Raise OverflowError).
Proof.
  split.
  - intros Hb. destruct (Z.ltb_spec index 0) as [Hneg|Hpos].
    + apply get_byte_neg. exact Hneg.
    + rewrite get_byte_spec by (try apply addressable_small; assumption).
      rewrite buf_new. f_equal.
      unfold byte_at. destruct (Z.ltb_spec index 0); [lia|].
      destruct (concat fragments !! Z.to_nat index) as [x|] eqn:Hlk.
      * rewrite (nth_lookup_Some _ _ _ _ Hlk). reflexivity.
      * rewrite nth_overflow by (apply lookup_ge_None; exact Hlk). reflexivity.
  - intros Hlen Hi. unfold ZeroExtendingBuffer.get_byte.
    destruct (Z.ltb_spec index 0); [lia|].
    rewrite getitem_overflow; [reflexivity|].
    rewrite buf_new. unfold ssize_max in *. lia.
Qed.

Lemma get_byte_zero_extends_witness :
  ZeroExtendingBuffer.get_byte
    (ZeroExtendingBuffer.new [[Byte.x01]; [Byte.x02; Byte.x03]]) 2 = Ok 3
  /\ ZeroExtendingBuffer.get_byte
       (ZeroExtendingBuffer.new [[Byte.x01]; [Byte.x02; Byte.x03]]) 3 = Ok 0
  /\ ZeroExtendingBuffer.get_byte
       (ZeroExtendingBuffer.new [[Byte.x01]; [Byte.x02; Byte.x03]]) (2 ^ 63)
     = Raise OverflowError.
Proof.
  split; [|split].
  - apply (proj1 (get_byte_zero_extends [[Byte.x01]; [Byte.x02; Byte.x03]] 2)).
    vm_compute. discriminate.
  - apply (proj1 (get_byte_zero_extends [[Byte.x01]; [Byte.x02; Byte.x03]] 3)).
    vm_compute. discriminate.
  - apply (proj2 (get_byte_zero_extends [[Byte.x01]; [Byte.x02; Byte.x03]] (2 ^ 63))).
    + vm_compute. discriminate.
    + split; [vm_compute; discriminate | reflexivity].
Defined.



(** ** Integers as bytes *)

(** X7: [_unsigned_from_bytes] undoes [_unsigned_to_bytes] up to the
    width: for [value >= 0] and [bit_length >= 1] the bytes are
    [(bit_length + 7) // 8] many and read back as
    [value mod 2^bit_length], so no assertion of either method fails; a
    negative value or a width below 1 fails the assertion of
    [_unsigned_to_bytes]. *)
Theorem unsigned_bytes_inverse (value bit_length : Z) :
  (0 <= value -> 1 <= bit_length ->
   exists bs,
     Serializer._unsigned_to_bytes value bit_length = Ok bs
     /\ zlen bs = (bit_length + 7) / 8
     /\ Deserializer._unsigned_from_bytes bs bit_length = Ok (value mod 2 ^ bit_length))
  /\ (value < 0 \/ bit_length < 1 ->
      Serializer._unsigned_to_bytes value bit_length = Raise AssertionError).
Proof.
  split.
  - intros Hv Hw.
    destruct (unsigned_to_bytes_spec value bit_length Hv Hw) as (bs & Hbs & Hlen & Hval & _).
    exists bs. split; [exact Hbs|]. split; [exact Hlen|].
    rewrite unsigned_from_bytes_spec by lia. f_equal.
    rewrite Hval, Z.land_ones by lia. apply Z.mod_mod.
    assert (0 < 2 ^ bit_length) by (apply Z.pow_pos_nonneg; lia). lia.
  - intros Hbad. unfold Serializer._unsigned_to_bytes.
    destruct (Z.geb_spec bit_length 1); [|reflexivity].
    destruct (Z.geb_spec value 0); [lia|reflexivity].
Qed.

Lemma unsigned_bytes_inverse_witness :
  exists bs,
    Serializer._unsigned_to_bytes 48858 12 = Ok bs
    /\ zlen bs = (12 + 7) / 8
    /\ Deserializer._unsigned_from_bytes bs 12 = Ok (48858 mod 2 ^ 12).
Proof.
  apply (unsigned_bytes_inverse 48858 12); lia.
Defined.

(** ** Padding to an alignment *)

Lemma pad_arith (o b : Z) :
  1 <= b ->
  (o mod b = 0 <-> (- o) mod b = 0)
  /\ ((- o) mod b <> 0 -> (- (o + 1)) mod b = (- o) mod b - 1).
Proof.
  intros Hb. split.
  - rewrite !Z.mod_divide by lia. split; intros [k Hk]; exists (- k); lia.
  - intros Hnz. pose proof (Z.mod_pos_bound (- o) b ltac:(lia)) as Hr.
    symmetry. apply (Z.mod_unique_pos _ _ ((- o) / b)); [lia|].
    pose proof (Z.div_mod (- o) b ltac:(lia)). lia.
Qed.

Lemma deserializer_pad_loop (b : ZeroExtendingBuffer.t) (bit_length : Z) :
  1 <= bit_length ->
  forall (fuel : nat) (o : Z),
    (Z.to_nat ((- o) mod bit_length) <= fuel)%nat ->
    Deserializer.pad_to_alignment fuel bit_length (DS b o)
    = (Ok true, DS b (o + (- o) mod bit_length)).
Proof.
  intros Hb. induction fuel as [|fuel IH]; intros o Hfuel;
    destruct (pad_arith o bit_length Hb) as [Hiff Hstep];
    pose proof (Z.mod_pos_bound (- o) bit_length ltac:(lia)) as Hr;
    cbn [Deserializer.pad_to_alignment]; unfold bind at 1; unfold get at 1;
    cbn [Deserializer._bit_offset];
    (destruct (Z.eqb_spec bit_length 0); [lia|]);
    destruct (Z.eqb_spec (o mod bit_length) 0) as [Hz|Hnz]; cbn [negb].
  - apply Hiff in Hz. rewrite Hz, Z.add_0_r. reflexivity.
  - exfalso. apply Hnz. apply Hiff. lia.
  - apply Hiff in Hz. rewrite Hz, Z.add_0_r. reflexivity.
  - assert (Hk : (- o) mod bit_length <> 0) by (intros E; apply Hnz, Hiff, E).
    unfold bind, Deserializer.advance, modify. cbn [Deserializer._buf Deserializer._bit_offset].
    rewrite IH by (rewrite Hstep by exact Hk; lia).
    rewrite Hstep by exact Hk. f_equal. f_equal. lia.
Qed.

(** X8: [Deserializer.pad_to_alignment(bit_length)] with [bit_length >= 1]
    always ends (with fuel for [bit_length - 1] iterations or more): the
    cursor goes to the least multiple of [bit_length] that is not below
    it, by less than [bit_length] bits, and the buffer is not read.  With
    [bit_length = 0] the method raises [ZeroDivisionError]. *)
Theorem deserializer_pad_to_alignment (d : Deserializer.t) (bit_length : Z) (fuel : nat) :
  (1 <= bit_length -> (Z.to_nat (bit_length - 1) <= fuel)%nat ->
   exists o',
     Deserializer.pad_to_alignment fuel bit_length d
     = (Ok true, DS (Deserializer._buf d) o')
     /\ o' mod bit_length = 0
     /\ Deserializer._bit_offset d <= o' < Deserializer._bit_offset d + bit_length
     /\ (Deserializer._bit_offset d mod bit_length = 0 -> o' = Deserializer._bit_offset d))
  /\ (bit_length = 0 ->
      Deserializer.pad_to_alignment fuel bit_length d
      = (Raise (OtherError "ZeroDivisionError"), d)).
Proof.
  destruct d as [b o]. cbn [Deserializer._buf Deserializer._bit_offset]. split.
  - intros Hb Hfuel.
    pose proof (Z.mod_pos_bound (- o) bit_length ltac:(lia)) as Hr.
    destruct (pad_arith o bit_length Hb) as [Hiff _].
    exists (o + (- o) mod bit_length). split; [|split; [|split]].
    + apply deserializer_pad_loop; lia.
    + rewrite Z.add_mod_idemp_r by lia. replace (o + - o) with 0 by lia.
      apply Z.mod_0_l. lia.
    + lia.
    + intros Hz. apply Hiff in Hz. lia.
  - intros ->. destruct fuel; reflexivity.
Qed.

Lemma deserializer_pad_to_alignment_witness :
  exists o',
    Deserializer.pad_to_alignment 7 8 (DS (Deserializer._buf sample_deserializer) 11)
    = (Ok true, DS (Deserializer._buf sample_deserializer) o')
    /\ o' mod 8 = 0
    /\ 11 <= o' < 11 + 8
    /\ (11 mod 8 = 0 -> o' = 11).
Proof.
  apply (deserializer_pad_to_alignment (DS (Deserializer._buf sample_deserializer) 11) 8 7);
    [lia | cbn; lia].
Defined.

Lemma add_unaligned_bit_false (a : ndarray) (m : list byte) (o : Z) :
  (base a + size a <= length m)%nat -> 0 <= o -> o / 8 < view_len a ->
  Serializer.add_unaligned_bit false (SS m a o) = (Ok tt, SS m a (o + 1)).
Proof.
  intros Hwf Ho Hroom.
  assert (Hbo : 0 <= o / 8) by (apply Z.div_pos; lia).
  unfold Serializer.add_unaligned_bit, bind, get, Serializer.buf_getitem, Serializer.buf_setitem,
    Serializer._byte_offset, view_getitem, view_setitem, Serializer.advance, modify.
  cbn [Serializer.self Serializer.mem Serializer._buf Serializer._bit_offset].
  rewrite index_pos_inside by lia. cbn [rbind].
  destruct (m !! (base a + Z.to_nat (o / 8))%nat) as [b|] eqn:Hlk.
  - cbn [Serializer.self Serializer.mem Serializer._buf Serializer._bit_offset].
    rewrite index_pos_inside by lia.
    cbn [Serializer.self Serializer.mem Serializer._buf Serializer._bit_offset Z.b2z].
    rewrite Z.shiftl_0_l, Z.lor_0_r, byte.of_Z_unsigned.
    cbn [rbind]. rewrite list_insert_id by exact Hlk. reflexivity.
  - apply lookup_ge_None in Hlk. unfold view_len in Hroom. lia.
Qed.

Lemma serializer_pad_loop (a : ndarray) (m : list byte) (bit_length : Z) :
  (base a + size a <= length m)%nat -> 1 <= bit_length ->
  forall (fuel : nat) (o : Z),
    0 <= o -> o + (- o) mod bit_length <= 8 * view_len a ->
    (Z.to_nat ((- o) mod bit_length) <= fuel)%nat ->
    Serializer.pad_to_alignment fuel bit_length (SS m a o)
    = (Ok true, SS m a (o + (- o) mod bit_length)).
Proof.
  intros Hwf Hb. induction fuel as [|fuel IH]; intros o Ho Hroom Hfuel;
    destruct (pad_arith o bit_length Hb) as [Hiff Hstep];
    pose proof (Z.mod_pos_bound (- o) bit_length ltac:(lia)) as Hr;
    cbn [Serializer.pad_to_alignment]; unfold bind at 1; unfold get at 1;
    cbn [Serializer.self Serializer._bit_offset];
    (destruct (Z.eqb_spec bit_length 0); [lia|]);
    destruct (Z.eqb_spec (o mod bit_length) 0) as [Hz|Hnz]; cbn [negb].
  - apply Hiff in Hz. rewrite Hz, Z.add_0_r. reflexivity.
  - exfalso. apply Hnz. apply Hiff. lia.
  - apply Hiff in Hz. rewrite Hz, Z.add_0_r. reflexivity.
  - assert (Hk : (- o) mod bit_length <> 0) by (intros E; apply Hnz, Hiff, E).
    unfold bind.
    rewrite add_unaligned_bit_false by (assumption || (Z.div_mod_to_equations; lia)).
    rewrite IH by (rewrite ?Hstep by exact Hk; lia).
    rewrite Hstep by exact Hk. f_equal. f_equal. f_equal. lia.
Qed.



(** ** Arrays of bits *)

Lemma testbit_bits_value (bits : list bool) :
  forall k, 0 <= k ->
    Z.testbit (fold_right (fun b acc => Z.b2z b + 2 * acc) 0 bits) k
    = nth (Z.to_nat k) bits false.
Proof.
  induction bits as [|b r IH]; intros k Hk; cbn [fold_right].
  - rewrite Z.testbit_0_l. destruct (Z.to_nat k); reflexivity.
  - destruct (Z.eq_dec k 0) as [->|Hnz].
    + cbn [Z.to_nat nth]. rewrite Z.add_comm. rewrite Z.testbit_0_r. reflexivity.
    + replace k with (Z.succ (k - 1)) at 1 by lia.
      rewrite Z.add_comm, Z.testbit_succ_r by lia. rewrite IH by lia.
      replace (Z.to_nat k) with (S (Z.to_nat (k - 1))) by lia. reflexivity.
Qed.

Lemma testbit_byte_of_bits (bits : list bool) (k : Z) :
  0 <= k ->
  Z.testbit (byte.unsigned (byte_of_bits bits)) k = (k <? 8) && nth (Z.to_nat k) bits false.
Proof.
  intros Hk. unfold byte_of_bits. rewrite testbit_byte_of_Z by lia.
  rewrite testbit_bits_value by lia. reflexivity.
Qed.

Lemma length_packbits (x : list bool) :
  length (packbits_little x) = Nat.div (length x + 7) 8.
Proof. unfold packbits_little. rewrite length_map, length_seq. reflexivity. Qed.

Lemma zlen_packbits (x : list bool) : zlen (packbits_little x) = (zlen x + 7) / 8.
Proof.
  unfold zlen. rewrite length_packbits. rewrite Nat2Z.inj_div, Nat2Z.inj_add. reflexivity.
Qed.

Lemma nth_take_drop {A} (d : A) (x : list A) (i k : nat) :
  (k < 8)%nat -> nth k (take 8 (drop i x)) d = nth (i + k) x d.
Proof.
  intros Hk. rewrite !nth_lookup. rewrite lookup_take_lt by lia. rewrite lookup_drop. reflexivity.
Qed.

(** The bit stream of the packed bytes is the array, then zeros. *)
Lemma getbit_packbits (x : list bool) (j : Z) :
  0 <= j -> getbit (packbits_little x) j = nth (Z.to_nat j) x false.
Proof.
  intros Hj. unfold getbit.
  assert (Hq : 0 <= j / 8) by (apply Z.div_pos; lia).
  assert (Hr : 0 <= j mod 8 < 8) by (apply Z.mod_pos_bound; lia).
  assert (Hd : j = 8 * (j / 8) + j mod 8) by (apply Z.div_mod; lia).
  destruct (Z.ltb_spec (j / 8) (zlen (packbits_little x))) as [Hin|Hout].
  - rewrite byte_at_lookup by lia. unfold packbits_little.
    rewrite list_lookup_fmap.
    assert (Hlen : (Z.to_nat (j / 8) < Nat.div (length x + 7) 8)%nat).
    { unfold zlen in Hin. rewrite length_packbits in Hin. lia. }
    rewrite lookup_seq_lt by exact Hlen. change (Z.testbit (byte.unsigned (byte_of_bits (take 8 (drop (8 * Z.to_nat (j / 8)) x))))
                   (j mod 8) = nth (Z.to_nat j) x false).
    rewrite testbit_byte_of_bits by lia.
    destruct (Z.ltb_spec (j mod 8) 8); [|lia]. cbn [andb].
    rewrite nth_take_drop by lia. f_equal. lia.
  - rewrite byte_at_overflow by lia. rewrite Z.testbit_0_l.
    symmetry. apply nth_overflow.
    rewrite zlen_packbits in Hout. unfold zlen in Hout.
    Z.div_mod_to_equations; lia.
Qed.

Lemma map_nth_seq {A} (d : A) (x : list A) :
  map (fun i => nth i x d) (seq 0 (length x)) = x.
Proof.
  apply nth_ext with (d := d) (d' := d).
  - rewrite length_map, length_seq. reflexivity.
  - intros i Hi. rewrite length_map, length_seq in Hi.
    rewrite (nth_indep (map _ _) d ((fun i => nth i x d) 0%nat))
      by (rewrite length_map, length_seq; lia).
    rewrite (map_nth (fun i => nth i x d) (seq 0 (length x)) 0%nat i).
    rewrite seq_nth by lia. reflexivity.
Qed.

(** The bits of a stream that holds [x] from bit [k] on. *)
Lemma stream_bits_holds (c : list byte) (k : Z) (x : list bool) :
  0 <= k ->
  (forall i, 0 <= i < zlen x -> getbit c (k + i) = nth (Z.to_nat i) x false) ->
  stream_bits c k (zlen x) = x.
Proof.
  intros Hk Hbits. unfold stream_bits, zlen. rewrite Nat2Z.id.
  rewrite <- (map_nth_seq false x) at 2. apply map_ext_in. intros i Hi. apply in_seq in Hi.
  rewrite Hbits by (unfold zlen; lia). rewrite Nat2Z.id. reflexivity.
Qed.

(** Two byte sequences of the same length with the same bits are equal. *)
Lemma getbit_ext (c1 c2 : list byte) :
  length c1 = length c2 -> (forall j, 0 <= j -> getbit c1 j = getbit c2 j) -> c1 = c2.
Proof.
  intros Hlen Hbits. apply le_combine_inj; [exact Hlen|].
  apply Z.bits_inj'. intros j Hj. rewrite !testbit_le_combine by lia. apply Hbits. lia.
Qed.

Lemma add_aligned_bits_spec (a : ndarray) (m : list byte) (x : list bool) (o : Z) :
  (base a + size a <= length m)%nat ->
  0 <= o -> o mod 8 = 0 -> o / 8 + zlen (packbits_little x) <= view_len a ->
  Serializer.add_aligned_array_of_bits x (SS m a o)
  = (Ok tt, SS (list_inserts (base a + Z.to_nat (o / 8)) (packbits_little x) m) a (o + zlen x)).
Proof.
  intros Hwf Ho Hal Hroom.
  assert (Hbo : 0 <= o / 8) by (apply Z.div_pos; lia).
  pose proof (zlen_nonneg (packbits_little x)) as Hx.
  unfold Serializer.add_aligned_array_of_bits. sred_all. rewrite Hal. cbn [Z.eqb].
  destruct (Z.geb_spec (zlen (packbits_little x) * 8) (zlen x)) as [_|Hbad];
    [|rewrite zlen_packbits in Hbad; Z.div_mod_to_equations; lia].
  unfold Serializer.buf_setslice.
  cbn [Serializer.self Serializer.mem Serializer._buf Serializer._bit_offset].
  assert (Hv' : view_slice a (Some (o / 8)) (Some (o / 8 + zlen (packbits_little x)))
                = {| base := base a + Z.to_nat (o / 8); size := length (packbits_little x) |}).
  { unfold view_slice. rewrite !slice_bound_nonneg by (unfold view_len; lia).
    rewrite !Z.min_l by lia. f_equal. unfold zlen. lia. }
  rewrite Hv'. unfold view_assign. cbn [base size]. unfold view_len at 1. cbn [size].
  fold (zlen (packbits_little x)). rewrite Z.eqb_refl. reflexivity.
Qed.

Lemma aligned_bits_on_new (x : list bool) (n : Z) :
  (zlen x + 7) / 8 <= n ->
  exists s',
    on_new n (Serializer.add_aligned_array_of_bits x) = Ok (Ok tt, s')
    /\ Serializer.current_bit_length s' = zlen x
    /\ Serializer.buffer s' = packbits_little x.
Proof.
  intros Hn. pose proof (zlen_nonneg x) as Hx.
  assert (Hlen : zlen (packbits_little x) = (zlen x + 7) / 8) by apply zlen_packbits.
  assert (Hnb : 0 <= (zlen x + 7) / 8) by (apply Z.div_pos; lia).
  set (bs := packbits_little x) in *.
  set (a := {| base := 0; size := Z.to_nat (n + 1) |}).
  assert (Hvl : view_len a = n + 1) by (unfold view_len, a; cbn [size]; lia).
  exists (SS (list_inserts 0 bs (zeros (n + 1))) a (zlen x)). split; [|split].
  - unfold on_new. rewrite new_spec by lia. cbn [rbind]. fold a.
    rewrite (add_aligned_bits_spec a (zeros (n + 1)) x 0).
    + reflexivity.
    + rewrite length_zeros; cbn; lia.
    + lia.
    + reflexivity.
    + change (0 / 8) with 0. rewrite zlen_packbits, Hvl. lia.
  - reflexivity.
  - rewrite buffer_spec.
    + unfold a. replace (Z.to_nat (n + 1)) with (length (list_inserts 0 bs (zeros (n + 1))))
        by (rewrite length_inserts; apply length_zeros).
      rewrite view_tolist_whole.
      replace (Z.to_nat ((zlen x + 7) / 8)) with (length bs) by (rewrite <- Hlen; unfold zlen; lia).
      apply take_inserts_zeros. lia.
    + rewrite length_inserts, length_zeros. cbn. lia.
    + lia.
Qed.

Lemma prefix_then_bits (dummy x : list bool) (n : Z) :
  zlen dummy <= 7 -> (zlen x + 7) / 8 <= n ->
  exists s',
    on_new n (add_bits dummy ;; Serializer.add_unaligned_array_of_bits x) = Ok (Ok tt, s')
    /\ Serializer.current_bit_length s' = zlen dummy + zlen x
    /\ length (Serializer.buffer s') = Z.to_nat ((zlen dummy + zlen x + 7) / 8)
    /\ forall j, 0 <= j ->
         getbit (Serializer.buffer s') j
         = if j <? zlen dummy then nth (Z.to_nat j) dummy false
           else nth (Z.to_nat (j - zlen dummy)) x false.
Proof.
  intros Hk Hn. pose proof (zlen_nonneg dummy) as Hd. pose proof (zlen_nonneg x) as Hx.
  assert (Hlen : zlen (packbits_little x) = (zlen x + 7) / 8) by apply zlen_packbits.
  assert (Hnb : 0 <= (zlen x + 7) / 8) by (apply Z.div_pos; lia).
  destruct (prefix_then_bytes dummy (packbits_little x) n Hk) as (m' & Hrun & Hlm & Hbits); [lia|].
  set (a := {| base := 0; size := Z.to_nat (n + 1) |}) in *.
  assert (Hvl : view_len a = n + 1) by (unfold view_len, a; cbn [size]; lia).
  exists (SS m' a (zlen dummy + zlen x)). split; [|split; [|split]].
  - unfold on_new. rewrite new_spec in * by lia. cbn [rbind] in *.
    injection Hrun as Hrun. unfold bind in Hrun. unfold bind at 1.
    destruct (add_bits dummy _) as [[[]|e] s1]; [|discriminate].
    unfold Serializer.add_unaligned_array_of_bits. sred.
    destruct (Z.geb_spec (zlen (packbits_little x) * 8 - zlen x) 0);
      [|Z.div_mod_to_equations; lia].
    rewrite Hrun. f_equal. f_equal.
    cbn [Serializer.self Serializer.mem Serializer._buf Serializer._bit_offset].
    f_equal. f_equal. lia.
  - reflexivity.
  - rewrite buffer_spec; [| cbn; lia | Z.div_mod_to_equations; lia].
    rewrite length_take, length_view_tolist by (cbn; lia).
    unfold a; cbn [size]. Z.div_mod_to_equations; lia.
  - intros j Hj.
    rewrite buffer_spec; [| cbn; lia | Z.div_mod_to_equations; lia].
    rewrite getbit_take by (Z.div_mod_to_equations; lia).
    rewrite Hbits by lia. unfold prefixed_stream.
    destruct (Z.ltb_spec j (zlen dummy)) as [Hjk|Hjk].
    + destruct (Z.ltb_spec j (8 * ((zlen dummy + zlen x + 7) / 8))); [reflexivity|].
      exfalso. Z.div_mod_to_equations; lia.
    + rewrite getbit_packbits by lia.
      destruct (Z.ltb_spec j (8 * ((zlen dummy + zlen x + 7) / 8))); [reflexivity|].
      cbn [andb]. symmetry. apply nth_overflow. unfold zlen in *.
      Z.div_mod_to_equations; lia.
Qed.

(** X10: an array of bits comes back as it was written, at any bit
    offset.  On a fresh serializer with room for the packed array,
    [add_unaligned_array_of_bits(x)] after [k <= 7] bits moves the cursor
    by [len(x)] bits, and [fetch_unaligned_array_of_bits(len(x))] on the
    buffer, after skipping [k] bits, returns [x]; at offset 0
    [add_aligned_array_of_bits(x)] leaves the buffer [packbits(x)], from
    which [fetch_aligned_array_of_bits(len(x))] returns [x]. *)
Theorem bit_array_round_trip (x dummy : list bool) (n : Z) :
  zlen dummy <= 7 -> (zlen x + 7) / 8 <= n ->
  (exists s',
     on_new n (add_bits dummy ;; Serializer.add_unaligned_array_of_bits x) = Ok (Ok tt, s')
     /\ Serializer.current_bit_length s' = zlen dummy + zlen x
     /\ rbind (Deserializer.new [Serializer.buffer s'])
              (fun d => fst ((Deserializer.skip_bits (zlen dummy) ;;
                              Deserializer.fetch_unaligned_array_of_bits (zlen x)) d))
        = Ok x)
  /\ (exists s',
        on_new n (Serializer.add_aligned_array_of_bits x) = Ok (Ok tt, s')
        /\ Serializer.current_bit_length s' = zlen x
        /\ Serializer.buffer s' = packbits_little x
        /\ rbind (Deserializer.new [Serializer.buffer s'])
                 (fun d => fst (Deserializer.fetch_aligned_array_of_bits (zlen x) d))
           = Ok x).
Proof.
  intros Hk Hn. pose proof (zlen_nonneg dummy) as Hd. pose proof (zlen_nonneg x) as Hx.
  split.
  - destruct (prefix_then_bits dummy x n Hk Hn) as (s' & Hrun & Hcur & Hlen & Hbits).
    exists s'. split; [exact Hrun|]. split; [exact Hcur|].
    rewrite skip_then by lia.
    rewrite fetch_unaligned_bits_stream
      by first [ lia
               | intros _; apply addressable_inside;
                 cbn [ZeroExtendingBuffer.new ZeroExtendingBuffer._buf];
                 unfold zlen in *; rewrite Hlen; Z.div_mod_to_equations; lia ].
    cbn [fst]. f_equal.
    cbn [ZeroExtendingBuffer.new ZeroExtendingBuffer._buf].
    apply stream_bits_holds; [lia|]. intros i Hi. rewrite Hbits by lia.
    destruct (Z.ltb_spec (zlen dummy + i) (zlen dummy)); [lia|]. f_equal. lia.
  - destruct (aligned_bits_on_new x n Hn) as (s' & Hrun & Hcur & Hbuf).
    exists s'. split; [exact Hrun|]. split; [exact Hcur|]. split; [exact Hbuf|].
    rewrite deserializer_new_ok. cbn [rbind].
    rewrite fetch_aligned_bits_stream by (lia || reflexivity). cbn [fst]. f_equal.
    cbn [ZeroExtendingBuffer.new ZeroExtendingBuffer._buf]. rewrite Hbuf.
    apply stream_bits_holds; [lia|]. intros i Hi. rewrite getbit_packbits by lia. f_equal.
Qed.

Lemma bit_array_round_trip_witness :
  exists s',
    on_new 2 (add_bits [true; true; false] ;;
              Serializer.add_unaligned_array_of_bits
                [true; false; true; true; false; false; true; true; true; false; true])
    = Ok (Ok tt, s')
    /\ Serializer.current_bit_length s' = 14
    /\ rbind (Deserializer.new [Serializer.buffer s'])
             (fun d => fst ((Deserializer.skip_bits 3 ;;
                             Deserializer.fetch_unaligned_array_of_bits 11) d))
       = Ok [true; false; true; true; false; false; true; true; true; false; true].
Proof.
  destruct (bit_array_round_trip
              [true; false; true; true; false; false; true; true; true; false; true]
              [true; true; false] 2) as [H _];
    [vm_compute; discriminate | vm_compute; discriminate | exact H].
Defined.

Lemma bits_on_new (bits : list bool) (n : Z) :
  zlen bits <= 8 * (n + 1) ->
  exists s',
    on_new n (add_bits bits) = Ok (Ok tt, s')
    /\ Serializer.current_bit_length s' = zlen bits
    /\ length (Serializer.buffer s') = Z.to_nat ((zlen bits + 7) / 8)
    /\ forall j, 0 <= j -> getbit (Serializer.buffer s') j = nth (Z.to_nat j) bits false.
Proof.
  intros Hn. pose proof (zlen_nonneg bits) as Hb.
  set (a := {| base := 0; size := Z.to_nat (n + 1) |}).
  assert (Hvl : view_len a = n + 1) by (unfold view_len, a; cbn [size]; lia).
  destruct (add_bits_spec a bits (zeros (n + 1)) 0) as (m' & Hrun & Hlm & Hbits);
    [rewrite length_zeros; cbn; lia | lia | lia |].
  rewrite length_zeros in Hlm.
  exists (SS m' a (zlen bits)). split; [|split; [|split]].
  - unfold on_new. rewrite new_spec by lia. cbn [rbind]. fold a. rewrite Hrun. reflexivity.
  - reflexivity.
  - rewrite buffer_spec; [| cbn; lia | Z.div_mod_to_equations; lia].
    rewrite length_take, length_view_tolist by (cbn; lia).
    unfold a; cbn [size]. Z.div_mod_to_equations; lia.
  - intros j Hj.
    rewrite buffer_spec; [| cbn; lia | Z.div_mod_to_equations; lia].
    rewrite getbit_take by (Z.div_mod_to_equations; lia).
    rewrite Hbits by lia.
    replace (view_tolist (zeros (n + 1)) a) with (zeros (n + 1)).
    2: { unfold a. replace (Z.to_nat (n + 1)) with (length (zeros (n + 1))) by apply length_zeros.
         symmetry. apply view_tolist_whole. }
    rewrite getbit_zeros. cbn [orb]. rewrite Z.sub_0_r, Z.add_0_l.
    destruct (Z.leb_spec 0 j); [|lia]. cbn [andb].
    destruct (Z.ltb_spec j (zlen bits)).
    + destruct (Z.ltb_spec j (8 * ((zlen bits + 7) / 8))); [reflexivity|].
      exfalso. Z.div_mod_to_equations; lia.
    + cbn [andb]. rewrite andb_false_r. symmetry. apply nth_overflow. unfold zlen in *. lia.
Qed.

Lemma nth_app_prefix (dummy x : list bool) (j : Z) :
  0 <= j ->
  nth (Z.to_nat j) (dummy ++ x) false
  = if j <? zlen dummy then nth (Z.to_nat j) dummy false
    else nth (Z.to_nat (j - zlen dummy)) x false.
Proof.
  intros Hj. unfold zlen. destruct (Z.ltb_spec j (Z.of_nat (length dummy))).
  - apply app_nth1. lia.
  - rewrite app_nth2 by lia. f_equal. lia.
Qed.

Lemma add_bits_app (dummy x : list bool) :
  forall s, add_bits (dummy ++ x) s = (add_bits dummy ;; add_bits x) s.
Proof.
  induction dummy as [|b r IH]; intros s; cbn [add_bits app].
  - reflexivity.
  - unfold bind in *.
    destruct (Serializer.add_unaligned_bit b s) as [[[]|e] s']; [|reflexivity].
    apply IH.
Qed.

(** X11: writing an array of bits is writing its bits one by one.  On a
    fresh serializer, after the same [k <= 7] bits,
    [add_unaligned_array_of_bits(x)] leaves the same cursor and the same
    buffer as [add_unaligned_bit] called on each element of [x] in turn. *)
Theorem bit_array_is_bit_by_bit (x dummy : list bool) (n : Z) :
  zlen dummy <= 7 -> (zlen x + 7) / 8 <= n ->
  exists s1 s2,
    on_new n (add_bits dummy ;; Serializer.add_unaligned_array_of_bits x) = Ok (Ok tt, s1)
    /\ on_new n (add_bits dummy ;; add_bits x) = Ok (Ok tt, s2)
    /\ Serializer.current_bit_length s1 = Serializer.current_bit_length s2
    /\ Serializer.buffer s1 = Serializer.buffer s2.
Proof.
  intros Hk Hn. pose proof (zlen_nonneg dummy) as Hd. pose proof (zlen_nonneg x) as Hx.
  destruct (prefix_then_bits dummy x n Hk Hn) as (s1 & Hrun1 & Hcur1 & Hlen1 & Hbits1).
  assert (Hzl : zlen (dummy ++ x) = zlen dummy + zlen x)
    by (unfold zlen; rewrite length_app; lia).
  destruct (bits_on_new (dummy ++ x) n) as (s2 & Hrun2 & Hcur2 & Hlen2 & Hbits2);
    [rewrite Hzl; Z.div_mod_to_equations; lia|].
  exists s1, s2. split; [exact Hrun1|]. split; [|split].
  - rewrite <- Hrun2. unfold on_new.
    destruct (Serializer.new n) as [s|e]; cbn [rbind]; [|reflexivity].
    rewrite add_bits_app. reflexivity.
  - rewrite Hcur1, Hcur2, Hzl. reflexivity.
  - apply getbit_ext.
    + rewrite Hlen1, Hlen2, Hzl. reflexivity.
    + intros j Hj. rewrite Hbits1, Hbits2 by lia. symmetry. apply nth_app_prefix. lia.
Qed.

Lemma bit_array_is_bit_by_bit_witness :
  exists s1 s2,
    on_new 1 (add_bits [true] ;; Serializer.add_unaligned_array_of_bits [false; true; true])
    = Ok (Ok tt, s1)
    /\ on_new 1 (add_bits [true] ;; add_bits [false; true; true]) = Ok (Ok tt, s2)
    /\ Serializer.current_bit_length s1 = Serializer.current_bit_length s2
    /\ Serializer.buffer s1 = Serializer.buffer s2.
Proof.
  apply (bit_array_is_bit_by_bit [false; true; true] [true] 1);
    vm_compute; discriminate.
Defined.

Lemma fetch_bits_stream (b : ZeroExtendingBuffer.t) :
  forall (n : nat) (o : Z), 0 <= o ->
    addressable (ZeroExtendingBuffer._buf b) ((o + Z.of_nat n) / 8) ->
    fetch_bits n (DS b o)
    = (Ok (stream_bits (ZeroExtendingBuffer._buf b) o (Z.of_nat n)), DS b (o + Z.of_nat n)).
Proof.
  induction n as [|n IH]; intros o Ho Ha.
  - cbn [fetch_bits]. unfold ret, stream_bits. cbn [Z.of_nat Z.to_nat seq map].
    rewrite Z.add_0_r. reflexivity.
  - cbn [fetch_bits]. unfold bind, ret.
    rewrite fetch_unaligned_bit_stream
      by first [lia | apply (addressable_le _ _ _ Ha); Z.div_mod_to_equations; lia].
    rewrite IH
      by first [lia | apply (addressable_le _ _ _ Ha); Z.div_mod_to_equations; lia].
    f_equal.
    + f_equal. unfold stream_bits. rewrite !Nat2Z.id. cbn [seq map].
      rewrite Z.add_0_r. f_equal. rewrite <- seq_shift, map_map.
      apply map_ext. intros i. f_equal. lia.
    + f_equal. lia.
Qed.

(** X12: bits written one at a time come back one at a time.  After any
    sequence of [add_unaligned_bit] on a fresh serializer with room for
    them, the cursor has moved by the number of bits, and as many
    [fetch_unaligned_bit] on the buffer return the bits in order, as does
    one [fetch_unaligned_array_of_bits]. *)
Theorem single_bits_round_trip (bits : list bool) (n : Z) :
  zlen bits <= 8 * (n + 1) ->
  exists s',
    on_new n (add_bits bits) = Ok (Ok tt, s')
    /\ Serializer.current_bit_length s' = zlen bits
    /\ rbind (Deserializer.new [Serializer.buffer s'])
             (fun d => fst (fetch_bits (length bits) d)) = Ok bits
    /\ rbind (Deserializer.new [Serializer.buffer s'])
             (fun d => fst (Deserializer.fetch_unaligned_array_of_bits (zlen bits) d))
       = Ok bits.
Proof.
  intros Hn. pose proof (zlen_nonneg bits) as Hb.
  destruct (bits_on_new bits n Hn) as (s' & Hrun & Hcur & Hlen & Hbits).
  exists s'. split; [exact Hrun|]. split; [exact Hcur|].
  rewrite deserializer_new_ok. cbn [rbind].
  rewrite fetch_bits_stream, fetch_unaligned_bits_stream
    by first [ lia
             | intros; apply addressable_inside;
               cbn [ZeroExtendingBuffer.new ZeroExtendingBuffer._buf];
               unfold zlen in *; rewrite Hlen; Z.div_mod_to_equations; lia ].
  cbn [fst].
  cbn [ZeroExtendingBuffer.new ZeroExtendingBuffer._buf]. fold (zlen bits).
  assert (Hs : stream_bits (Serializer.buffer s') 0 (zlen bits) = bits).
  { apply stream_bits_holds; [lia|]. intros i Hi. rewrite Hbits by lia. f_equal. }
  rewrite Hs. split; reflexivity.
Qed.

Lemma single_bits_round_trip_witness :
  exists s',
    on_new 0 (add_bits [true; false; false; true; true]) = Ok (Ok tt, s')
    /\ Serializer.current_bit_length s' = 5
    /\ rbind (Deserializer.new [Serializer.buffer s'])
             (fun d => fst (fetch_bits 5 d)) = Ok [true; false; false; true; true]
    /\ rbind (Deserializer.new [Serializer.buffer s'])
             (fun d => fst (Deserializer.fetch_unaligned_array_of_bits 5 d))
       = Ok [true; false; false; true; true].
Proof.
  apply (single_bits_round_trip [true; false; false; true; true] 0).
  vm_compute; discriminate.
Defined.

(** ** Bytes, arrays of primitives and floats, written and read back *)

Lemma prefixed_bytes_read_back (c : list byte) (dummy : list bool) (B : list byte) :
  (forall j, 0 <= j -> getbit c j = prefixed_stream dummy B j) ->
  stream_bytes c (zlen dummy) (zlen B) = B.
Proof.
  intros Hbits. pose proof (zlen_nonneg dummy) as Hd. pose proof (zlen_nonneg B) as HB.
  symmetry. apply bytes_are_stream_bytes; [lia|reflexivity|].
  apply Z.bits_inj'. intros j Hj.
  rewrite testbit_le_combine, testbit_read_bits by lia.
  rewrite Hbits by lia. unfold prefixed_stream.
  destruct (Z.ltb_spec (zlen dummy + j) (zlen dummy)); [lia|].
  replace (zlen dummy + j - zlen dummy) with j by lia.
  destruct (Z.ltb_spec j (8 * zlen B)); [reflexivity|].
  cbn [andb]. apply getbit_overflow. lia.
Qed.

(** What is read back from the buffer after [B] has been written: the
    bytes of the stream at the position of [B] are [B]. *)
Lemma bytes_stream_round_trip (B : list byte) (dummy : list bool) (n : Z) :
  zlen dummy <= 7 -> zlen B <= n ->
  (exists s',
     on_new n (add_bits dummy ;; Serializer.add_unaligned_bytes B) = Ok (Ok tt, s')
     /\ Serializer.current_bit_length s' = zlen dummy + 8 * zlen B
     /\ stream_bytes (Serializer.buffer s') (zlen dummy) (zlen B) = B
     /\ zlen (Serializer.buffer s') = (zlen dummy + 8 * zlen B + 7) / 8)
  /\ (exists s',
        on_new n (Serializer.add_aligned_bytes B) = Ok (Ok tt, s')
        /\ Serializer.current_bit_length s' = 8 * zlen B
        /\ stream_bytes (Serializer.buffer s') 0 (zlen B) = B).
Proof.
  intros Hk Hn. pose proof (zlen_nonneg dummy) as Hd. pose proof (zlen_nonneg B) as HB.
  split.
  - destruct (unaligned_bytes_on_new dummy B n Hk Hn) as (s' & Hrun & Hcur & Hbits & _).
    exists s'. split; [exact Hrun|]. split; [exact Hcur|].
    split; [|exact (unaligned_bytes_on_new_length dummy B n s' Hk Hn Hrun)].
    apply prefixed_bytes_read_back. exact Hbits.
  - destruct (aligned_bytes_on_new B n Hn) as (s' & Hrun & Hcur & Hbuf).
    exists s'. split; [exact Hrun|]. split; [exact Hcur|]. rewrite Hbuf.
    symmetry. apply bytes_are_stream_bytes; [lia|reflexivity|].
    apply Z.bits_inj'. intros j Hj.
    rewrite testbit_le_combine, testbit_read_bits by lia. rewrite Z.add_0_l.
    destruct (Z.ltb_spec j (8 * zlen B)); [reflexivity|].
    cbn [andb]. apply getbit_overflow. lia.
Qed.

(** X13: a sequence of bytes comes back as it was written, at any bit
    offset.  On a fresh serializer with room for [B],
    [add_unaligned_bytes(B)] after [k <= 7] bits moves the cursor by
    [8 * len(B)] bits and [fetch_unaligned_bytes(len(B))] on the buffer,
    after skipping [k] bits, returns [B]; at offset 0
    [add_aligned_bytes(B)] leaves the buffer [B], from which
    [fetch_aligned_bytes(len(B))] returns [B]. *)
Theorem bytes_round_trip (B : list byte) (dummy : list bool) (n : Z) :
  zlen dummy <= 7 -> zlen B <= n ->
  (exists s',
     on_new n (add_bits dummy ;; Serializer.add_unaligned_bytes B) = Ok (Ok tt, s')
     /\ Serializer.current_bit_length s' = zlen dummy + 8 * zlen B
     /\ rbind (Deserializer.new [Serializer.buffer s'])
              (fun d => fst ((Deserializer.skip_bits (zlen dummy) ;;
                              Deserializer.fetch_unaligned_bytes (zlen B)) d))
        = Ok B)
  /\ (exists s',
        on_new n (Serializer.add_aligned_bytes B) = Ok (Ok tt, s')
        /\ Serializer.current_bit_length s' = 8 * zlen B
        /\ Serializer.buffer s' = B
        /\ rbind (Deserializer.new [Serializer.buffer s'])
                 (fun d => fst (Deserializer.fetch_aligned_bytes (zlen B) d))
           = Ok B).
Proof.
  intros Hk Hn. pose proof (zlen_nonneg dummy) as Hd. pose proof (zlen_nonneg B) as HB.
  split.
  - destruct (unaligned_bytes_on_new dummy B n Hk Hn) as (s' & Hrun & Hcur & Hbits & _).
    pose proof (unaligned_bytes_on_new_length dummy B n s' Hk Hn Hrun) as Hlen.
    exists s'. split; [exact Hrun|]. split; [exact Hcur|].
    rewrite skip_then by lia.
    rewrite fetch_unaligned_bytes_stream
      by first [ lia
               | intros _; apply addressable_inside;
                 cbn [ZeroExtendingBuffer.new ZeroExtendingBuffer._buf];
                 rewrite Hlen; Z.div_mod_to_equations; lia ].
    cbn [fst]. f_equal.
    cbn [ZeroExtendingBuffer.new ZeroExtendingBuffer._buf].
    apply prefixed_bytes_read_back. exact Hbits.
  - destruct (aligned_bytes_on_new B n Hn) as (s' & Hrun & Hcur & Hbuf).
    exists s'. split; [exact Hrun|]. split; [exact Hcur|]. split; [exact Hbuf|].
    rewrite deserializer_new_ok. cbn [rbind].
    rewrite fetch_aligned_bytes_stream by (lia || reflexivity). cbn [fst]. f_equal.
    cbn [ZeroExtendingBuffer.new ZeroExtendingBuffer._buf]. rewrite Hbuf.
    symmetry. apply bytes_are_stream_bytes; [lia|reflexivity|].
    apply Z.bits_inj'. intros j Hj.
    rewrite testbit_le_combine, testbit_read_bits by lia. rewrite Z.add_0_l.
    destruct (Z.ltb_spec j (8 * zlen B)); [reflexivity|].
    cbn [andb]. apply getbit_overflow. lia.
Qed.

Lemma bytes_round_trip_witness :
  exists s',
    on_new 3 (add_bits [true; false; true; true; false] ;;
              Serializer.add_unaligned_bytes [Byte.xa7; Byte.x00; Byte.xff])
    = Ok (Ok tt, s')
    /\ Serializer.current_bit_length s' = 29
    /\ rbind (Deserializer.new [Serializer.buffer s'])
             (fun d => fst ((Deserializer.skip_bits 5 ;;
                             Deserializer.fetch_unaligned_bytes 3) d))
       = Ok [Byte.xa7; Byte.x00; Byte.xff].
Proof.
  destruct (bytes_round_trip [Byte.xa7; Byte.x00; Byte.xff] [true; false; true; true; false] 3)
    as [H _]; [vm_compute; discriminate | vm_compute; discriminate | exact H].
Defined.

Lemma le_round (N z : Z) :
  0 <= N -> le_combine (le_split (Z.to_nat N) z) = z mod 2 ^ (8 * N).
Proof.
  intros HN. rewrite le_combine_split. f_equal. f_equal. lia.
Qed.

Lemma signed_item_round (N z : Z) :
  1 <= N -> - 2 ^ (8 * N - 1) <= z < 2 ^ (8 * N - 1) ->
  (if z mod 2 ^ (8 * N) >=? 2 ^ (8 * N - 1)
   then z mod 2 ^ (8 * N) - 2 ^ (8 * N) else z mod 2 ^ (8 * N)) = z.
Proof.
  intros HN Hz.
  assert (Hpow : 2 ^ (8 * N) = 2 * 2 ^ (8 * N - 1)).
  { replace (8 * N) with (Z.succ (8 * N - 1)) at 1 by lia. apply Z.pow_succ_r. lia. }
  assert (Hpos : 0 < 2 ^ (8 * N - 1)) by (apply Z.pow_pos_nonneg; lia).
  destruct (Z.lt_ge_cases z 0) as [Hneg|Hnn].
  - assert (Hu : z mod 2 ^ (8 * N) = z + 2 ^ (8 * N)).
    { symmetry. apply (Z.mod_unique_pos _ _ (-1)); lia. }
    rewrite Hu. destruct (Z.geb_spec (z + 2 ^ (8 * N)) (2 ^ (8 * N - 1))); lia.
  - rewrite Z.mod_small by lia. destruct (Z.geb_spec z (2 ^ (8 * N - 1))); lia.
Qed.

Lemma length_item_to_bytes (d : dtype) (v : scalar) :
  length (item_to_bytes d v) = Z.to_nat (itemsize d).
Proof. unfold item_to_bytes. apply length_le_split. Qed.

Lemma item_round_trip (d : dtype) (v : scalar) :
  item_in_dtype d v -> item_of_bytes d (item_to_bytes d v) = v.
Proof.
  intros H. pose proof (itemsize_pos d) as HN.
  unfold item_of_bytes, item_to_bytes. rewrite le_round by lia.
  destruct d; destruct v as [z|y];
    cbn [item_in_dtype float_format is_signed] in H; try contradiction; f_equal.
  1-3: cbn [float_format];
       match goal with
       | |- struct.of_bits ?f _ = _ =>
           destruct (of_bits_bits_of f y H) as [Hdec Hrange];
           rewrite Z.mod_small by exact Hrange; exact Hdec
       end.
  1-4: apply Z.mod_small; exact H.
  all: apply signed_item_round; [lia|exact H].
Qed.

Lemma zlen_view_Byte (d : dtype) (x : list scalar) :
  zlen (view_Byte d x) = zlen x * itemsize d.
Proof.
  pose proof (itemsize_pos d). unfold zlen, view_Byte.
  induction x as [|v r IH]; cbn [flat_map length]; [lia|].
  rewrite length_app, length_item_to_bytes. lia.
Qed.

Lemma items_round_trip (d : dtype) (x : list scalar) :
  Forall (item_in_dtype d) x ->
  items_of_bytes d (length x) (view_Byte d x) = x.
Proof.
  induction 1 as [|v r Hv _ IH]; [reflexivity|].
  cbn [length items_of_bytes view_Byte flat_map].
  rewrite <- (length_item_to_bytes d v).
  rewrite take_app_length, drop_app_length.
  rewrite item_round_trip by exact Hv. f_equal. exact IH.
Qed.

(** X14: an array of a standard dtype comes back as it was written, at
    any bit offset.  For an array [x] of dtype [d] (integers of the range
    of [d], or floats of the format of [d]) and a fresh serializer with
    room for it, [add_unaligned_array_of_standard_bit_length_primitives(x)]
    after [k <= 7] bits moves the cursor by [len(x) * itemsize * 8] bits,
    and the unaligned fetch of [len(x)] elements of [d] on the buffer,
    after skipping [k] bits, returns [x]; at offset 0 the aligned write
    and the aligned fetch do the same. *)
Theorem primitive_array_round_trip (d : dtype) (x : list scalar) (dummy : list bool) (n : Z) :
  Forall (item_in_dtype d) x ->
  zlen dummy <= 7 -> zlen x * itemsize d <= n ->
  (exists s',
     on_new n (add_bits dummy ;;
               Serializer.add_unaligned_array_of_standard_bit_length_primitives d x)
     = Ok (Ok tt, s')
     /\ Serializer.current_bit_length s' = zlen dummy + zlen x * itemsize d * 8
     /\ rbind (Deserializer.new [Serializer.buffer s'])
              (fun d_ => fst ((Deserializer.skip_bits (zlen dummy) ;;
                               Deserializer.fetch_unaligned_array_of_standard_bit_length_primitives
                                 d (zlen x)) d_))
        = Ok x)
  /\ (exists s',
        on_new n (Serializer.add_aligned_array_of_standard_bit_length_primitives d x)
        = Ok (Ok tt, s')
        /\ Serializer.current_bit_length s' = zlen x * itemsize d * 8
        /\ rbind (Deserializer.new [Serializer.buffer s'])
                 (fun d_ => fst (Deserializer.fetch_aligned_array_of_standard_bit_length_primitives
                                   d (zlen x) d_))
           = Ok x).
Proof.
  intros Hx Hk Hn. pose proof (zlen_nonneg dummy) as Hd. pose proof (zlen_nonneg x) as Hxl.
  pose proof (itemsize_pos d) as HN.
  pose proof (zlen_view_Byte d x) as HB.
  destruct (bytes_stream_round_trip (view_Byte d x) dummy n Hk ltac:(lia))
    as ((s1 & Hrun1 & Hcur1 & Hread1 & Hlen1) & (s2 & Hrun2 & Hcur2 & Hread2)).
  split.
  - exists s1. split; [exact Hrun1|]. split; [lia|].
    rewrite skip_then by lia.
    rewrite fetch_unaligned_array_stream
      by first [ lia
               | intros _; apply addressable_inside;
                 cbn [ZeroExtendingBuffer.new ZeroExtendingBuffer._buf];
                 rewrite Hlen1, HB; Z.div_mod_to_equations; nia ].
    cbn [fst]. f_equal.
    cbn [ZeroExtendingBuffer.new ZeroExtendingBuffer._buf].
    rewrite <- HB, Hread1. unfold zlen. rewrite Nat2Z.id. apply items_round_trip. exact Hx.
  - exists s2. split; [exact Hrun2|]. split; [lia|].
    rewrite deserializer_new_ok. cbn [rbind].
    rewrite fetch_aligned_array_stream by (lia || reflexivity). cbn [fst]. f_equal.
    cbn [ZeroExtendingBuffer.new ZeroExtendingBuffer._buf].
    rewrite <- HB, Hread2. unfold zlen. rewrite Nat2Z.id. apply items_round_trip. exact Hx.
Qed.

Lemma primitive_array_round_trip_witness :
  exists s',
    on_new 4 (add_bits [true; true; false] ;;
              Serializer.add_unaligned_array_of_standard_bit_length_primitives
                int16 [SInt (-2); SInt 300])
    = Ok (Ok tt, s')
    /\ Serializer.current_bit_length s' = 35
    /\ rbind (Deserializer.new [Serializer.buffer s'])
             (fun d_ => fst ((Deserializer.skip_bits 3 ;;
                              Deserializer.fetch_unaligned_array_of_standard_bit_length_primitives
                                int16 2) d_))
       = Ok [SInt (-2); SInt 300].
Proof.
  destruct (primitive_array_round_trip int16 [SInt (-2); SInt 300] [true; true; false] 4)
    as [H _];
    [ repeat constructor; vm_compute; discriminate
    | vm_compute; discriminate | vm_compute; discriminate | exact H ].
Defined.

(** ** A float out of range, read back *)

Lemma unpack_infinity (f : struct.format) (s : bool) :
  struct.unpack f (infinity_bytes f s) = Ok (S754_infinity s).
Proof. destruct f, s; vm_compute; reflexivity. Qed.

(** X15: a finite float that overflows the format reads back as the
    infinity of its sign.  On a fresh serializer with room for the
    format, the unaligned write of a value out of the range of the format
    after [k <= 7] bits succeeds, and the unaligned fetch of the format on
    the buffer, after skipping [k] bits, returns [+inf] for a positive
    value and [-inf] for a negative one. *)
Theorem float_saturation_read_back (f : struct.format) (x : spec_float)
        (dummy : list bool) (n : Z) :
  out_of_range f x -> zlen dummy <= 7 -> struct.calcsize f <= n ->
  exists s',
    on_new n (add_bits dummy ;; add_unaligned_float f x) = Ok (Ok tt, s')
    /\ Serializer.current_bit_length s' = zlen dummy + 8 * struct.calcsize f
    /\ rbind (Deserializer.new [Serializer.buffer s'])
             (fun d => fst ((Deserializer.skip_bits (zlen dummy) ;;
                             fetch_unaligned_float f) d))
       = Ok (S754_infinity (sign_of x)).
Proof.
  intros Hout Hk Hn. pose proof (zlen_nonneg dummy) as Hd.
  destruct (float_to_bytes_overflow f x Hout) as [_ Hbytes].
  pose proof (zlen_infinity_bytes f (sign_of x)) as Hlen.
  destruct (bytes_stream_round_trip (infinity_bytes f (sign_of x)) dummy n Hk ltac:(lia))
    as ((s' & Hrun & Hcur & Hread & Hblen) & _).
  exists s'. split; [|split].
  - rewrite <- Hrun. unfold on_new. f_equal.
    destruct f; cbn [add_unaligned_float];
      unfold Serializer.add_unaligned_f16, Serializer.add_unaligned_f32,
        Serializer.add_unaligned_f64, bind, lift; rewrite Hbytes; reflexivity.
  - rewrite Hcur, Hlen. reflexivity.
  - rewrite skip_then by lia. rewrite Hlen in Hread.
    assert (Hfetch : Deserializer.fetch_unaligned_bytes (struct.calcsize f)
                       {| Deserializer._buf := ZeroExtendingBuffer.new [Serializer.buffer s'];
                          Deserializer._bit_offset := zlen dummy |}
                     = (Ok (infinity_bytes f (sign_of x)),
                        {| Deserializer._buf := ZeroExtendingBuffer.new [Serializer.buffer s'];
                           Deserializer._bit_offset := zlen dummy + struct.calcsize f * 8 |})).
    { rewrite fetch_unaligned_bytes_stream
        by first [ destruct f; cbn; lia
                 | intros _; apply addressable_inside;
                   cbn [ZeroExtendingBuffer.new ZeroExtendingBuffer._buf];
                   rewrite Hblen, Hlen; Z.div_mod_to_equations; lia ].
      cbn [ZeroExtendingBuffer.new ZeroExtendingBuffer._buf]. rewrite Hread. reflexivity. }
    destruct f; cbn [fetch_unaligned_float struct.calcsize] in *;
      unfold Deserializer.fetch_unaligned_f16, Deserializer.fetch_unaligned_f32,
        Deserializer.fetch_unaligned_f64, bind, lift;
      rewrite Hfetch, unpack_infinity; reflexivity.
Qed.

Lemma float_saturation_read_back_witness :
  exists s',
    on_new 2 (add_bits [true; false; true] ;; add_unaligned_float struct.fmt_e float_99999_9)
    = Ok (Ok tt, s')
    /\ Serializer.current_bit_length s' = 3 + 8 * 2
    /\ rbind (Deserializer.new [Serializer.buffer s'])
             (fun d => fst ((Deserializer.skip_bits 3 ;;
                             fetch_unaligned_float struct.fmt_e) d))
       = Ok (S754_infinity false).
Proof.
  apply (float_saturation_read_back struct.fmt_e float_99999_9 [true; false; true] 2).
  - split; vm_compute; reflexivity.
  - vm_compute; discriminate.
  - vm_compute; discriminate.
Defined.

(** ** Writing through a fork *)

Lemma fork_bytes_ok (a : ndarray) (m : list byte) (o forked_size : Z) :
  0 <= o -> o mod 8 = 0 -> 0 <= forked_size + 1 <= view_len a - o / 8 ->
  Serializer.fork_bytes forked_size (SS m a o)
  = (Ok {| Serializer._buf := fork_window a (o / 8) forked_size;
           Serializer._bit_offset := 0 |}, SS m a o).
Proof.
  intros Ho Hal Hroom.
  assert (Hbo : 0 <= o / 8) by (apply Z.div_pos; lia).
  unfold Serializer.fork_bytes. sred.
  cbn [Serializer.self Serializer._buf Serializer._bit_offset].
  rewrite Hal. cbn [Z.eqb negb].
  rewrite view_slice_from by lia.
  unfold _EXTRA_BUFFER_CAPACITY_BYTES.
  set (fb := {| base := base a + Z.to_nat (o / 8); size := size a - Z.to_nat (o / 8) |}).
  assert (Hfb : view_len fb = view_len a - o / 8).
  { unfold fb, view_len in *. cbn [size]. lia. }
  rewrite Hfb. destruct (Z.ltb_spec (view_len a - o / 8) (forked_size + 1)); [lia|].
  rewrite view_len_slice_to, Hfb.
  destruct (Z.ltb_spec (forked_size + 1) 0); [lia|].
  rewrite Z.min_l by lia. rewrite Z.eqb_refl.
  rewrite view_slice_to by lia. reflexivity.
Qed.

Lemma take_inserts_next {A} (xs c : list A) (i : nat) :
  (i + length xs <= length c)%nat ->
  take (i + length xs) (list_inserts i xs c) = take i c ++ xs.
Proof.
  intros Hroom. apply list_eq. intros j.
  destruct (Nat.lt_ge_cases j (i + length xs)) as [Hlt|Hge].
  - rewrite lookup_take_lt by lia.
    destruct (Nat.lt_ge_cases j i) as [Hji|Hji].
    + rewrite list_lookup_inserts_lt by lia.
      rewrite lookup_app_l by (rewrite length_take; lia).
      rewrite lookup_take_lt by lia. reflexivity.
    + rewrite list_lookup_inserts by lia.
      rewrite lookup_app_r by (rewrite length_take; lia).
      rewrite length_take. f_equal. lia.
  - rewrite lookup_take_ge by lia. symmetry. apply lookup_ge_None_2.
    rewrite length_app, length_take. lia.
Qed.

(** X16: what a forked serializer writes is in the buffer of its parent
    once the parent skips over it.  From a byte-aligned parent with room,
    forking a child of [size] bytes, writing the bytes [B] (at most
    [size + 1]) through the child with [add_aligned_bytes] and skipping
    [8 * len(B)] bits in the parent leaves the parent in the very state
    that writing [B] with the parent itself leaves it in; its buffer is
    the buffer before, followed by [B]. *)
Theorem serializer_fork_aliasing (a : ndarray) (m B : list byte) (o size_ : Z) :
  (base a + size a <= length m)%nat ->
  0 <= o -> o mod 8 = 0 ->
  0 <= size_ + 1 <= view_len a - o / 8 -> zlen B <= size_ + 1 ->
  exists s',
    (child <- Serializer.fork_bytes size_ ;;
     call_on child (Serializer.add_aligned_bytes B) ;;
     Serializer.skip_bits (8 * zlen B)) (SS m a o) = (Ok tt, s')
    /\ Serializer.add_aligned_bytes B (SS m a o) = (Ok tt, s')
    /\ Serializer.buffer s' = Serializer.buffer (SS m a o) ++ B.
Proof.
  intros Hwf Ho Hal Hroom HB. pose proof (zlen_nonneg B) as HBn.
  assert (Hbo : 0 <= o / 8) by (apply Z.div_pos; lia).
  destruct (add_aligned_bytes_spec a B m o Hwf Ho Hal ltac:(lia)) as [Hdirect Hview].
  exists (SS (list_inserts (base a + Z.to_nat (o / 8)) B m) a (o + zlen B * 8)).
  split; [|split; [exact Hdirect|]].
  - unfold bind at 1. rewrite fork_bytes_ok by assumption.
    unfold bind at 1. unfold call_on.
    cbn [Serializer.self Serializer.mem Serializer._buf Serializer._bit_offset].
    destruct (add_aligned_bytes_spec (fork_window a (o / 8) size_) B m 0) as [Hchild _].
    + unfold fork_window, view_len in *. cbn [base size]. lia.
    + lia.
    + reflexivity.
    + unfold fork_window, view_len. cbn [size]. change (0 / 8) with 0. lia.
    + rewrite Hchild. unfold Serializer.skip_bits, Serializer.advance, modify.
      cbn [Serializer.self Serializer.mem Serializer._buf Serializer._bit_offset].
      unfold fork_window. cbn [base]. change (Z.to_nat (0 / 8)) with 0%nat.
      rewrite Nat.add_0_r. f_equal. f_equal. f_equal. lia.
  - assert (Hlen : length (list_inserts (base a + Z.to_nat (o / 8)) B m) = length m)
      by apply length_inserts.
    rewrite !buffer_spec
      by (rewrite ?Hlen; try assumption; unfold view_len in *; Z.div_mod_to_equations; lia).
    rewrite Hview.
    replace (Z.to_nat ((o + zlen B * 8 + 7) / 8)) with (Z.to_nat (o / 8) + length B)%nat
      by (unfold zlen; Z.div_mod_to_equations; lia).
    replace (Z.to_nat ((o + 7) / 8)) with (Z.to_nat (o / 8)) by (Z.div_mod_to_equations; lia).
    apply take_inserts_next. rewrite length_view_tolist by assumption.
    unfold view_len, zlen in *. lia.
Qed.

Lemma serializer_fork_aliasing_witness :
  exists s',
    (child <- Serializer.fork_bytes 15 ;;
     call_on child (Serializer.add_aligned_bytes [Byte.x2a; Byte.x0b]) ;;
     Serializer.skip_bits (8 * zlen [Byte.x2a; Byte.x0b])) sample_serializer = (Ok tt, s')
    /\ Serializer.add_aligned_bytes [Byte.x2a; Byte.x0b] sample_serializer = (Ok tt, s')
    /\ Serializer.buffer s' = Serializer.buffer sample_serializer ++ [Byte.x2a; Byte.x0b].
Proof.
  apply (serializer_fork_aliasing {| base := 0; size := 17 |}
           (Serializer.mem sample_serializer) [Byte.x2a; Byte.x0b] 8 15).
  - cbn. lia.
  - lia.
  - reflexivity.
  - vm_compute. split; discriminate.
  - vm_compute. discriminate.
Defined.

(** ** The integers of a standard width *)

Lemma le_split_app (n1 n2 : nat) :
  forall z, le_split (n1 + n2) z
            = le_split n1 z ++ le_split n2 (Z.shiftr z (8 * Z.of_nat n1)).
Proof.
  induction n1 as [|n1 IH]; intros z.
  - cbn [Nat.add le_split app Z.of_nat]. rewrite Z.mul_0_r, Z.shiftr_0_r. reflexivity.
  - change (le_split (S n1 + n2) z) with (byte.of_Z z :: le_split (n1 + n2) (Z.shiftr z 8)).
    change (le_split (S n1) z) with (byte.of_Z z :: le_split n1 (Z.shiftr z 8)).
    rewrite IH. cbn [app]. f_equal. f_equal. f_equal.
    rewrite Z.shiftr_shiftr by lia. f_equal. lia.
Qed.

Lemma le_split_1_land (v : Z) : le_split 1 (Z.land v 255) = le_split 1 v.
Proof.
  change (le_split 1 (Z.land v 255)) with [byte.of_Z (Z.land v 255)].
  rewrite byte_of_Z_land_255. reflexivity.
Qed.

Lemma add_aligned_u8_spec (a : ndarray) (m : list byte) (x o : Z) :
  (base a + size a <= length m)%nat ->
  0 <= o -> o mod 8 = 0 -> o / 8 + 1 <= view_len a -> 0 <= x ->
  Serializer.add_aligned_u8 x (SS m a o)
  = (Ok tt, SS (list_inserts (base a + Z.to_nat (o / 8)) (le_split 1 x) m) a (o + 8)).
Proof.
  intros Hwf Ho Hal Hroom Hx.
  assert (Hbo : 0 <= o / 8) by (apply Z.div_pos; lia).
  unfold Serializer.add_aligned_u8. sred_all. rewrite Hal. cbn [Z.eqb].
  destruct (Z.ltb_spec x 0); [lia|].
  unfold Serializer.buf_setitem, view_setitem.
  cbn [Serializer.self Serializer.mem Serializer._buf Serializer._bit_offset].
  rewrite index_pos_inside by lia. cbn [rbind]. reflexivity.
Qed.

(** Two writes of [n] bytes each, the second of the value shifted by
    [8 n] bits, are one write of [2 n] bytes. *)
Lemma two_halves (a : ndarray) (f : Z -> M Serializer.state unit) (n : Z) :
  1 <= n ->
  (forall m o x,
      (base a + size a <= length m)%nat ->
      0 <= o -> o mod 8 = 0 -> o / 8 + n <= view_len a -> 0 <= x ->
      f x (SS m a o)
      = (Ok tt, SS (list_inserts (base a + Z.to_nat (o / 8)) (le_split (Z.to_nat n) x) m)
                   a (o + 8 * n))) ->
  forall m o x,
    (base a + size a <= length m)%nat ->
    0 <= o -> o mod 8 = 0 -> o / 8 + 2 * n <= view_len a -> 0 <= x ->
    (f x ;; f (Z.shiftr x (8 * n))) (SS m a o)
    = (Ok tt, SS (list_inserts (base a + Z.to_nat (o / 8)) (le_split (Z.to_nat (2 * n)) x) m)
                 a (o + 8 * (2 * n))).
Proof.
  intros Hn Hf m o x Hwf Ho Hal Hroom Hx.
  assert (Hbo : 0 <= o / 8) by (apply Z.div_pos; lia).
  unfold bind. rewrite Hf by (assumption || lia).
  rewrite Hf;
    [ | rewrite length_inserts; assumption | lia | Z.div_mod_to_equations; lia
      | Z.div_mod_to_equations; lia | apply Z.shiftr_nonneg; assumption ].
  f_equal. f_equal; [|f_equal; lia].
  replace (Z.to_nat (2 * n)) with (Z.to_nat n + Z.to_nat n)%nat by lia.
  rewrite le_split_app, list_inserts_app_l. rewrite length_le_split.
  rewrite Z2Nat.id by lia. f_equal. Z.div_mod_to_equations; lia.
Qed.

Lemma add_aligned_u16_spec (a : ndarray) (m : list byte) (x o : Z) :
  (base a + size a <= length m)%nat ->
  0 <= o -> o mod 8 = 0 -> o / 8 + 2 <= view_len a -> 0 <= x ->
  Serializer.add_aligned_u16 x (SS m a o)
  = (Ok tt, SS (list_inserts (base a + Z.to_nat (o / 8)) (le_split 2 x) m) a (o + 16)).
Proof.
  intros Hwf Ho Hal Hroom Hx.
  assert (Hbo : 0 <= o / 8) by (apply Z.div_pos; lia).
  unfold Serializer.add_aligned_u16. unfold bind at 1. unfold Serializer._ensure_not_negative.
  destruct (Z.ltb_spec x 0); [lia|]. unfold ret at 1.
  assert (H1 : 0 <= Z.land x 255) by (apply Z.land_nonneg; lia).
  assert (H2 : 0 <= Z.land (Z.shiftr x 8) 255) by (apply Z.land_nonneg; lia).
  unfold bind. rewrite add_aligned_u8_spec by (assumption || lia).
  rewrite add_aligned_u8_spec;
    [ | rewrite length_inserts; assumption | lia | Z.div_mod_to_equations; lia
      | Z.div_mod_to_equations; lia | assumption ].
  rewrite !le_split_1_land. f_equal. f_equal; [|f_equal; lia].
  change 2%nat with (1 + 1)%nat. rewrite le_split_app, list_inserts_app_l.
  rewrite length_le_split. change (8 * Z.of_nat 1) with 8. f_equal.
  Z.div_mod_to_equations; lia.
Qed.

Lemma add_aligned_u32_spec (a : ndarray) (m : list byte) (x o : Z) :
  (base a + size a <= length m)%nat ->
  0 <= o -> o mod 8 = 0 -> o / 8 + 4 <= view_len a -> 0 <= x ->
  Serializer.add_aligned_u32 x (SS m a o)
  = (Ok tt, SS (list_inserts (base a + Z.to_nat (o / 8)) (le_split 4 x) m) a (o + 32)).
Proof.
  intros. unfold Serializer.add_aligned_u32.
  apply (two_halves a Serializer.add_aligned_u16 2); try (assumption || lia).
  intros. apply add_aligned_u16_spec; assumption.
Qed.

Lemma add_aligned_u64_spec (a : ndarray) (m : list byte) (x o : Z) :
  (base a + size a <= length m)%nat ->
  0 <= o -> o mod 8 = 0 -> o / 8 + 8 <= view_len a -> 0 <= x ->
  Serializer.add_aligned_u64 x (SS m a o)
  = (Ok tt, SS (list_inserts (base a + Z.to_nat (o / 8)) (le_split 8 x) m) a (o + 64)).
Proof.
  intros. unfold Serializer.add_aligned_u64.
  apply (two_halves a Serializer.add_aligned_u32 4); try (assumption || lia).
  intros. apply add_aligned_u32_spec; assumption.
Qed.

Lemma unsigned_to_bytes_whole (n x : Z) :
  1 <= n -> 0 <= x ->
  Serializer._unsigned_to_bytes x (8 * n) = Ok (le_split (Z.to_nat n) x).
Proof.
  intros Hn Hx.
  destruct (unsigned_to_bytes_spec x (8 * n) Hx ltac:(lia)) as (bs & Hbs & _ & _ & Hsplit).
  rewrite Hbs, Hsplit. f_equal.
  replace ((8 * n + 7) / 8) with n by (Z.div_mod_to_equations; lia).
  rewrite (le_split_mod x (Z.to_nat n)). f_equal. f_equal. f_equal. lia.
Qed.

Lemma add_aligned_unsigned_whole (a : ndarray) (m : list byte) (n x o : Z) :
  (base a + size a <= length m)%nat ->
  1 <= n -> 0 <= o -> o mod 8 = 0 -> o / 8 + n <= view_len a -> 0 <= x ->
  Serializer.add_aligned_unsigned x (8 * n) (SS m a o)
  = (Ok tt, SS (list_inserts (base a + Z.to_nat (o / 8)) (le_split (Z.to_nat n) x) m)
               a (o + 8 * n)).
Proof.
  intros Hwf Hn Ho Hal Hroom Hx.
  apply add_aligned_unsigned_spec; try assumption.
  - apply unsigned_to_bytes_whole; assumption.
  - unfold zlen. rewrite length_le_split. lia.
Qed.

(** X17: the aligned writes of a standard width are the aligned write of
    any width at that width.  On a serializer with a byte-aligned cursor
    and room for the value, [add_aligned_u8], [add_aligned_u16],
    [add_aligned_u32] and [add_aligned_u64] of a value that is not
    negative (below 256 for [add_aligned_u8]) succeed and leave the state
    that [add_aligned_unsigned(value, 8 | 16 | 32 | 64)] leaves: the
    methods built from byte writes and the method built from
    [_unsigned_to_bytes] agree. *)
Theorem standard_write_is_unsigned_write
        (op : unsigned_write) (w : Z) (a : ndarray) (m : list byte) (value o : Z) :
  standard_width op = Some w ->
  (base a + size a <= length m)%nat ->
  0 <= o -> o mod 8 = 0 -> o / 8 + w / 8 <= view_len a ->
  0 <= value -> (op = Add_aligned_u8 -> value < 256) ->
  exists m',
    run_unsigned_write op value (SS m a o) = (Ok tt, SS m' a (o + w))
    /\ Serializer.add_aligned_unsigned value w (SS m a o) = (Ok tt, SS m' a (o + w))
    /\ view_tolist m' a
       = list_inserts (Z.to_nat (o / 8)) (le_split (Z.to_nat (w / 8)) value) (view_tolist m a).
Proof.
  intros Hop Hwf Ho Hal Hroom Hx _.
  assert (Hbo : 0 <= o / 8) by (apply Z.div_pos; lia).
  exists (list_inserts (base a + Z.to_nat (o / 8)) (le_split (Z.to_nat (w / 8)) value) m).
  destruct op; cbn [standard_width] in Hop; try discriminate;
    injection Hop as <-; cbn [run_unsigned_write].
  - change (8 / 8) with 1 in *. split; [|split].
    + apply add_aligned_u8_spec; assumption.
    + apply (add_aligned_unsigned_whole a m 1); (assumption || lia).
    + apply view_tolist_inserts; [assumption|].
      rewrite length_le_split. unfold view_len in *. lia.
  - change (16 / 8) with 2 in *. split; [|split].
    + apply add_aligned_u16_spec; assumption.
    + apply (add_aligned_unsigned_whole a m 2); (assumption || lia).
    + apply view_tolist_inserts; [assumption|].
      rewrite length_le_split. unfold view_len in *. lia.
  - change (32 / 8) with 4 in *. split; [|split].
    + apply add_aligned_u32_spec; assumption.
    + apply (add_aligned_unsigned_whole a m 4); (assumption || lia).
    + apply view_tolist_inserts; [assumption|].
      rewrite length_le_split. unfold view_len in *. lia.
  - change (64 / 8) with 8 in *. split; [|split].
    + apply add_aligned_u64_spec; assumption.
    + apply (add_aligned_unsigned_whole a m 8); (assumption || lia).
    + apply view_tolist_inserts; [assumption|].
      rewrite length_le_split. unfold view_len in *. lia.
Qed.

Lemma standard_write_is_unsigned_write_witness :
  exists m',
    run_unsigned_write Add_aligned_u32 3735928559 sample_serializer
    = (Ok tt, SS m' {| base := 0; size := 17 |} (8 + 32))
    /\ Serializer.add_aligned_unsigned 3735928559 32 sample_serializer
       = (Ok tt, SS m' {| base := 0; size := 17 |} (8 + 32))
    /\ view_tolist m' {| base := 0; size := 17 |}
       = list_inserts (Z.to_nat (8 / 8)) (le_split (Z.to_nat (32 / 8)) 3735928559)
           (view_tolist (Serializer.mem sample_serializer) {| base := 0; size := 17 |}).
Proof.
  apply (standard_write_is_unsigned_write Add_aligned_u32 32 {| base := 0; size := 17 |}
           (Serializer.mem sample_serializer) 3735928559 8).
  - reflexivity.
  - cbn. lia.
  - lia.
  - reflexivity.
  - vm_compute. discriminate.
  - lia.
  - discriminate.
Defined.

Lemma std_write_on_new (f : Z -> M Serializer.state unit) (nb x n : Z) :
  1 <= nb -> nb <= n -> 0 <= x ->
  (forall a m o,
      (base a + size a <= length m)%nat ->
      0 <= o -> o mod 8 = 0 -> o / 8 + nb <= view_len a ->
      f x (SS m a o)
      = (Ok tt, SS (list_inserts (base a + Z.to_nat (o / 8)) (le_split (Z.to_nat nb) x) m)
                   a (o + 8 * nb))) ->
  exists s',
    on_new n (f x) = Ok (Ok tt, s')
    /\ Serializer.current_bit_length s' = 8 * nb
    /\ Serializer.buffer s' = le_split (Z.to_nat nb) x.
Proof.
  intros Hnb Hn Hx Hf.
  set (a := {| base := 0; size := Z.to_nat (n + 1) |}).
  assert (Hvl : view_len a = n + 1) by (unfold view_len, a; cbn [size]; lia).
  exists (SS (list_inserts 0 (le_split (Z.to_nat nb) x) (zeros (n + 1))) a (8 * nb)).
  split; [|split].
  - unfold on_new. rewrite new_spec by lia. cbn [rbind]. fold a.
    rewrite Hf; [reflexivity | rewrite length_zeros; cbn; lia | lia | reflexivity
                | change (0 / 8) with 0; lia].
  - reflexivity.
  - rewrite buffer_spec.
    + unfold a.
      replace (Z.to_nat (n + 1))
        with (length (list_inserts 0 (le_split (Z.to_nat nb) x) (zeros (n + 1))))
        by (rewrite length_inserts; apply length_zeros).
      rewrite view_tolist_whole.
      replace (Z.to_nat ((8 * nb + 7) / 8)) with (length (le_split (Z.to_nat nb) x))
        by (rewrite length_le_split; Z.div_mod_to_equations; lia).
      apply take_inserts_zeros. unfold zlen. rewrite length_le_split. lia.
    + rewrite length_inserts, length_zeros. cbn. lia.
    + Z.div_mod_to_equations; lia.
Qed.

Lemma read_whole (nb x : Z) :
  1 <= nb -> read_bits (le_split (Z.to_nat nb) x) 0 (8 * nb) = x mod 2 ^ (8 * nb).
Proof.
  intros Hnb. unfold read_bits. rewrite Z.shiftr_0_r, Z.land_ones by lia.
  rewrite le_round by lia. apply Z.mod_mod.
  assert (0 < 2 ^ (8 * nb)) by (apply Z.pow_pos_nonneg; lia). lia.
Qed.

Lemma twos_complement_mod (w x : Z) :
  1 <= w -> - 2 ^ (w - 1) <= x < 2 ^ (w - 1) ->
  0 <= (if x <? 0 then 2 ^ w + x else x)
  /\ (if x <? 0 then 2 ^ w + x else x) = x mod 2 ^ w.
Proof.
  intros Hw Hx.
  assert (Hpow : 2 ^ w = 2 * 2 ^ (w - 1)).
  { replace w with (Z.succ (w - 1)) at 1 by lia. apply Z.pow_succ_r. lia. }
  assert (Hpos : 0 < 2 ^ (w - 1)) by (apply Z.pow_pos_nonneg; lia).
  destruct (Z.ltb_spec x 0).
  - split; [lia|]. apply (Z.mod_unique_pos _ _ (-1)); lia.
  - split; [lia|]. symmetry. apply Z.mod_small. lia.
Qed.

Lemma le_split_twos_complement (nb x : Z) :
  1 <= nb ->
  le_split (Z.to_nat nb) (x mod 2 ^ (8 * nb)) = le_split (Z.to_nat nb) x.
Proof.
  intros Hnb. rewrite (le_split_mod x (Z.to_nat nb)). f_equal. f_equal. f_equal. lia.
Qed.

Ltac std_side :=
  first [ lia | reflexivity
        | apply addressable_inside;
          cbn [ZeroExtendingBuffer.new ZeroExtendingBuffer._buf];
          unfold zlen; rewrite length_le_split; vm_compute; discriminate ].

(** X18: an integer of a standard width comes back as it was written.
    On a fresh serializer with room for it, [add_aligned_u8/u16/u32/u64]
    of a value in [0, 2^w) and [add_aligned_i8/i16/i32/i64] of a value in
    [-2^(w-1), 2^(w-1)) move the cursor by [w] bits and leave in the
    buffer the [w/8] bytes of the value, least significant first, a
    negative value in two's complement; the fetch of the same kind on the
    buffer returns the value. *)
Theorem standard_int_round_trip (k : standard_int) (x n : Z) :
  std_in_range k x -> std_width k / 8 <= n ->
  exists s',
    on_new n (add_aligned_std k x) = Ok (Ok tt, s')
    /\ Serializer.current_bit_length s' = std_width k
    /\ Serializer.buffer s' = le_split (Z.to_nat (std_width k / 8)) x
    /\ rbind (Deserializer.new [Serializer.buffer s'])
             (fun d => fst (fetch_aligned_std k d)) = Ok x.
Proof.
  intros Hx Hn. unfold std_in_range in Hx.
  assert (Hread : forall nb : Z, 1 <= nb ->
            forall u : Z,
              read_bits (ZeroExtendingBuffer._buf
                           (ZeroExtendingBuffer.new [le_split (Z.to_nat nb) u])) 0 (8 * nb)
              = u mod 2 ^ (8 * nb)).
  { intros nb Hnb u. cbn [ZeroExtendingBuffer.new ZeroExtendingBuffer._buf].
    apply read_whole. exact Hnb. }
  destruct k; cbn [std_signed std_width add_aligned_std fetch_aligned_std] in *.
  - change (8 / 8) with 1 in *.
    destruct (std_write_on_new Serializer.add_aligned_u8 1 x n) as (s' & Hrun & Hcur & Hbuf);
      [lia|lia|lia|intros; apply add_aligned_u8_spec; (assumption || lia)|].
    exists s'. rewrite Hbuf. repeat split; try assumption.
    rewrite deserializer_new_ok. cbn [rbind].
    rewrite fetch_aligned_u8_spec by std_side. cbn [fst]. f_equal.
    rewrite (Hread 1) by lia. apply Z.mod_small. exact Hx.
  - change (16 / 8) with 2 in *.
    destruct (std_write_on_new Serializer.add_aligned_u16 2 x n) as (s' & Hrun & Hcur & Hbuf);
      [lia|lia|lia|intros; apply add_aligned_u16_spec; (assumption || lia)|].
    exists s'. rewrite Hbuf. repeat split; try assumption.
    rewrite deserializer_new_ok. cbn [rbind].
    rewrite fetch_aligned_u16_spec by std_side. cbn [fst]. f_equal.
    rewrite (Hread 2) by lia. apply Z.mod_small. exact Hx.
  - change (32 / 8) with 4 in *.
    destruct (std_write_on_new Serializer.add_aligned_u32 4 x n) as (s' & Hrun & Hcur & Hbuf);
      [lia|lia|lia|intros; apply add_aligned_u32_spec; (assumption || lia)|].
    exists s'. rewrite Hbuf. repeat split; try assumption.
    rewrite deserializer_new_ok. cbn [rbind].
    rewrite fetch_aligned_u32_spec by std_side. cbn [fst]. f_equal.
    rewrite (Hread 4) by lia. apply Z.mod_small. exact Hx.
  - change (64 / 8) with 8 in *.
    destruct (std_write_on_new Serializer.add_aligned_u64 8 x n) as (s' & Hrun & Hcur & Hbuf);
      [lia|lia|lia|intros; apply add_aligned_u64_spec; (assumption || lia)|].
    exists s'. rewrite Hbuf. repeat split; try assumption.
    rewrite deserializer_new_ok. cbn [rbind].
    rewrite fetch_aligned_u64_spec by std_side. cbn [fst]. f_equal.
    rewrite (Hread 8) by lia. apply Z.mod_small. exact Hx.
  - change (8 / 8) with 1 in *.
    destruct (twos_complement_mod 8 x ltac:(lia) Hx) as [Hnn Hu].
    unfold Serializer.add_aligned_i8. change 256 with (2 ^ 8).
    destruct (std_write_on_new Serializer.add_aligned_u8 1 _ n ltac:(lia) ltac:(lia) Hnn)
      as (s' & Hrun & Hcur & Hbuf);
      [intros; apply add_aligned_u8_spec; (assumption || lia)|].
    rewrite Hu in Hbuf.
    replace (le_split (Z.to_nat 1) (x mod 2 ^ 8)) with (le_split (Z.to_nat 1) x) in Hbuf
      by (symmetry; apply (le_split_twos_complement 1 x); lia).
    exists s'. rewrite Hbuf. repeat split; try assumption.
    rewrite deserializer_new_ok. cbn [rbind].
    unfold Deserializer.fetch_aligned_i8, bind, ret.
    rewrite fetch_aligned_u8_spec by std_side. cbn [fst]. f_equal.
    rewrite (Hread 1) by lia. apply (signed_item_round 1 x); [lia|exact Hx].
  - change (16 / 8) with 2 in *.
    destruct (twos_complement_mod 16 x ltac:(lia) Hx) as [Hnn Hu].
    unfold Serializer.add_aligned_i16. change 65536 with (2 ^ 16).
    destruct (std_write_on_new Serializer.add_aligned_u16 2 _ n ltac:(lia) ltac:(lia) Hnn)
      as (s' & Hrun & Hcur & Hbuf);
      [intros; apply add_aligned_u16_spec; (assumption || lia)|].
    rewrite Hu in Hbuf.
    replace (le_split (Z.to_nat 2) (x mod 2 ^ 16)) with (le_split (Z.to_nat 2) x) in Hbuf
      by (symmetry; apply (le_split_twos_complement 2 x); lia).
    exists s'. rewrite Hbuf. repeat split; try assumption.
    rewrite deserializer_new_ok. cbn [rbind].
    unfold Deserializer.fetch_aligned_i16, bind, ret.
    rewrite fetch_aligned_u16_spec by std_side. cbn [fst]. f_equal.
    rewrite (Hread 2) by lia. apply (signed_item_round 2 x); [lia|exact Hx].
  - change (32 / 8) with 4 in *.
    destruct (twos_complement_mod 32 x ltac:(lia) Hx) as [Hnn Hu].
    unfold Serializer.add_aligned_i32.
    destruct (std_write_on_new Serializer.add_aligned_u32 4 _ n ltac:(lia) ltac:(lia) Hnn)
      as (s' & Hrun & Hcur & Hbuf);
      [intros; apply add_aligned_u32_spec; (assumption || lia)|].
    rewrite Hu in Hbuf.
    replace (le_split (Z.to_nat 4) (x mod 2 ^ 32)) with (le_split (Z.to_nat 4) x) in Hbuf
      by (symmetry; apply (le_split_twos_complement 4 x); lia).
    exists s'. rewrite Hbuf. repeat split; try assumption.
    rewrite deserializer_new_ok. cbn [rbind].
    unfold Deserializer.fetch_aligned_i32, bind, ret.
    rewrite fetch_aligned_u32_spec by std_side. cbn [fst]. f_equal.
    rewrite (Hread 4) by lia. apply (signed_item_round 4 x); [lia|exact Hx].
  - change (64 / 8) with 8 in *.
    destruct (twos_complement_mod 64 x ltac:(lia) Hx) as [Hnn Hu].
    unfold Serializer.add_aligned_i64.
    destruct (std_write_on_new Serializer.add_aligned_u64 8 _ n ltac:(lia) ltac:(lia) Hnn)
      as (s' & Hrun & Hcur & Hbuf);
      [intros; apply add_aligned_u64_spec; (assumption || lia)|].
    rewrite Hu in Hbuf.
    replace (le_split (Z.to_nat 8) (x mod 2 ^ 64)) with (le_split (Z.to_nat 8) x) in Hbuf
      by (symmetry; apply (le_split_twos_complement 8 x); lia).
    exists s'. rewrite Hbuf. repeat split; try assumption.
    rewrite deserializer_new_ok. cbn [rbind].
    unfold Deserializer.fetch_aligned_i64, bind, ret.
    rewrite fetch_aligned_u64_spec by std_side. cbn [fst]. f_equal.
    rewrite (Hread 8) by lia. apply (signed_item_round 8 x); [lia|exact Hx].
Qed.

Lemma standard_int_round_trip_witness :
  exists s',
    on_new 16 (add_aligned_std Std_i32 (-305419896)) = Ok (Ok tt, s')
    /\ Serializer.current_bit_length s' = 32
    /\ Serializer.buffer s' = le_split (Z.to_nat (32 / 8)) (-305419896)
    /\ rbind (Deserializer.new [Serializer.buffer s'])
             (fun d => fst (fetch_aligned_std Std_i32 d)) = Ok (-305419896).
Proof.
  apply (standard_int_round_trip Std_i32 (-305419896) 16).
  - vm_compute. split; [discriminate | reflexivity].
  - vm_compute. discriminate.
Defined.

(** ** The aligned methods, written and read back *)

Lemma read_prefix (nb w z : Z) :
  1 <= w -> w <= 8 * nb ->
  read_bits (le_split (Z.to_nat nb) z) 0 w = z mod 2 ^ w.
Proof.
  intros Hw Hnb. unfold read_bits. rewrite Z.shiftr_0_r, Z.land_ones by lia.
  rewrite le_round by lia.
  apply Z.bits_inj'. intros j Hj. rewrite !Z.testbit_mod_pow2 by lia.
  destruct (Z.ltb_spec j w); [|reflexivity].
  destruct (Z.ltb_spec j (8 * nb)); [reflexivity|lia].
Qed.

Lemma as_signed_mod (w v : Z) :
  1 <= w -> - 2 ^ (w - 1) <= v < 2 ^ (w - 1) -> as_signed w (v mod 2 ^ w) = v.
Proof.
  intros Hw Hv.
  assert (Hpow : 2 ^ w = 2 * 2 ^ (w - 1)).
  { replace w with (Z.succ (w - 1)) at 1 by lia. apply Z.pow_succ_r. lia. }
  assert (Hpos : 0 < 2 ^ (w - 1)) by (apply Z.pow_pos_nonneg; lia).
  unfold as_signed. destruct (Z.lt_ge_cases v 0) as [Hneg|Hnn].
  - assert (Hu : v mod 2 ^ w = v + 2 ^ w)
      by (symmetry; apply (Z.mod_unique_pos _ _ (-1)); lia).
    rewrite Hu. destruct (Z.geb_spec (v + 2 ^ w) (2 ^ (w - 1))); lia.
  - rewrite Z.mod_small by lia. destruct (Z.geb_spec v (2 ^ (w - 1))); lia.
Qed.

Lemma aligned_unsigned_read_back (value w n : Z) :
  0 <= value -> 1 <= w -> (w + 7) / 8 <= n ->
  exists s',
    on_new n (Serializer.add_aligned_unsigned value w) = Ok (Ok tt, s')
    /\ Serializer.current_bit_length s' = w
    /\ read_bits (ZeroExtendingBuffer._buf (ZeroExtendingBuffer.new [Serializer.buffer s'])) 0 w
       = value mod 2 ^ w.
Proof.
  intros Hv Hw Hn.
  destruct (aligned_unsigned_on_new value w n Hv Hw Hn) as (s' & Hrun & Hcur & Hbuf).
  exists s'. split; [exact Hrun|]. split; [exact Hcur|].
  cbn [ZeroExtendingBuffer.new ZeroExtendingBuffer._buf]. rewrite Hbuf.
  assert (0 <= (w + 7) / 8) by (apply Z.div_pos; lia).
  rewrite read_prefix by (Z.div_mod_to_equations; lia).
  apply Z.mod_mod. assert (0 < 2 ^ w) by (apply Z.pow_pos_nonneg; lia). lia.
Qed.

(** X19: the aligned methods give back what they are given, as the
    unaligned ones do.  For every primitive kind and width and every value
    the kind represents (an unsigned integer of [w >= 1] bits, a signed
    integer of [w >= 2] bits, a float that the format holds exactly): on a
    fresh serializer with room for it the aligned write succeeds and moves
    the cursor by the width, and the aligned fetch of the same kind on the
    buffer returns the value. *)
Theorem aligned_round_trip (p : primitive) (v : pyvalue p) (n : Z) :
  representable p v -> (bit_width p + 7) / 8 <= n ->
  exists s',
    on_new n (add_aligned p v) = Ok (Ok tt, s')
    /\ Serializer.current_bit_length s' = bit_width p
    /\ rbind (Deserializer.new [Serializer.buffer s'])
             (fun d => fst (fetch_aligned p d)) = Ok v.
Proof.
  destruct p as [w|w|f]; cbn [pyvalue representable bit_width add_aligned fetch_aligned] in *.
  - intros [Hw Hv] Hn.
    destruct (aligned_unsigned_read_back v w n ltac:(lia) Hw Hn) as (s' & Hrun & Hcur & Hread).
    exists s'. split; [exact Hrun|]. split; [exact Hcur|].
    rewrite deserializer_new_ok. cbn [rbind].
    rewrite fetch_aligned_unsigned_spec by (lia || reflexivity). cbn [fst]. f_equal.
    rewrite Hread. apply Z.mod_small. exact Hv.
  - intros [Hw Hv] Hn.
    assert (Hpow : 2 ^ w = 2 * 2 ^ (w - 1)).
    { replace w with (Z.succ (w - 1)) at 1 by lia. apply Z.pow_succ_r. lia. }
    assert (Hpos : 0 < 2 ^ (w - 1)) by (apply Z.pow_pos_nonneg; lia).
    set (u := if v <? 0 then 2 ^ w + v else v).
    assert (Hu : 0 <= u /\ u mod 2 ^ w = v mod 2 ^ w).
    { unfold u. destruct (Z.ltb_spec v 0); split; try lia.
      replace (2 ^ w + v) with (v + 1 * 2 ^ w) by lia. apply Z.mod_add. lia. }
    destruct Hu as [Hunn Humod].
    destruct (aligned_unsigned_read_back u w n Hunn ltac:(lia) Hn) as (s' & Hrun & Hcur & Hread).
    exists s'. split; [|split; [exact Hcur|]].
    + rewrite <- Hrun. unfold on_new. f_equal.
      unfold Serializer.add_aligned_signed, assert_, bind.
      destruct (Z.geb_spec w 2); [|lia]. reflexivity.
    + rewrite deserializer_new_ok. cbn [rbind].
      rewrite fetch_aligned_signed_stream by (lia || reflexivity). cbn [fst]. f_equal.
      rewrite Hread, Humod. apply as_signed_mod; lia.
  - intros Hrep Hn.
    assert (Hsize : 1 <= struct.calcsize f) by (destruct f; cbn; lia).
    assert (Hroom : struct.calcsize f <= n) by (Z.div_mod_to_equations; lia).
    pose proof (pack_representable f v Hrep) as Hbytes.
    destruct Hrep as (_ & Hvalid & Hback).
    destruct (of_bits_bits_of f _ Hvalid) as [Hdec Hrange].
    set (B := le_split (Z.to_nat (struct.calcsize f)) (struct.bits_of f (struct.narrow f v))) in *.
    assert (HlenB : zlen B = struct.calcsize f).
    { unfold B, zlen. rewrite length_le_split. lia. }
    assert (HvalB : le_combine B = struct.bits_of f (struct.narrow f v)).
    { unfold B. rewrite le_round by lia. apply Z.mod_small. exact Hrange. }
    destruct (bytes_stream_round_trip B [] n) as [_ (s' & Hrun & Hcur & Hread)];
      [vm_compute; discriminate | rewrite HlenB; exact Hroom |].
    exists s'. split; [|split].
    + rewrite <- Hrun. unfold on_new. f_equal.
      destruct f; cbn [add_aligned_float];
        unfold Serializer.add_aligned_f16, Serializer.add_aligned_f32,
          Serializer.add_aligned_f64, bind, lift; rewrite Hbytes; reflexivity.
    + rewrite Hcur, HlenB. reflexivity.
    + rewrite deserializer_new_ok. cbn [rbind]. rewrite HlenB in Hread.
      assert (Hfetch : Deserializer.fetch_aligned_bytes (struct.calcsize f)
                         {| Deserializer._buf := ZeroExtendingBuffer.new [Serializer.buffer s'];
                            Deserializer._bit_offset := 0 |}
                       = (Ok B,
                          {| Deserializer._buf := ZeroExtendingBuffer.new [Serializer.buffer s'];
                             Deserializer._bit_offset := 0 + struct.calcsize f * 8 |})).
      { rewrite fetch_aligned_bytes_stream by (lia || reflexivity).
        cbn [ZeroExtendingBuffer.new ZeroExtendingBuffer._buf]. rewrite Hread. reflexivity. }
      assert (Hunpack : struct.unpack f B = Ok v).
      { unfold struct.unpack. rewrite HlenB, Z.eqb_refl, HvalB, Hdec, Hback. reflexivity. }
      destruct f; cbn [fetch_aligned_float struct.calcsize] in *;
        unfold Deserializer.fetch_aligned_f16, Deserializer.fetch_aligned_f32,
          Deserializer.fetch_aligned_f64, bind, lift;
        rewrite Hfetch, Hunpack; reflexivity.
Qed.

Lemma aligned_round_trip_witness :
  exists s',
    on_new 4 (add_aligned (Signed 12) (-1234)) = Ok (Ok tt, s')
    /\ Serializer.current_bit_length s' = 12
    /\ rbind (Deserializer.new [Serializer.buffer s'])
             (fun d => fst (fetch_aligned (Signed 12) d)) = Ok (-1234).
Proof.
  apply (aligned_round_trip (Signed 12) (-1234) 4).
  - unfold representable. lia.
  - vm_compute. discriminate.
Defined.

(** ** Writing past the end of the buffer *)

Lemma index_pos_past_end (n i : Z) :
  0 <= n <= i -> i <= ssize_max -> index_pos n i = Raise IndexError.
Proof.
  intros H Hi. unfold index_pos.
  destruct (Z.leb_spec 0 i); [|lia]. destruct (Z.ltb_spec i n); [lia|]. cbn [andb].
  replace (fits_ssize i) with true
    by (symmetry; apply fits_ssize_spec; unfold ssize_max in *; lia).
  destruct (Z.leb_spec (- n) i); destruct (Z.ltb_spec i 0); try lia; reflexivity.
Qed.

(** X20: a write at a cursor past the last byte of the buffer is refused
    and changes nothing.  With the byte of the cursor at or beyond the
    end of the buffer of the serializer (of a fork: of its window) and at
    most [sys.maxsize], [add_unaligned_bit], [add_aligned_u8]
    (byte-aligned, value from 0 to 255) and [add_unaligned_bytes] of at
    least one byte raise [IndexError] and leave the memory and the cursor
    as they were. *)
Theorem write_past_end_refused (a : ndarray) (m : list byte) (o : Z) :
  0 <= o -> view_len a <= o / 8 -> o / 8 <= ssize_max ->
  (forall x : bool,
      Serializer.add_unaligned_bit x (SS m a o) = (Raise IndexError, SS m a o))
  /\ (forall x : Z, o mod 8 = 0 -> 0 <= x <= 255 ->
        Serializer.add_aligned_u8 x (SS m a o) = (Raise IndexError, SS m a o))
  /\ (forall (b : byte) (r : list byte),
        Serializer.add_unaligned_bytes (b :: r) (SS m a o) = (Raise IndexError, SS m a o)).
Proof.
  intros Ho Hend Hmax.
  assert (Hvl : 0 <= view_len a) by (unfold view_len; lia).
  split; [|split].
  - intros x. unfold Serializer.add_unaligned_bit, bind, get, Serializer.buf_getitem,
      Serializer._byte_offset, view_getitem.
    cbn [Serializer.self Serializer.mem Serializer._buf Serializer._bit_offset].
    rewrite index_pos_past_end by (assumption || lia). reflexivity.
  - intros x Hal Hx. unfold Serializer.add_aligned_u8. sred_all. rewrite Hal. cbn [Z.eqb].
    destruct (Z.ltb_spec x 0); [lia|].
    unfold Serializer.buf_setitem, view_setitem.
    cbn [Serializer.self Serializer.mem Serializer._buf Serializer._bit_offset].
    rewrite index_pos_past_end by (assumption || lia). reflexivity.
  - intros b r. unfold Serializer.add_unaligned_bytes, bind, get.
    cbn [Serializer.add_unaligned_bytes_loop].
    unfold bind, get, Serializer.buf_getitem, Serializer._byte_offset, view_getitem.
    cbn [Serializer.self Serializer.mem Serializer._buf Serializer._bit_offset].
    rewrite index_pos_past_end by (assumption || lia). reflexivity.
Qed.

Lemma write_past_end_refused_witness :
  Serializer.add_unaligned_bit true
    (SS (Serializer.mem sample_serializer) {| base := 0; size := 17 |} 136)
  = (Raise IndexError, SS (Serializer.mem sample_serializer) {| base := 0; size := 17 |} 136).
Proof.
  destruct (write_past_end_refused {| base := 0; size := 17 |}
              (Serializer.mem sample_serializer) 136) as [H _];
    [lia | vm_compute; discriminate | vm_compute; discriminate | apply H].
Defined.

(** ** A message of several fields *)

(** The unaligned write of bytes at any cursor of a buffer that is clean
    from the cursor on: the bits before the cursor stay, the bits from
    the cursor on are those of the bytes. *)
Lemma unaligned_bytes_clean (a : ndarray) (bs m : list byte) (o : Z) :
  (base a + size a <= length m)%nat ->
  0 <= o -> o / 8 + zlen bs + 1 <= view_len a ->
  clean (view_tolist m a) o ->
  exists m',
    Serializer.add_unaligned_bytes bs (SS m a o) = (Ok tt, SS m' a (o + 8 * zlen bs))
    /\ length m' = length m
    /\ forall j, 0 <= j ->
         getbit (view_tolist m' a) j
         = if j <? o then getbit (view_tolist m a) j else getbit bs (j - o).
Proof.
  intros Hwf Ho Hroom Hclean. pose proof (zlen_nonneg bs) as Hb.
  destruct (add_unaligned_bytes_spec a bs m o Hwf Ho Hroom) as (m' & Hrun & Hlen & Hbits).
  exists m'. split; [exact Hrun|]. split; [exact Hlen|].
  intros j Hj. rewrite Hbits by lia. unfold after_unaligned.
  assert (Hq : 8 * (o / 8) <= o < 8 * (o / 8) + 8) by (Z.div_mod_to_equations; lia).
  destruct (Z.ltb_spec j o) as [Hlt|Hge].
  - destruct (Z.ltb_spec j (8 * (o / 8))); [reflexivity|].
    destruct (Z.ltb_spec j (8 * (o / 8) + 8)); [|lia].
    rewrite (getbit_neg bs) by lia. apply orb_false_r.
  - rewrite (Hclean j Hge).
    destruct (Z.ltb_spec j (8 * (o / 8))); [lia|].
    destruct (Z.ltb_spec j (8 * (o / 8) + 8)); [reflexivity|].
    destruct (Z.ltb_spec j (8 * (o / 8 + zlen bs + 1))); [reflexivity|].
    symmetry. apply getbit_overflow. lia.
Qed.

Lemma read_bits_ext (c1 c2 : list byte) (o w : Z) :
  0 <= o -> 0 <= w ->
  (forall j, o <= j < o + w -> getbit c1 j = getbit c2 j) ->
  read_bits c1 o w = read_bits c2 o w.
Proof.
  intros Ho Hw H. apply Z.bits_inj'. intros j Hj.
  rewrite !testbit_read_bits by lia.
  destruct (Z.ltb_spec j w); [|reflexivity]. cbn [andb]. apply H. lia.
Qed.

Lemma read_bits_holds (c : list byte) (o w z : Z) :
  0 <= o -> 0 <= w -> 0 <= z < 2 ^ w ->
  (forall j, o <= j < o + w -> getbit c j = Z.testbit z (j - o)) ->
  read_bits c o w = z.
Proof.
  intros Ho Hw Hz H. apply Z.bits_inj'. intros j Hj.
  rewrite testbit_read_bits by lia.
  destruct (Z.ltb_spec j w).
  - cbn [andb]. rewrite H by lia. f_equal. lia.
  - cbn [andb]. symmetry.
    destruct (Z.eq_dec z 0) as [->|Hnz]; [apply Z.testbit_0_l|].
    apply Z.bits_above_log2; [lia|].
    apply Z.lt_le_trans with w; [|lia]. apply Z.log2_lt_pow2; lia.
Qed.

Lemma testbit_above (z w j : Z) :
  0 <= w -> 0 <= z < 2 ^ w -> w <= j -> Z.testbit z j = false.
Proof.
  intros Hw Hz Hj.
  destruct (Z.eq_dec z 0) as [->|Hnz]; [apply Z.testbit_0_l|].
  apply Z.bits_above_log2; [lia|].
  apply Z.lt_le_trans with w; [|lia]. apply Z.log2_lt_pow2; lia.
Qed.

Lemma encode_range (p : primitive) (v : pyvalue p) :
  representable p v -> 1 <= bit_width p /\ 0 <= encode p v < 2 ^ bit_width p.
Proof.
  destruct p as [w|w|f]; cbn [pyvalue representable bit_width encode].
  - intros [Hw _]. split; [lia|]. apply Z.mod_pos_bound. apply Z.pow_pos_nonneg; lia.
  - intros [Hw _]. split; [lia|]. apply Z.mod_pos_bound. apply Z.pow_pos_nonneg; lia.
  - intros (_ & Hvalid & _). split; [destruct f; cbn; lia|].
    apply (of_bits_bits_of f _ Hvalid).
Qed.

Lemma decode_encode (p : primitive) (v : pyvalue p) :
  representable p v -> decode p (encode p v) = v.
Proof.
  destruct p as [w|w|f]; cbn [pyvalue representable decode encode].
  - intros [Hw Hv]. apply Z.mod_small. exact Hv.
  - intros [Hw Hv]. apply as_signed_mod; lia.
  - intros (_ & Hvalid & Hback). destruct (of_bits_bits_of f _ Hvalid) as [Hdec _].
    rewrite Hdec. exact Hback.
Qed.

Lemma add_unsigned_clean (a : ndarray) (m : list byte) (value w o : Z) :
  0 <= value -> 1 <= w ->
  (base a + size a <= length m)%nat ->
  0 <= o -> o / 8 + (w + 7) / 8 + 1 <= view_len a ->
  clean (view_tolist m a) o ->
  exists m',
    Serializer.add_unaligned_unsigned value w (SS m a o) = (Ok tt, SS m' a (o + w))
    /\ length m' = length m
    /\ forall j, 0 <= j ->
         getbit (view_tolist m' a) j
         = if j <? o then getbit (view_tolist m a) j
           else Z.testbit (value mod 2 ^ w) (j - o).
Proof.
  intros Hv Hw Hwf Ho Hroom Hclean.
  destruct (unsigned_to_bytes_spec value w Hv Hw) as (bs & Hbs & Hlen & Hval & _).
  destruct (unaligned_bytes_clean a bs m o Hwf Ho ltac:(lia) Hclean)
    as (m' & Hrun & Hlm & Hbits).
  exists m'. split; [|split; [exact Hlm|]].
  - unfold Serializer.add_unaligned_unsigned. sred.
    destruct (Z.ltb_spec value 0); [lia|]. rewrite Hbs.
    destruct (Z.geb_spec (zlen bs * 8 - w) 0); [|Z.div_mod_to_equations; lia].
    rewrite Hrun.
    cbn [Serializer.self Serializer.mem Serializer._buf Serializer._bit_offset].
    f_equal. f_equal. f_equal. lia.
  - intros j Hj. rewrite Hbits by lia.
    destruct (Z.ltb_spec j o); [reflexivity|].
    rewrite <- testbit_le_combine by lia. rewrite Hval. reflexivity.
Qed.

Lemma add_field_spec (p : primitive) (v : pyvalue p) (a : ndarray) (m : list byte) (o : Z) :
  representable p v ->
  (base a + size a <= length m)%nat ->
  0 <= o -> o / 8 + (bit_width p + 7) / 8 + 1 <= view_len a ->
  clean (view_tolist m a) o ->
  exists m',
    add_unaligned p v (SS m a o) = (Ok tt, SS m' a (o + bit_width p))
    /\ length m' = length m
    /\ forall j, 0 <= j ->
         getbit (view_tolist m' a) j
         = if j <? o then getbit (view_tolist m a) j
           else Z.testbit (encode p v) (j - o).
Proof.
  destruct p as [w|w|f]; cbn [pyvalue representable bit_width add_unaligned encode] in *.
  - intros [Hw Hv] Hwf Ho Hroom Hclean.
    apply add_unsigned_clean; (assumption || lia).
  - intros [Hw Hv] Hwf Ho Hroom Hclean.
    assert (Hpow : 2 ^ w = 2 * 2 ^ (w - 1)).
    { replace w with (Z.succ (w - 1)) at 1 by lia. apply Z.pow_succ_r. lia. }
    assert (Hpos : 0 < 2 ^ (w - 1)) by (apply Z.pow_pos_nonneg; lia).
    rewrite signed_as_unsigned by lia.
    set (u := if v <? 0 then 2 ^ w + v else v).
    assert (Hu : 0 <= u /\ u mod 2 ^ w = v mod 2 ^ w).
    { unfold u. destruct (Z.ltb_spec v 0); split; try lia.
      replace (2 ^ w + v) with (v + 1 * 2 ^ w) by lia. apply Z.mod_add. lia. }
    destruct Hu as [Hunn Humod]. rewrite <- Humod.
    apply add_unsigned_clean; (assumption || lia).
  - intros Hrep Hwf Ho Hroom Hclean.
    assert (Hsize : 1 <= struct.calcsize f) by (destruct f; cbn; lia).
    assert (Hroom' : o / 8 + struct.calcsize f + 1 <= view_len a)
      by (Z.div_mod_to_equations; lia).
    pose proof (pack_representable f v Hrep) as Hbytes.
    destruct Hrep as (_ & Hvalid & Hback).
    destruct (of_bits_bits_of f _ Hvalid) as [Hdec Hrange].
    set (B := le_split (Z.to_nat (struct.calcsize f)) (struct.bits_of f (struct.narrow f v))) in *.
    assert (HlenB : zlen B = struct.calcsize f).
    { unfold B, zlen. rewrite length_le_split. lia. }
    assert (HvalB : le_combine B = struct.bits_of f (struct.narrow f v)).
    { unfold B. rewrite le_round by lia. apply Z.mod_small. exact Hrange. }
    destruct (unaligned_bytes_clean a B m o Hwf Ho) as (m' & Hrun & Hlm & Hbits).
    { rewrite HlenB. exact Hroom'. }
    { exact Hclean. }
    exists m'. split; [|split; [exact Hlm|]].
    + rewrite HlenB in Hrun. rewrite <- Hrun.
      destruct f; cbn [add_unaligned_float];
        unfold Serializer.add_unaligned_f16, Serializer.add_unaligned_f32,
          Serializer.add_unaligned_f64, bind, lift; rewrite Hbytes; reflexivity.
    + intros j Hj. rewrite Hbits by lia.
      destruct (Z.ltb_spec j o); [reflexivity|].
      rewrite <- testbit_le_combine by lia. rewrite HvalB. reflexivity.
Qed.

Lemma message_bits_nonneg (msg : list field) :
  Forall field_representable msg -> 0 <= message_bits msg.
Proof.
  induction 1 as [|f r Hf _ IH]; [cbn; lia|].
  destruct (encode_range _ _ Hf) as [Hw _].
  change (0 <= bit_width (projT1 f) + message_bits r). lia.
Qed.

(** Writing a message at any cursor of a clean buffer with room. *)
Lemma add_message_spec (a : ndarray) (msg : list field) :
  Forall field_representable msg ->
  forall (m : list byte) (o : Z),
    (base a + size a <= length m)%nat ->
    0 <= o -> o + message_bits msg <= 8 * (view_len a - 1) ->
    clean (view_tolist m a) o ->
    exists m',
      add_message msg (SS m a o) = (Ok tt, SS m' a (o + message_bits msg))
      /\ length m' = length m
      /\ (forall j, 0 <= j < o -> getbit (view_tolist m' a) j = getbit (view_tolist m a) j)
      /\ clean (view_tolist m' a) (o + message_bits msg)
      /\ fields_at (view_tolist m' a) o msg.
Proof.
  induction 1 as [|f r Hf Hr IH]; intros m o Hwf Ho Hroom Hclean.
  - exists m. cbn [message_bits fold_right add_message fields_at]. rewrite Z.add_0_r.
    repeat split; try reflexivity. exact Hclean.
  - change (message_bits (f :: r)) with (bit_width (projT1 f) + message_bits r) in *.
    pose proof (message_bits_nonneg r Hr) as Hrn.
    destruct f as [p v]. unfold field_representable, field_kind in *. cbn [projT1 projT2] in *.
    destruct (encode_range p v Hf) as [Hw Henc].
    destruct (add_field_spec p v a m o Hf Hwf Ho) as (m1 & Hrun1 & Hlen1 & Hbits1).
    { Z.div_mod_to_equations; lia. }
    { exact Hclean. }
    assert (Hclean1 : clean (view_tolist m1 a) (o + bit_width p)).
    { intros j Hj. rewrite Hbits1 by lia. destruct (Z.ltb_spec j o); [lia|].
      apply (testbit_above _ (bit_width p)); lia. }
    destruct (IH m1 (o + bit_width p)) as (m' & Hrun & Hlen & Hpre & Hcl & Hfields);
      [lia | lia | lia | exact Hclean1 |].
    exists m'. split; [|split; [|split; [|split]]].
    + cbn [add_message]. unfold add_field. cbn [projT1 projT2]. unfold bind.
      rewrite Hrun1, Hrun. f_equal. f_equal. f_equal. lia.
    + lia.
    + intros j Hj. rewrite Hpre by lia. rewrite Hbits1 by lia.
      destruct (Z.ltb_spec j o); [reflexivity|lia].
    + replace (o + (bit_width p + message_bits r)) with (o + bit_width p + message_bits r) by lia.
      exact Hcl.
    + cbn [fields_at]. unfold field_kind. cbn [projT1 projT2]. split; [|exact Hfields].
      apply read_bits_holds; [lia|lia|exact Henc|].
      intros j Hj. rewrite Hpre by lia. rewrite Hbits1 by lia.
      destruct (Z.ltb_spec j o); [lia|reflexivity].
Qed.

Lemma fetch_unaligned_decodes (p : primitive) (b : ZeroExtendingBuffer.t) (o : Z) :
  0 <= o ->
  match p with Unsigned w => 1 <= w | Signed w => 2 <= w | Float _ => True end ->
  (o mod 8 <> 0 ->
   addressable (ZeroExtendingBuffer._buf b) (o / 8 + (bit_width p + 7) / 8)) ->
  fetch_unaligned p (DS b o)
  = (Ok (decode p (read_bits (ZeroExtendingBuffer._buf b) o (bit_width p))),
     DS b (o + bit_width p)).
Proof.
  intros Ho Hw Ha. destruct p as [w|w|f]; cbn [fetch_unaligned decode bit_width] in *.
  - apply fetch_unaligned_unsigned_spec; assumption.
  - apply fetch_unaligned_signed_stream; assumption.
  - assert (Hsize : 1 <= struct.calcsize f) by (destruct f; cbn; lia).
    assert (Ha' : o mod 8 <> 0 ->
                  addressable (ZeroExtendingBuffer._buf b) (o / 8 + struct.calcsize f)).
    { intros Hun. apply (addressable_le _ _ _ (Ha Hun)). Z.div_mod_to_equations; lia. }
    assert (Hrun : (bs <- Deserializer.fetch_unaligned_bytes (struct.calcsize f) ;;
                    lift (struct.unpack f bs)) (DS b o)
                   = (Ok (float_of_stream f (ZeroExtendingBuffer._buf b) o),
                      DS b (o + 8 * struct.calcsize f))).
    { unfold bind, lift. rewrite fetch_unaligned_bytes_stream by (assumption || lia).
      rewrite unpack_stream by lia. f_equal. f_equal. lia. }
    destruct f; exact Hrun.
Qed.

Lemma representable_width (p : primitive) (v : pyvalue p) :
  representable p v ->
  match p with Unsigned w => 1 <= w | Signed w => 2 <= w | Float _ => True end.
Proof. destruct p; cbn; intros H; try exact I; apply H. Qed.

Lemma fetch_message_spec (b : ZeroExtendingBuffer.t) (msg : list field) :
  Forall field_representable msg ->
  forall o, 0 <= o ->
    addressable (ZeroExtendingBuffer._buf b) ((o + message_bits msg + 7) / 8) ->
    fields_at (ZeroExtendingBuffer._buf b) o msg ->
    fetch_message (map field_kind msg) (DS b o) = (Ok msg, DS b (o + message_bits msg)).
Proof.
  induction 1 as [|f r Hf Hr IH]; intros o Ho Ha Hfields.
  - cbn [map fetch_message]. unfold ret. f_equal. f_equal. cbn. lia.
  - change (message_bits (f :: r)) with (bit_width (projT1 f) + message_bits r) in *.
    pose proof (message_bits_nonneg r Hr) as Hrn.
    destruct f as [p v]. cbn [fields_at map fetch_message] in *.
    unfold field_representable, field_kind in Hf, Hfields |- *.
    cbn [projT1 projT2] in *.
    destruct Hfields as [Hhere Hrest].
    destruct (encode_range p v Hf) as [Hw _].
    unfold bind, fetch_field, fmap, bind, ret.
    rewrite (fetch_unaligned_decodes p b o Ho (representable_width p v Hf))
      by (intros _; apply (addressable_le _ _ _ Ha); Z.div_mod_to_equations; lia).
    rewrite Hhere, (decode_encode p v Hf).
    rewrite IH
      by first [ lia | exact Hrest
               | apply (addressable_le _ _ _ Ha); Z.div_mod_to_equations; lia ].
    f_equal. f_equal. lia.
Qed.

Lemma fields_at_take (c : list byte) (k : Z) (msg : list field) :
  0 <= k -> Forall field_representable msg ->
  forall o, 0 <= o -> o + message_bits msg <= 8 * k ->
    fields_at c o msg -> fields_at (take (Z.to_nat k) c) o msg.
Proof.
  intros Hk. induction 1 as [|f r Hf Hr IH]; intros o Ho Hroom Hfields; [exact I|].
  change (message_bits (f :: r)) with (bit_width (projT1 f) + message_bits r) in Hroom.
  pose proof (message_bits_nonneg r Hr) as Hrn.
  destruct (encode_range _ _ Hf) as [Hw _].
  cbn [fields_at] in *. unfold field_kind in *. destruct Hfields as [Hhere Hrest]. split.
  - rewrite <- Hhere. apply read_bits_ext; [lia|lia|].
    intros j Hj. rewrite getbit_take by lia.
    destruct (Z.ltb_spec j (8 * k)); [reflexivity|lia].
  - apply IH; (lia || exact Hrest).
Qed.

(** A message written on a fresh serializer: the buffer holds the fields
    from bit 0 on. *)
Lemma message_on_new (msg : list field) (n : Z) :
  Forall field_representable msg -> message_bits msg <= 8 * n ->
  exists s',
    on_new n (add_message msg) = Ok (Ok tt, s')
    /\ Serializer.current_bit_length s' = message_bits msg
    /\ zlen (Serializer.buffer s') = (message_bits msg + 7) / 8
    /\ fields_at (Serializer.buffer s') 0 msg.
Proof.
  intros Hmsg Hn. pose proof (message_bits_nonneg msg Hmsg) as Hbits.
  set (a := {| base := 0; size := Z.to_nat (n + 1) |}).
  assert (Hvl : view_len a = n + 1) by (unfold view_len, a; cbn [size]; lia).
  assert (Hzeros : view_tolist (zeros (n + 1)) a = zeros (n + 1)).
  { unfold a. replace (Z.to_nat (n + 1)) with (length (zeros (n + 1))) by apply length_zeros.
    apply view_tolist_whole. }
  destruct (add_message_spec a msg Hmsg (zeros (n + 1)) 0)
    as (m' & Hrun & Hlen & _ & _ & Hfields).
  { rewrite length_zeros. cbn. lia. }
  { lia. }
  { rewrite Hvl. lia. }
  { intros j _. rewrite Hzeros. apply getbit_zeros. }
  rewrite Z.add_0_l in Hrun. rewrite length_zeros in Hlen.
  assert (Hq : 0 <= (message_bits msg + 7) / 8 <= n + 1) by (Z.div_mod_to_equations; lia).
  assert (Hbuf : Serializer.buffer (SS m' a (message_bits msg))
                 = take (Z.to_nat ((message_bits msg + 7) / 8)) (view_tolist m' a)).
  { apply buffer_spec; [cbn; lia | rewrite Hvl; exact Hq]. }
  exists (SS m' a (message_bits msg)). split; [|split; [reflexivity|split]].
  - unfold on_new. rewrite new_spec by lia. cbn [rbind]. fold a. rewrite Hrun. reflexivity.
  - rewrite Hbuf. unfold zlen. rewrite length_take, length_view_tolist by (cbn; lia).
    unfold a. cbn [size]. lia.
  - rewrite Hbuf. apply fields_at_take; try assumption; try lia.
    Z.div_mod_to_equations; lia.
Qed.

(** X21: a message of several fields comes back field by field.  For any
    sequence of fields, each an unsigned integer of [w >= 1] bits, a
    signed integer of [w >= 2] bits or a 16/32/64-bit float, with a value
    that the kind represents, and a fresh serializer of at least as many
    bytes as the fields have bits: writing the fields one after the other
    with the unaligned methods succeeds, moves the cursor by the sum of
    the widths and leaves a buffer of that many bits rounded up to whole
    bytes; fetching the same kinds in the same order from the buffer
    returns the values.  A field starts at whatever bit the one before
    ends on, and no write disturbs what was written before it. *)
Theorem message_round_trip (msg : list field) (n : Z) :
  Forall field_representable msg -> message_bits msg <= 8 * n ->
  exists s',
    on_new n (add_message msg) = Ok (Ok tt, s')
    /\ Serializer.current_bit_length s' = message_bits msg
    /\ zlen (Serializer.buffer s') = (message_bits msg + 7) / 8
    /\ rbind (Deserializer.new [Serializer.buffer s'])
             (fun d => fst (fetch_message (map field_kind msg) d)) = Ok msg.
Proof.
  intros Hmsg Hn.
  destruct (message_on_new msg n Hmsg Hn) as (s' & Hrun & Hcur & Hlen & Hfields).
  exists s'. split; [exact Hrun|]. split; [exact Hcur|]. split; [exact Hlen|].
  rewrite deserializer_new_ok. cbn [rbind].
  rewrite (fetch_message_spec _ msg Hmsg 0 ltac:(lia)); [reflexivity| |].
  - apply addressable_inside. cbn [ZeroExtendingBuffer.new ZeroExtendingBuffer._buf].
    rewrite Hlen, Z.add_0_l. lia.
  - cbn [ZeroExtendingBuffer.new ZeroExtendingBuffer._buf]. exact Hfields.
Qed.

Lemma message_round_trip_witness :
  exists s',
    on_new 5
      (add_message [existT (Unsigned 3) 5; existT (Signed 12) (-1234);
                    existT (Float struct.fmt_e) float_1_0; existT (Unsigned 1) 1])
    = Ok (Ok tt, s')
    /\ Serializer.current_bit_length s' = 32
    /\ zlen (Serializer.buffer s') = (32 + 7) / 8
    /\ rbind (Deserializer.new [Serializer.buffer s'])
             (fun d => fst (fetch_message
                              [Unsigned 3; Signed 12; Float struct.fmt_e; Unsigned 1] d))
       = Ok [existT (Unsigned 3) 5; existT (Signed 12) (-1234);
             existT (Float struct.fmt_e) float_1_0; existT (Unsigned 1) 1].
Proof.
  apply (message_round_trip
           [existT (Unsigned 3) 5; existT (Signed 12) (-1234);
            existT (Float struct.fmt_e) float_1_0; existT (Unsigned 1) 1] 5).
  - constructor; [unfold field_representable; cbn [projT1 projT2 representable]; lia|].
    constructor; [unfold field_representable; cbn [projT1 projT2 representable]; lia|].
    constructor;
      [split; [discriminate | split; vm_compute; reflexivity]|].
    constructor; [unfold field_representable; cbn [projT1 projT2 representable]; lia|].
    constructor.
  - vm_compute. discriminate.
Defined.

(** X22: what [serialize] gives, [deserialize] takes back.  For an
    instance whose [_serialize_] writes a sequence of representable fields
    that fit its extent, [serialize] yields exactly one fragment, of the
    bits of the fields rounded up to whole bytes; [deserialize] of the
    class that reads the same kinds, given that fragment, returns the
    instance's values; and an exception raised by [_serialize_] comes out
    of [serialize]. *)
Theorem serialize_then_deserialize (full_name : string) (msg : list field) (extent_bytes : Z) :
  Forall field_representable msg -> message_bits msg <= 8 * extent_bytes ->
  (exists fragment,
     serialize (message_instance extent_bytes msg) = Ok [fragment]
     /\ zlen fragment = (message_bits msg + 7) / 8
     /\ zlen fragment <= extent_bytes
     /\ deserialize (message_class full_name (map field_kind msg)) [fragment] = Ok (Some msg))
  /\ (forall (obj : CompositeInstance) (e : exception) s s',
        Serializer.new (_EXTENT_BYTES_ obj) = Ok s ->
        _serialize_ obj s = (Raise e, s') ->
        serialize obj = Raise e).
Proof.
  intros Hmsg Hn. split.
  - destruct (message_on_new msg extent_bytes Hmsg Hn) as (s' & Hrun & Hcur & Hlen & Hfields).
    exists (Serializer.buffer s'). split; [|split; [exact Hlen|split]].
    + unfold serialize, message_instance. cbn [_EXTENT_BYTES_ _serialize_].
      unfold on_new in Hrun.
      destruct (Serializer.new extent_bytes) as [s|e]; cbn [rbind] in *; [|discriminate].
      injection Hrun as Hrun. rewrite Hrun. reflexivity.
    + rewrite Hlen. Z.div_mod_to_equations; lia.
    + unfold deserialize, message_class. cbn [_deserialize_ _MODEL_].
      rewrite deserializer_new_ok. cbn [rbind].
      rewrite (fetch_message_spec _ msg Hmsg 0 ltac:(lia)); [reflexivity| |].
      * apply addressable_inside. cbn [ZeroExtendingBuffer.new ZeroExtendingBuffer._buf].
        rewrite Hlen, Z.add_0_l. lia.
      * cbn [ZeroExtendingBuffer.new ZeroExtendingBuffer._buf]. exact Hfields.
  - intros obj e s s' Hnew Hser. unfold serialize. rewrite Hnew. cbn [rbind].
    rewrite Hser. reflexivity.
Qed.

Lemma serialize_then_deserialize_witness :
  exists fragment,
    serialize (message_instance 3 [existT (Unsigned 11) 1893; existT (Signed 5) (-7)])
    = Ok [fragment]
    /\ zlen fragment = (16 + 7) / 8
    /\ zlen fragment <= 3
    /\ deserialize (message_class "sample.Pair.1.0" [Unsigned 11; Signed 5]) [fragment]
       = Ok (Some [existT (Unsigned 11) 1893; existT (Signed 5) (-7)]).
Proof.
  destruct (serialize_then_deserialize "sample.Pair.1.0"
              [existT (Unsigned 11) 1893; existT (Signed 5) (-7)] 3) as [H _].
  - constructor; [unfold field_representable; cbn [projT1 projT2 representable]; lia|].
    constructor; [unfold field_representable; cbn [projT1 projT2 representable]; lia|].
    constructor.
  - vm_compute. discriminate.
  - exact H.
Defined.

(** ** Attributes by their DSDL names *)

Lemma suffixed_differs (name : string) : (name ++ "_")%string <> name.
Proof.
  intros H. apply (f_equal String.length) in H.
  rewrite String.app_length in H. cbn in H. lia.
Qed.

Lemma hasattr_lookup {V : Type} (obj : namespace V) (n : string) :
  hasattr obj n = match obj n with Some _ => true | None => false end.
Proof. unfold hasattr, getattr. destruct (obj n); reflexivity. Qed.

Lemma getattr_setattr_same {V : Type} (obj : namespace V) (n : string) (v : V) :
  getattr (setattr obj n v) n = Ok v.
Proof. unfold getattr, setattr. rewrite String.eqb_refl. reflexivity. Qed.

Lemma getattr_setattr_other {V : Type} (obj : namespace V) (n m : string) (v : V) :
  m <> n -> getattr (setattr obj n v) m = getattr obj m.
Proof.
  intros H. unfold getattr, setattr.
  destruct (String.eqb_spec m n); [contradiction | reflexivity].
Qed.

Lemma hasattr_setattr {V : Type} (obj : namespace V) (n m : string) (v : V) :
  hasattr obj n = true -> hasattr (setattr obj n v) m = hasattr obj m.
Proof.
  intros H. destruct (String.eqb_spec m n) as [-> | Hne].
  - rewrite H. unfold hasattr. rewrite getattr_setattr_same. reflexivity.
  - unfold hasattr. rewrite getattr_setattr_other by assumption. reflexivity.
Qed.

(** X23. An attribute assigned through its DSDL name is read back through
    the same name, and the assignment creates nothing: when the object has
    the attribute [name] or the attribute [name_], [set_attribute] succeeds,
    [get_attribute] of the same name then returns the value assigned, the
    object has the same attributes as before, every attribute other than
    [name] and [name_] keeps its value, and when the object has [name] the
    attribute [name_] keeps its value as well. *)
Theorem set_attribute_then_get {V : Type} (obj : namespace V) (name : string) (value : V) :
  hasattr obj name || hasattr obj (name ++ "_") = true ->
  exists obj',
    set_attribute obj name value = Ok obj' /\
    get_attribute obj' name = Ok value /\
    (forall n, hasattr obj' n = hasattr obj n) /\
    (forall n, n <> name -> n <> (name ++ "_")%string ->
               getattr obj' n = getattr obj n) /\
    (hasattr obj name = true ->
     getattr obj' (name ++ "_") = getattr obj (name ++ "_")).
Proof.
  intros H. unfold set_attribute.
  destruct (hasattr obj name) eqn:Hn; cbn [orb] in H.
  - exists (setattr obj name value). split; [reflexivity|].
    split; [|split; [|split]].
    + unfold get_attribute. rewrite getattr_setattr_same. reflexivity.
    + intros n. apply hasattr_setattr. exact Hn.
    + intros n H1 _. apply getattr_setattr_other. exact H1.
    + intros _. apply getattr_setattr_other. apply suffixed_differs.
  - rewrite H. exists (setattr obj (name ++ "_") value). split; [reflexivity|].
    split; [|split; [|split]].
    + unfold get_attribute.
      rewrite getattr_setattr_other
        by (intros E; exact (suffixed_differs name (eq_sym E))).
      rewrite hasattr_lookup in Hn. unfold getattr at 1.
      destruct (obj name); [discriminate|].
      apply getattr_setattr_same.
    + intros n. apply hasattr_setattr. exact H.
    + intros n _ H2. apply getattr_setattr_other. exact H2.
    + intros E. discriminate E.
Qed.

Lemma set_attribute_then_get_witness :
  hasattr sample_object "def" || hasattr sample_object ("def" ++ "_") = true /\
  exists obj',
    set_attribute sample_object "def" 7 = Ok obj' /\
    get_attribute obj' "def" = Ok 7 /\
    (forall n, hasattr obj' n = hasattr sample_object n) /\
    (forall n, n <> "def"%string -> n <> ("def" ++ "_")%string ->
               getattr obj' n = getattr sample_object n) /\
    (hasattr sample_object "def" = true ->
     getattr obj' ("def" ++ "_") = getattr sample_object ("def" ++ "_")).
Proof.
  split; [reflexivity|].
  apply (set_attribute_then_get sample_object "def" 7). reflexivity.
Defined.

(** X24. [get_attribute] and [set_attribute] accept the same names: both
    succeed when the object has the attribute [name] or the attribute
    [name_], [get_attribute] returning the value of [name] when there is
    one and of [name_] otherwise; when the object has neither, both raise
    [AttributeError], and [set_attribute] has bound nothing. *)
Theorem attribute_names_accepted {V : Type} (obj : namespace V) (name : string) (value : V) :
  (hasattr obj name || hasattr obj (name ++ "_") = true ->
   (exists obj', set_attribute obj name value = Ok obj') /\
   get_attribute obj name =
     (if hasattr obj name then getattr obj name else getattr obj (name ++ "_")) /\
   exists out, get_attribute obj name = Ok out) /\
  (hasattr obj name || hasattr obj (name ++ "_") = false ->
   set_attribute obj name value = Raise AttributeError /\
   get_attribute obj name = Raise AttributeError).
Proof.
  unfold set_attribute, get_attribute. rewrite !hasattr_lookup. unfold getattr.
  destruct (obj name) as [a|]; cbn [orb].
  - split; [|discriminate]. intros _. eauto.
  - destruct (obj (name ++ "_")%string) as [b|].
    + split; [|discriminate]. intros _. eauto.
    + split; [discriminate|]. intros _. split; reflexivity.
Qed.

Lemma attribute_names_accepted_witness :
  ((exists obj', set_attribute sample_object "def" 7 = Ok obj') /\
   get_attribute sample_object "def" =
     (if hasattr sample_object "def" then getattr sample_object "def"
      else getattr sample_object ("def" ++ "_")) /\
   exists out, get_attribute sample_object "def" = Ok out) /\
  (set_attribute sample_object "type" 7 = Raise AttributeError /\
   get_attribute sample_object "type" = Raise AttributeError).
Proof.
  split.
  - apply (proj1 (attribute_names_accepted sample_object "def" 7)). reflexivity.
  - apply (proj2 (attribute_names_accepted sample_object "type" 7)). reflexivity.
Defined.

(** ** Reading through a forked deserializer *)

Lemma read_bits_shift (c1 c2 : list byte) (o1 o2 w : Z) :
  0 <= o1 -> 0 <= o2 -> 0 <= w ->
  (forall j, 0 <= j < w -> getbit c1 (o1 + j) = getbit c2 (o2 + j)) ->
  read_bits c1 o1 w = read_bits c2 o2 w.
Proof.
  intros H1 H2 Hw H. apply Z.bits_inj'. intros j Hj.
  rewrite !testbit_read_bits by lia.
  destruct (Z.ltb_spec j w); [|reflexivity]. cbn [andb]. apply H. lia.
Qed.

Lemma stream_bits_shift (c1 c2 : list byte) (o1 o2 n : Z) :
  (forall j, 0 <= j < n -> getbit c1 (o1 + j) = getbit c2 (o2 + j)) ->
  stream_bits c1 o1 n = stream_bits c2 o2 n.
Proof.
  intros H. unfold stream_bits. apply map_ext_in. intros i Hi.
  apply in_seq in Hi. apply H. lia.
Qed.

Lemma itemsize_nonneg (d : dtype) : 0 <= itemsize d.
Proof. destruct d; cbn; lia. Qed.

(** The value of a fetch depends on the bits it covers and on nothing else. *)
Lemma fetch_value_shift (op : fetch_op) (c1 c2 : list byte) (o1 o2 : Z) :
  valid_arguments op -> 0 <= o1 -> 0 <= o2 ->
  (forall j, 0 <= j < fetched_bit_length op -> getbit c1 (o1 + j) = getbit c2 (o2 + j)) ->
  fetch_value op c1 o1 = fetch_value op c2 o2.
Proof.
  intros Hargs H1 H2 H.
  destruct op; cbn [valid_arguments fetched_bit_length fetch_value] in *;
    unfold stream_bytes, float_of_stream;
    try (rewrite (stream_bits_shift c1 c2 o1 o2) by assumption; reflexivity);
    try (rewrite (read_bits_shift c1 c2 o1 o2);
         [reflexivity | lia | lia | try (pose proof (itemsize_nonneg d)); try nia; cbn; lia
         | intros j Hj; apply H; cbn in Hj; lia ]).
  f_equal. pose proof (H 0 ltac:(lia)) as H0. rewrite !Z.add_0_r in H0. exact H0.
Qed.

Lemma getbit_drop (c : list byte) (l j : Z) :
  0 <= l -> 0 <= j -> getbit (drop (Z.to_nat l) c) j = getbit c (8 * l + j).
Proof.
  intros Hl Hj. unfold getbit.
  rewrite byte_at_drop by (try apply Z.div_pos; lia).
  replace ((8 * l + j) / 8) with (l + j / 8) by (Z.div_mod_to_equations; lia).
  replace ((8 * l + j) mod 8) with (j mod 8) by (Z.div_mod_to_equations; lia).
  reflexivity.
Qed.

(** The fork of a deserializer whose cursor is byte-aligned, over bytes it
    has left. *)
Lemma deserializer_fork_ok (b : ZeroExtendingBuffer.t) (o s : Z) :
  0 <= o -> o mod 8 = 0 ->
  0 <= s <= Deserializer.remaining_bit_length (DS b o) / 8 ->
  Deserializer.fork_bytes s (DS b o)
  = (Ok (DS {| ZeroExtendingBuffer._buf :=
                 take (Z.to_nat s) (drop (Z.to_nat (o / 8)) (ZeroExtendingBuffer._buf b)) |} 0),
     DS b o).
Proof.
  intros Ho Hal Hs.
  set (c := ZeroExtendingBuffer._buf b).
  assert (Hrem : Deserializer.remaining_bit_length (DS b o) = zlen c * 8 - o) by reflexivity.
  rewrite Hrem in Hs.
  unfold Deserializer.fork_bytes. mred. rewrite Hal. cbn [Z.eqb negb]. rewrite Hrem.
  assert (Hrm : (zlen c * 8 - o) mod 8 = 0) by (Z.div_mod_to_equations; lia).
  rewrite Hrm. cbn [Z.eqb].
  destruct (Z.ltb_spec ((zlen c * 8 - o) / 8) s); [lia|].
  unfold ZeroExtendingBuffer.fork_bytes. fold c.
  assert (Hb : o / 8 + s <= zlen c) by (Z.div_mod_to_equations; lia).
  assert (Hbo : 0 <= o / 8) by (apply Z.div_pos; lia).
  destruct (Z.gtb_spec (o / 8 + s) (zlen c)); [lia|].
  destruct (getslice_inside c (o / 8) (o / 8 + s)) as [Hsl Hlen]; [lia|lia|].
  rewrite Hlen. replace (o / 8 + s - o / 8) with s in * by lia.
  rewrite Z.eqb_refl. cbn [negb]. rewrite deserializer_new_ok.
  unfold Deserializer.remaining_bit_length, ZeroExtendingBuffer.bit_length.
  cbn [Deserializer._buf Deserializer._bit_offset ZeroExtendingBuffer.new ZeroExtendingBuffer._buf].
  rewrite Hlen. replace (s * 8 - 0) with (s * 8) by lia.
  rewrite Z.eqb_refl, Hsl. reflexivity.
Qed.

(** X25. What a fork reads is what its parent has at that place, cut off at
    the end of the fork: from a parent with a byte-aligned cursor [o] forked
    over [s] of its remaining bytes, any fetch made by the fork after it has
    consumed [k] bits, with the bytes of the parent up to the end of what is
    fetched at most [sys.maxsize], succeeds, moves the cursor of the fork by
    the length of what it fetches and returns what the fetch reads at bit
    [o + k] of the parent's data truncated to its first [o / 8 + s] bytes.
    When the fetch ends within the [s] bytes, that is the value the same
    fetch returns from the parent itself after [k] bits. *)
Theorem fork_fetch_as_parent (d : Deserializer.t) (s k : Z) (op : fetch_op) :
  0 <= Deserializer._bit_offset d ->
  Deserializer._bit_offset d mod 8 = 0 ->
  0 <= s <= Deserializer.remaining_bit_length d / 8 ->
  0 <= k ->
  valid_arguments op ->
  (requires_alignment op = true -> k mod 8 = 0) ->
  (Deserializer._bit_offset d + k + fetched_bit_length op + 7) / 8 <= ssize_max ->
  exists f,
    Deserializer.fork_bytes s d = (Ok f, d)
    /\ (Deserializer.skip_bits k ;; run_fetch op) f
       = (Ok (fetch_value op
                (take (Z.to_nat (Deserializer._bit_offset d / 8 + s))
                      (ZeroExtendingBuffer._buf (Deserializer._buf d)))
                (Deserializer._bit_offset d + k)),
          DS (Deserializer._buf f) (k + fetched_bit_length op))
    /\ (k + fetched_bit_length op <= 8 * s ->
        fst ((Deserializer.skip_bits k ;; run_fetch op) f)
        = fst ((Deserializer.skip_bits k ;; run_fetch op) d)).
Proof.
  destruct d as [b o]. cbn [Deserializer._buf Deserializer._bit_offset].
  intros Ho Hal Hs Hk Hargs Halign Hmax.
  set (c := ZeroExtendingBuffer._buf b).
  set (fb := {| ZeroExtendingBuffer._buf := take (Z.to_nat s) (drop (Z.to_nat (o / 8)) c) |}).
  assert (Hbo : 0 <= o / 8) by (apply Z.div_pos; lia).
  assert (Ho8 : 8 * (o / 8) = o) by (Z.div_mod_to_equations; lia).
  assert (Hskip : forall b' o', 0 <= o' <= o -> o' mod 8 = 0 ->
            (Deserializer.skip_bits k ;; run_fetch op) (DS b' o')
            = (Ok (fetch_value op (ZeroExtendingBuffer._buf b') (o' + k)),
               DS b' (o' + k + fetched_bit_length op))).
  { intros b' o' Ho' Hal'. unfold Deserializer.skip_bits, _ensure_cardinal, Deserializer.advance,
      bind, modify, ret, raise.
    destruct (Z.ltb_spec k 0); [lia|].
    cbn [Deserializer._buf Deserializer._bit_offset].
    apply run_fetch_stream; [lia | assumption | |].
    - intros Hr. specialize (Halign Hr). Z.div_mod_to_equations; lia.
    - apply addressable_small. Z.div_mod_to_equations; lia. }
  exists (DS fb 0). split; [apply deserializer_fork_ok; assumption|].
  cbn [Deserializer._buf].
  assert (Hbits : forall j, 0 <= j ->
            getbit (ZeroExtendingBuffer._buf fb) (0 + k + j)
            = getbit (take (Z.to_nat (o / 8 + s)) c) (o + k + j)).
  { intros j Hj. unfold fb. cbn [ZeroExtendingBuffer._buf].
    rewrite !getbit_take by lia. rewrite getbit_drop by lia. rewrite Ho8.
    replace (o + (0 + k + j)) with (o + k + j) by lia.
    destruct (Z.ltb_spec (0 + k + j) (8 * s)); destruct (Z.ltb_spec (o + k + j) (8 * (o / 8 + s)));
      try lia; reflexivity. }
  split.
  - rewrite Hskip by (lia || reflexivity). f_equal. f_equal.
    apply fetch_value_shift; [assumption | lia | lia |].
    intros j Hj. apply Hbits. lia.
  - intros Hin. rewrite !Hskip by (lia || reflexivity). cbn [fst]. f_equal.
    apply fetch_value_shift; [assumption | lia | lia |].
    intros j Hj. rewrite Hbits by lia. rewrite getbit_take by lia.
    destruct (Z.ltb_spec (o + k + j) (8 * (o / 8 + s))); [reflexivity | lia].
Qed.

Lemma fork_fetch_as_parent_witness :
  exists f,
    Deserializer.fork_bytes 3
      (DS {| ZeroExtendingBuffer._buf := [Byte.x01; Byte.x02; Byte.x03; Byte.x04; Byte.x05] |} 8)
    = (Ok f, DS {| ZeroExtendingBuffer._buf := [Byte.x01; Byte.x02; Byte.x03; Byte.x04; Byte.x05] |} 8)
    /\ (Deserializer.skip_bits 8 ;; run_fetch Fetch_aligned_u16) f
       = (Ok (FInt 1027), DS (Deserializer._buf f) 24)
    /\ fst ((Deserializer.skip_bits 8 ;; run_fetch Fetch_aligned_u16) f)
       = fst ((Deserializer.skip_bits 8 ;; run_fetch Fetch_aligned_u16)
                (DS {| ZeroExtendingBuffer._buf :=
                         [Byte.x01; Byte.x02; Byte.x03; Byte.x04; Byte.x05] |} 8)).
Proof.
  destruct (fork_fetch_as_parent
              (DS {| ZeroExtendingBuffer._buf :=
                       [Byte.x01; Byte.x02; Byte.x03; Byte.x04; Byte.x05] |} 8)
              3 8 Fetch_aligned_u16) as (f & Hfork & Hrun & Hsame).
  - cbn. lia.
  - reflexivity.
  - vm_compute. split; discriminate.
  - lia.
  - exact I.
  - intros _. reflexivity.
  - vm_compute. discriminate.
  - exists f. split; [exact Hfork|]. split; [exact Hrun|].
    apply Hsame. vm_compute. discriminate.
Defined.
